(** * vcHMM: a shallow embedding of the variant caller and its properties

    The development follows the pipeline of [vcHMM.py]:
    alignment normalisation ([get_cigar]), insertion coalescing and
    coordinate realignment ([del_duplicate_ins], [update_insertions],
    [update_startpos], [update_reads], [update_ref]), pile-ups
    ([get_pileup]), the 30-state transition matrix
    ([create_transition_matrix]), the emission matrix
    ([build_emissionmatrix]), the segmented Viterbi decoder ([viterbi]),
    the genotype resolver ([find_base_state]) and the two variant
    formatters ([create_variant_calling_output] of [vcHMM.py] and
    [create_varing_calling_output] of [variant_calling_output.py]).

    Conventions.  Python integers are [Z]; exact arithmetic on the
    probabilities of the transition matrix and on quality values is done
    in [Q]; the transcendental part of the program ([np.exp], [np.log],
    [np.log10], [np.power], [logsumexp]) is done on the type [fl] of
    extended reals, that is IEEE doubles with rounding idealised away:
    a finite value is a real number, and the special values [-inf],
    [+inf] and [nan] are kept because the control flow of the decoder
    depends on them.  Python exceptions are values of [pyerr]. *)

From Stdlib Require Import List ZArith QArith Qreduction String Ascii Bool.
From Stdlib Require Import Lia Lra Reals Qreals DecimalString.
Import ListNotations.

Set Implicit Arguments.

(* ================================================================== *)
(** * Python values: exceptions, indexing, slicing *)
(* ================================================================== *)

Module Py.

Inductive pyerr : Type :=
| IndexError   (* list / string index out of range *)
| ValueError   (* x is not in list *)
| TypeError    (* 'int' object is not subscriptable, str + int, -'-' *)
| UnboundLocalError.   (* a local variable read before assignment *)

Inductive result (A : Type) : Type :=
| Ok (a : A)
| Err (e : pyerr).

Arguments Ok {A} a.
Arguments Err {A} e.

Definition bind {A B} (m : result A) (k : A -> result B) : result B :=
  match m with
  | Ok a => k a
  | Err e => Err e
  end.

Definition pyerr_eqb (a b : pyerr) : bool :=
  match a, b with
  | IndexError, IndexError | ValueError, ValueError | TypeError, TypeError
  | UnboundLocalError, UnboundLocalError => true
  | _, _ => false
  end.

(** [l[k]] for an integer [k]: negative indices count from the end. *)
Definition get {A} (l : list A) (k : Z) : result A :=
  let n := Z.of_nat (List.length l) in
  if (0 <=? k)%Z then
    match nth_error l (Z.to_nat k) with
    | Some a => Ok a
    | None => Err IndexError
    end
  else if (0 <=? n + k)%Z then
    match nth_error l (Z.to_nat (n + k)) with
    | Some a => Ok a
    | None => Err IndexError
    end
  else Err IndexError.

(** [l[i]] for a loop index [i] of [range(n)]. *)
Definition at_ {A} (l : list A) (i : nat) : result A :=
  get l (Z.of_nat i).

(** The bound of a slice, clamped the way Python clamps it. *)
Definition clamp {A} (l : list A) (k : Z) : nat :=
  let n := Z.of_nat (List.length l) in
  if (k <? 0)%Z then Z.to_nat (Z.max (n + k) 0)
  else Z.to_nat (Z.min k n).

(** [l[k:]] *)
Definition slice_from {A} (l : list A) (k : Z) : list A :=
  skipn (clamp l k) l.

(** [l[:k]] *)
Definition slice_to {A} (l : list A) (k : Z) : list A :=
  firstn (clamp l k) l.

(** [k * [x]] and [k * 'c']: empty when [k <= 0]. *)
Definition times {A} (k : Z) (x : A) : list A :=
  repeat x (Z.to_nat k).

(** [s.count(c)] on a sequence of characters. *)
Definition count_char (c : ascii) (s : list ascii) : Z :=
  Z.of_nat (List.length (filter (Ascii.eqb c) s)).

(** [x in l] for strings. *)
Definition mem_string (x : string) (l : list string) : bool :=
  existsb (String.eqb x) l.

(** [str(i)] for a non-negative integer. *)
Definition str_of_nat (n : nat) : string :=
  NilEmpty.string_of_uint (Nat.to_uint n).

Definition chars (s : string) : list ascii := list_ascii_of_string s.

(** A list built by a loop whose body may raise. *)
Fixpoint mapM {A B} (f : A -> result B) (l : list A) : result (list B) :=
  match l with
  | [] => Ok []
  | a :: rest =>
      bind (f a) (fun b => bind (mapM f rest) (fun tl => Ok (b :: tl)))
  end.

(** [for i in range(n)] over the local variables [s]. *)
Definition loop {S} (body : S -> nat -> result S) (n : nat) (s : S) : result S :=
  fold_left (fun acc i => bind acc (fun s => body s i)) (seq 0 n) (Ok s).

End Py.

Import Py.

Declare Scope py_scope.
Delimit Scope py_scope with py.
Notation "x <- m ;; k" := (Py.bind m (fun x => k))
  (at level 61, m at next level, right associativity) : py_scope.

Definition gap : ascii := "-"%char.

(* ================================================================== *)
(** * Reads *)
(* ================================================================== *)

(** A quality value: the placeholder ['-'] put at gap positions, or a
    number (an integer from the alignment, a float after repair). *)
Inductive qual : Type :=
| QGap
| QVal (q : Q).

(** A read is the Python list
    [[start, name, sequence, cigartuples, mapping_quality, qualities]]. *)
Record read : Type := mkRead {
  r_start : Z;
  r_name  : string;
  r_seq   : list ascii;
  r_cigar : option (list (Z * Z));
  r_mapq  : Z;
  r_qual  : list qual
}.

(** An insertion event [[coordinate, length, read name]]. *)
Definition insertion : Type := (Z * Z * string)%type.

(* ================================================================== *)
(** * Alignment normaliser: [get_cigar] *)
(* ================================================================== *)

Module Normalizer.

Local Open Scope Z_scope.

(** The local variables of the loop over one read's operations. *)
Record cigar_state : Type := mkCS {
  cs_read : read;
  cs_soft_at_beginning : bool;
  cs_hard_at_beginning : bool;
  cs_same_read : bool;
  cs_nr_insertions : Z;
  cs_pos : Z;
  cs_insertions : list insertion
}.

Definition with_read (st : cigar_state) (r : read) : cigar_state :=
  mkCS r st.(cs_soft_at_beginning) st.(cs_hard_at_beginning) st.(cs_same_read)
       st.(cs_nr_insertions) st.(cs_pos) st.(cs_insertions).

Definition cigar_tail (c : option (list (Z * Z))) : option (list (Z * Z)) :=
  option_map (fun l => slice_from l 1) c.

Definition cigar_init (c : option (list (Z * Z))) : option (list (Z * Z)) :=
  option_map (fun l => slice_to l (-1)) c.

(** [insertions.append(...)] for an insertion operation of the current
    read, the first one at [start + pos], a later one at
    [start + pos - nr_insertions]. *)
Definition record_insertion (st : cigar_state) (len : Z) : cigar_state :=
  let r := st.(cs_read) in
  if st.(cs_same_read) then
    mkCS r st.(cs_soft_at_beginning) st.(cs_hard_at_beginning) false len st.(cs_pos)
         (st.(cs_insertions) ++ [(r.(r_start) + st.(cs_pos), len, r.(r_name))])
  else
    mkCS r st.(cs_soft_at_beginning) st.(cs_hard_at_beginning) false
         st.(cs_nr_insertions) st.(cs_pos)
         (st.(cs_insertions)
            ++ [(r.(r_start) + st.(cs_pos) - st.(cs_nr_insertions), len, r.(r_name))]).

(** The body of [for operation in read[3]], without the final
    [pos += operation[1]]. *)
Definition cigar_case (readnames : list string) (st : cigar_state) (op : Z * Z)
  : cigar_state :=
  let r := st.(cs_read) in
  let (kind, len) := op in
  if kind =? 4 then
    if st.(cs_soft_at_beginning) then
      mkCS (mkRead (r.(r_start) + len) r.(r_name) (slice_from r.(r_seq) len)
                   (cigar_tail r.(r_cigar)) r.(r_mapq) r.(r_qual))
           false st.(cs_hard_at_beginning) st.(cs_same_read)
           st.(cs_nr_insertions) st.(cs_pos) st.(cs_insertions)
    else
      with_read st (mkRead r.(r_start) r.(r_name) (slice_to r.(r_seq) (- len))
                           (cigar_init r.(r_cigar)) r.(r_mapq) r.(r_qual))
  else if kind =? 5 then
    if st.(cs_hard_at_beginning) then
      mkCS (mkRead r.(r_start) r.(r_name) r.(r_seq)
                   (cigar_tail r.(r_cigar)) r.(r_mapq) r.(r_qual))
           st.(cs_soft_at_beginning) false st.(cs_same_read)
           st.(cs_nr_insertions) st.(cs_pos) st.(cs_insertions)
    else
      with_read st (mkRead r.(r_start) r.(r_name) r.(r_seq)
                           (cigar_init r.(r_cigar)) r.(r_mapq) r.(r_qual))
  else if kind =? 1 then
    if negb (mem_string r.(r_name) readnames) then
      record_insertion st len
    else
      let newname := (r.(r_name) ++ "b")%string in
      record_insertion
        (with_read st (mkRead r.(r_start) newname r.(r_seq) r.(r_cigar)
                              r.(r_mapq) r.(r_qual)))
        len
  else if kind =? 2 then
    let pos := st.(cs_pos) in
    let gaps_before := count_char gap (slice_to r.(r_seq) pos) in
    let updated_read :=
      slice_to r.(r_seq) (pos + gaps_before) ++ times len gap
        ++ slice_from r.(r_seq) (pos + gaps_before) in
    let updated_qual :=
      slice_to r.(r_qual) (pos + gaps_before) ++ times len QGap
        ++ slice_from r.(r_qual) (pos + gaps_before) in
    with_read st (mkRead r.(r_start) r.(r_name) updated_read r.(r_cigar)
                         r.(r_mapq) updated_qual)
  else st.

Definition cigar_step (readnames : list string) (st : cigar_state) (op : Z * Z)
  : cigar_state :=
  let st' := cigar_case readnames st op in
  mkCS st'.(cs_read) st'.(cs_soft_at_beginning) st'.(cs_hard_at_beginning)
       st'.(cs_same_read) st'.(cs_nr_insertions) (st'.(cs_pos) + snd op)
       st'.(cs_insertions).

(** One iteration of [for read in sam]: [None] when the read has no
    alignment operations and is skipped, otherwise the normalised read
    and the insertion list extended by its events.  The loop runs over
    the operation list the read had on entry. *)
Definition get_cigar_read (readnames : list string) (insertions : list insertion)
  (r : read) : option (read * list insertion) :=
  match r.(r_cigar) with
  | None => None
  | Some ops =>
      let st := fold_left (cigar_step readnames)
                  ops (mkCS r true true true 0 0 insertions) in
      Some (st.(cs_read), st.(cs_insertions))
  end.

Fixpoint get_cigar_loop (sam : list read)
  (newsam : list read) (insertions : list insertion) (readnames : list string)
  : list read * list insertion :=
  match sam with
  | [] => (newsam, insertions)
  | r :: rest =>
      match get_cigar_read readnames insertions r with
      | None => get_cigar_loop rest newsam insertions readnames
      | Some (r', ins') =>
          get_cigar_loop rest (newsam ++ [r']) ins' (readnames ++ [r'.(r_name)])
      end
  end.

Definition get_cigar (sam : list read) : list read * list insertion :=
  get_cigar_loop sam [] [] [].

End Normalizer.

(* ================================================================== *)
(** * Insertion coalescer and coordinate realigner *)
(* ================================================================== *)

Module Realigner.

Local Open Scope Z_scope.

(** A Python [dict] from [(coordinate, length)] to the list of
    contributing read names, in insertion order. *)
Definition ins_dict : Type := list ((Z * Z) * list string).

Definition key_eqb (a b : Z * Z) : bool :=
  (fst a =? fst b) && (snd a =? snd b).

Definition keys (d : ins_dict) : list (Z * Z) := map fst d.

Fixpoint dict_get (d : ins_dict) (k : Z * Z) : option (list string) :=
  match d with
  | [] => None
  | (k', v) :: rest => if key_eqb k' k then Some v else dict_get rest k
  end.

(** [d[k] = v]: an existing key keeps its place, a new key goes last. *)
Fixpoint dict_set (d : ins_dict) (k : Z * Z) (v : list string) : ins_dict :=
  match d with
  | [] => [(k, v)]
  | (k', v') :: rest =>
      if key_eqb k' k then (k', v) :: rest else (k', v') :: dict_set rest k v
  end.

(** The order of [sorted] on the lists [[coordinate, length, name]]. *)
Definition ins_leb (a b : insertion) : bool :=
  let '(c1, l1, n1) := a in
  let '(c2, l2, n2) := b in
  if c1 <? c2 then true
  else if c2 <? c1 then false
  else if l1 <? l2 then true
  else if l2 <? l1 then false
  else String.leb n1 n2.

Fixpoint ins_insert (x : insertion) (l : list insertion) : list insertion :=
  match l with
  | [] => [x]
  | y :: rest => if ins_leb x y then x :: l else y :: ins_insert x rest
  end.

Definition sorted (l : list insertion) : list insertion :=
  fold_right ins_insert [] l.

Definition del_duplicate_ins (insertions : list insertion) : ins_dict :=
  fold_left
    (fun unique_inserts (insert : insertion) =>
       let '(c, l, name) := insert in
       match dict_get unique_inserts (c, l) with
       | Some names => dict_set unique_inserts (c, l) (names ++ [name])
       | None => dict_set unique_inserts (c, l) [name]
       end)
    (sorted insertions) [].

(** The loop of [update_insertions] with its accumulator [temp]. *)
Fixpoint update_insertions_loop (items : ins_dict) (temp : Z) (upd_inserts : ins_dict)
  : ins_dict :=
  match items with
  | [] => upd_inserts
  | ((c, l), names) :: rest =>
      update_insertions_loop rest (temp + l) (dict_set upd_inserts (c + temp, l) names)
  end.

Definition update_insertions (insertions : ins_dict) : ins_dict :=
  update_insertions_loop insertions 0 [].

(** The inner loop of [update_startpos] for one read. *)
Definition update_startpos_read (insertions : ins_dict) (r : read) : read :=
  fold_left
    (fun (r : read) (insert : Z * Z) =>
       if r.(r_start) >? fst insert then
         mkRead (r.(r_start) + snd insert) r.(r_name) r.(r_seq) r.(r_cigar)
                r.(r_mapq) r.(r_qual)
       else r)
    (keys insertions) r.

Definition update_startpos (sam : list read) (insertions : ins_dict) : list read :=
  map (update_startpos_read insertions) sam.

Definition update_reads_read (insertions : ins_dict) (r : read) : read :=
  fold_left
    (fun (r : read) (item : (Z * Z) * list string) =>
       let '(insert, names) := item in
       if negb (mem_string r.(r_name) names)
          && (fst insert >=? r.(r_start))
          && (fst insert - r.(r_start) <=? Z.of_nat (List.length r.(r_seq)))
       then
         let off := fst insert - r.(r_start) in
         let gaps_before := count_char gap (slice_to r.(r_seq) off) in
         let gapped_read :=
           slice_to r.(r_seq) (off + gaps_before) ++ times (snd insert) gap
             ++ slice_from r.(r_seq) (off + gaps_before) in
         let changed_qual :=
           slice_to r.(r_qual) (off + gaps_before) ++ times (snd insert) QGap
             ++ slice_from r.(r_qual) (off + gaps_before) in
         mkRead r.(r_start) r.(r_name) gapped_read r.(r_cigar) r.(r_mapq) changed_qual
       else r)
    insertions r.

Definition update_reads (sam : list read) (insertions : ins_dict) : list read :=
  map (update_reads_read insertions) sam.

Definition update_ref (ref_seq : list ascii) (insertions : ins_dict) : list ascii :=
  fold_left
    (fun ref_seq (insert : Z * Z) =>
       slice_to ref_seq (fst insert) ++ times (snd insert) gap
         ++ slice_from ref_seq (fst insert))
    (keys insertions) ref_seq.

(** [get_pileup]: bases, qualities and mapping qualities of the reads
    that cover [pileupposition]. *)
Fixpoint get_pileup (samfile : list read) (pileupposition : Z)
  : result (list ascii * list qual * list Z) :=
  match samfile with
  | [] => Ok ([], [], [])
  | r :: rest =>
      if (r.(r_start) <=? pileupposition)
         && (r.(r_start) + Z.of_nat (List.length r.(r_seq)) >? pileupposition)
      then
        Py.bind (Py.get r.(r_seq) (pileupposition - r.(r_start))) (fun b =>
        Py.bind (Py.get r.(r_qual) (pileupposition - r.(r_start))) (fun q =>
        Py.bind (get_pileup rest pileupposition) (fun '(bases, qualities, mapqs) =>
        Ok (b :: bases, q :: qualities, r.(r_mapq) :: mapqs))))
      else get_pileup rest pileupposition
  end.

(** The claim's wording of the start-position update, kept apart from
    the code: walking the events in order, an event whose effective
    coordinate is strictly below the running start offset adds its
    length to it. *)
Fixpoint shifted_start (events : list (Z * Z)) (start : Z) : Z :=
  match events with
  | [] => start
  | (coord, len) :: rest =>
      if coord <? start then shifted_start rest (start + len)
      else shifted_start rest start
  end.

(** The claim's wording of the effective coordinates: the original
    coordinate plus the lengths of the events before it. *)
Fixpoint effective_keys (events : list (Z * Z)) (before : Z) : list (Z * Z) :=
  match events with
  | [] => []
  | (coord, len) :: rest => (coord + before, len) :: effective_keys rest (before + len)
  end.

(** Strictly ascending [(coordinate, length)] keys. *)
Definition key_lt (a b : Z * Z) : Prop :=
  fst a < fst b \/ (fst a = fst b /\ snd a < snd b).

Fixpoint ascending (l : list (Z * Z)) : Prop :=
  match l with
  | [] => True
  | a :: rest =>
      match rest with
      | [] => True
      | b :: _ => key_lt a b /\ ascending rest
      end
  end.

End Realigner.

(* ================================================================== *)
(** * Transition matrix builder *)
(* ================================================================== *)

Module Transition.

Local Open Scope Q_scope.

(** [row[i] = x] on a list that is long enough. *)
Fixpoint set_at {A} (l : list A) (i : nat) (x : A) : list A :=
  match l, i with
  | [], _ => []
  | _ :: rest, O => x :: rest
  | a :: rest, S i' => a :: set_at rest i' x
  end.

(** [for i in idxs: row[i] = x] *)
Definition set_all {A} (l : list A) (idxs : list nat) (x : A) : list A :=
  fold_left (fun l i => set_at l i x) idxs l.

Definition create_row_transition_matrix (v : list Q) (hetrate : Q) : result (list Q) :=
  let m := 30%nat in
  let row := repeat (-1) m in
  Py.bind (at_ v 3) (fun v3 =>
  let row := set_at row 29 (v3 * hetrate / 32) in
  let r29 := nth 29 row 0 in
  Py.bind (at_ v 0) (fun v0 =>
  let row := set_at row 0 (v0 * (1 - hetrate) * (1 - r29)) in
  Py.bind (at_ v 1) (fun v1 =>
  let row := set_all row (seq 1 3) (v1 * (1 - hetrate) / 3 * (1 - r29)) in
  let row := set_all row (seq 4 3) ((v0 + v1 / 3) * hetrate / 4 * (1 - r29)) in
  Py.bind (at_ v 2) (fun v2 =>
  let row := set_at row 7 ((v0 + v2) * hetrate / 4 * (1 - r29)) in
  let row := set_all row [8; 9; 11]%nat (v1 * hetrate / 6 * (1 - r29)) in
  let row := set_all row [10; 12; 13]%nat ((v1 / 3 + v2) * hetrate / 4 * (1 - r29)) in
  let row := set_at row 14 (v2 * (1 - hetrate) * (1 - r29)) in
  let row := set_all row (seq 15 4) (v3 * (1 - hetrate) / 4 * (1 - r29)) in
  let row := set_all row [19; 20; 21; 23; 24; 26]%nat (v3 * hetrate / 8 * (1 - r29)) in
  let row := set_all row [22; 25; 27; 28]%nat (v3 * hetrate / 16 * (1 - r29)) in
  Ok row)))).

(** The rows of states 7, 10, 12, 13: the mean of rows 1 and 14. *)
Definition mean_row (row1 row14 : list Q) : result (list Q) :=
  mapM (fun j =>
          Py.bind (at_ row1 j) (fun a =>
          Py.bind (at_ row14 j) (fun b => Ok ((a + b) / 2))))
       (seq 0 (List.length row1)).

Definition create_transition_matrix (pre_transition_matrix : list (list Q)) (hetrate : Q)
  : result (list (list Q)) :=
  let m := 30%nat in
  let tm : list (list Q) := repeat [] m in
  Py.bind (at_ pre_transition_matrix 0) (fun p0 =>
  Py.bind (create_row_transition_matrix p0 hetrate) (fun row0 =>
  let tm := set_at tm 0 row0 in
  Py.bind (at_ pre_transition_matrix 1) (fun p1 =>
  Py.bind (create_row_transition_matrix p1 hetrate) (fun row1 =>
  let tm := set_at tm 1 row1 in
  let tm := set_all tm [2; 3; 4; 5; 6; 8; 9; 11]%nat row1 in
  Py.bind (at_ pre_transition_matrix 2) (fun p2 =>
  Py.bind (create_row_transition_matrix p2 hetrate) (fun row14 =>
  let tm := set_at tm 14 row14 in
  Py.bind (mean_row row1 row14) (fun mean =>
  let tm := set_all tm [7; 10; 12; 13]%nat mean in
  Py.bind (at_ pre_transition_matrix 3) (fun p3 =>
  Py.bind (create_row_transition_matrix p3 hetrate) (fun row15 =>
  let tm := set_at tm 15 row15 in
  let tm := set_all tm (seq 16 13) row15 in
  let tm := set_at tm 29 (repeat (1 / 30) m) in
  Ok tm))))))))).

Definition sumQ (l : list Q) : Q := fold_right Qplus 0 l.

(** The row that [create_row_transition_matrix] builds from the class
    probabilities [a], [b], [c], [d], entry by entry. *)
Definition row_entries (a b c d h : Q) : list Q :=
  let r := d * h / 32 in
  let snp := b * (1 - h) / 3 * (1 - r) in
  let het_ref := (a + b / 3) * h / 4 * (1 - r) in
  let het_snp := b * h / 6 * (1 - r) in
  let het_del := (b / 3 + c) * h / 4 * (1 - r) in
  let ins := d * (1 - h) / 4 * (1 - r) in
  let ins8 := d * h / 8 * (1 - r) in
  let ins16 := d * h / 16 * (1 - r) in
  [ a * (1 - h) * (1 - r); snp; snp; snp; het_ref; het_ref; het_ref;
    (a + c) * h / 4 * (1 - r); het_snp; het_snp; het_del; het_snp; het_del; het_del;
    c * (1 - h) * (1 - r); ins; ins; ins; ins; ins8; ins8; ins8; ins16; ins8; ins8;
    ins16; ins8; ins16; ins16; r ].

(** A row of the class matrix as a tuple, the row built from it, and
    the entry-wise mean of two rows. *)
Definition class_row (p : Q * Q * Q * Q) : list Q :=
  let '(a, b, c, d) := p in [a; b; c; d].

Definition row_of (h : Q) (p : Q * Q * Q * Q) : list Q :=
  let '(a, b, c, d) := p in row_entries a b c d h.

Definition mean_of_rows (row1 row14 : list Q) : list Q :=
  map (fun q => (fst q + snd q) / 2) (combine row1 row14).

(** The two parameter sets of [main]. *)
Definition pre_transition_matrix_simulated : list (list Q) :=
  [ [988 # 1000; 8 # 1000; 2 # 1000; 2 # 1000];
    [53 # 100; 45 # 100; 1 # 100; 1 # 100];
    [70 # 100; 15 # 100; 15 # 100; 0];
    [70 # 100; 15 # 100; 0; 15 # 100] ].

Definition hetrate_simulated : Q := 1 # 100.

End Transition.

(* ================================================================== *)
(** * Floating-point values with rounding idealised away *)
(* ================================================================== *)

Module Float.

Local Open Scope R_scope.

Inductive fl : Type :=
| NaN
| NInf
| PInf
| Fin (r : R).

Inductive sgn : Type := Neg | Zero | Pos.

Definition Rsgn (r : R) : sgn :=
  match total_order_T r 0 with
  | inleft (left _) => Neg
  | inleft (right _) => Zero
  | inright _ => Pos
  end.

Definition Rleb (a b : R) : bool := if Rle_dec a b then true else false.
Definition Reqb (a b : R) : bool := if Req_dec_T a b then true else false.

Definition fneg (a : fl) : fl :=
  match a with
  | NaN => NaN
  | NInf => PInf
  | PInf => NInf
  | Fin r => Fin (- r)
  end.

Definition fadd (a b : fl) : fl :=
  match a, b with
  | NaN, _ | _, NaN => NaN
  | PInf, NInf | NInf, PInf => NaN
  | PInf, _ | _, PInf => PInf
  | NInf, _ | _, NInf => NInf
  | Fin x, Fin y => Fin (x + y)
  end.

Definition fsub (a b : fl) : fl := fadd a (fneg b).

(** An infinity of the sign of [s], the product [inf * 0] being [nan]. *)
Definition inf_of (s : sgn) : fl :=
  match s with
  | Neg => NInf
  | Zero => NaN
  | Pos => PInf
  end.

Definition sgn_neg (s : sgn) : sgn :=
  match s with
  | Neg => Pos
  | Zero => Zero
  | Pos => Neg
  end.

Definition fmul (a b : fl) : fl :=
  match a, b with
  | NaN, _ | _, NaN => NaN
  | Fin x, Fin y => Fin (x * y)
  | PInf, Fin y | Fin y, PInf => inf_of (Rsgn y)
  | NInf, Fin y | Fin y, NInf => inf_of (sgn_neg (Rsgn y))
  | PInf, PInf | NInf, NInf => PInf
  | PInf, NInf | NInf, PInf => NInf
  end.

(** Division as on [np.float64]: a zero divisor gives an infinity or,
    for [0/0], [nan] (with a warning, not an exception).  Zeros carry
    no sign here. *)
Definition fdiv (a b : fl) : fl :=
  match a, b with
  | NaN, _ | _, NaN => NaN
  | Fin x, Fin y =>
      match Rsgn y with
      | Zero => inf_of (Rsgn x)
      | _ => Fin (x / y)
      end
  | Fin _, PInf | Fin _, NInf => Fin 0
  | PInf, Fin y =>
      match Rsgn y with
      | Neg => NInf
      | _ => PInf
      end
  | NInf, Fin y =>
      match Rsgn y with
      | Neg => PInf
      | _ => NInf
      end
  | _, _ => NaN
  end.

(** [np.exp] *)
Definition fexp (a : fl) : fl :=
  match a with
  | NaN => NaN
  | NInf => Fin 0
  | PInf => PInf
  | Fin r => Fin (exp r)
  end.

(** [np.log] *)
Definition flog (a : fl) : fl :=
  match a with
  | NaN | NInf => NaN
  | PInf => PInf
  | Fin r =>
      match Rsgn r with
      | Neg => NaN
      | Zero => NInf
      | Pos => Fin (ln r)
      end
  end.

(** [np.log10] *)
Definition flog10 (a : fl) : fl :=
  match a with
  | NaN | NInf => NaN
  | PInf => PInf
  | Fin r =>
      match Rsgn r with
      | Neg => NaN
      | Zero => NInf
      | Pos => Fin (ln r / ln 10)
      end
  end.

(** [np.power(10, x)] *)
Definition fpow10 (a : fl) : fl :=
  match a with
  | NaN => NaN
  | NInf => Fin 0
  | PInf => PInf
  | Fin r => Fin (Rpower 10 r)
  end.

(** [==] on floats: [nan] equals nothing. *)
Definition feqb (a b : fl) : bool :=
  match a, b with
  | NInf, NInf | PInf, PInf => true
  | Fin x, Fin y => Reqb x y
  | _, _ => false
  end.

(** The larger of two values, [nan] if either is [nan]. *)
Definition fmax2 (a b : fl) : fl :=
  match a, b with
  | NaN, _ | _, NaN => NaN
  | PInf, _ | _, PInf => PInf
  | NInf, x | x, NInf => x
  | Fin x, Fin y => if Rleb x y then Fin y else Fin x
  end.

(** [np.max(l)]: [nan] as soon as one entry is [nan]; an empty list
    raises [ValueError]. *)
Definition np_max (l : list fl) : result fl :=
  match l with
  | [] => Err ValueError
  | x :: rest => Ok (fold_left fmax2 rest x)
  end.

(** [l.index(x)]: the first position holding a value equal to [x]. *)
Fixpoint index (l : list fl) (x : fl) : result nat :=
  match l with
  | [] => Err ValueError
  | y :: rest =>
      if feqb y x then Ok O
      else Py.bind (index rest x) (fun k => Ok (S k))
  end.

(** [l.index(np.max(l))] *)
Definition argmax (l : list fl) : result nat :=
  Py.bind (np_max l) (fun m => index l m).

(** [sum = 0; for t in l: sum = sum + t] *)
Definition fsum (l : list fl) : fl := fold_left fadd l (Fin 0).

(** [scipy.special.logsumexp]: the logarithm of the sum of the
    exponentials of the entries (the library computes this value after
    shifting by the largest entry). *)
Definition logsumexp (l : list fl) : fl := flog (fsum (map fexp l)).

(** A value that is [-inf] or [nan]. *)
Definition low (x : fl) : Prop := x = NInf \/ x = NaN.

(** The value of a finite float, and the exponential of a finite or
    [-inf] log-probability. *)
Definition val (x : fl) : R :=
  match x with
  | Fin r => r
  | _ => 0
  end.

Definition expo (x : fl) : R :=
  match x with
  | Fin e => exp e
  | _ => 0
  end.

Definition is_nan (a : fl) : bool :=
  match a with
  | NaN => true
  | _ => false
  end.

End Float.

Import Float.

(* ================================================================== *)
(** * Emission matrix builder *)
(* ================================================================== *)

(** An entry of an emission column: the string ["NaN"] or a number. *)
Inductive emis : Type :=
| ENaN
| EVal (x : fl).

(** A column of the emission matrix: the no-data sentinel [-1] or a
    list of entries. *)
Inductive ecol : Type :=
| ESent
| ECol (v : list emis).

Module Emission.

Definition genotype : Type := (ascii * ascii)%type.

Definition g (a b : string) : genotype :=
  (match a with String c _ => c | EmptyString => gap end,
   match b with String c _ => c | EmptyString => gap end).

Definition vector_A : list genotype :=
  [g "A" "A"; g "C" "C"; g "G" "G"; g "T" "T"; g "A" "C"; g "A" "G"; g "A" "T";
   g "A" "-"; g "C" "G"; g "C" "T"; g "C" "-"; g "G" "T"; g "G" "-"; g "T" "-";
   g "-" "-"].
Definition vector_C : list genotype :=
  [g "C" "C"; g "A" "A"; g "G" "G"; g "T" "T"; g "A" "C"; g "C" "G"; g "C" "T";
   g "C" "-"; g "A" "G"; g "A" "T"; g "A" "-"; g "G" "T"; g "G" "-"; g "T" "-";
   g "-" "-"].
Definition vector_G : list genotype :=
  [g "G" "G"; g "A" "A"; g "C" "C"; g "T" "T"; g "A" "G"; g "C" "G"; g "G" "T";
   g "G" "-"; g "A" "C"; g "A" "T"; g "A" "-"; g "C" "T"; g "C" "-"; g "T" "-";
   g "-" "-"].
Definition vector_T : list genotype :=
  [g "T" "T"; g "A" "A"; g "C" "C"; g "G" "G"; g "A" "T"; g "C" "T"; g "G" "T";
   g "T" "-"; g "A" "C"; g "A" "G"; g "A" "-"; g "C" "G"; g "C" "-"; g "G" "-";
   g "-" "-"].

Definition genotype_eqb (a b : genotype) : bool :=
  Ascii.eqb (fst a) (fst b) && Ascii.eqb (snd a) (snd b).

(** [==] on quality values: a number never equals the placeholder. *)
Definition qual_eqb (a b : qual) : bool :=
  match a, b with
  | QGap, QGap => true
  | QVal x, QVal y => Qeq_bool x y
  | _, _ => false
  end.

Definition is_gap_qual (q : qual) : bool :=
  match q with
  | QGap => true
  | QVal _ => false
  end.

(** [all(elem == pileup_qual[0] for elem in pileup_qual)] *)
Definition all_equal_first (pileup_qual : list qual) : bool :=
  match pileup_qual with
  | [] => true
  | q0 :: _ => forallb (fun elem => qual_eqb elem q0) pileup_qual
  end.

(** The truth value of a list: it is non-empty. *)
Definition truthy {A} (l : list A) : bool :=
  match l with
  | [] => false
  | _ :: _ => true
  end.

(** [for y in range(len(pileup_qual)): pileup_qual[y] = mapq_list[y] / 4] *)
Fixpoint from_mapq (pileup_qual : list qual) (mapq_list : list Z) : result (list qual) :=
  match pileup_qual, mapq_list with
  | [], _ => Ok []
  | _ :: qs, m :: ms =>
      Py.bind (from_mapq qs ms) (fun tl => Ok (QVal (inject_Z m / 4) :: tl))
  | _ :: _, [] => Err IndexError
  end.

(** The two accumulators of the mean: how many qualities are numbers,
    and their sum. *)
Definition tempt_counter (pileup_qual : list qual) : Z :=
  Z.of_nat (List.length (filter (fun q => negb (is_gap_qual q)) pileup_qual)).

Definition temp_val (pileup_qual : list qual) : Q :=
  fold_left (fun acc q => match q with QGap => acc | QVal x => acc + x end)%Q
            pileup_qual 0%Q.

Definition fill_mean (pileup_qual : list qual) : list qual :=
  let mean := (temp_val pileup_qual / inject_Z (tempt_counter pileup_qual))%Q in
  map (fun q => match q with QGap => QVal mean | QVal x => QVal x end) pileup_qual.

(** The quality repair at the head of the column loop.  The first test
    is the one the program makes: every quality equals the first one,
    and the list comprehension that follows [and] is a non-empty list. *)
Definition repair_quality (pileup_qual : list qual) (mapq_list : list Z)
  : result (list qual) :=
  if all_equal_first pileup_qual
     && truthy (map (fun q => qual_eqb q QGap) pileup_qual)
  then from_mapq pileup_qual mapq_list
  else if existsb is_gap_qual pileup_qual
  then Ok (fill_mean pileup_qual)
  else Ok pileup_qual.

(** What the comments of the program and the specification describe:
    the mapping-quality branch is taken when every quality is the gap
    placeholder. *)
Definition repair_quality_spec (pileup_qual : list qual) (mapq_list : list Z)
  : result (list qual) :=
  if forallb is_gap_qual pileup_qual
  then from_mapq pileup_qual mapq_list
  else if existsb is_gap_qual pileup_qual
  then Ok (fill_mean pileup_qual)
  else Ok pileup_qual.

Definition gap_count (pileup : list ascii) : Z := count_char gap pileup.

(** [gap_counter >= len(pileup) * 0.8] *)
Definition mostly_gaps (pileup : list ascii) : bool :=
  Qle_bool (inject_Z (Z.of_nat (List.length pileup)) * (8 # 10))
           (inject_Z (gap_count pileup)).

(** The contribution of one pile-up base to the log-emission of the
    genotype [(a, b)]. *)
Definition base_term (gt : genotype) (x : ascii) (q : qual) : result fl :=
  let (a, b) := gt in
  match q with
  | QGap => Err TypeError
  | QVal qv =>
      let e := fdiv (fneg (Fin (Q2R qv))) (Fin 10) in
      if Ascii.eqb a x && Ascii.eqb b x then
        let temp_pow := fpow10 e in
        Ok (flog10 (fsub (Fin 1) temp_pow))
      else if negb (Ascii.eqb x a) && negb (Ascii.eqb x b) then
        Ok (fadd e (flog10 (Fin (1 / 4))))
      else
        let temp_pow := fpow10 e in
        Ok (flog10 (fadd (fmul (Fin (1 / 2)) (fsub (Fin 1) temp_pow))
                         (fmul (Fin (1 / 8)) temp_pow)))
  end.

(** [for subi in range(len(pileup))]: the running [temp_value]. *)
Fixpoint pileup_loop (gt : genotype) (pileup : list ascii) (pileup_qual : list qual)
  (temp_value : fl) : result fl :=
  match pileup with
  | [] => Ok temp_value
  | x :: xs =>
      match pileup_qual with
      | [] => Err IndexError
      | q :: qs =>
          Py.bind (base_term gt x q) (fun temp =>
          pileup_loop gt xs qs (fadd temp_value temp))
      end
  end.

(** One entry of a column.  [filt] is the genotype the two filters look
    at, [cas] the one the three cases look at. *)
Definition emission_entry (pileup : list ascii) (pileup_qual : list qual)
  (filt cas : genotype) : result emis :=
  if genotype_eqb filt (gap, gap) && mostly_gaps pileup then Ok (EVal (Fin 0))
  else if negb (existsb (fun x => Ascii.eqb (fst filt) x || Ascii.eqb (snd filt) x) pileup)
  then Ok ENaN
  else Py.bind (pileup_loop cas pileup pileup_qual (Fin 0)) (fun v => Ok (EVal v)).

(** The column of a gap in the reference: states 0..14 undefined,
    states 15..29 from [vector[ii - 15]]. *)
Definition gapped_column (vector : list genotype) (pileup : list ascii)
  (pileup_qual : list qual) : result (list emis) :=
  Py.bind
    (mapM (fun ii : Z =>
             Py.bind (Py.get vector (ii - 15)) (fun gt =>
             emission_entry pileup pileup_qual gt gt))
          (map Z.of_nat (seq 15 15)))
    (fun tl => Ok (repeat ENaN 15 ++ tl)).

(** The column of a base of the reference: states 0..14 with the
    filters on [vector[ii]] and the cases on [vector[ii - 15]], states
    15..29 undefined. *)
Definition base_column (vector : list genotype) (pileup : list ascii)
  (pileup_qual : list qual) : result (list emis) :=
  Py.bind
    (mapM (fun ii : Z =>
             Py.bind (Py.get vector ii) (fun filt =>
             Py.bind (Py.get vector (ii - 15)) (fun cas =>
             emission_entry pileup pileup_qual filt cas)))
          (map Z.of_nat (seq 0 15)))
    (fun hd => Ok (hd ++ repeat ENaN 15)).

Definition is_char (s : string) (c : ascii) : bool :=
  match s with
  | String c' EmptyString => Ascii.eqb c c'
  | _ => false
  end.

(** The body of the loop over the reference for column [i]; the local
    [vector] survives from one column to the next. *)
Definition emission_column (upd_sam : list read) (ref_base : ascii) (i : nat)
  (vector : option (list genotype)) : result (option (list genotype) * ecol) :=
  Py.bind (Realigner.get_pileup upd_sam (Z.of_nat i)) (fun '(pileup, pileup_qual, mapq_list) =>
  if (List.length pileup <? 5)%nat || is_char "N" ref_base then Ok (vector, ESent)
  else
    Py.bind (repair_quality pileup_qual mapq_list) (fun pileup_qual =>
    if is_char "-" ref_base then
      Py.bind (gapped_column vector_A pileup pileup_qual) (fun col =>
      Ok (Some vector_A, ECol col))
    else
      let vector :=
        if is_char "A" ref_base then Some vector_A
        else if is_char "C" ref_base then Some vector_C
        else if is_char "G" ref_base then Some vector_G
        else if is_char "T" ref_base then Some vector_T
        else vector in
      match vector with
      | None => Err UnboundLocalError
      | Some vec =>
          Py.bind (base_column vec pileup pileup_qual) (fun col =>
          Ok (vector, ECol col))
      end)).

Fixpoint build_loop (upd_sam : list read) (rest : list ascii) (i : nat)
  (vector : option (list genotype)) : result (list ecol) :=
  match rest with
  | [] => Ok []
  | c :: rest' =>
      Py.bind (emission_column upd_sam c i vector) (fun '(vector', col) =>
      Py.bind (build_loop upd_sam rest' (S i) vector') (fun tl =>
      Ok (col :: tl)))
  end.

Definition build_emissionmatrix (upd_sam : list read) (upd_reference : list ascii)
  : result (list ecol) :=
  build_loop upd_sam upd_reference 0 None.

End Emission.

(* ================================================================== *)
(** * Viterbi decoder *)
(* ================================================================== *)

(** A column of [delta]: the sentinel [-1] or a forward vector. *)
Inductive dcol : Type :=
| DSent
| DCol (v : list fl).

Module Viterbi.

Import Emission.

(** The first loop of [viterbi]: every ["NaN"] becomes [np.NINF]. *)
Definition nan_to_ninf (e : emis) : fl :=
  match e with
  | ENaN => NInf
  | EVal x => x
  end.

(** A column after that loop: the sentinel or a list of floats. *)
Definition column : Type := option (list fl).

Definition prepare (emission_matrix : list ecol) : list column :=
  map (fun c => match c with
                | ESent => None
                | ECol v => Some (map nan_to_ninf v)
                end) emission_matrix.

Definition is_sentinel (c : column) : bool :=
  match c with
  | None => true
  | Some _ => false
  end.

Definition is_dsent (d : dcol) : bool :=
  match d with
  | DSent => true
  | DCol _ => false
  end.

(** Case "Initialization": [initialprob[ii] * exp(emission[ii])],
    divided by the sum of these products. *)
Definition initial_column (initialprob : list fl) (col : list fl) : result (list fl) :=
  Py.bind
    (mapM (fun ii =>
             Py.bind (at_ initialprob ii) (fun p =>
             Py.bind (at_ col ii) (fun e => Ok (fmul p (fexp e)))))
          (seq 0 (List.length col)))
    (fun temp_list =>
       let sum := fsum temp_list in
       Ok (map (fun t => fdiv t sum) temp_list)).

(** Row [y] of [true_delta_matrix]: the products
    [transmission_matrix[y][z] * delta_matrix[y][z]], every row of
    [delta_matrix] being the previous forward vector. *)
Definition true_delta_row (transmission_matrix : list (list fl)) (prev : list fl)
  (y : nat) : result (list fl) :=
  mapM (fun z =>
          Py.bind (at_ transmission_matrix y) (fun row =>
          Py.bind (at_ row z) (fun t =>
          Py.bind (at_ prev z) (fun d => Ok (fmul t d)))))
       (seq 0 30).

(** Case "Consecutive sequence". *)
Definition next_column (transmission_matrix : list (list fl)) (prev : list fl)
  (col : list fl) : result (list fl) :=
  Py.bind (mapM (true_delta_row transmission_matrix prev) (seq 0 30))
    (fun true_delta_matrix =>
  Py.bind (mapM np_max true_delta_matrix) (fun max_list =>
  let max_list := map flog max_list in
  Py.bind
    (mapM (fun y =>
             Py.bind (at_ max_list y) (fun m =>
             Py.bind (at_ col y) (fun e => Ok (fadd m e))))
          (seq 0 30))
    (fun emmi_list =>
       let den := logsumexp emmi_list in
       Ok (map (fun x => fexp (fsub x den)) emmi_list)))).

(** The product behind entry [ii] of the first forward vector, as a
    real number. *)
Definition product (initialprob col : list fl) (ii : nat) : R :=
  (val (nth ii initialprob NaN) * expo (nth ii col NaN))%R.

(** Iteration [i] of the forward loop: the column appended to [delta]. *)
Definition forward_column (transmission_matrix : list (list fl)) (initialprob : list fl)
  (emission_matrix : list column) (delta : list dcol) (i : nat) : result (list dcol) :=
  Py.bind (at_ emission_matrix i) (fun c =>
  match c with
  | None => Ok (delta ++ [DSent])
  | Some col =>
      Py.bind (if (i =? 0)%nat then Ok true
               else Py.bind (at_ emission_matrix (i - 1)) (fun p => Ok (is_sentinel p)))
        (fun fresh =>
      if (fresh : bool) then
        Py.bind (initial_column initialprob col) (fun v => Ok (delta ++ [DCol v]))
      else
        Py.bind (at_ delta (i - 1)) (fun d =>
        match d with
        | DSent => Err TypeError
        | DCol prev =>
            Py.bind (next_column transmission_matrix prev col) (fun v =>
            Ok (delta ++ [DCol v]))
        end))
  end).

Definition forward (transmission_matrix : list (list fl)) (initialprob : list fl)
  (emission_matrix : list column) : result (list dcol) :=
  loop (forward_column transmission_matrix initialprob emission_matrix)
       (List.length emission_matrix) [].

(** Iteration [i] of the loop that builds [xtilde] over the reversed
    [delta]. *)
Definition backtrack_column (transmission_matrix : list (list fl)) (delta : list dcol)
  (xtilde : list Z) (i : nat) : result (list Z) :=
  Py.bind (at_ delta i) (fun d =>
  match d with
  | DSent => Ok (xtilde ++ [(-1)%Z])
  | DCol v =>
      Py.bind (if (i =? 0)%nat then Ok true
               else Py.bind (at_ delta (i + 1)) (fun n => Ok (is_dsent n)))
        (fun start =>
      if (start : bool) then
        Py.bind (argmax v) (fun temp => Ok (xtilde ++ [Z.of_nat temp]))
      else
        Py.bind (Py.get xtilde (Z.of_nat i - 1)) (fun s =>
        Py.bind (Py.get transmission_matrix s) (fun trans_row =>
        Py.bind
          (mapM (fun j =>
                   Py.bind (at_ v j) (fun d =>
                   Py.bind (at_ trans_row j) (fun t => Ok (fmul d t))))
                (seq 0 (List.length trans_row)))
          (fun temp_list =>
        Py.bind (argmax temp_list) (fun temp => Ok (xtilde ++ [Z.of_nat temp]))))))
  end).

Definition backtrack (transmission_matrix : list (list fl)) (delta : list dcol)
  : result (list Z) :=
  loop (backtrack_column transmission_matrix delta) (List.length delta) [].

Definition viterbi (emission_matrix : list ecol) (transmission_matrix : list (list fl))
  : result (list Z) :=
  Py.bind (at_ transmission_matrix 0) (fun initialprob =>
  let emission_matrix := prepare emission_matrix in
  Py.bind (forward transmission_matrix initialprob emission_matrix) (fun delta =>
  let delta := rev delta in
  Py.bind (backtrack transmission_matrix delta) (fun xtilde =>
  Ok (rev xtilde)))).

(** The forward vector as the specification words it: for a destination
    state [j], the maximum over the source states [i] of
    [transition[i][j] * previous[i]]; its logarithm plus the emission of
    [j]; normalised by log-sum-exp and exponentiated. *)
Definition spec_products (transition : list (list fl)) (prev : list fl) (j : nat)
  : result (list fl) :=
  mapM (fun i =>
          Py.bind (at_ transition i) (fun row =>
          Py.bind (at_ row j) (fun t =>
          Py.bind (at_ prev i) (fun d => Ok (fmul t d)))))
       (seq 0 30).

Definition spec_next_column (transition : list (list fl)) (prev : list fl)
  (col : list fl) : result (list fl) :=
  Py.bind (mapM (spec_products transition prev) (seq 0 30)) (fun products =>
  Py.bind (mapM np_max products) (fun maxima =>
  let logs := map flog maxima in
  Py.bind
    (mapM (fun j =>
             Py.bind (at_ logs j) (fun m =>
             Py.bind (at_ col j) (fun e => Ok (fadd m e))))
          (seq 0 30))
    (fun scores =>
       let den := logsumexp scores in
       Ok (map (fun x => fexp (fsub x den)) scores)))).

(** The forward loop as a recursion over the columns: [prev] is the
    forward vector of the column before, or [None] at the first column
    and after a sentinel. *)
Fixpoint fwd (transmission_matrix : list (list fl)) (initialprob : list fl)
  (prev : option (list fl)) (emission_matrix : list column) : result (list dcol) :=
  match emission_matrix with
  | [] => Ok []
  | None :: rest =>
      Py.bind (fwd transmission_matrix initialprob None rest) (fun tl =>
      Ok (DSent :: tl))
  | Some col :: rest =>
      Py.bind (match prev with
               | None => initial_column initialprob col
               | Some p => next_column transmission_matrix p col
               end) (fun v =>
      Py.bind (fwd transmission_matrix initialprob (Some v) rest) (fun tl =>
      Ok (DCol v :: tl)))
  end.

(** The state chosen for a column from the state [s] chosen just
    before: the first maximum of [delta[i][j] * trans_row[j]]. *)
Definition linked_state (transmission_matrix : list (list fl)) (v : list fl) (s : Z)
  : result nat :=
  Py.bind (Py.get transmission_matrix s) (fun trans_row =>
  Py.bind
    (mapM (fun j =>
             Py.bind (at_ v j) (fun d =>
             Py.bind (at_ trans_row j) (fun t => Ok (fmul d t))))
          (seq 0 (List.length trans_row)))
    (fun temp_list => argmax temp_list)).

(** The backtracking loop as a recursion over the reversed [delta]:
    [px] is the entry of [xtilde] written just before, [None] at
    index 0. *)
Fixpoint bwd (transmission_matrix : list (list fl)) (px : option Z)
  (delta : list dcol) : result (list Z) :=
  match delta with
  | [] => Ok []
  | DSent :: rest =>
      Py.bind (bwd transmission_matrix (Some (-1)%Z) rest) (fun tl =>
      Ok ((-1)%Z :: tl))
  | DCol v :: rest =>
      Py.bind (match px with
               | None => argmax v
               | Some s =>
                   match rest with
                   | [] => Err IndexError
                   | DSent :: _ => argmax v
                   | DCol _ :: _ => linked_state transmission_matrix v s
                   end
               end) (fun k =>
      Py.bind (bwd transmission_matrix (Some (Z.of_nat k)) rest) (fun tl =>
      Ok (Z.of_nat k :: tl)))
  end.

(** The part of a decoded path that belongs to the [n] columns after
    the first [start] ones. *)
Definition sub_path (xtilde : list Z) (start n : nat) : list Z :=
  firstn n (skipn start xtilde).

(** The decoded states of a segment on its own: the forward pass from
    the initial distribution, and the backtracking from the sentinel
    that follows the segment to the sentinel that precedes it. *)
Definition segment_decode (transmission_matrix : list (list fl)) (seg : list ecol)
  : result (list Z) :=
  Py.bind (at_ transmission_matrix 0) (fun initialprob =>
  Py.bind (fwd transmission_matrix initialprob None (prepare seg)) (fun delta =>
  Py.bind (bwd transmission_matrix (Some (-1)%Z) (rev delta ++ [DSent])) (fun xb =>
  Ok (tl (rev xb))))).

(** Closed forms of the forward step on a 30x30 matrix. *)
Definition entry (t : list (list fl)) (y z : nat) : fl := nth z (nth y t []) NaN.

Definition max_of (l : list fl) : fl :=
  match l with
  | [] => NaN
  | x :: rest => fold_left fmax2 rest x
  end.

(** What the program maximises for state [y]: row [y] of the matrix
    against the previous vector. *)
Definition code_max (t : list (list fl)) (prev : list fl) (y : nat) : fl :=
  max_of (map (fun z => fmul (entry t y z) (nth z prev NaN)) (seq 0 30)).

(** What the specification maximises for destination [j]: column [j]
    of the matrix against the previous vector. *)
Definition spec_max (t : list (list fl)) (prev : list fl) (j : nat) : fl :=
  max_of (map (fun i => fmul (entry t i j) (nth i prev NaN)) (seq 0 30)).

Definition normalise (scores : list fl) : list fl :=
  map (fun x => fexp (fsub x (logsumexp scores))) scores.

Definition scores (maxima : nat -> fl) (col : list fl) : list fl :=
  map (fun y => fadd (flog (maxima y)) (nth y col NaN)) (seq 0 30).

Definition transpose (t : list (list fl)) : list (list fl) :=
  map (fun j => map (fun i => entry t i j) (seq 0 30)) (seq 0 30).

(** What the forward loop knows about the column before. *)
Definition fwd_inv (done : list column) (delta : list dcol) (prev : option (list fl))
  : Prop :=
  List.length delta = List.length done
  /\ match prev with
     | None => done = [] \/ exists done', done = done' ++ [None]
     | Some p =>
         exists done' c delta',
           done = done' ++ [Some c] /\ delta = delta' ++ [DCol p]
     end.

(** What the backtracking loop knows about the entry before. *)
Definition bwd_inv (done : list dcol) (xtilde : list Z) (px : option Z) : Prop :=
  List.length xtilde = List.length done
  /\ match px with
     | None => done = []
     | Some s => done <> [] /\ exists x', xtilde = x' ++ [s]
     end.

(** Shapes of the columns of [delta], of the state written before,
    and of the prepared emission columns. *)
Definition dwf (d : dcol) : Prop :=
  match d with
  | DSent => True
  | DCol v => List.length v = 30%nat
  end.

Definition px_ok (px : option Z) : Prop :=
  match px with
  | None => True
  | Some s => (-1 <= s < 30)%Z
  end.

Definition cwf (c : column) : Prop :=
  match c with
  | None => True
  | Some col => List.length col = 30%nat
  end.

(** Shapes. *)
Definition wf_matrix (t : list (list fl)) : Prop :=
  List.length t = 30%nat /\ Forall (fun row => List.length row = 30%nat) t.

Definition wf_ecol (c : ecol) : Prop :=
  match c with
  | ESent => True
  | ECol v => List.length v = 30%nat
  end.

Definition wf_emission (em : list ecol) : Prop := Forall wf_ecol em.

End Viterbi.

(* ================================================================== *)
(** * Genotype resolver: [find_base_state] *)
(* ================================================================== *)

(** An entry of [base_states]: the sentinel [-1], a genotype (a list of
    two one-character strings), or the reference character itself. *)
Inductive bstate : Type :=
| BSent
| BPair (a b : ascii)
| BChar (c : ascii).

Module Resolver.

Import Emission.

(** [vector_A_ex] is [vector_A] itself, extended in place by its own
    contents; the other three tables are then extended by that doubled
    list. *)
Definition vector_A_ex : list genotype := vector_A ++ vector_A.
Definition vector_C_ex : list genotype := vector_C ++ vector_A_ex.
Definition vector_G_ex : list genotype := vector_G ++ vector_A_ex.
Definition vector_T_ex : list genotype := vector_T ++ vector_A_ex.

Definition lookup (table : list genotype) (state : Z) : result bstate :=
  Py.bind (Py.get table state) (fun gt => Ok (BPair (fst gt) (snd gt))).

Definition base_state_at (state : Z) (base : ascii) : result bstate :=
  if (state =? -1)%Z then Ok BSent
  else if Ascii.eqb base "A" then lookup vector_A_ex state
  else if Ascii.eqb base "C" then lookup vector_C_ex state
  else if Ascii.eqb base "G" then lookup vector_G_ex state
  else if Ascii.eqb base "T" then lookup vector_T_ex state
  else if Ascii.eqb base "N" then Ok (BChar base)
  else if Ascii.eqb base "-" then lookup vector_A_ex state
  else Ok (BChar base).

Fixpoint find_loop (xtilde : list Z) (rest : list ascii) (i : nat) : result (list bstate) :=
  match rest with
  | [] => Ok []
  | base :: rest' =>
      Py.bind (at_ xtilde i) (fun state =>
      Py.bind (base_state_at state base) (fun b =>
      Py.bind (find_loop xtilde rest' (S i)) (fun tl => Ok (b :: tl))))
  end.

Definition find_base_state (xtilde : list Z) (upd_ref : list ascii) : result (list bstate) :=
  find_loop xtilde upd_ref 0.

End Resolver.

(* ================================================================== *)
(** * Variant formatters *)
(* ================================================================== *)

Module Formatter.

Local Open Scope string_scope.

Definition tab : string := String (ascii_of_nat 9) EmptyString.
Definition str (c : ascii) : string := String c EmptyString.

(** [b[k]] for an entry of [base_states]. *)
Definition field (b : bstate) (k : nat) : result ascii :=
  match b with
  | BSent => Err TypeError
  | BPair x y =>
      match k with
      | 0%nat => Ok x
      | 1%nat => Ok y
      | _ => Err IndexError
      end
  | BChar c =>
      match k with
      | 0%nat => Ok c
      | _ => Err IndexError
      end
  end.

(** [base_states[n][k]] *)
Definition bs (base_states : list bstate) (n k : nat) : result ascii :=
  Py.bind (at_ base_states n) (fun b => field b k).

(** The [while gap_control] loop, on the part of [upd_ref] that starts
    at index [i + gap_counter]: the number of further gap characters,
    or the index error raised when the run reaches the end. *)
Fixpoint gap_run (suffix : list ascii) : result nat :=
  match suffix with
  | [] => Err IndexError
  | c :: rest =>
      if Ascii.eqb c gap then Py.bind (gap_run rest) (fun n => Ok (S n))
      else Ok 0%nat
  end.

(** The local variables that survive an iteration of the main loop. *)
Record fstate : Type := mkF {
  gap_counter : nat;
  variants : string;
  variant_list : list string
}.

Definition no_variant (x : Z) : bool :=
  ((x =? 0) || (x =? 29) || (x =? -1))%Z.

Section Variants.

(** The separator between the columns of a record: ["\t"] in
    [vcHMM.py], [" \t "] in [variant_calling_output.py]. *)
Variable sep : string.

(** The deletion and SNP branches, which the two files share up to the
    separator and the allele reported for a heterozygous SNP
    ([report_ref] is [true] in [variant_calling_output.py], which tests
    [==] where [vcHMM.py] tests [!=]). *)
Definition deletion_or_snp (report_ref : bool) (ref upd_ref : list ascii)
  (base_states : list bstate) (xtilde : list Z) (i gc : nat) : result string :=
  let prev := Py.get ref (Z.of_nat i - 1) in
  let cur := at_ ref i in
  Py.bind (at_ xtilde (i + gc)) (fun x =>
  if (x =? 14)%Z then
    Py.bind prev (fun p => Py.bind cur (fun c => Py.bind prev (fun p' =>
    Ok (str_of_nat i ++ sep ++ str p ++ str c ++ sep ++ str p'))))
  else
    Py.bind (bs base_states (i + gc) 0) (fun b0 =>
    Py.bind (if Ascii.eqb b0 gap then Ok true
             else Py.bind (bs base_states (i + gc) 1) (fun b1 => Ok (Ascii.eqb b1 gap)))
      (fun one_gap =>
    if (one_gap : bool) then
      Py.bind (if negb (Ascii.eqb b0 gap) then Ok (Some b0)
               else Py.bind (bs base_states (i + gc) 1) (fun b1 =>
                    Ok (if negb (Ascii.eqb b1 gap) then Some b1 else None)))
        (fun temp =>
      Py.bind prev (fun p => Py.bind cur (fun c =>
      match temp with
      | None => Err TypeError
      | Some t =>
          Ok (str_of_nat i ++ sep ++ str p ++ str c ++ sep ++ str p ++ str t
                ++ "," ++ str p)
      end)))
    else
      Py.bind (bs base_states (i + gc) 1) (fun b1 =>
      if Ascii.eqb b0 b1 then
        Py.bind cur (fun c => Ok (str_of_nat i ++ sep ++ str c ++ sep ++ str b0))
      else
        Py.bind (at_ upd_ref (i + gc)) (fun u =>
        if Ascii.eqb b0 u || Ascii.eqb b1 u then
          let temp :=
            if report_ref then (if Ascii.eqb b0 u then b0 else b1)
            else (if negb (Ascii.eqb b0 u) then b0 else b1) in
          Py.bind cur (fun c => Ok (str_of_nat i ++ sep ++ str c ++ sep ++ str temp))
        else
          Py.bind cur (fun c =>
          Ok (str_of_nat i ++ sep ++ str c ++ sep ++ str b0 ++ "," ++ str b1))))))).

(** The three record shapes of the first column of an insertion run,
    from the two alleles at [base_states[n]]; [None] when no shape
    applies and [variants] keeps its value. *)
Definition insertion_shapes (ref : list ascii) (base_states : list bstate)
  (i n : nat) (same : bool) : result (option string) :=
  let prev := Py.get ref (Z.of_nat i - 1) in
  if same then
    Py.bind prev (fun p => Py.bind (bs base_states n 0) (fun b0 =>
    Ok (Some (str_of_nat i ++ sep ++ str p ++ sep ++ str p ++ str b0))))
  else
    Py.bind (bs base_states n 0) (fun b0 =>
    Py.bind (bs base_states n 1) (fun b1 =>
    if negb (Ascii.eqb b0 b1) && (negb (Ascii.eqb b0 gap) && negb (Ascii.eqb b1 gap)) then
      Py.bind prev (fun p =>
      Ok (Some (str_of_nat i ++ sep ++ str p ++ sep ++ str p ++ str b0 ++ ","
                  ++ str p ++ str b1)))
    else if negb (Ascii.eqb b0 b1) && (negb (Ascii.eqb b0 gap) || negb (Ascii.eqb b1 gap)) then
      let temp := if negb (Ascii.eqb b0 gap) then b0 else b1 in
      Py.bind prev (fun p =>
      Ok (Some (str_of_nat i ++ sep ++ str p ++ sep ++ str p ++ str temp)))
    else Ok None)).

End Variants.

(** ** [create_variant_calling_output] of [vcHMM.py] *)

(** [for ii in range(this_gap_number)] *)
Definition insertion_records (ref : list ascii) (base_states : list bstate)
  (i gc this_gap_number : nat) (st : fstate) : result fstate :=
  Py.loop
    (fun (st : fstate) (ii : nat) =>
       let n := (i + ii + gc - this_gap_number)%nat in
       Py.bind
         (if (ii =? 0)%nat then
            Py.bind (bs base_states (i + ii + gc) 0) (fun l =>
            Py.bind (bs base_states n 1) (fun r =>
            Py.bind (insertion_shapes tab ref base_states i n (Ascii.eqb l r)) (fun v =>
            Ok (match v with
                | Some s => s
                | None => st.(variants)
                end))))
          else
            Py.bind (bs base_states n 0) (fun b0 => Ok (st.(variants) ++ str b0)))
         (fun v =>
            Ok (mkF gc v
                    (if (ii =? this_gap_number - 1)%nat
                     then st.(variant_list) ++ [v]
                     else st.(variant_list)))))
    this_gap_number st.

Definition output_step (ref upd_ref : list ascii) (base_states : list bstate)
  (xtilde : list Z) (st : fstate) (i : nat) : result fstate :=
  let gc := st.(gap_counter) in
  Py.bind (at_ xtilde (i + gc)) (fun x =>
  if no_variant x then
    Py.bind (at_ upd_ref (i + gc)) (fun u =>
    Ok (if Ascii.eqb u gap
        then mkF (gc + 1) st.(variants) st.(variant_list)
        else st))
  else
    Py.bind (at_ upd_ref (i + gc)) (fun u =>
    if Ascii.eqb u gap then
      Py.bind (gap_run (skipn (i + (gc + 1)) upd_ref)) (fun more =>
      let this_gap_number := (1 + more)%nat in
      insertion_records ref base_states i (gc + this_gap_number) this_gap_number st)
    else
      Py.bind (deletion_or_snp tab false ref upd_ref base_states xtilde i gc) (fun v =>
      Ok (mkF gc v (st.(variant_list) ++ [v]))))).

Definition create_variant_calling_output (ref upd_ref : list ascii)
  (base_states : list bstate) (xtilde : list Z) : result (list string) :=
  Py.bind
    (Py.loop (output_step ref upd_ref base_states xtilde) (List.length ref)
                  (mkF 0 "" []))
    (fun st => Ok st.(variant_list)).

(** ** [create_varing_calling_output] of [variant_calling_output.py] *)

Definition sep' : string := " " ++ tab ++ " ".

(** [for ii in range(this_gap_number)]: the alleles are read at
    [base_states[i + ii]], and a later column of the run reads
    [xtilde[i + ii][0]], a subscript on an integer. *)
Definition insertion_records' (ref : list ascii) (base_states : list bstate)
  (xtilde : list Z) (i gc this_gap_number : nat) (st : fstate) : result fstate :=
  Py.loop
    (fun (st : fstate) (ii : nat) =>
       let n := (i + ii)%nat in
       Py.bind
         (if (ii =? 0)%nat then
            Py.bind (bs base_states n 0) (fun l =>
            Py.bind (bs base_states n 1) (fun r =>
            Py.bind (insertion_shapes sep' ref base_states i n (Ascii.eqb l r)) (fun v =>
            Ok (match v with
                | Some s => s
                | None => st.(variants)
                end))))
          else
            Py.bind (at_ xtilde (i + ii)) (fun _ => Err TypeError))
         (fun v =>
            Ok (mkF gc v
                    (if (ii =? this_gap_number - 1)%nat
                     then st.(variant_list) ++ [v]
                     else st.(variant_list)))))
    this_gap_number st.

Definition output_step' (ref upd_ref : list ascii) (base_states : list bstate)
  (xtilde : list Z) (st : fstate) (i : nat) : result fstate :=
  let gc := st.(gap_counter) in
  Py.bind (at_ xtilde (i + gc)) (fun x =>
  if no_variant x then
    Py.bind (at_ upd_ref (i + gc)) (fun u =>
    Ok (if Ascii.eqb u gap
        then mkF (gc + 1) st.(variants) st.(variant_list)
        else st))
  else
    Py.bind (at_ upd_ref (i + gc)) (fun u =>
    if Ascii.eqb u gap then
      Py.bind (gap_run (skipn (i + (gc + 1)) upd_ref)) (fun more =>
      let this_gap_number := (1 + more)%nat in
      insertion_records' ref base_states xtilde i (gc + this_gap_number)
                         this_gap_number st)
    else
      Py.bind (deletion_or_snp sep' true ref upd_ref base_states xtilde i gc) (fun v =>
      Ok (mkF gc v (st.(variant_list) ++ [v]))))).

Definition create_varing_calling_output (ref upd_ref : list ascii)
  (base_states : list bstate) (xtilde : list Z) : result (list string) :=
  Py.bind
    (Py.loop (output_step' ref upd_ref base_states xtilde) (List.length ref)
                  (mkF 0 "" []))
    (fun st => Ok st.(variant_list)).

End Formatter.

(* ================================================================== *)
(** * The pipeline of [main] *)
(* ================================================================== *)

Module Pipeline.

(** A probability of the transition matrix as a float. *)
Definition to_fl (q : Q) : fl := Fin (Q2R q).

(** The stages of [main] on the parameters for simulated data: the
    reads and the reference as the two readers return them, the list of
    variant records as it is handed to the writer. *)
Definition run (sam : list read) (ref_seq : list ascii) : result (list string) :=
  let (newsam, insertions) := Normalizer.get_cigar sam in
  let unique_inserts := Realigner.del_duplicate_ins insertions in
  let upd_inserts := Realigner.update_insertions unique_inserts in
  let upd_sam := Realigner.update_startpos newsam upd_inserts in
  let updated_sam := Realigner.update_reads upd_sam upd_inserts in
  let updated_refseq := Realigner.update_ref ref_seq upd_inserts in
  Py.bind (Transition.create_transition_matrix
             Transition.pre_transition_matrix_simulated
             Transition.hetrate_simulated) (fun trans_matrix =>
  Py.bind (Emission.build_emissionmatrix updated_sam updated_refseq)
    (fun emission_matrix =>
  Py.bind (Viterbi.viterbi emission_matrix (map (map to_fl) trans_matrix))
    (fun xtilde =>
  Py.bind (Resolver.find_base_state xtilde updated_refseq) (fun hidden_states =>
  Formatter.create_variant_calling_output ref_seq updated_refseq hidden_states
                                          xtilde)))).

(** The decoded state path of the same run. *)
Definition decode (sam : list read) (ref_seq : list ascii) : result (list Z) :=
  let (newsam, insertions) := Normalizer.get_cigar sam in
  let unique_inserts := Realigner.del_duplicate_ins insertions in
  let upd_inserts := Realigner.update_insertions unique_inserts in
  let upd_sam := Realigner.update_startpos newsam upd_inserts in
  let updated_sam := Realigner.update_reads upd_sam upd_inserts in
  let updated_refseq := Realigner.update_ref ref_seq upd_inserts in
  Py.bind (Transition.create_transition_matrix
             Transition.pre_transition_matrix_simulated
             Transition.hetrate_simulated) (fun trans_matrix =>
  Py.bind (Emission.build_emissionmatrix updated_sam updated_refseq)
    (fun emission_matrix =>
  Viterbi.viterbi emission_matrix (map (map to_fl) trans_matrix))).

End Pipeline.

(* ================================================================== *)
(** * The scenarios of the specification as concrete inputs *)
(* ================================================================== *)

Module Scenario.

Local Open Scope Z_scope.

(** Scenario B: a read of twenty bases at offset 100 with the
    operations soft-clip 3, match 5, insertion 2, match 10. *)
Definition cigar_B : list (Z * Z) := [(4, 3); (0, 5); (1, 2); (0, 10)].

Definition read_B : read :=
  mkRead 100 "r1" (chars "ACGTACGTACGTACGTACGT") (Some cigar_B) 60
         (repeat (QVal (30 # 1)) 20).

(** Scenario C: the coalesced events at 50 (length 2) and 80
    (length 3), and a read at offset 90. *)
Definition events_C : Realigner.ins_dict :=
  [((50, 2), ["r1"%string]); ((80, 3), ["r2"%string])].

Definition read_C : read :=
  mkRead 90 "r3" (chars "ACGT") (Some [(0, 4)]) 60 (repeat (QVal (30 # 1)) 4).

(** Scenario D: six reads, one deletion gap, five [G] of quality 20. *)
Definition bases_D : list ascii := chars "-GGGGG".
Definition quals_D : list qual := QGap :: repeat (QVal (20 # 1)) 5.
Definition mapqs_D : list Z := repeat 60 6.

(** A column of five reads that agree on base and quality, none of
    them a gap. *)
Definition quals_equal : list qual := repeat (QVal (30 # 1)) 5.
Definition mapqs_equal : list Z := repeat 60 5.

(** The reads behind that column: five one-base reads [A] at offset 0. *)
Definition sam_equal : list read :=
  map (fun name => mkRead 0 name (chars "A") (Some [(0, 1)]) 60 [QVal (30 # 1)])
      ["r1"; "r2"; "r3"; "r4"; "r5"]%string.

(** A forward step on which the two readings of the transition matrix
    part: the matrix of the cycle 0 -> 1 -> ... -> 29 -> 0 (row [y] has
    its single 1 in column [y + 1]), all the previous mass on state 0,
    and a column whose thirty log-emissions are 0. *)
Definition unit_vector (k : nat) : list fl :=
  map (fun z => Fin (if (z =? k)%nat then 1%R else 0%R)) (seq 0 30).

Definition cycle : list (list fl) :=
  map (fun y =>
         map (fun z => Fin (if (z =? (y + 1) mod 30)%nat then 1%R else 0%R)) (seq 0 30))
      (seq 0 30).

Definition flat_column : list fl := repeat (Fin 0%R) 30.

(** The scores behind the unit vector of [k]: 0 at [k], [-inf]
    elsewhere. *)
Definition hot (k y : nat) : fl := if (y =? k)%nat then Fin 0%R else NInf.

(** Emission matrices over that cycle.  The three of them carry the
    same one-column segment at index 3, between the sentinels at
    indices 2 and 4; they differ in what precedes it. *)
Definition flat : ecol := ECol (repeat (EVal (Fin 0%R)) 30).

Definition em_left : list ecol := [ESent; flat; ESent; flat; ESent].
Definition em_right : list ecol := [ESent; ESent; ESent; flat; ESent].
Definition em_data_first : list ecol := [flat; ESent; ESent; flat; ESent].

(** A column whose thirty entries are all undefined. *)
Definition undefined_column : ecol := ECol (repeat ENaN 30).

(** Scenario A: reference [ACGT]; six one-base reads [C] of quality 30
    at position 1, nothing elsewhere. *)
Definition ref_A : list ascii := chars "ACGT".

Definition read_A (name : string) : read :=
  mkRead 1 name (chars "C") (Some [(0, 1)]) 40 [QVal (30 # 1)].

Definition sam_A : list read :=
  map read_A ["r1"; "r2"; "r3"; "r4"; "r5"; "r6"]%string.

(** Row 0 of the transition matrix for simulated data. *)
Definition row0_A : list Q :=
  Transition.row_entries (988 # 1000) (8 # 1000) (2 # 1000) (2 # 1000) (1 # 100).

(** The column that the emission builder produces at position 1 of
    Scenario A.  The six qualities are equal, so each has become
    [mapping_quality / 4]; [pow_A] is the error probability of that
    quality, [hom_A] the log-likelihood of a [C] under the genotype
    [C/C], [het_A] under a genotype with one [C]. *)
Definition q_A : Q := inject_Z 40 / 4.
Definition pileup_A : list ascii := chars "CCCCCC".
Definition quals_A : list qual := repeat (QVal q_A) 6.
Definition pow_A : R := Rpower 10 (- Q2R q_A / 10).
Definition hom_A : R := (ln (1 + - pow_A) / ln 10)%R.
Definition het_A : R := (ln (1 / 2 * (1 + - pow_A) + 1 / 8 * pow_A) / ln 10)%R.
Definition six (c : R) : R := (0 + c + c + c + c + c + c)%R.

Definition column_A : list emis :=
  [EVal (Fin (six hom_A)); ENaN; ENaN; ENaN;
   EVal (Fin (six het_A)); EVal (Fin (six het_A)); EVal (Fin (six het_A));
   EVal (Fin (six het_A)); ENaN; ENaN; ENaN; ENaN; ENaN; ENaN; ENaN]
    ++ repeat ENaN 15.

(** Scenario A with the base [A] at position 1: reference [CAGT] and
    the same six reads. *)
Definition ref_snp : list ascii := chars "CAGT".

(** The six reads of Scenario A on the first base of [ACGT], the base
    [A] of that reference. *)
Definition read_first (name : string) : read :=
  mkRead 0 name (chars "C") (Some [(0, 1)]) 40 [QVal (30 # 1)].

Definition sam_first : list read :=
  map read_first ["r1"; "r2"; "r3"; "r4"; "r5"; "r6"]%string.

(** The column that the emission builder produces for six reads [C]
    over the reference base [A]: the genotype [C/C] is state 1 of the
    table for [A], the genotypes with one [C] are the states 4, 8, 9
    and 10. *)
Definition column_snp : list emis :=
  [ENaN; EVal (Fin (six hom_A)); ENaN; ENaN; EVal (Fin (six het_A)); ENaN; ENaN;
   ENaN; EVal (Fin (six het_A)); EVal (Fin (six het_A)); EVal (Fin (six het_A));
   ENaN; ENaN; ENaN; ENaN]
    ++ repeat ENaN 15.

End Scenario.

(* ================================================================== *)
(** * The writer of the result file: [create_output_file] *)
(* ================================================================== *)

Module Writer.

Import Formatter.
Local Open Scope Z_scope.

(** [s.startswith(needle)] *)
Fixpoint starts_with (needle s : list ascii) : bool :=
  match needle, s with
  | [], _ => true
  | _ :: _, [] => false
  | a :: needle', b :: s' => Ascii.eqb a b && starts_with needle' s'
  end.

(** The search of [find] in the part [s] of a string that begins at
    index [i]: the first index at which [needle] starts, or [-1]. *)
Fixpoint find_at (needle s : list ascii) (i : nat) : Z :=
  if starts_with needle s then Z.of_nat i
  else match s with
       | [] => -1
       | _ :: rest => find_at needle rest (S i)
       end.

(** [s.find(needle, start)]: nothing is found from a start beyond the
    end. *)
Definition find (s needle : list ascii) (start : Z) : Z :=
  if Z.of_nat (List.length s) <? start then -1
  else find_at needle (skipn (clamp s start) s) (clamp s start).

(** [l[a:b]] *)
Definition slice {A} (l : list A) (a b : Z) : list A :=
  firstn (clamp l b - clamp l a) (skipn (clamp l a) l).

(** [while start >= 0 and n > 1: start = s.find(needle, start + len(needle)); n -= 1],
    [more] being [n - 1]. *)
Fixpoint seek (s needle : list ascii) (start : Z) (more : nat) : Z :=
  match more with
  | O => start
  | S more' =>
      if start >=? 0
      then seek s needle (find s needle (start + Z.of_nat (List.length needle))) more'
      else start
  end.

Local Open Scope string_scope.

Definition id_column_value : string := tab ++ "." ++ tab.
Definition needle : string := tab.

(** The body of the second loop: the line with the ID column put in
    at the second tab. *)
Definition with_id_column (new_value : string) : string :=
  let s := chars new_value in
  let start := find s (chars needle) 0 in
  let n := 2%Z in
  let start := seek s (chars needle) start (Z.to_nat (n - 1)) in
  string_of_list_ascii
    (slice s 0 start ++ chars id_column_value
       ++ slice s (start + 1) (Z.of_nat (List.length s)))%list.

Definition meta_info : string := "##fileformat=VCFv4.0".
Definition marker_info : string :=
  "#CHROM" ++ tab ++ "POS" ++ tab ++ "ID" ++ tab ++ "REF" ++ tab ++ "ALT".

Definition newline : string := String (ascii_of_nat 10) EmptyString.

(** What the function prints and what it writes to the file, one
    string for each [print] and each [output.write]. *)
Record effects : Type := mkEffects {
  printed : list string;
  written : list string
}.

Definition create_output_file (values : list string) : effects :=
  let new_values := map (fun element => "simref" ++ tab ++ element) values in
  let new_values2 := map with_id_column new_values in
  let head_list := ([meta_info; marker_info] ++ new_values2)%list in
  mkEffects (map (fun element => element ++ newline) values)
            (map (fun element => element ++ newline) head_list).

End Writer.

(* ================================================================== *)
(** * The stages of [main] by name *)
(* ================================================================== *)

Module Stages.

(** The first half of [main]: the realigned events, reads and
    reference that the emission builder is run on. *)
Definition realigned_events (sam : list read) : Realigner.ins_dict :=
  let (newsam, insertions) := Normalizer.get_cigar sam in
  Realigner.update_insertions (Realigner.del_duplicate_ins insertions).

Definition realigned_reads (sam : list read) : list read :=
  let (newsam, insertions) := Normalizer.get_cigar sam in
  let upd_inserts := Realigner.update_insertions (Realigner.del_duplicate_ins insertions) in
  Realigner.update_reads (Realigner.update_startpos newsam upd_inserts) upd_inserts.

Definition realigned_reference (sam : list read) (ref_seq : list ascii) : list ascii :=
  Realigner.update_ref ref_seq (realigned_events sam).

(** The transition matrix of [main] as the decoder sees it. *)
Definition trans_matrix : result (list (list fl)) :=
  Py.bind (Transition.create_transition_matrix
             Transition.pre_transition_matrix_simulated
             Transition.hetrate_simulated) (fun tm =>
  Ok (map (map Pipeline.to_fl) tm)).

End Stages.

(* ================================================================== *)
(** * Vocabulary of the properties *)
(* ================================================================== *)

(** ** Reads *)

Module Reads.

(** A sequence without its gap characters. *)
Definition ungap (s : list ascii) : list ascii :=
  filter (fun c => negb (Ascii.eqb c gap)) s.

(** A read with a quality for each base, and one with exactly as many
    qualities as bases. *)
Definition covered (r : read) : Prop :=
  (List.length r.(r_seq) <= List.length r.(r_qual))%nat.

Definition aligned (r : read) : Prop :=
  List.length r.(r_seq) = List.length r.(r_qual).

Definition operations (r : read) : list (Z * Z) :=
  match r.(r_cigar) with
  | None => []
  | Some ops => ops
  end.

Definition has_cigar (r : read) : bool :=
  match r.(r_cigar) with
  | None => false
  | Some _ => true
  end.

Definition has_kind (k : Z) (op : Z * Z) : bool := (fst op =? k)%Z.

(** The lengths of the insertion operations of a read, in order. *)
Definition inserted_lengths (r : read) : list Z :=
  map snd (filter (has_kind 1) (operations r)).

(** A read without soft-clip operations. *)
Definition unclipped (r : read) : Prop :=
  Forall (fun op => fst op <> 4%Z) (operations r).

Definition event_length (e : insertion) : Z := snd (fst e).

(** What one operation can do to a read: shorten the sequence, put the
    same run of gaps into sequence and qualities, or leave both. *)
Inductive touched (r r' : read) : Prop :=
| touched_clip :
    (List.length (r_seq r') <= List.length (r_seq r))%nat ->
    r_qual r' = r_qual r -> touched r r'
| touched_gaps (k n : Z) :
    r_seq r' = slice_to (r_seq r) k ++ times n gap ++ slice_from (r_seq r) k ->
    r_qual r' = slice_to (r_qual r) k ++ times n QGap ++ slice_from (r_qual r) k ->
    r_start r' = r_start r -> r_mapq r' = r_mapq r -> r_name r' = r_name r ->
    touched r r'
| touched_name :
    r_seq r' = r_seq r -> r_qual r' = r_qual r ->
    r_start r' = r_start r -> r_mapq r' = r_mapq r -> touched r r'.

(** A read covers a position. *)
Definition covers (r : read) (p : Z) : bool :=
  ((r.(r_start) <=? p) && (r.(r_start) + Z.of_nat (List.length r.(r_seq)) >? p))%Z.

(** How many reads cover a position. *)
Definition coverage (sam : list read) (p : nat) : nat :=
  List.length (filter (fun r => covers r (Z.of_nat p)) sam).

End Reads.

(** ** Insertion events *)

Module Events.

Import Realigner.
Local Open Scope Z_scope.

(** [a <= b] on [(coordinate, length)] keys, the order of [sorted]
    without the names. *)
Definition key_le (a b : Z * Z) : Prop :=
  fst a < fst b \/ (fst a = fst b /\ snd a <= snd b).

Fixpoint key_sorted (l : list insertion) : Prop :=
  match l with
  | [] => True
  | a :: rest => Forall (fun b => key_le (fst a) (fst b)) rest /\ key_sorted rest
  end.

(** The body of the loop of [del_duplicate_ins]. *)
Definition coalesce_step (unique_inserts : ins_dict) (insert : insertion) : ins_dict :=
  let '(c, l, name) := insert in
  match dict_get unique_inserts (c, l) with
  | Some names => dict_set unique_inserts (c, l) (names ++ [name])
  | None => dict_set unique_inserts (c, l) [name]
  end.

(** Keys whose gap runs do not overlap: each run ends where the next
    one starts, or before. *)
Fixpoint separated (l : list (Z * Z)) : Prop :=
  match l with
  | [] => True
  | a :: rest =>
      match rest with
      | [] => True
      | b :: _ => fst a + snd a <= fst b /\ separated rest
      end
  end.

(** Coordinates that lie within a sequence of length [n] which grows by
    each run in turn. *)
Fixpoint in_range (l : list (Z * Z)) (n : Z) : Prop :=
  match l with
  | [] => True
  | a :: rest => 0 <= fst a <= n /\ in_range rest (n + snd a)
  end.

Definition total_length (l : list (Z * Z)) : nat :=
  list_sum (map (fun k => Z.to_nat (snd k)) l).

(** The body of the loop of [update_ref]. *)
Definition insert_gaps (ref_seq : list ascii) (insert : Z * Z) : list ascii :=
  slice_to ref_seq (fst insert) ++ times (snd insert) gap
    ++ slice_from ref_seq (fst insert).

(** The body of the loop of [update_reads] over the events. *)
Definition gap_read (r : read) (item : (Z * Z) * list string) : read :=
  let '(insert, names) := item in
  if negb (mem_string r.(r_name) names)
     && (fst insert >=? r.(r_start))
     && (fst insert - r.(r_start) <=? Z.of_nat (List.length r.(r_seq)))
  then
    let off := fst insert - r.(r_start) in
    let gaps_before := count_char gap (slice_to r.(r_seq) off) in
    let gapped_read :=
      slice_to r.(r_seq) (off + gaps_before) ++ times (snd insert) gap
        ++ slice_from r.(r_seq) (off + gaps_before) in
    let changed_qual :=
      slice_to r.(r_qual) (off + gaps_before) ++ times (snd insert) QGap
        ++ slice_from r.(r_qual) (off + gaps_before) in
    mkRead r.(r_start) r.(r_name) gapped_read r.(r_cigar) r.(r_mapq) changed_qual
  else r.

(** What realignment leaves of a read: everything but the gaps. *)
Definition same_bases (r r' : read) : Prop :=
  r_start r' = r_start r /\ r_name r' = r_name r /\ r_cigar r' = r_cigar r
  /\ r_mapq r' = r_mapq r
  /\ Reads.ungap (r_seq r') = Reads.ungap (r_seq r)
  /\ (List.length (r_seq r') + List.length (r_qual r)
      = List.length (r_seq r) + List.length (r_qual r'))%nat.

End Events.

(** ** Emission columns and transition probabilities *)

Module Columns.

Import Emission.

(** The reference alphabet the emission builder has a branch for. *)
Definition known_base (c : ascii) : Prop := In c (chars "ACGTN-").

(** A quality that is a positive number, and one that is a number. *)
Definition positive_quality (q : qual) : Prop :=
  match q with
  | QGap => False
  | QVal v => (0 < v)%Q
  end.

Definition is_number (q : qual) : Prop :=
  match q with
  | QGap => False
  | QVal _ => True
  end.

(** The shape of the column for the reference character [c] at
    position [p]: the sentinel when fewer than five reads cover [p] or
    [c] is [N]; otherwise thirty entries, fifteen of them undefined. *)
Definition column_shape (sam : list read) (c : ascii) (p : nat) (col : ecol) : Prop :=
  match col with
  | ESent => (Reads.coverage sam p < 5)%nat \/ c = "N"%char
  | ECol v =>
      (5 <= Reads.coverage sam p)%nat /\ c <> "N"%char
      /\ List.length v = 30%nat
      /\ (if Ascii.eqb c gap then firstn 15 v else skipn 15 v) = repeat ENaN 15
  end.

Definition probability (x : Q) : Prop := (0 <= x /\ x <= 1)%Q.

(** A distribution over the four classes. *)
Definition class_distribution (row : list Q) : Prop :=
  List.length row = 4%nat /\ (Transition.sumQ row == 1)%Q
  /\ Forall (fun x => (0 <= x)%Q) row.

End Columns.

(** ** Decoded paths and genotype tables *)

Module Paths.

(** What a decoded state says about its column. *)
Definition state_of_column (c : ecol) (x : Z) : Prop :=
  match c with
  | ESent => x = (-1)%Z
  | ECol _ => (0 <= x < 30)%Z
  end.

Definition state_of_delta (d : dcol) (x : Z) : Prop :=
  match d with
  | DSent => x = (-1)%Z
  | DCol _ => (0 <= x < 30)%Z
  end.

(** The reference characters that have a genotype table. *)
Definition table_base (c : ascii) : Prop := In c (chars "ACGT-").

(** The genotype as an unordered pair. *)
Definition same_genotype (x y : bstate) : Prop :=
  match x, y with
  | BPair a b, BPair c d => (a = c /\ b = d) \/ (a = d /\ b = c)
  | _, _ => x = y
  end.

End Paths.

(** ** Variant records and lines of the result file *)

Module Records.

Import Formatter.

(** A position whose decoded state is none of 0, 29 and -1. *)
Definition variant_at (xtilde : list Z) (i : nat) : bool :=
  negb (no_variant (nth i xtilde 0%Z)).

(** The record of a position of a reference that has no insertion
    before it. *)
Definition record_at (ref upd_ref : list ascii) (base_states : list bstate)
  (xtilde : list Z) (i : nat) : result string :=
  deletion_or_snp tab false ref upd_ref base_states xtilde i 0.

(** The base that a deletion record is anchored on: the one before
    position [i], which for [i = 0] is the last one. *)
Definition anchor (ref : list ascii) (i : nat) : option ascii :=
  match i with
  | O => nth_error ref (List.length ref - 1)
  | S j => nth_error ref j
  end.

(** Two lists that agree from index [m] on, and two lists that agree
    everywhere but at index [p]. *)
Definition agree_from {A} (m : nat) (a a' : list A) : Prop :=
  forall n, (m <= n)%nat -> nth_error a n = nth_error a' n.

Definition agree_except {A} (p : nat) (a a' : list A) : Prop :=
  forall n, n <> p -> nth_error a n = nth_error a' n.

Local Open Scope string_scope.

Definition tabc : ascii := ascii_of_nat 9.

Definition no_tab (s : string) : Prop := ~ In tabc (chars s).

(** A line of the result file: chromosome, position, ID and the rest
    of the record. *)
Definition vcf_line (pos rest : string) : string :=
  "simref" ++ tab ++ pos ++ tab ++ "." ++ tab ++ rest ++ Writer.newline.

Definition record_of (field : string * string) : string :=
  fst field ++ tab ++ snd field.

Definition header : list string :=
  [Writer.meta_info ++ Writer.newline; Writer.marker_info ++ Writer.newline].

End Records.

(** ** Records up to their separator *)

Module Layout.

Import Formatter.

Local Open Scope string_scope.

(** The three columns of a record (position, reference, alternative)
    and the record they make with a given separator. *)
Definition columns : Type := (string * string * string)%type.

Definition joined (sep : string) (c : columns) : string :=
  let '(pos, reference, alternative) := c in
  pos ++ sep ++ reference ++ sep ++ alternative.

(** No variant state falls on a gap of the gapped reference, so that
    no insertion run is reported. *)
Definition no_insertion_call (upd_ref : list ascii) (xtilde : list Z) : Prop :=
  forall n x,
    nth_error upd_ref n = Some gap -> nth_error xtilde n = Some x ->
    no_variant x = true.

(** At no variant state does the genotype pair the reference base with
    a different base. *)
Definition no_reference_pair (upd_ref : list ascii) (base_states : list bstate)
  (xtilde : list Z) : Prop :=
  forall n x u b0 b1,
    nth_error xtilde n = Some x -> no_variant x = false ->
    nth_error upd_ref n = Some u -> nth_error base_states n = Some (BPair b0 b1) ->
    b0 = u \/ b1 = u -> b0 = b1 \/ b0 = gap \/ b1 = gap.

(** Two results that are the same list of records up to the separator,
    or the same exception. *)
Definition same_records (sep1 sep2 : string) (r1 r2 : result (list string)) : Prop :=
  (exists records : list columns,
     r1 = Ok (map (joined sep1) records) /\ r2 = Ok (map (joined sep2) records))
  \/ (exists e, r1 = Err e /\ r2 = Err e).

(** The local variables of the two loops after the same iterations:
    the same gap counter, the same records up to the separator. *)
Definition related (st st' : fstate) : Prop :=
  gap_counter st = gap_counter st'
  /\ exists records : list columns,
       variant_list st = map (joined tab) records
       /\ variant_list st' = map (joined sep') records.

End Layout.

(* ================================================================== *)
(** * Properties *)
(* ================================================================== *)

(** ** Alignment normaliser *)

Section NormalizerFacts.

Import Normalizer.
Local Open Scope Z_scope.

Lemma slice_from_skipn {A} (l : list A) (k : Z) :
  0 <= k -> slice_from l k = skipn (Z.to_nat k) l.
Proof.
  intros Hk. unfold slice_from, clamp.
  destruct (Z.ltb_spec k 0) as [Hlt | _]; [lia |].
  destruct (Z.le_gt_cases k (Z.of_nat (List.length l))) as [Hle | Hgt].
  - rewrite Z.min_l by lia. reflexivity.
  - rewrite Z.min_r by lia. rewrite Nat2Z.id.
    rewrite skipn_all. symmetry. apply skipn_all2. lia.
Qed.

Variables (name : string) (sequence : list ascii) (mapq : Z) (quals : list qual).
Variables (readnames : list string) (insertions : list insertion).

(** What [get_cigar] does with a read at offset 100 whose operations
    are soft-clip 3, match 5, insertion 2, match 10, when its name has
    not been seen: the start offset becomes 103 and the first three
    bases go, the quality list is handed on as it came, and the event is
    recorded at 111, because the running offset has counted the three
    clipped bases as well. *)
Lemma get_cigar_read_scenario :
  mem_string name readnames = false ->
  get_cigar_read readnames insertions
    (mkRead 100 name sequence (Some Scenario.cigar_B) mapq quals)
  = Some (mkRead 103 name (skipn 3 sequence) (Some [(0, 5); (1, 2); (0, 10)]) mapq quals,
          insertions ++ [(111, 2, name)]).
Proof.
  intros Hfresh.
  unfold get_cigar_read, Scenario.cigar_B. cbn [r_cigar fold_left].
  set (r1 := mkRead 103 name (slice_from sequence 3) (Some [(0, 5); (1, 2); (0, 10)])
                    mapq quals).
  assert (S1 : cigar_step readnames
                 (mkCS (mkRead 100 name sequence
                               (Some [(4, 3); (0, 5); (1, 2); (0, 10)]) mapq quals)
                       true true true 0 0 insertions) (4, 3)
               = mkCS r1 false true true 0 3 insertions) by reflexivity.
  assert (S2 : cigar_step readnames (mkCS r1 false true true 0 3 insertions) (0, 5)
               = mkCS r1 false true true 0 8 insertions) by reflexivity.
  assert (S3 : cigar_step readnames (mkCS r1 false true true 0 8 insertions) (1, 2)
               = mkCS r1 false true false 2 10 (insertions ++ [(111, 2, name)])).
  { unfold cigar_step, cigar_case. cbn [cs_read r_name r1 Z.eqb Pos.eqb].
    rewrite Hfresh. reflexivity. }
  assert (S4 : cigar_step readnames
                 (mkCS r1 false true false 2 10 (insertions ++ [(111, 2, name)])) (0, 10)
               = mkCS r1 false true false 2 20 (insertions ++ [(111, 2, name)]))
    by reflexivity.
  rewrite S1, S2, S3, S4. cbn [cs_read cs_insertions]. unfold r1.
  rewrite (slice_from_skipn sequence (k := 3)) by lia.
  reflexivity.
Qed.

End NormalizerFacts.

(** C4, evaluated on the read of Scenario B.  The normaliser moves the
    start offset to 103 and drops the first three bases, but it leaves
    all twenty quality values in place and records the insertion at
    coordinate 111, not 108: the running offset [pos] has also counted
    the three soft-clipped bases that the start offset already absorbed. *)
Theorem get_cigar_scenario_B :
  Normalizer.get_cigar [Scenario.read_B]
  = ([mkRead 103 "r1" (chars "TACGTACGTACGTACGT")
             (Some [(0, 5); (1, 2); (0, 10)]%Z) 60 (repeat (QVal (30 # 1)) 20)],
     [(111, 2, "r1"%string)]%Z).
Proof.
  unfold Normalizer.get_cigar, Normalizer.get_cigar_loop, Scenario.read_B.
  rewrite get_cigar_read_scenario by reflexivity.
  reflexivity.
Qed.

(** ** Coordinate realigner *)

Section RealignerFacts.

Import Realigner.
Local Open Scope Z_scope.

Lemma key_eqb_false_lt (a b : Z * Z) : fst a < fst b -> key_eqb a b = false.
Proof.
  intros H. unfold key_eqb.
  destruct (Z.eqb_spec (fst a) (fst b)); [lia | reflexivity].
Qed.

(** Setting a key above every key of the dictionary appends it. *)
Lemma dict_set_above (d : ins_dict) (k : Z * Z) (v : list string) :
  Forall (fun k' => fst k' < fst k) (keys d) ->
  dict_set d k v = d ++ [(k, v)].
Proof.
  induction d as [| [k' v'] d IH]; intros H; [reflexivity |].
  cbn [keys map fst] in H. inversion H as [| ? ? Hk Hrest]; subst.
  cbn [dict_set]. rewrite key_eqb_false_lt by exact Hk.
  cbn [app]. f_equal. apply IH. exact Hrest.
Qed.

Lemma ascending_tail (a : Z * Z) (l : list (Z * Z)) :
  ascending (a :: l) -> ascending l.
Proof. destruct l; cbn; tauto. Qed.

Lemma ascending_head_le (a b : Z * Z) (l : list (Z * Z)) :
  ascending (a :: b :: l) -> fst a <= fst b.
Proof. cbn. unfold key_lt. intros [[H | [H _]] _]; lia. Qed.

Lemma update_insertions_loop_app (items : ins_dict) :
  forall (temp : Z) (upd : ins_dict),
    ascending (keys items) ->
    Forall (fun k => 0 < snd k) (keys items) ->
    (forall c l names rest, items = ((c, l), names) :: rest ->
       Forall (fun k' => fst k' < c + temp) (keys upd)) ->
    update_insertions_loop items temp upd
    = upd ++ combine (effective_keys (keys items) temp) (map snd items).
Proof.
  induction items as [| [[c l] names] rest IH]; intros temp upd Hasc Hpos Hbound.
  - cbn. now rewrite app_nil_r.
  - cbn [update_insertions_loop keys map fst snd effective_keys combine].
    pose proof (Hbound c l names rest eq_refl) as Hb.
    rewrite dict_set_above by exact Hb.
    cbn [keys map fst] in Hasc, Hpos.
    inversion Hpos as [| ? ? Hl Hpos']; subst. cbn [snd] in Hl.
    rewrite IH.
    + rewrite <- app_assoc. reflexivity.
    + eapply ascending_tail; exact Hasc.
    + exact Hpos'.
    + intros c2 l2 names2 rest2 Heq. subst rest.
      cbn [keys map fst] in Hasc.
      pose proof (@ascending_head_le _ _ _ Hasc) as Hle. cbn [fst] in Hle.
      unfold keys. rewrite map_app. apply Forall_app. split.
      * eapply Forall_impl; [| exact Hb]. cbn. intros k' Hk'. lia.
      * constructor; [cbn; lia | constructor].
Qed.

Lemma effective_keys_length (l : list (Z * Z)) :
  forall before, List.length (effective_keys l before) = List.length l.
Proof.
  induction l as [| [c n] l IH]; intros before; cbn; [reflexivity |].
  now rewrite IH.
Qed.

Lemma keys_combine (ks : list (Z * Z)) (vs : list (list string)) :
  List.length ks = List.length vs -> keys (combine ks vs) = ks.
Proof.
  revert vs. induction ks as [| k ks IH]; intros [| v vs] H; cbn in *;
    try discriminate; [reflexivity |].
  f_equal. apply IH. lia.
Qed.

Lemma update_startpos_read_start (events : list (Z * Z)) :
  forall (r : read),
    r_start (fold_left
               (fun (r : read) (insert : Z * Z) =>
                  if r.(r_start) >? fst insert then
                    mkRead (r.(r_start) + snd insert) r.(r_name) r.(r_seq) r.(r_cigar)
                           r.(r_mapq) r.(r_qual)
                  else r)
               events r)
    = shifted_start events (r_start r).
Proof.
  induction events as [| [c n] events IH]; intros r; [reflexivity |].
  cbn [fold_left shifted_start fst snd].
  rewrite IH. rewrite Z.gtb_ltb.
  destruct (c <? r_start r); reflexivity.
Qed.

End RealignerFacts.



(** ** Loops that cannot raise *)

Section PyFacts.

Lemma at_nth_error {A} (l : list A) (i : nat) :
  at_ l i = match nth_error l i with
            | Some a => Ok a
            | None => Err IndexError
            end.
Proof.
  unfold at_, Py.get.
  destruct (Z.leb_spec 0 (Z.of_nat i)) as [_ | H]; [| lia].
  now rewrite Nat2Z.id.
Qed.

Lemma at_ok {A} (l : list A) (i : nat) (d : A) :
  (i < List.length l)%nat -> at_ l i = Ok (nth i l d).
Proof.
  intros H. rewrite at_nth_error.
  now rewrite (nth_error_nth' l d H).
Qed.

Lemma at_out {A} (l : list A) (i : nat) :
  (List.length l <= i)%nat -> at_ l i = Err IndexError.
Proof.
  intros H. rewrite at_nth_error.
  apply nth_error_None in H. now rewrite H.
Qed.

Lemma mapM_ok {A B} (f : A -> result B) (g : A -> B) (l : list A) :
  (forall a, In a l -> f a = Ok (g a)) -> mapM f l = Ok (map g l).
Proof.
  induction l as [| a l IH]; intros H; [reflexivity |].
  cbn [mapM map]. rewrite (H a) by (left; reflexivity). cbn [Py.bind].
  rewrite IH by (intros; apply H; right; assumption). reflexivity.
Qed.

Lemma mapM_length {A B} (f : A -> result B) (l : list A) (r : list B) :
  mapM f l = Ok r -> List.length r = List.length l.
Proof.
  revert r. induction l as [| a l IH]; intros r; cbn [mapM].
  - intros [= <-]. reflexivity.
  - destruct (f a); [| discriminate]. cbn [Py.bind].
    destruct (mapM f l) as [tl |]; [| discriminate]. cbn [Py.bind].
    intros [= <-]. cbn. now rewrite (IH tl).
Qed.

End PyFacts.

(** ** Transition matrix *)

Section TransitionFacts.

Import Transition.
Local Open Scope Q_scope.

Lemma create_row_entries (a b c d h : Q) :
  create_row_transition_matrix [a; b; c; d] h = Ok (row_entries a b c d h).
Proof. reflexivity. Qed.

Lemma create_row_short (v : list Q) (h : Q) :
  (List.length v < 4)%nat -> create_row_transition_matrix v h = Err IndexError.
Proof.
  intros H. unfold create_row_transition_matrix.
  rewrite at_out by lia. reflexivity.
Qed.

(** A row built from class probabilities that sum to one sums to one. *)
Lemma row_entries_sum (a b c d h : Q) :
  sumQ [a; b; c; d] == 1 -> sumQ (row_entries a b c d h) == 1.
Proof.
  intros H. unfold sumQ in H. cbn [fold_right] in H.
  assert (E : sumQ (row_entries a b c d h)
              == (a + (b + (c + (d + 0)))) * (1 - d * h / 32) + d * h / 32).
  { unfold sumQ, row_entries. cbn [fold_right]. field. }
  rewrite E, H. ring.
Qed.

Lemma row_entries_length (a b c d h : Q) :
  List.length (row_entries a b c d h) = 30%nat.
Proof. reflexivity. Qed.

Lemma mean_row_ok (row1 row14 : list Q) :
  List.length row14 = List.length row1 ->
  mean_row row1 row14
  = Ok (map (fun j => (nth j row1 0 + nth j row14 0) / 2) (seq 0 (List.length row1))).
Proof.
  intros H. unfold mean_row. apply mapM_ok.
  intros j Hj. apply in_seq in Hj.
  rewrite (at_ok row1 0) by lia. rewrite (at_ok row14 0) by lia. reflexivity.
Qed.

Lemma mean_sum (xs : list Q) :
  forall ys, List.length ys = List.length xs ->
  sumQ (map (fun p => (fst p + snd p) / 2) (combine xs ys)) == (sumQ xs + sumQ ys) / 2.
Proof.
  induction xs as [| x xs IH]; intros [| y ys] H; cbn in H; try discriminate.
  - cbn. field.
  - cbn [combine map sumQ fold_right fst snd].
    change (fold_right Qplus 0 (map (fun p => (fst p + snd p) / 2) (combine xs ys)))
      with (sumQ (map (fun p => (fst p + snd p) / 2) (combine xs ys))).
    rewrite IH by lia. unfold sumQ. field.
Qed.

Lemma mean_as_combine (xs ys : list Q) :
  List.length ys = List.length xs ->
  map (fun j => (nth j xs 0 + nth j ys 0) / 2) (seq 0 (List.length xs))
  = map (fun p => (fst p + snd p) / 2) (combine xs ys).
Proof.
  revert ys. induction xs as [| x xs IH]; intros [| y ys] H; cbn in H;
    try discriminate; [reflexivity |].
  cbn [List.length seq map combine nth fst snd]. f_equal.
  rewrite <- seq_shift, map_map. cbn [nth]. apply IH. lia.
Qed.

End TransitionFacts.

Section TransitionMatrixFacts.

Import Transition.
Local Open Scope Q_scope.

Variables (p0 p1 p2 p3 : Q * Q * Q * Q) (h : Q).

Local Abbreviation row_of := (Transition.row_of h).
Local Abbreviation mean := (Transition.mean_of_rows (row_of p1) (row_of p2)).

(** The matrix row by row. *)
Lemma create_transition_matrix_rows :
  create_transition_matrix [class_row p0; class_row p1; class_row p2; class_row p3] h
  = Ok ([row_of p0; row_of p1; row_of p1; row_of p1; row_of p1; row_of p1; row_of p1;
         mean; row_of p1; row_of p1; mean; row_of p1; mean; mean; row_of p2]
          ++ repeat (row_of p3) 14 ++ [repeat (1 / 30) 30]).
Proof.
  destruct p0 as [[[a0 b0] c0] d0], p1 as [[[a1 b1] c1] d1],
           p2 as [[[a2 b2] c2] d2], p3 as [[[a3 b3] c3] d3].
  unfold create_transition_matrix, class_row, Transition.row_of, Transition.mean_of_rows.
  rewrite !(at_ok _ []) by (cbn; lia). cbn [nth Py.bind].
  rewrite !create_row_entries. cbn [Py.bind].
  rewrite mean_row_ok by reflexivity.
  rewrite mean_as_combine by reflexivity.
  reflexivity.
Qed.

End TransitionMatrixFacts.

(** C2.  For a 4x4 class matrix whose rows sum to one and a
    heterozygosity rate in [0,1), [create_transition_matrix] returns
    thirty rows of thirty entries; in exact rational arithmetic each of
    the rows 0 to 28 sums to one, and every entry of row 29 is 1/30. *)
Theorem transition_rows_sum_to_one (pre_transition_matrix : list (list Q)) (hetrate : Q) :
  List.length pre_transition_matrix = 4%nat ->
  Forall (fun row => List.length row = 4%nat /\ Transition.sumQ row == 1)
         pre_transition_matrix ->
  0 <= hetrate /\ hetrate < 1 ->
  exists tm,
    Transition.create_transition_matrix pre_transition_matrix hetrate = Ok tm
    /\ List.length tm = 30%nat
    /\ (forall i row, (i < 29)%nat -> nth_error tm i = Some row ->
          List.length row = 30%nat /\ Transition.sumQ row == 1)
    /\ (exists row29, nth_error tm 29 = Some row29
          /\ List.length row29 = 30%nat /\ Forall (fun x => x == 1 # 30) row29).
Proof.
  intros Hlen Hrows _.
  destruct pre_transition_matrix as [| r0 [| r1 [| r2 [| r3 [| ? ?]]]]];
    try discriminate.
  repeat match goal with
         | H : Forall _ (_ :: _) |- _ => inversion H; clear H; subst
         end.
  repeat match goal with
         | H : List.length ?r = 4%nat /\ _ |- _ =>
             let L := fresh "L" in
             let S := fresh "S" in
             destruct H as [L S];
             destruct r as [| ? [| ? [| ? [| ? [| ? ?]]]]]; try discriminate
         end.
  match goal with
  | |- context [Transition.create_transition_matrix
                  [[?a0; ?b0; ?c0; ?d0]; [?a1; ?b1; ?c1; ?d1];
                   [?a2; ?b2; ?c2; ?d2]; [?a3; ?b3; ?c3; ?d3]] _] =>
      pose proof (create_transition_matrix_rows
                    (a0, b0, c0, d0) (a1, b1, c1, d1) (a2, b2, c2, d2) (a3, b3, c3, d3)
                    hetrate) as E;
      pose proof (row_entries_sum hetrate (a := a0) (b := b0) (c := c0) (d := d0)) as S0';
      pose proof (row_entries_sum hetrate (a := a1) (b := b1) (c := c1) (d := d1)) as S1';
      pose proof (row_entries_sum hetrate (a := a2) (b := b2) (c := c2) (d := d2)) as S2';
      pose proof (row_entries_sum hetrate (a := a3) (b := b3) (c := c3) (d := d3)) as S3'
  end.
  cbv beta iota zeta delta [Transition.row_of Transition.class_row
                              Transition.mean_of_rows] in E.
  rewrite E. clear E.
  eexists. split; [reflexivity |]. split; [reflexivity |]. split.
  - intros i row Hi Hnth.
    assert (Hmean : forall xs ys : list Q,
               List.length xs = 30%nat -> List.length ys = 30%nat ->
               Transition.sumQ xs == 1 -> Transition.sumQ ys == 1 ->
               List.length (map (fun q => (fst q + snd q) / 2) (combine xs ys)) = 30%nat
               /\ Transition.sumQ (map (fun q => (fst q + snd q) / 2) (combine xs ys)) == 1).
    { intros xs ys Lx Ly Sx Sy. split.
      - rewrite length_map, length_combine, Lx, Ly. reflexivity.
      - rewrite mean_sum by congruence. rewrite Sx, Sy. reflexivity. }
    repeat (destruct i as [| i];
            [ cbn [nth_error app repeat] in Hnth;
              match type of Hnth with
              | Some ?x = Some _ =>
                  let Hr := fresh "Hr" in
                  assert (Hr : row = x) by congruence; rewrite Hr
              end;
              first [ split; [reflexivity | solve [auto] ]
                    | apply Hmean; solve [auto using row_entries_length] ]
            | ]).
    lia.
  - eexists. split; [reflexivity |]. split; [reflexivity |].
    repeat constructor.
Qed.

Lemma transition_rows_sum_to_one_witness :
  List.length Transition.pre_transition_matrix_simulated = 4%nat
  /\ Forall (fun row => List.length row = 4%nat /\ Transition.sumQ row == 1)
            Transition.pre_transition_matrix_simulated
  /\ (0 <= Transition.hetrate_simulated /\ Transition.hetrate_simulated < 1)
  /\ exists tm,
       Transition.create_transition_matrix Transition.pre_transition_matrix_simulated
                                           Transition.hetrate_simulated = Ok tm
       /\ List.length tm = 30%nat
       /\ (forall i row, (i < 29)%nat -> nth_error tm i = Some row ->
             List.length row = 30%nat /\ Transition.sumQ row == 1)
       /\ (exists row29, nth_error tm 29 = Some row29
             /\ List.length row29 = 30%nat /\ Forall (fun x => x == 1 # 30) row29).
Proof.
  assert (H1 : List.length Transition.pre_transition_matrix_simulated = 4%nat)
    by reflexivity.
  assert (H2 : Forall (fun row => List.length row = 4%nat /\ Transition.sumQ row == 1)
                      Transition.pre_transition_matrix_simulated).
  { repeat constructor. }
  assert (H3 : 0 <= Transition.hetrate_simulated /\ Transition.hetrate_simulated < 1).
  { split; reflexivity || (intro; discriminate). }
  split; [exact H1 | split; [exact H2 | split; [exact H3 |]]].
  exact (transition_rows_sum_to_one H1 H2 H3).
Defined.

(** ** Quality repair *)

Section RepairFacts.

Import Emission.

Lemma forallb_gap_all_equal (q0 : qual) (qs : list qual) :
  forallb is_gap_qual (q0 :: qs) = true -> all_equal_first (q0 :: qs) = true.
Proof.
  intros H. unfold all_equal_first.
  apply forallb_forall. intros x Hx.
  rewrite forallb_forall in H.
  pose proof (H x Hx) as Gx. pose proof (H q0 (or_introl eq_refl)) as G0.
  destruct x, q0; try discriminate; reflexivity.
Qed.

(** The repair of the program and the repair of its comments agree on
    every column except the ones whose qualities are all the same
    number. *)
Lemma repair_quality_agrees (pileup_qual : list qual) (mapq_list : list Z) :
  (all_equal_first pileup_qual = true -> forallb is_gap_qual pileup_qual = true) ->
  repair_quality pileup_qual mapq_list = repair_quality_spec pileup_qual mapq_list.
Proof.
  intros H. unfold repair_quality, repair_quality_spec.
  destruct pileup_qual as [| q0 qs]; [reflexivity |].
  cbn [truthy map]. rewrite andb_true_r.
  destruct (all_equal_first (q0 :: qs)) eqn:E.
  - now rewrite (H eq_refl).
  - destruct (forallb is_gap_qual (q0 :: qs)) eqn:F; [| reflexivity].
    apply forallb_gap_all_equal in F. congruence.
Qed.

(** When only some qualities are the placeholder, each placeholder
    becomes the mean of the numbers and the numbers stay. *)
Lemma repair_quality_some_gaps (pileup_qual : list qual) (mapq_list : list Z) :
  existsb is_gap_qual pileup_qual = true ->
  forallb is_gap_qual pileup_qual = false ->
  repair_quality pileup_qual mapq_list = Ok (fill_mean pileup_qual).
Proof.
  intros Hsome Hnot.
  rewrite repair_quality_agrees.
  - unfold repair_quality_spec. now rewrite Hnot, Hsome.
  - intros E. destruct pileup_qual as [| q0 qs]; [discriminate |].
    unfold all_equal_first in E. rewrite forallb_forall in E.
    apply forallb_forall. intros x Hx.
    apply existsb_exists in Hsome. destruct Hsome as (y & Hy & Gy).
    pose proof (E y Hy) as Ey. pose proof (E x Hx) as Ex.
    destruct y; [| discriminate]. destruct q0; [| discriminate].
    destruct x; [reflexivity | discriminate].
Qed.

(** Scenario D: the gap of the six-read column receives the mean
    100/5 of the five qualities 20. *)
Lemma repair_quality_scenario_D :
  exists m, repair_quality Scenario.quals_D Scenario.mapqs_D
            = Ok (QVal m :: repeat (QVal (20 # 1)) 5)
            /\ m == 20 # 1.
Proof.
  exists (100 # 5). split; reflexivity.
Qed.

End RepairFacts.

(** C3, evaluated on a column of five reads that all carry base [A]
    with quality 30 and mapping quality 60.  No quality is the gap
    placeholder, yet the program replaces every one of them by
    [mapping_quality / 4 = 15]: its test asks whether all qualities are
    equal, the list comprehension after [and] being a non-empty list and
    therefore true.  The repair the comments describe leaves the column
    as it is. *)
Theorem repair_quality_equal_qualities :
  Realigner.get_pileup Scenario.sam_equal 0
    = Ok (chars "AAAAA", Scenario.quals_equal, Scenario.mapqs_equal)
  /\ existsb Emission.is_gap_qual Scenario.quals_equal = false
  /\ Emission.repair_quality Scenario.quals_equal Scenario.mapqs_equal
     = Ok (repeat (QVal (60 # 4)) 5)
  /\ Emission.repair_quality_spec Scenario.quals_equal Scenario.mapqs_equal
     = Ok Scenario.quals_equal.
Proof. repeat split. Qed.

(** ** Genotype resolver *)

Section ResolverFacts.

Import Resolver.
Local Open Scope Z_scope.

Lemma get_in_range {A} (l : list A) (k : Z) :
  0 <= k < Z.of_nat (List.length l) -> exists a, Py.get l k = Ok a.
Proof.
  intros [H0 H1]. unfold Py.get.
  destruct (Z.leb_spec 0 k) as [_ | ?]; [| lia].
  destruct (nth_error l (Z.to_nat k)) as [a |] eqn:E; [now exists a |].
  apply nth_error_None in E. lia.
Qed.

Lemma lookup_in_range (table : list Emission.genotype) (state : Z) :
  0 <= state < Z.of_nat (List.length table) -> exists b, lookup table state = Ok b.
Proof.
  intros H. destruct (get_in_range table H) as [gt E].
  unfold lookup. rewrite E. cbn. eauto.
Qed.

Lemma base_state_at_total (state : Z) (base : ascii) :
  -1 <= state <= 29 -> exists b, base_state_at state base = Ok b.
Proof.
  intros H. unfold base_state_at.
  destruct (Z.eqb_spec state (-1)); [eauto |].
  repeat match goal with
         | |- context [if ?c then _ else _] => destruct c
         end;
    eauto; apply lookup_in_range; cbn; lia.
Qed.

Lemma find_loop_spec (xtilde : list Z) (rest : list ascii) :
  forall i : nat,
    (i + List.length rest <= List.length xtilde)%nat ->
    Forall (fun s => -1 <= s <= 29) xtilde ->
    exists bs,
      find_loop xtilde rest i = Ok bs
      /\ List.length bs = List.length rest
      /\ forall k base, nth_error rest k = Some base ->
           exists state b,
             nth_error xtilde (i + k) = Some state
             /\ nth_error bs k = Some b
             /\ base_state_at state base = Ok b.
Proof.
  induction rest as [| base rest IH]; intros i Hlen Hrange.
  - exists []. repeat split. intros [| k] ? ?; discriminate.
  - cbn [List.length] in Hlen. cbn [find_loop].
    rewrite at_nth_error.
    destruct (nth_error xtilde i) as [state |] eqn:E;
      [| apply nth_error_None in E; lia].
    cbn [Py.bind].
    assert (Hs : -1 <= state <= 29).
    { rewrite Forall_forall in Hrange. apply Hrange. eapply nth_error_In; eauto. }
    destruct (base_state_at_total base Hs) as [b Hb]. rewrite Hb. cbn [Py.bind].
    destruct (IH (S i)) as (bs & Hbs & Hl & Hk); [lia | assumption |].
    rewrite Hbs. cbn [Py.bind]. exists (b :: bs). repeat split.
    + cbn. now rewrite Hl.
    + intros [| k] base' Hnth.
      * cbn in Hnth. injection Hnth as <-. exists state, b.
        rewrite Nat.add_0_r. repeat split; assumption.
      * cbn in Hnth. destruct (Hk k base' Hnth) as (st & b' & H1 & H2 & H3).
        exists st, b'. rewrite Nat.add_succ_r. repeat split; assumption.
Qed.

End ResolverFacts.

(** ** The decoder as two recursions *)

Section ViterbiLoops.

Import Viterbi.

Lemma fold_bind_err {S} (body : S -> nat -> result S) (l : list nat) (e : pyerr) :
  fold_left (fun acc i => Py.bind acc (fun s => body s i)) l (Err e) = Err e.
Proof. induction l as [| i l IH]; [reflexivity | exact IH]. Qed.

Lemma at_app_here {A} (done : list A) (c : A) (rest : list A) :
  at_ (done ++ c :: rest) (List.length done) = Ok c.
Proof.
  rewrite at_nth_error, nth_error_app2 by lia.
  now rewrite Nat.sub_diag.
Qed.

Lemma at_app_last {A} (done : list A) (c : A) (rest : list A) :
  at_ ((done ++ [c]) ++ rest) (List.length (done ++ [c]) - 1) = Ok c.
Proof.
  rewrite <- app_assoc. cbn [app].
  rewrite length_app. cbn [List.length].
  replace (List.length done + 1 - 1)%nat with (List.length done) by lia.
  apply at_app_here.
Qed.

Variables (transmission_matrix : list (list fl)) (initialprob : list fl).

Lemma forward_loop_fwd (todo : list column) :
  forall (done : list column) (delta : list dcol) (prev : option (list fl)),
    fwd_inv done delta prev ->
    fold_left
      (fun acc i =>
         Py.bind acc (fun d =>
         forward_column transmission_matrix initialprob (done ++ todo) d i))
      (seq (List.length done) (List.length todo)) (Ok delta)
    = Py.bind (fwd transmission_matrix initialprob prev todo) (fun tl =>
      Ok (delta ++ tl)).
Proof.
  induction todo as [| c rest IH]; intros done delta prev [Hlen Hprev].
  - cbn. now rewrite app_nil_r.
  - cbn [List.length seq fold_left Py.bind].
    unfold forward_column at 2. rewrite at_app_here. cbn [Py.bind].
    assert (Hshift : forall d' prev',
               fwd_inv (done ++ [c]) d' prev' ->
               fold_left
                 (fun acc i =>
                    Py.bind acc (fun d =>
                    forward_column transmission_matrix initialprob
                                   (done ++ c :: rest) d i))
                 (seq (S (List.length done)) (List.length rest)) (Ok d')
               = Py.bind (fwd transmission_matrix initialprob prev' rest) (fun tl =>
                 Ok (d' ++ tl))).
    { intros d' prev' Hinv.
      specialize (IH (done ++ [c]) d' prev' Hinv).
      rewrite <- app_assoc in IH. cbn [app] in IH.
      rewrite length_app in IH. cbn [List.length] in IH.
      rewrite Nat.add_1_r in IH. exact IH. }
    destruct c as [col |].
    + (* a data column *)
      match goal with
      | |- context [Py.bind (if ?c then Ok true else ?e) _] =>
          assert (Hfresh :
                    (if c then Ok true else e)
                    = Ok (match prev with None => true | Some _ => false end))
      end.
      { destruct prev as [p |].
        - destruct Hprev as (done' & c' & delta' & -> & _).
          destruct (_ =? 0)%nat eqn:E.
          + apply Nat.eqb_eq in E. rewrite length_app in E. cbn in E. lia.
          + rewrite at_app_last. reflexivity.
        - destruct Hprev as [-> | (done' & ->)]; [reflexivity |].
          destruct (_ =? 0)%nat eqn:E.
          + apply Nat.eqb_eq in E. rewrite length_app in E. cbn in E. lia.
          + rewrite at_app_last. reflexivity. }
      rewrite Hfresh. cbn [Py.bind fwd].
      destruct prev as [p |].
      * destruct Hprev as (done' & c' & delta' & Hd & ->).
        assert (Hat : at_ (delta' ++ [DCol p]) (List.length done - 1) = Ok (DCol p)).
        { rewrite <- Hlen. rewrite length_app. cbn [List.length].
          replace (List.length delta' + 1 - 1)%nat with (List.length delta') by lia.
          apply at_app_here. }
        rewrite Hat. cbn [Py.bind].
        destruct (next_column transmission_matrix p col) as [v | e]; cbn [Py.bind].
        -- rewrite Hshift with (prev' := Some v).
           ++ destruct (fwd transmission_matrix initialprob (Some v) rest);
                cbn [Py.bind]; [| reflexivity].
              now rewrite <- app_assoc.
           ++ split.
              ** rewrite ?length_app in *. cbn [List.length] in *. lia.
              ** exists done, col, (delta' ++ [DCol p]). split; reflexivity.
        -- apply fold_bind_err.
      * destruct (initial_column initialprob col) as [v | e]; cbn [Py.bind].
        -- rewrite Hshift with (prev' := Some v).
           ++ destruct (fwd transmission_matrix initialprob (Some v) rest);
                cbn [Py.bind]; [| reflexivity].
              now rewrite <- app_assoc.
           ++ split.
              ** rewrite ?length_app in *. cbn [List.length] in *. lia.
              ** exists done, col, delta. split; reflexivity.
        -- apply fold_bind_err.
    + (* the sentinel *)
      cbn [fwd]. rewrite Hshift with (prev' := None).
      * destruct (fwd transmission_matrix initialprob None rest);
          cbn [Py.bind]; [| reflexivity].
        now rewrite <- app_assoc.
      * split.
        -- rewrite ?length_app in *. cbn [List.length] in *. lia.
        -- right. exists done. reflexivity.
Qed.

Lemma forward_fwd (emission_matrix : list column) :
  forward transmission_matrix initialprob emission_matrix
  = fwd transmission_matrix initialprob None emission_matrix.
Proof.
  unfold forward, Py.loop.
  pose proof (@forward_loop_fwd emission_matrix [] [] None) as H.
  cbn [app List.length] in H. rewrite H.
  - destruct (fwd transmission_matrix initialprob None emission_matrix); reflexivity.
  - split; [reflexivity | left; reflexivity].
Qed.

Lemma at_app_next {A} (done : list A) (c : A) (rest : list A) :
  at_ (done ++ c :: rest) (List.length done + 1)
  = match rest with
    | [] => Err IndexError
    | n :: _ => Ok n
    end.
Proof.
  rewrite at_nth_error, nth_error_app2 by lia.
  replace (List.length done + 1 - List.length done)%nat with 1%nat by lia.
  destruct rest; reflexivity.
Qed.

Lemma get_last {A} (l : list A) (x : A) :
  Py.get (l ++ [x]) (Z.of_nat (List.length (l ++ [x])) - 1) = Ok x.
Proof.
  rewrite length_app. cbn [List.length].
  replace (Z.of_nat (List.length l + 1) - 1)%Z with (Z.of_nat (List.length l)) by lia.
  apply (at_app_here l x []).
Qed.

Lemma backtrack_loop_bwd (todo : list dcol) :
  forall (done : list dcol) (xtilde : list Z) (px : option Z),
    bwd_inv done xtilde px ->
    fold_left
      (fun acc i =>
         Py.bind acc (fun x =>
         backtrack_column transmission_matrix (done ++ todo) x i))
      (seq (List.length done) (List.length todo)) (Ok xtilde)
    = Py.bind (bwd transmission_matrix px todo) (fun tl => Ok (xtilde ++ tl)).
Proof.
  induction todo as [| d rest IH]; intros done xtilde px [Hlen Hpx].
  - cbn. now rewrite app_nil_r.
  - cbn [List.length seq fold_left Py.bind].
    unfold backtrack_column at 2. rewrite at_app_here. cbn [Py.bind].
    assert (Hshift : forall x' s,
               List.length x' = List.length done ->
               fold_left
                 (fun acc i =>
                    Py.bind acc (fun x =>
                    backtrack_column transmission_matrix (done ++ d :: rest) x i))
                 (seq (S (List.length done)) (List.length rest)) (Ok (x' ++ [s]))
               = Py.bind (bwd transmission_matrix (Some s) rest) (fun tl =>
                 Ok ((x' ++ [s]) ++ tl))).
    { intros x' s Hx.
      specialize (IH (done ++ [d]) (x' ++ [s]) (Some s)).
      rewrite <- app_assoc in IH. cbn [app] in IH.
      rewrite length_app in IH. cbn [List.length] in IH.
      rewrite Nat.add_1_r in IH. apply IH. split.
      - rewrite !length_app. cbn [List.length]. lia.
      - split; [destruct done; discriminate | now exists x']. }
    destruct d as [| v].
    + (* the sentinel *)
      cbn [bwd]. rewrite Hshift by exact Hlen.
      destruct (bwd transmission_matrix (Some (-1)%Z) rest); cbn [Py.bind];
        [| reflexivity].
      now rewrite <- app_assoc.
    + (* a forward vector *)
      cbn [bwd].
      assert (Hdone : forall k : nat,
                 fold_left
                   (fun acc i =>
                      Py.bind acc (fun x =>
                      backtrack_column transmission_matrix (done ++ DCol v :: rest) x i))
                   (seq (S (List.length done)) (List.length rest))
                   (Ok (xtilde ++ [Z.of_nat k]))
                 = Py.bind (Py.bind (bwd transmission_matrix (Some (Z.of_nat k)) rest)
                              (fun tl => Ok (Z.of_nat k :: tl)))
                     (fun tl => Ok (xtilde ++ tl))).
      { intros k. rewrite Hshift by exact Hlen.
        destruct (bwd transmission_matrix (Some (Z.of_nat k)) rest); cbn [Py.bind];
          [| reflexivity].
        now rewrite <- app_assoc. }
      destruct px as [s |].
      * destruct Hpx as [Hne (x' & ->)].
        destruct (_ =? 0)%nat eqn:E.
        { apply Nat.eqb_eq in E. destruct done; [congruence | discriminate]. }
        rewrite at_app_next.
        destruct rest as [| n rest']; cbn [Py.bind].
        { apply fold_bind_err. }
        destruct n as [| w]; cbn [is_dsent Py.bind].
        -- destruct (argmax v) as [k | e]; cbn [Py.bind].
           ++ apply Hdone.
           ++ apply fold_bind_err.
        -- replace (Z.of_nat (List.length done) - 1)%Z
             with (Z.of_nat (List.length (x' ++ [s])) - 1)%Z
             by (rewrite Hlen; reflexivity).
           rewrite get_last. cbn [Py.bind].
           unfold linked_state.
           destruct (Py.get transmission_matrix s) as [trans_row | e]; cbn [Py.bind];
             [| apply fold_bind_err].
           match goal with
           | |- context [mapM ?f ?l] => destruct (mapM f l) as [temp_list | e]
           end; cbn [Py.bind]; [| apply fold_bind_err].
           destruct (argmax temp_list) as [k | e]; cbn [Py.bind].
           ++ apply Hdone.
           ++ apply fold_bind_err.
      * subst done. cbn [List.length Nat.eqb Py.bind].
        destruct (argmax v) as [k | e]; cbn [Py.bind].
        -- apply (Hdone k).
        -- apply fold_bind_err.
Qed.

Lemma backtrack_bwd (delta : list dcol) :
  backtrack transmission_matrix delta = bwd transmission_matrix None delta.
Proof.
  unfold backtrack, Py.loop.
  pose proof (@backtrack_loop_bwd delta [] [] None) as H.
  cbn [app List.length] in H. rewrite H.
  - destruct (bwd transmission_matrix None delta); reflexivity.
  - split; reflexivity.
Qed.

End ViterbiLoops.

(** The decoder, with both loops as recursions. *)
Lemma viterbi_recursive (emission_matrix : list ecol)
  (transmission_matrix : list (list fl)) :
  Viterbi.viterbi emission_matrix transmission_matrix
  = Py.bind (at_ transmission_matrix 0) (fun initialprob =>
    Py.bind (Viterbi.fwd transmission_matrix initialprob None
                         (Viterbi.prepare emission_matrix)) (fun delta =>
    Py.bind (Viterbi.bwd transmission_matrix None (rev delta)) (fun xtilde =>
    Ok (rev xtilde)))).
Proof.
  unfold Viterbi.viterbi.
  destruct (at_ transmission_matrix 0) as [initialprob |]; [| reflexivity].
  cbn [Py.bind]. rewrite forward_fwd.
  destruct (Viterbi.fwd _ _ _ _) as [delta |]; [| reflexivity].
  cbn [Py.bind]. now rewrite backtrack_bwd.
Qed.

(** ** The forward step on well-formed inputs *)

Section ForwardFacts.

Import Viterbi.

Variable t : list (list fl).
Hypothesis wf_t : wf_matrix t.

Lemma wf_row (y : nat) : (y < 30)%nat -> List.length (nth y t []) = 30%nat.
Proof.
  intros Hy. destruct wf_t as [Hl Hrows].
  rewrite Forall_forall in Hrows. apply Hrows. apply nth_In. lia.
Qed.

Lemma at_entry (y z : nat) :
  (y < 30)%nat -> (z < 30)%nat ->
  Py.bind (at_ t y) (fun row => at_ row z) = Ok (entry t y z).
Proof.
  intros Hy Hz. destruct wf_t as [Hl _].
  rewrite (at_ok t []) by lia. cbn [Py.bind].
  rewrite (at_ok _ NaN) by (rewrite wf_row; lia). reflexivity.
Qed.

Lemma np_max_max_of (l : list fl) : l <> [] -> np_max l = Ok (max_of l).
Proof. destruct l; [congruence | reflexivity]. Qed.

Lemma true_delta_row_closed (prev : list fl) (y : nat) :
  (y < 30)%nat -> List.length prev = 30%nat ->
  true_delta_row t prev y
  = Ok (map (fun z => fmul (entry t y z) (nth z prev NaN)) (seq 0 30)).
Proof.
  intros Hy Hp. unfold true_delta_row. apply mapM_ok.
  intros z Hz. apply in_seq in Hz.
  pose proof (@at_entry y z Hy ltac:(lia)) as E.
  destruct wf_t as [Hl _].
  rewrite (at_ok t []) in * by lia. cbn [Py.bind] in *.
  rewrite E. cbn [Py.bind].
  rewrite (at_ok prev NaN) by lia. reflexivity.
Qed.

Lemma spec_products_closed (prev : list fl) (j : nat) :
  (j < 30)%nat -> List.length prev = 30%nat ->
  spec_products t prev j
  = Ok (map (fun i => fmul (entry t i j) (nth i prev NaN)) (seq 0 30)).
Proof.
  intros Hj Hp. unfold spec_products. apply mapM_ok.
  intros i Hi. apply in_seq in Hi.
  pose proof (@at_entry i j ltac:(lia) Hj) as E.
  destruct wf_t as [Hl _].
  rewrite (at_ok t []) in * by lia. cbn [Py.bind] in *.
  rewrite E. cbn [Py.bind].
  rewrite (at_ok prev NaN) by lia. reflexivity.
Qed.

Lemma mapM_map {A B C} (f : B -> result C) (g : A -> B) (l : list A) :
  mapM f (map g l) = mapM (fun a => f (g a)) l.
Proof.
  induction l as [| a l IH]; [reflexivity |].
  cbn [map mapM]. now rewrite IH.
Qed.

Lemma scores_closed (maxima : nat -> fl) (col : list fl) :
  List.length col = 30%nat ->
  mapM (fun y =>
          Py.bind (at_ (map flog (map maxima (seq 0 30))) y) (fun m =>
          Py.bind (at_ col y) (fun e => Ok (fadd m e))))
       (seq 0 30)
  = Ok (scores maxima col).
Proof.
  intros Hc. unfold scores. apply mapM_ok.
  intros y Hy. apply in_seq in Hy.
  rewrite (at_ok _ NaN) by (rewrite !length_map, length_seq; lia).
  cbn [Py.bind]. rewrite (at_ok col NaN) by lia. cbn [Py.bind].
  rewrite map_map.
  rewrite (nth_indep _ NaN (flog (maxima 0%nat)))
    by (rewrite length_map, length_seq; lia).
  rewrite (map_nth (fun y => flog (maxima y)) (seq 0 30) 0%nat y).
  rewrite seq_nth by lia. reflexivity.
Qed.

(** The forward vector the program computes. *)
Lemma next_column_closed (prev col : list fl) :
  List.length prev = 30%nat -> List.length col = 30%nat ->
  next_column t prev col = Ok (normalise (scores (code_max t prev) col)).
Proof.
  intros Hp Hc. unfold next_column.
  rewrite (mapM_ok (true_delta_row t prev)
             (fun y => map (fun z => fmul (entry t y z) (nth z prev NaN)) (seq 0 30)))
    by (intros y Hy; apply in_seq in Hy; apply true_delta_row_closed; [lia | exact Hp]).
  cbn [Py.bind]. rewrite mapM_map.
  rewrite (mapM_ok _ (code_max t prev))
    by (intros y _; apply np_max_max_of; discriminate).
  cbn [Py.bind]. rewrite scores_closed by exact Hc. reflexivity.
Qed.

(** The forward vector the specification describes. *)
Lemma spec_next_column_closed (prev col : list fl) :
  List.length prev = 30%nat -> List.length col = 30%nat ->
  spec_next_column t prev col = Ok (normalise (scores (spec_max t prev) col)).
Proof.
  intros Hp Hc. unfold spec_next_column.
  rewrite (mapM_ok (spec_products t prev)
             (fun j => map (fun i => fmul (entry t i j) (nth i prev NaN)) (seq 0 30)))
    by (intros j Hj; apply in_seq in Hj; apply spec_products_closed; [lia | exact Hp]).
  cbn [Py.bind]. rewrite mapM_map.
  rewrite (mapM_ok _ (spec_max t prev))
    by (intros j _; apply np_max_max_of; discriminate).
  cbn [Py.bind]. rewrite scores_closed by exact Hc. reflexivity.
Qed.

Lemma initial_column_closed (initialprob col : list fl) :
  (List.length col <= List.length initialprob)%nat ->
  initial_column initialprob col
  = Ok (let temp_list :=
          map (fun ii => fmul (nth ii initialprob NaN) (fexp (nth ii col NaN)))
              (seq 0 (List.length col)) in
        map (fun x => fdiv x (fsum temp_list)) temp_list).
Proof.
  intros H. unfold initial_column.
  rewrite (mapM_ok _ (fun ii => fmul (nth ii initialprob NaN) (fexp (nth ii col NaN)))).
  - reflexivity.
  - intros ii Hii. apply in_seq in Hii.
    rewrite (at_ok initialprob NaN) by lia. cbn [Py.bind].
    rewrite (at_ok col NaN) by lia. reflexivity.
Qed.

End ForwardFacts.

(** ** Arithmetic on floats *)

Section FloatFacts.

Local Open Scope R_scope.

Lemma Rsgn_pos (r : R) : 0 < r -> Rsgn r = Pos.
Proof.
  intros H. unfold Rsgn.
  destruct (total_order_T r 0) as [[Hlt | Heq] | Hgt]; [lra | lra | reflexivity].
Qed.

Lemma Rsgn_zero (r : R) : r = 0 -> Rsgn r = Zero.
Proof.
  intros H. unfold Rsgn.
  destruct (total_order_T r 0) as [[Hlt | Heq] | Hgt]; [lra | reflexivity | lra].
Qed.

Lemma Rsgn_neg (r : R) : r < 0 -> Rsgn r = Neg.
Proof.
  intros H. unfold Rsgn.
  destruct (total_order_T r 0) as [[Hlt | Heq] | Hgt]; [reflexivity | lra | lra].
Qed.

Lemma Rleb_true (a b : R) : a <= b -> Rleb a b = true.
Proof. intros H. unfold Rleb. destruct (Rle_dec a b); [reflexivity | lra]. Qed.

Lemma Rleb_false (a b : R) : b < a -> Rleb a b = false.
Proof. intros H. unfold Rleb. destruct (Rle_dec a b); [lra | reflexivity]. Qed.

Lemma Reqb_refl (a : R) : Reqb a a = true.
Proof. unfold Reqb. destruct (Req_dec_T a a); [reflexivity | congruence]. Qed.

Lemma Reqb_true (a b : R) : a = b -> Reqb a b = true.
Proof. intros ->. apply Reqb_refl. Qed.

Lemma Reqb_false (a b : R) : a <> b -> Reqb a b = false.
Proof. intros H. unfold Reqb. destruct (Req_dec_T a b); [congruence | reflexivity]. Qed.

(** The running maximum of finite values is the largest of them. *)
Lemma fold_fmax2_Fin (rs : list R) :
  forall m : R,
    exists m', fold_left fmax2 (map Fin rs) (Fin m) = Fin m'
               /\ m <= m' /\ (forall r, In r rs -> r <= m')
               /\ (m' = m \/ In m' rs).
Proof.
  induction rs as [| r rs IH]; intros m.
  - exists m. cbn. repeat split; [lra | tauto | now left].
  - cbn [map fold_left fmax2].
    destruct (Rle_dec m r) as [Hle | Hgt].
    + rewrite Rleb_true by exact Hle.
      destruct (IH r) as (m' & E & H1 & H2 & H3).
      exists m'. rewrite E. repeat split.
      * lra.
      * intros x [<- | Hx]; [exact H1 | now apply H2].
      * right. destruct H3 as [-> | H3]; [now left | now right].
    + rewrite Rleb_false by lra.
      destruct (IH m) as (m' & E & H1 & H2 & H3).
      exists m'. rewrite E. repeat split.
      * exact H1.
      * intros x [<- | Hx]; [lra | now apply H2].
      * destruct H3 as [-> | H3]; [now left | right; now right].
Qed.

Lemma max_of_Fin_bound (rs : list R) (m : R) :
  In m rs -> (forall r, In r rs -> r <= m) ->
  Viterbi.max_of (map Fin rs) = Fin m.
Proof.
  destruct rs as [| r0 rs]; [intros [] |].
  intros Hin Hb. cbn [map Viterbi.max_of].
  destruct (fold_fmax2_Fin rs r0) as (m' & E & H1 & H2 & H3).
  rewrite E. f_equal.
  assert (Hm' : In m' (r0 :: rs)) by (destruct H3 as [-> | H3]; [now left | now right]).
  pose proof (Hb m' Hm') as Hle.
  assert (Hge : m <= m').
  { destruct Hin as [<- | Hin]; [exact H1 | now apply H2]. }
  lra.
Qed.

Lemma fold_fadd_Fin (rs : list R) :
  forall acc : R,
    fold_left fadd (map Fin rs) (Fin acc) = Fin (fold_left Rplus rs acc).
Proof.
  induction rs as [| r rs IH]; intros acc; [reflexivity |].
  cbn [map fold_left fadd]. apply IH.
Qed.

Lemma fsum_Fin (rs : list R) : fsum (map Fin rs) = Fin (fold_left Rplus rs 0).
Proof. apply fold_fadd_Fin. Qed.

(** A sum whose terms vanish except at index [k]. *)
Lemma fold_Rplus_single (c : R) (k : nat) (n : nat) :
  forall (a : nat) (acc : R),
    fold_left Rplus (map (fun y => if (y =? k)%nat then c else 0) (seq a n)) acc
    = acc + (if ((a <=? k) && (k <? a + n))%nat then c else 0).
Proof.
  induction n as [| n IH]; intros a acc.
  - cbn [seq map fold_left].
    destruct (a <=? k)%nat eqn:E1, (k <? a + 0)%nat eqn:E2; cbn [andb]; try lra.
    apply Nat.leb_le in E1. apply Nat.ltb_lt in E2. lia.
  - cbn [seq map fold_left]. rewrite IH.
    destruct (Nat.eqb_spec a k) as [-> | Hne].
    + replace ((S k <=? k) && (k <? S k + n))%nat with false
        by (symmetry; apply andb_false_iff; left; apply Nat.leb_gt; lia).
      replace ((k <=? k) && (k <? k + S n))%nat with true
        by (symmetry; apply andb_true_iff; split;
            [apply Nat.leb_le | apply Nat.ltb_lt]; lia).
      lra.
    + replace ((S a <=? k) && (k <? S a + n))%nat
        with ((a <=? k) && (k <? a + S n))%nat.
      * lra.
      * destruct (a <=? k)%nat eqn:E1, (k <? a + S n)%nat eqn:E2,
                 (S a <=? k)%nat eqn:E3, (k <? S a + n)%nat eqn:E4;
          cbn [andb]; try reflexivity; exfalso;
          repeat match goal with
                 | H : (_ <=? _)%nat = true |- _ => apply Nat.leb_le in H
                 | H : (_ <=? _)%nat = false |- _ => apply Nat.leb_gt in H
                 | H : (_ <? _)%nat = true |- _ => apply Nat.ltb_lt in H
                 | H : (_ <? _)%nat = false |- _ => apply Nat.ltb_ge in H
                 end; lia.
Qed.

End FloatFacts.

(** ** One-hot forward vectors *)

Section OneHot.

Import Viterbi.
Local Open Scope R_scope.

Variable k : nat.
Hypothesis k_lt : (k < 30)%nat.

Local Abbreviation hot := (Scenario.hot k).

Lemma hot_scores (maxima : nat -> fl) :
  (forall y, (y < 30)%nat -> maxima y = Fin (if (y =? k)%nat then 1 else 0)) ->
  scores maxima Scenario.flat_column = map hot (seq 0 30).
Proof.
  intros Hm. unfold scores. apply map_ext_in.
  intros y Hy. apply in_seq in Hy. rewrite Hm by lia.
  unfold Scenario.flat_column.
  rewrite (nth_indep _ NaN (Fin 0)) by (rewrite repeat_length; lia).
  rewrite nth_repeat. unfold Scenario.hot.
  destruct (y =? k)%nat.
  - cbn [flog]. rewrite Rsgn_pos by lra. cbn [fadd]. f_equal. rewrite ln_1. lra.
  - cbn [flog]. rewrite Rsgn_zero by reflexivity. reflexivity.
Qed.

Lemma hot_logsumexp : logsumexp (map hot (seq 0 30)) = Fin 0.
Proof.
  unfold logsumexp. rewrite map_map.
  rewrite (map_ext (fun y => fexp (hot y))
                   (fun y => Fin (if (y =? k)%nat then exp 0 else 0)))
    by (intros y; unfold Scenario.hot; destruct (y =? k)%nat; reflexivity).
  rewrite <- (map_map (fun y => if (y =? k)%nat then exp 0 else 0) Fin).
  rewrite fsum_Fin, fold_Rplus_single.
  replace ((0 <=? k) && (k <? 0 + 30))%nat with true
    by (symmetry; apply andb_true_iff; split;
        [apply Nat.leb_le | apply Nat.ltb_lt]; lia).
  rewrite exp_0. cbn [flog]. rewrite Rsgn_pos by lra.
  f_equal. replace (0 + 1) with 1 by lra. apply ln_1.
Qed.

(** When the thirty maxima are 1 at [k] and 0 elsewhere and the
    log-emissions are all 0, the normalised vector is the unit vector
    of [k]. *)
Lemma normalise_one_hot (maxima : nat -> fl) :
  (forall y, (y < 30)%nat -> maxima y = Fin (if (y =? k)%nat then 1 else 0)) ->
  normalise (scores maxima Scenario.flat_column) = Scenario.unit_vector k.
Proof.
  intros Hm. rewrite hot_scores by exact Hm.
  unfold normalise. rewrite hot_logsumexp, map_map.
  unfold Scenario.unit_vector. apply map_ext.
  intros y. unfold Scenario.hot. destruct (y =? k)%nat.
  - cbn [fsub fneg fadd fexp]. f_equal.
    replace (0 + - 0) with 0 by lra. apply exp_0.
  - reflexivity.
Qed.

End OneHot.

(** ** C1: the forward step against the specification *)

Section Transposition.

Import Viterbi.
Local Open Scope R_scope.

Lemma nth_map_seq {A} (f : nat -> A) (n i : nat) (d : A) :
  (i < n)%nat -> nth i (map f (seq 0 n)) d = f i.
Proof.
  intros H. rewrite (nth_indep _ d (f 0%nat)) by (rewrite length_map, length_seq; lia).
  rewrite (map_nth f (seq 0 n) 0%nat i), seq_nth by lia. reflexivity.
Qed.

Lemma wf_transpose (t : list (list fl)) : wf_matrix (transpose t).
Proof.
  unfold wf_matrix, transpose. split.
  - now rewrite length_map, length_seq.
  - apply Forall_forall. intros row Hrow. apply in_map_iff in Hrow.
    destruct Hrow as (j & <- & _). now rewrite length_map, length_seq.
Qed.

Lemma entry_transpose (t : list (list fl)) (i j : nat) :
  (i < 30)%nat -> (j < 30)%nat -> entry (transpose t) i j = entry t j i.
Proof.
  intros Hi Hj. unfold entry at 1, transpose.
  rewrite nth_map_seq by lia. now rewrite nth_map_seq by lia.
Qed.

(** For state [y] the program maximises over row [y] of the matrix:
    it is the recurrence of the specification for the transposed
    matrix. *)
Lemma next_column_transposed (t : list (list fl)) (prev col : list fl) :
  wf_matrix t -> List.length prev = 30%nat -> List.length col = 30%nat ->
  next_column t prev col = spec_next_column (transpose t) prev col.
Proof.
  intros Ht Hp Hc.
  rewrite (@next_column_closed t Ht prev col Hp Hc).
  rewrite (@spec_next_column_closed _ (wf_transpose t) prev col Hp Hc).
  apply f_equal. apply f_equal. unfold scores.
  apply map_ext_in. intros y Hy. apply in_seq in Hy.
  apply (f_equal (fun m => fadd (flog m) (nth y col NaN))).
  unfold code_max, spec_max. apply f_equal.
  apply map_ext_in. intros z Hz. apply in_seq in Hz.
  now rewrite entry_transpose by lia.
Qed.

(** The maximum of products with a unit vector. *)
Lemma max_against_unit (a : nat -> R) (k : nat) :
  (k < 30)%nat -> 0 <= a k ->
  max_of (map (fun z => fmul (Fin (a z)) (Fin (if (z =? k)%nat then 1 else 0)))
              (seq 0 30))
  = Fin (a k).
Proof.
  intros Hk Ha.
  rewrite (map_ext _ (fun z => Fin (a z * (if (z =? k)%nat then 1 else 0))))
    by reflexivity.
  rewrite <- (map_map (fun z => a z * (if (z =? k)%nat then 1 else 0)) Fin).
  apply max_of_Fin_bound.
  - apply in_map_iff. exists k. split.
    + rewrite Nat.eqb_refl. lra.
    + apply in_seq. lia.
  - intros r Hr. apply in_map_iff in Hr. destruct Hr as (z & <- & _).
    destruct (z =? k)%nat eqn:E.
    + apply Nat.eqb_eq in E. subst z. lra.
    + lra.
Qed.

Lemma wf_cycle : wf_matrix Scenario.cycle.
Proof.
  unfold wf_matrix, Scenario.cycle. split.
  - now rewrite length_map, length_seq.
  - apply Forall_forall. intros row Hrow. apply in_map_iff in Hrow.
    destruct Hrow as (j & <- & _). now rewrite length_map, length_seq.
Qed.

Lemma entry_cycle (y z : nat) :
  (y < 30)%nat -> (z < 30)%nat ->
  entry Scenario.cycle y z = Fin (if (z =? (y + 1) mod 30)%nat then 1 else 0).
Proof.
  intros Hy Hz. unfold entry, Scenario.cycle.
  rewrite nth_map_seq by lia. now rewrite nth_map_seq by lia.
Qed.

Lemma unit_vector_nth (k z : nat) :
  (z < 30)%nat -> nth z (Scenario.unit_vector k) NaN = Fin (if (z =? k)%nat then 1 else 0).
Proof. intros Hz. unfold Scenario.unit_vector. now rewrite nth_map_seq by lia. Qed.

Lemma code_max_cycle (y : nat) :
  (y < 30)%nat ->
  code_max Scenario.cycle (Scenario.unit_vector 1) y
  = Fin (if (y =? 0)%nat then 1 else 0).
Proof.
  intros Hy. unfold code_max.
  rewrite (map_ext_in _
             (fun z => fmul (Fin (if (z =? (y + 1) mod 30)%nat then 1 else 0))
                            (Fin (if (z =? 1)%nat then 1 else 0)))).
  - rewrite (max_against_unit (fun z => if (z =? (y + 1) mod 30)%nat then 1 else 0))
      by (try lia; destruct (1 =? (y + 1) mod 30)%nat; lra).
    f_equal. destruct (Nat.eqb_spec y 29) as [-> | Hne]; [reflexivity |].
    rewrite Nat.mod_small by lia.
    destruct (Nat.eqb_spec 1 (y + 1)), (Nat.eqb_spec y 0); try reflexivity; lia.
  - intros z Hz. apply in_seq in Hz.
    now rewrite entry_cycle, unit_vector_nth by lia.
Qed.

Lemma spec_max_cycle (j : nat) :
  (j < 30)%nat ->
  spec_max Scenario.cycle (Scenario.unit_vector 1) j
  = Fin (if (j =? 2)%nat then 1 else 0).
Proof.
  intros Hj. unfold spec_max.
  rewrite (map_ext_in _
             (fun i => fmul (Fin (if (j =? (i + 1) mod 30)%nat then 1 else 0))
                            (Fin (if (i =? 1)%nat then 1 else 0)))).
  - rewrite (max_against_unit (fun i => if (j =? (i + 1) mod 30)%nat then 1 else 0))
      by (try lia; destruct (j =? (1 + 1) mod 30)%nat; lra).
    reflexivity.
  - intros i Hi. apply in_seq in Hi.
    now rewrite entry_cycle, unit_vector_nth by lia.
Qed.

(** The first column of a segment: the initial distribution is row 0
    of the matrix, here the unit vector of state 1. *)
Lemma initial_column_cycle :
  initial_column (nth 0 Scenario.cycle []) Scenario.flat_column
  = Ok (Scenario.unit_vector 1).
Proof.
  rewrite initial_column_closed by (cbn; lia). f_equal. cbv zeta.
  change (List.length Scenario.flat_column) with 30%nat.
  assert (E : map (fun ii => fmul (nth ii (nth 0 Scenario.cycle []) NaN)
                                  (fexp (nth ii Scenario.flat_column NaN)))
                  (seq 0 30)
              = map Fin (map (fun ii => if (ii =? 1)%nat then 1 else 0) (seq 0 30))).
  { rewrite map_map. apply map_ext_in. intros ii Hii. apply in_seq in Hii.
    change (nth ii (nth 0 Scenario.cycle []) NaN) with (entry Scenario.cycle 0 ii).
    rewrite entry_cycle by lia.
    unfold Scenario.flat_column.
    rewrite (nth_indep _ NaN (Fin 0)) by (rewrite repeat_length; lia).
    rewrite nth_repeat. cbn [fexp fmul]. f_equal. rewrite exp_0.
    cbn [Nat.add Nat.modulo Nat.divmod fst snd Nat.sub].
    destruct (ii =? 1)%nat; lra. }
  rewrite E, fsum_Fin, fold_Rplus_single. cbn [Nat.leb Nat.ltb Nat.add andb].
  rewrite !map_map. unfold Scenario.unit_vector. apply map_ext.
  intros z. cbn [fdiv]. rewrite Rsgn_pos by lra. f_equal.
  destruct (z =? 1)%nat; lra.
Qed.

End Transposition.

(** C1, evaluated on the cycle 0 -> 1 -> ... -> 29 -> 0 with
    log-emissions 0.  The first column of a segment receives row 0 of
    the matrix, all the mass on state 1.  For the next column the
    recurrence of the specification, the maximum over the source states
    [i] of [transition[i][j] * previous[i]], moves the mass to state 2,
    the successor of state 1.  The program multiplies row [y] of the
    matrix by the previous vector and takes the maximum of that row,
    that is the maximum over [z] of [transition[y][z] * previous[z]]:
    it moves the mass back to state 0, the predecessor of state 1. *)
Theorem forward_step_on_cycle :
  Viterbi.forward Scenario.cycle (nth 0 Scenario.cycle [])
    (Viterbi.prepare [ESent; ECol (repeat (EVal (Fin 0%R)) 30);
                      ECol (repeat (EVal (Fin 0%R)) 30)])
    = Ok [DSent; DCol (Scenario.unit_vector 1); DCol (Scenario.unit_vector 0)]
  /\ Viterbi.next_column Scenario.cycle (Scenario.unit_vector 1) Scenario.flat_column
     = Ok (Scenario.unit_vector 0)
  /\ Viterbi.spec_next_column Scenario.cycle (Scenario.unit_vector 1) Scenario.flat_column
     = Ok (Scenario.unit_vector 2)
  /\ Scenario.unit_vector 0 <> Scenario.unit_vector 2.
Proof.
  assert (Hp : List.length (Scenario.unit_vector 1) = 30%nat) by reflexivity.
  assert (Hc : List.length Scenario.flat_column = 30%nat) by reflexivity.
  assert (Hcode : Viterbi.next_column Scenario.cycle (Scenario.unit_vector 1)
                                      Scenario.flat_column
                  = Ok (Scenario.unit_vector 0)).
  { rewrite (@next_column_closed _ wf_cycle _ _ Hp Hc). f_equal.
    apply normalise_one_hot; [lia |]. intros y Hy. now apply code_max_cycle. }
  split; [| split; [exact Hcode | split]].
  - rewrite forward_fwd.
    change (Viterbi.prepare _)
      with [@None (list fl); Some Scenario.flat_column; Some Scenario.flat_column].
    cbn [Viterbi.fwd]. rewrite initial_column_cycle. cbn [Py.bind].
    rewrite Hcode. reflexivity.
  - rewrite (@spec_next_column_closed _ wf_cycle _ _ Hp Hc). f_equal.
    apply normalise_one_hot; [lia |]. intros y Hy. now apply spec_max_cycle.
  - intros E.
    assert (E1 : nth 0 (Scenario.unit_vector 0) NaN = nth 0 (Scenario.unit_vector 2) NaN)
      by (now rewrite E).
    rewrite !unit_vector_nth in E1 by lia. cbn [Nat.eqb] in E1.
    injection E1 as E1. lra.
Qed.

(** ** Segments are decoded independently *)

Section Segments.

Import Viterbi.

Variables (t : list (list fl)) (initialprob : list fl).

Lemma prepare_app (a b : list ecol) : prepare (a ++ b) = prepare a ++ prepare b.
Proof. apply map_app. Qed.

Lemma prepare_length (a : list ecol) : List.length (prepare a) = List.length a.
Proof. apply length_map. Qed.

(** A sentinel column cuts the forward pass in two. *)
Lemma fwd_app_sent (a b : list column) :
  forall prev,
    fwd t initialprob prev (a ++ None :: b)
    = Py.bind (fwd t initialprob prev a) (fun da =>
      Py.bind (fwd t initialprob None b) (fun db =>
      Ok (da ++ DSent :: db))).
Proof.
  induction a as [| c a IH]; intros prev.
  - cbn [app fwd Py.bind]. reflexivity.
  - cbn [app fwd]. destruct c as [col |].
    + destruct (match prev with
                | Some p => next_column t p col
                | None => initial_column initialprob col
                end) as [v | e]; cbn [Py.bind]; [| reflexivity].
      rewrite IH.
      destruct (fwd t initialprob (Some v) a); cbn [Py.bind]; [| reflexivity].
      destruct (fwd t initialprob None b); reflexivity.
    + rewrite IH.
      destruct (fwd t initialprob None a); cbn [Py.bind]; [| reflexivity].
      destruct (fwd t initialprob None b); reflexivity.
Qed.

Lemma fwd_length (em : list column) :
  forall prev delta,
    fwd t initialprob prev em = Ok delta -> List.length delta = List.length em.
Proof.
  induction em as [| c em IH]; intros prev delta; cbn [fwd].
  - intros [= <-]. reflexivity.
  - destruct c as [col |].
    + destruct (match prev with
                | Some p => next_column t p col
                | None => initial_column initialprob col
                end) as [v | e]; cbn [Py.bind]; [| discriminate].
      destruct (fwd t initialprob (Some v) em) as [tl |] eqn:E; cbn [Py.bind];
        [| discriminate].
      intros [= <-]. cbn. f_equal. eapply IH. exact E.
    + destruct (fwd t initialprob None em) as [tl |] eqn:E; cbn [Py.bind];
        [| discriminate].
      intros [= <-]. cbn. f_equal. eapply IH. exact E.
Qed.

(** A sentinel cuts the backtracking in two as well: what precedes it
    in the reversed [delta] is decoded as if the sentinel were the last
    entry, what follows it starts from the state [-1]. *)
Lemma bwd_app_sent (b c : list dcol) :
  forall px,
    bwd t px (b ++ DSent :: c)
    = Py.bind (bwd t px (b ++ [DSent])) (fun xb =>
      Py.bind (bwd t (Some (-1)%Z) c) (fun xc =>
      Ok (xb ++ xc))).
Proof.
  induction b as [| d b IH]; intros px.
  - cbn [app bwd Py.bind].
    destruct (bwd t (Some (-1)%Z) c); reflexivity.
  - cbn [app bwd]. destruct d as [| v].
    + rewrite IH.
      destruct (bwd t (Some (-1)%Z) (b ++ [DSent])); cbn [Py.bind]; [| reflexivity].
      destruct (bwd t (Some (-1)%Z) c); reflexivity.
    + assert (Hk : match px with
                   | Some s =>
                       match b ++ DSent :: c with
                       | [] => Err IndexError
                       | DSent :: _ => argmax v
                       | DCol _ :: _ => linked_state t v s
                       end
                   | None => argmax v
                   end
                   = match px with
                     | Some s =>
                         match b ++ [DSent] with
                         | [] => Err IndexError
                         | DSent :: _ => argmax v
                         | DCol _ :: _ => linked_state t v s
                         end
                     | None => argmax v
                     end).
      { destruct px; [| reflexivity]. destruct b as [| [| w] b]; reflexivity. }
      rewrite Hk.
      match goal with
      | |- Py.bind ?m _ = _ => destruct m as [k | e]
      end; cbn [Py.bind]; [| reflexivity].
      rewrite IH.
      destruct (bwd t (Some (Z.of_nat k)) (b ++ [DSent])); cbn [Py.bind];
        [| reflexivity].
      destruct (bwd t (Some (-1)%Z) c); reflexivity.
Qed.

Lemma bwd_length (delta : list dcol) :
  forall px xtilde,
    bwd t px delta = Ok xtilde -> List.length xtilde = List.length delta.
Proof.
  induction delta as [| d delta IH]; intros px xtilde; cbn [bwd].
  - intros [= <-]. reflexivity.
  - destruct d as [| v].
    + destruct (bwd t (Some (-1)%Z) delta) as [tl |] eqn:E; cbn [Py.bind];
        [| discriminate].
      intros [= <-]. cbn. f_equal. eapply IH. exact E.
    + match goal with
      | |- Py.bind ?m _ = _ -> _ => destruct m as [k | e]
      end; cbn [Py.bind]; [| discriminate].
      destruct (bwd t (Some (Z.of_nat k)) delta) as [tl |] eqn:E; cbn [Py.bind];
        [| discriminate].
      intros [= <-]. cbn. f_equal. eapply IH. exact E.
Qed.

End Segments.

(** The states decoded for a segment between two sentinels are those
    of the segment decoded on its own, whatever precedes and follows. *)
Lemma viterbi_segment (t : list (list fl)) (pre seg post : list ecol) (xtilde : list Z) :
  Viterbi.viterbi (pre ++ ESent :: seg ++ ESent :: post) t = Ok xtilde ->
  Viterbi.segment_decode t seg
  = Ok (Viterbi.sub_path xtilde (List.length pre + 1) (List.length seg)).
Proof.
  rewrite viterbi_recursive. unfold Viterbi.segment_decode.
  destruct (at_ t 0) as [initialprob |]; [| discriminate]. cbn [Py.bind].
  rewrite prepare_app. cbn [Viterbi.prepare map].
  change (map _ (seg ++ ESent :: post)) with (Viterbi.prepare (seg ++ ESent :: post)).
  rewrite prepare_app. cbn [Viterbi.prepare map].
  change (map _ pre) with (Viterbi.prepare pre).
  change (map _ seg) with (Viterbi.prepare seg).
  change (map _ post) with (Viterbi.prepare post).
  rewrite fwd_app_sent.
  destruct (Viterbi.fwd t initialprob None (Viterbi.prepare pre)) as [dpre |] eqn:Epre;
    [| discriminate].
  cbn [Py.bind]. rewrite fwd_app_sent.
  destruct (Viterbi.fwd t initialprob None (Viterbi.prepare seg)) as [dseg |] eqn:Eseg;
    [| discriminate].
  cbn [Py.bind].
  destruct (Viterbi.fwd t initialprob None (Viterbi.prepare post)) as [dpost |];
    [| discriminate].
  cbn [Py.bind].
  replace (rev (dpre ++ DSent :: dseg ++ DSent :: dpost))
    with (rev dpost ++ DSent :: (rev dseg ++ DSent :: rev dpre)).
  2:{ rewrite rev_app_distr. cbn [rev]. rewrite rev_app_distr. cbn [rev].
      rewrite <- !app_assoc. reflexivity. }
  rewrite bwd_app_sent.
  destruct (Viterbi.bwd t None (rev dpost ++ [DSent])) as [xb1 |]; [| discriminate].
  cbn [Py.bind]. rewrite bwd_app_sent.
  destruct (Viterbi.bwd t (Some (-1)%Z) (rev dseg ++ [DSent])) as [xb2 |] eqn:Exb2;
    [| discriminate].
  cbn [Py.bind].
  destruct (Viterbi.bwd t (Some (-1)%Z) (rev dpre)) as [xc2 |] eqn:Exc2;
    [| discriminate].
  cbn [Py.bind]. intros [= <-]. f_equal.
  apply bwd_length in Exb2, Exc2. apply fwd_length in Epre, Eseg.
  rewrite prepare_length in Epre, Eseg.
  rewrite length_app, length_rev in Exb2. cbn [List.length] in Exb2.
  rewrite length_rev in Exc2.
  rewrite !rev_app_distr. unfold Viterbi.sub_path.
  destruct (rev xb2) as [| x0 body] eqn:Erev.
  { apply (f_equal (@List.length Z)) in Erev. rewrite length_rev in Erev.
    cbn in Erev. lia. }
  assert (Hbody : List.length body = List.length seg).
  { apply (f_equal (@List.length Z)) in Erev. rewrite length_rev in Erev.
    cbn in Erev. lia. }
  assert (Hxc : List.length (rev xc2) = List.length pre)
    by (rewrite length_rev; lia).
  cbn [tl].
  replace (List.length pre + 1)%nat with (List.length (rev xc2 ++ [x0]))
    by (rewrite length_app; cbn; lia).
  replace ((rev xc2 ++ x0 :: body) ++ rev xb1)
    with ((rev xc2 ++ [x0]) ++ body ++ rev xb1)
    by (rewrite <- !app_assoc; reflexivity).
  rewrite skipn_app, skipn_all, Nat.sub_diag. cbn [skipn app].
  rewrite <- Hbody, firstn_app, firstn_all, Nat.sub_diag. cbn [firstn].
  now rewrite app_nil_r.
Qed.

(** Where the decoder returns a path for each of two emission matrices
    that carry the same segment between two sentinel columns, the
    states decoded for that segment are the same in both paths,
    whatever the other columns are. *)
Lemma segments_do_not_interfere (t : list (list fl))
  (pre1 post1 pre2 post2 seg : list ecol) (x1 x2 : list Z) :
  Viterbi.viterbi (pre1 ++ ESent :: seg ++ ESent :: post1) t = Ok x1 ->
  Viterbi.viterbi (pre2 ++ ESent :: seg ++ ESent :: post2) t = Ok x2 ->
  Viterbi.sub_path x1 (List.length pre1 + 1) (List.length seg)
  = Viterbi.sub_path x2 (List.length pre2 + 1) (List.length seg).
Proof.
  intros H1 H2.
  apply viterbi_segment in H1, H2. congruence.
Qed.

(** ** Runs of the decoder on the cycle *)

Section CycleRuns.

Import Viterbi.
Local Open Scope R_scope.

Lemma index_unit (k n : nat) :
  forall a : nat,
    (a <= k < a + n)%nat ->
    index (map (fun z => Fin (if (z =? k)%nat then 1 else 0)) (seq a n)) (Fin 1)
    = Ok (k - a)%nat.
Proof.
  induction n as [| n IH]; intros a Ha; [lia |].
  cbn [seq map index feqb].
  destruct (Nat.eqb_spec a k) as [-> | Hne].
  - rewrite Reqb_refl. now rewrite Nat.sub_diag.
  - rewrite Reqb_false by lra. rewrite IH by lia. cbn [Py.bind].
    f_equal. lia.
Qed.

Lemma argmax_unit_vector (k : nat) :
  (k < 30)%nat -> argmax (Scenario.unit_vector k) = Ok k.
Proof.
  intros Hk. unfold argmax.
  rewrite np_max_max_of by discriminate.
  unfold Scenario.unit_vector at 1.
  rewrite <- (map_map (fun z => if (z =? k)%nat then 1 else 0) Fin).
  rewrite (@max_of_Fin_bound _ 1).
  - cbn [Py.bind]. unfold Scenario.unit_vector.
    rewrite index_unit by lia. f_equal. lia.
  - apply in_map_iff. exists k. rewrite Nat.eqb_refl. split; [reflexivity |].
    apply in_seq. lia.
  - intros r Hr. apply in_map_iff in Hr. destruct Hr as (z & <- & _).
    destruct (z =? k)%nat; lra.
Qed.

Lemma prepare_flat : prepare [Scenario.flat] = [Some Scenario.flat_column].
Proof. reflexivity. Qed.

Lemma at_cycle_0 : at_ Scenario.cycle 0 = Ok (nth 0 Scenario.cycle []).
Proof. apply at_ok. cbn. lia. Qed.

Lemma viterbi_em_left :
  viterbi Scenario.em_left Scenario.cycle = Ok [-1; 1; -1; 1; -1]%Z.
Proof.
  rewrite viterbi_recursive, at_cycle_0. cbn [Py.bind].
  change (prepare Scenario.em_left)
    with [@None (list fl); Some Scenario.flat_column; None;
          Some Scenario.flat_column; None].
  cbn [fwd]. rewrite initial_column_cycle. cbn [Py.bind rev app bwd].
  rewrite argmax_unit_vector by lia. reflexivity.
Qed.

Lemma viterbi_em_right :
  viterbi Scenario.em_right Scenario.cycle = Ok [-1; -1; -1; 1; -1]%Z.
Proof.
  rewrite viterbi_recursive, at_cycle_0. cbn [Py.bind].
  change (prepare Scenario.em_right)
    with [@None (list fl); None; None; Some Scenario.flat_column; None].
  cbn [fwd]. rewrite initial_column_cycle. cbn [Py.bind rev app bwd].
  rewrite argmax_unit_vector by lia. reflexivity.
Qed.

Lemma viterbi_em_data_first :
  viterbi Scenario.em_data_first Scenario.cycle = Err IndexError.
Proof.
  rewrite viterbi_recursive, at_cycle_0. cbn [Py.bind].
  change (prepare Scenario.em_data_first)
    with [Some Scenario.flat_column; @None (list fl); None;
          Some Scenario.flat_column; None].
  cbn [fwd]. rewrite initial_column_cycle. cbn [Py.bind rev app bwd].
  rewrite argmax_unit_vector by lia. reflexivity.
Qed.

End CycleRuns.

(** C5, evaluated on two matrices that carry the same one-column
    segment at index 3, between the sentinels at indices 2 and 4.  On
    its own the segment decodes to state 1, and so it does in the
    matrix that starts with a sentinel; for the matrix whose first
    column holds data the decoder returns no path at all: on that
    column the backtracking reads [delta[i + 1]] past the end of the
    list and raises [IndexError]. *)
Theorem segments_one_run_fails :
  Scenario.em_data_first
    = [Scenario.flat; ESent] ++ ESent :: [Scenario.flat] ++ ESent :: []
  /\ Scenario.em_right = [ESent; ESent] ++ ESent :: [Scenario.flat] ++ ESent :: []
  /\ Viterbi.segment_decode Scenario.cycle [Scenario.flat] = Ok [1%Z]
  /\ Viterbi.viterbi Scenario.em_right Scenario.cycle = Ok [-1; -1; -1; 1; -1]%Z
  /\ Viterbi.viterbi Scenario.em_data_first Scenario.cycle = Err IndexError.
Proof.
  split; [reflexivity | split; [reflexivity | split]].
  - exact (@viterbi_segment Scenario.cycle [ESent; ESent] [Scenario.flat] [] _
             viterbi_em_right).
  - split; [exact viterbi_em_right | exact viterbi_em_data_first].
Qed.

(** The two matrices of the cycle for which the decoder returns a path
    agree on the segment at index 3. *)
Lemma segments_do_not_interfere_witness :
  Viterbi.viterbi ([ESent; Scenario.flat] ++ ESent :: [Scenario.flat] ++ ESent :: [])
                  Scenario.cycle = Ok [-1; 1; -1; 1; -1]%Z
  /\ Viterbi.viterbi ([ESent; ESent] ++ ESent :: [Scenario.flat] ++ ESent :: [])
                     Scenario.cycle = Ok [-1; -1; -1; 1; -1]%Z
  /\ Viterbi.sub_path [-1; 1; -1; 1; -1]%Z 3 1 = Viterbi.sub_path [-1; -1; -1; 1; -1]%Z 3 1.
Proof.
  split; [exact viterbi_em_left | split; [exact viterbi_em_right |]].
  exact (@segments_do_not_interfere Scenario.cycle [ESent; Scenario.flat] []
           [ESent; ESent] [] [Scenario.flat] _ _ viterbi_em_left viterbi_em_right).
Defined.

(** ** What can go wrong in the backtracking *)

Section Backtracking.

Import Viterbi.

Lemma index_cases (l : list fl) (x : fl) :
  (exists k, index l x = Ok k /\ (k < List.length l)%nat) \/ index l x = Err ValueError.
Proof.
  induction l as [| y l IH]; [now right |].
  cbn [index]. destruct (feqb y x).
  - left. exists 0%nat. split; [reflexivity | cbn; lia].
  - destruct IH as [(k & E & Hk) | E]; rewrite E; cbn [Py.bind].
    + left. exists (S k). split; [reflexivity | cbn; lia].
    + now right.
Qed.

Lemma argmax_cases (l : list fl) :
  (exists k, argmax l = Ok k /\ (k < List.length l)%nat) \/ argmax l = Err ValueError.
Proof.
  unfold argmax. destruct l as [| x l]; [now right |].
  cbn [np_max Py.bind]. apply index_cases.
Qed.

Lemma feqb_refl (x : fl) : x <> NaN -> feqb x x = true.
Proof. destruct x; try congruence; intros _; cbn; [reflexivity .. | apply Reqb_refl]. Qed.

Lemma fmax2_choice (a b : fl) : a <> NaN -> b <> NaN -> fmax2 a b = a \/ fmax2 a b = b.
Proof.
  destruct a, b; try congruence; intros _ _; cbn; auto.
  destruct (Rleb r r0); auto.
Qed.

Lemma fold_fmax2_in (l : list fl) :
  forall x, x <> NaN -> ~ In NaN l ->
            fold_left fmax2 l x <> NaN /\ In (fold_left fmax2 l x) (x :: l).
Proof.
  induction l as [| y l IH]; intros x Hx Hl.
  - cbn. auto.
  - cbn [fold_left].
    assert (Hy : y <> NaN) by (intros ->; apply Hl; now left).
    assert (Hl' : ~ In NaN l) by (intros H; apply Hl; now right).
    destruct (fmax2_choice Hx Hy) as [E | E]; rewrite E.
    + destruct (IH x Hx Hl') as [H1 H2]. split; [exact H1 |].
      destruct H2 as [H2 | H2]; [now left | right; now right].
    + destruct (IH y Hy Hl') as [H1 H2]. split; [exact H1 |].
      right. exact H2.
Qed.

Lemma index_found (l : list fl) (x : fl) :
  x <> NaN -> In x l -> exists k, index l x = Ok k.
Proof.
  intros Hx. induction l as [| y l IH]; intros Hin; [destruct Hin |].
  cbn [index]. destruct (feqb y x) eqn:E; [eauto |].
  destruct Hin as [-> | Hin]; [rewrite feqb_refl in E by exact Hx; discriminate |].
  destruct (IH Hin) as [k ->]. cbn. eauto.
Qed.

(** The search for the first maximum fails only on a list that is
    empty or holds a [nan]. *)
Lemma argmax_value_error (l : list fl) :
  argmax l = Err ValueError -> l = [] \/ In NaN l.
Proof.
  intros H. destruct l as [| x l]; [now left |]. right.
  destruct (in_dec (fun a b : fl => ltac:(
              destruct a, b; try (right; discriminate); try (left; reflexivity);
              destruct (Req_dec_T r r0); [left; congruence | right; congruence]))
              NaN (x :: l)) as [Hin | Hnot]; [exact Hin | exfalso].
  assert (Hx : x <> NaN) by (intros ->; apply Hnot; now left).
  assert (Hl : ~ In NaN l) by (intros Hl; apply Hnot; now right).
  destruct (fold_fmax2_in l Hx Hl) as [Hm Hin].
  destruct (@index_found (x :: l) _ Hm Hin) as [k Hk].
  unfold argmax in H. cbn [np_max Py.bind] in H. congruence.
Qed.

Variable t : list (list fl).
Hypothesis wf_t : wf_matrix t.

Lemma get_row (s : Z) :
  (-1 <= s < 30)%Z -> exists row, Py.get t s = Ok row /\ List.length row = 30%nat.
Proof.
  intros Hs. destruct wf_t as [Hl Hrows]. rewrite Forall_forall in Hrows.
  unfold Py.get. rewrite Hl.
  destruct (Z.leb_spec 0 s).
  - destruct (nth_error t (Z.to_nat s)) as [row |] eqn:E.
    + exists row. split; [reflexivity |]. apply Hrows. eapply nth_error_In. exact E.
    + apply nth_error_None in E. lia.
  - destruct (Z.leb_spec 0 (Z.of_nat 30 + s)); [| lia].
    destruct (nth_error t (Z.to_nat (Z.of_nat 30 + s))) as [row |] eqn:E.
    + exists row. split; [reflexivity |]. apply Hrows. eapply nth_error_In. exact E.
    + apply nth_error_None in E. lia.
Qed.

Lemma linked_state_cases (v : list fl) (s : Z) :
  List.length v = 30%nat -> (-1 <= s < 30)%Z ->
  (exists k, linked_state t v s = Ok k /\ (k < 30)%nat)
  \/ linked_state t v s = Err ValueError.
Proof.
  intros Hv Hs. unfold linked_state.
  destruct (get_row Hs) as (row & -> & Hrow). cbn [Py.bind]. rewrite Hrow.
  rewrite (mapM_ok _ (fun j => fmul (nth j v NaN) (nth j row NaN))).
  - cbn [Py.bind].
    destruct (argmax_cases (map (fun j => fmul (nth j v NaN) (nth j row NaN)) (seq 0 30)))
      as [(k & E & Hk) | E].
    + left. exists k. split; [exact E |]. now rewrite length_map, length_seq in Hk.
    + now right.
  - intros j Hj. apply in_seq in Hj.
    rewrite (at_ok v NaN) by lia. cbn [Py.bind].
    rewrite (at_ok row NaN) by lia. reflexivity.
Qed.

(** The state chosen for a forward vector, in whichever of the two
    ways, is one of the thirty states, unless the search fails. *)
Lemma choice_cases (v : list fl) (px : option Z) (rest : list dcol) :
  List.length v = 30%nat -> px_ok px -> rest <> [] ->
  let choice :=
    match px with
    | None => argmax v
    | Some s =>
        match rest with
        | [] => Err IndexError
        | DSent :: _ => argmax v
        | DCol _ :: _ => linked_state t v s
        end
    end in
  (exists k, choice = Ok k /\ (k < 30)%nat) \/ choice = Err ValueError.
Proof.
  intros Hv Hpx Hrest. cbv zeta.
  assert (Ha : (exists k, argmax v = Ok k /\ (k < 30)%nat) \/ argmax v = Err ValueError).
  { destruct (argmax_cases v) as [(k & E & Hk) | E]; [left | now right].
    exists k. split; [exact E | lia]. }
  destruct px as [s |]; [| exact Ha].
  destruct rest as [| [| w] rest]; [congruence | exact Ha |].
  now apply linked_state_cases.
Qed.

(** When the reversed [delta] ends with a forward vector and that
    vector is not alone, the backtracking never returns. *)
Lemma bwd_data_last (r : list dcol) (v : list fl) :
  forall px,
    Forall dwf r -> px_ok px -> px <> None \/ r <> [] ->
    bwd t px (r ++ [DCol v]) = Err IndexError
    \/ bwd t px (r ++ [DCol v]) = Err ValueError.
Proof.
  induction r as [| d r IH]; intros px Hr Hpx Hne.
  - destruct px as [s |]; [| destruct Hne; congruence].
    left. reflexivity.
  - inversion Hr as [| ? ? Hd Hr']; subst. cbn [app bwd].
    destruct d as [| w].
    + destruct (IH (Some (-1)%Z) Hr') as [E | E];
        [cbn; lia | left; discriminate | ..]; rewrite E; auto.
    + cbn [dwf] in Hd.
      destruct (@choice_cases w px (r ++ [DCol v]) Hd Hpx) as [(k & E & Hk) | E];
        [destruct r; discriminate | ..]; cbv zeta in E; rewrite E; cbn [Py.bind].
      * destruct (IH (Some (Z.of_nat k)) Hr') as [E' | E'];
          [cbn; lia | left; discriminate | ..]; rewrite E'; auto.
      * now right.
Qed.

(** When the reversed [delta] ends with the sentinel, the index error
    cannot occur: the only failure left is that of a search. *)
Lemma bwd_sentinel_last (r : list dcol) :
  forall px e,
    Forall dwf r -> px_ok px ->
    bwd t px (r ++ [DSent]) = Err e -> e = ValueError.
Proof.
  induction r as [| d r IH]; intros px e Hr Hpx.
  - cbn. discriminate.
  - inversion Hr as [| ? ? Hd Hr']; subst. cbn [app bwd].
    destruct d as [| w].
    + destruct (bwd t (Some (-1)%Z) (r ++ [DSent])) eqn:E; cbn [Py.bind];
        [discriminate |].
      intros [= <-]. eapply IH; [exact Hr' | | exact E]. cbn. lia.
    + cbn [dwf] in Hd.
      destruct (@choice_cases w px (r ++ [DSent]) Hd Hpx) as [(k & E & Hk) | E];
        [destruct r; discriminate | ..]; cbv zeta in E; rewrite E; cbn [Py.bind].
      * destruct (bwd t (Some (Z.of_nat k)) (r ++ [DSent])) eqn:E'; cbn [Py.bind];
          [discriminate |].
        intros [= <-]. eapply IH; [exact Hr' | | exact E']. cbn. lia.
      * congruence.
Qed.

Variable initialprob : list fl.
Hypothesis initialprob_length : List.length initialprob = 30%nat.

(** On well-formed inputs the forward pass returns, with a forward
    vector of thirty entries wherever the emission matrix has a
    column of data. *)
Lemma fwd_total (em : list column) :
  forall prev,
    Forall cwf em -> cwf prev ->
    exists delta,
      fwd t initialprob prev em = Ok delta
      /\ Forall dwf delta
      /\ Forall2 (fun c d => is_sentinel c = is_dsent d) em delta.
Proof.
  induction em as [| c em IH]; intros prev Hem Hprev.
  - exists []. repeat constructor.
  - inversion Hem as [| ? ? Hc Hem']; subst. cbn [fwd].
    destruct c as [col |].
    + cbn [cwf] in Hc.
      assert (Hv : exists v,
                 match prev with
                 | Some p => next_column t p col
                 | None => initial_column initialprob col
                 end = Ok v /\ List.length v = 30%nat).
      { destruct prev as [p |].
        - cbn [cwf] in Hprev.
          rewrite (@next_column_closed t wf_t p col Hprev Hc).
          eexists. split; [reflexivity |].
          unfold normalise, scores. now rewrite !length_map, length_seq.
        - rewrite initial_column_closed by lia.
          eexists. split; [reflexivity |]. cbv zeta.
          now rewrite !length_map, length_seq. }
      destruct Hv as (v & -> & Hv). cbn [Py.bind].
      destruct (IH (Some v) Hem' Hv) as (delta & -> & Hd & Hs). cbn [Py.bind].
      exists (DCol v :: delta). repeat split; constructor; auto.
    + destruct (IH None Hem' I) as (delta & -> & Hd & Hs). cbn [Py.bind].
      exists (DSent :: delta). repeat split; constructor; auto.
Qed.

End Backtracking.

(** ** An undefined column *)

Section UndefinedColumn.

Import Viterbi.
Local Open Scope R_scope.

Lemma fadd_NInf_low (a : fl) : low (fadd a NInf).
Proof. destruct a; cbn; unfold low; auto. Qed.

Lemma fold_fadd_low (l : list fl) :
  forall acc,
    Forall low l -> acc = NaN \/ acc = Fin 0 ->
    fold_left fadd (map fexp l) acc = NaN \/ fold_left fadd (map fexp l) acc = Fin 0.
Proof.
  induction l as [| x l IH]; intros acc Hl Hacc; [exact Hacc |].
  inversion Hl as [| ? ? Hx Hl']; subst. cbn [map fold_left].
  apply IH; [exact Hl' |].
  destruct Hx as [-> | ->], Hacc as [-> | ->]; cbn; auto.
  right. f_equal. lra.
Qed.

Lemma logsumexp_low (l : list fl) : Forall low l -> low (logsumexp l).
Proof.
  intros Hl. unfold logsumexp, fsum.
  destruct (@fold_fadd_low l (Fin 0) Hl (or_intror eq_refl)) as [-> | ->].
  - right. reflexivity.
  - left. cbn. now rewrite Rsgn_zero.
Qed.

Lemma fsub_low (s den : fl) : low s -> low den -> fexp (fsub s den) = NaN.
Proof. intros [-> | ->] [-> | ->]; reflexivity. Qed.

Lemma fold_fmax2_nan (l : list fl) : fold_left fmax2 l NaN = NaN.
Proof. induction l as [| x l IH]; [reflexivity | exact IH]. Qed.

Lemma feqb_nan (y : fl) : feqb y NaN = false.
Proof. destruct y; reflexivity. Qed.

Lemma index_nan (l : list fl) : index l NaN = Err ValueError.
Proof.
  induction l as [| y l IH]; [reflexivity |].
  cbn [index]. now rewrite feqb_nan, IH.
Qed.

(** The search fails on a list that begins with [nan]. *)
Lemma argmax_nan_first (l : list fl) : argmax (NaN :: l) = Err ValueError.
Proof.
  unfold argmax. cbn [np_max Py.bind]. rewrite fold_fmax2_nan. apply index_nan.
Qed.

Variable t : list (list fl).
Hypothesis wf_t : wf_matrix t.

(** After an undefined column the forward vector is [nan] throughout. *)
Lemma next_column_undefined (prev : list fl) :
  List.length prev = 30%nat ->
  exists rest, next_column t prev (repeat NInf 30) = Ok (NaN :: rest).
Proof.
  intros Hp.
  rewrite (@next_column_closed t wf_t prev (repeat NInf 30) Hp (repeat_length _ _)).
  assert (Hlow : Forall low (scores (code_max t prev) (repeat NInf 30))).
  { unfold scores. apply Forall_forall. intros x Hx.
    apply in_map_iff in Hx. destruct Hx as (y & <- & Hy). apply in_seq in Hy.
    rewrite (nth_indep _ NaN NInf) by (rewrite repeat_length; lia).
    rewrite nth_repeat. apply fadd_NInf_low. }
  pose proof (logsumexp_low Hlow) as Hden.
  unfold normalise.
  destruct (scores (code_max t prev) (repeat NInf 30)) as [| s ss] eqn:E.
  { apply (f_equal (@List.length fl)) in E. unfold scores in E.
    rewrite length_map, length_seq in E. discriminate. }
  inversion Hlow as [| ? ? Hs _]; subst.
  cbn [map]. rewrite (fsub_low Hs Hden). eauto.
Qed.

Lemma viterbi_undefined_second (c0 : list emis) :
  List.length c0 = 30%nat ->
  viterbi [ECol c0; Scenario.undefined_column] t = Err ValueError.
Proof.
  intros Hc0. rewrite viterbi_recursive.
  destruct wf_t as [Hl Hrows].
  rewrite (at_ok t []) by lia. cbn [Py.bind].
  assert (Hip : List.length (nth 0 t []) = 30%nat) by (apply wf_row; [exact wf_t | lia]).
  change (prepare [ECol c0; Scenario.undefined_column])
    with [Some (map nan_to_ninf c0); Some (repeat NInf 30)].
  cbn [fwd].
  rewrite initial_column_closed by (rewrite length_map; lia).
  cbn [Py.bind]. cbv zeta.
  match goal with
  | |- context [next_column t ?p _] =>
      destruct (@next_column_undefined p) as [rest ->]
  end.
  { now rewrite !length_map, length_seq, Hc0. }
  cbn [Py.bind rev app bwd]. now rewrite argmax_nan_first.
Qed.

End UndefinedColumn.

(** C9 as it is worded fails: with an undefined second column the
    forward vector of that column is [nan] throughout, and the
    backtracking stops at reversed index 0 with the [ValueError] of
    [index], before it reaches the index error. *)
Lemma viterbi_value_error_first :
  Viterbi.wf_emission [Scenario.flat; Scenario.undefined_column]
  /\ Viterbi.viterbi [Scenario.flat; Scenario.undefined_column] Scenario.cycle
     = Err ValueError
  /\ Viterbi.viterbi [Scenario.flat; Scenario.undefined_column] Scenario.cycle
     <> Err IndexError.
Proof.
  assert (E : Viterbi.viterbi [Scenario.flat; Scenario.undefined_column] Scenario.cycle
              = Err ValueError).
  { apply viterbi_undefined_second; [exact wf_cycle | reflexivity]. }
  split; [| split; [exact E | rewrite E; discriminate]].
  repeat constructor.
Qed.

(** C9, amended.  On a well-formed transition matrix and a well-formed
    emission matrix of at least two columns whose first column holds
    data, the decoder never returns a path: its backtracking raises the
    index error at the last reversed index, unless a search for a
    maximum has failed before with a [ValueError].  When the first
    column is the sentinel the index error cannot occur. *)
Theorem viterbi_first_column (t : list (list fl)) (em : list ecol) :
  Viterbi.wf_matrix t -> Viterbi.wf_emission em ->
  (forall c rest, em = ECol c :: rest -> rest <> [] ->
     Viterbi.viterbi em t = Err IndexError \/ Viterbi.viterbi em t = Err ValueError)
  /\ (forall rest, em = ESent :: rest -> Viterbi.viterbi em t <> Err IndexError).
Proof.
  intros Ht Hem.
  assert (Hip : List.length (nth 0 t []) = 30%nat) by (apply wf_row; [exact Ht | lia]).
  assert (Hcwf : Forall Viterbi.cwf (Viterbi.prepare em)).
  { unfold Viterbi.prepare. apply Forall_forall. intros c Hc.
    apply in_map_iff in Hc. destruct Hc as (e & <- & He).
    unfold Viterbi.wf_emission in Hem. rewrite Forall_forall in Hem.
    specialize (Hem e He). destruct e as [| v]; cbn in *; [exact I |].
    now rewrite length_map. }
  destruct (@fwd_total t Ht (nth 0 t []) Hip (Viterbi.prepare em) None Hcwf I)
    as (delta & Hfwd & Hd & Hshape).
  assert (Hvit : Viterbi.viterbi em t
                 = Py.bind (Viterbi.bwd t None (rev delta)) (fun x => Ok (rev x))).
  { rewrite viterbi_recursive. destruct Ht as [Hl _].
    rewrite (at_ok t []) by lia. cbn [Py.bind]. now rewrite Hfwd. }
  split.
  - intros c rest -> Hrest.
    destruct delta as [| d0 delta']; [inversion Hshape |].
    inversion Hshape as [| ? ? ? ? H0 Hshape']; subst.
    destruct d0 as [| v0]; [discriminate |].
    assert (Hne : delta' <> []).
    { destruct delta'; [| discriminate]. inversion Hshape'.
      destruct rest; [congruence | discriminate]. }
    inversion Hd as [| ? ? _ Hd']; subst.
    rewrite Hvit. cbn [rev].
    destruct (@bwd_data_last t Ht (rev delta') v0 None) as [E | E].
    + apply Forall_rev. exact Hd'.
    + exact I.
    + right. intros E. apply Hne. apply (f_equal (@rev dcol)) in E.
      now rewrite rev_involutive in E.
    + rewrite E. now left.
    + rewrite E. now right.
  - intros rest -> E. rewrite Hvit in E.
    destruct delta as [| d0 delta']; [inversion Hshape |].
    inversion Hshape as [| ? ? ? ? H0 Hshape']; subst.
    destruct d0 as [| v0]; [| discriminate].
    inversion Hd as [| ? ? _ Hd']; subst.
    cbn [rev] in E.
    destruct (Viterbi.bwd t None (rev delta' ++ [DSent])) as [x | e] eqn:Eb;
      [discriminate |].
    cbn [Py.bind] in E. injection E as ->.
    apply (@bwd_sentinel_last t Ht) in Eb; [discriminate | | exact I].
    apply Forall_rev. exact Hd'.
Qed.

Lemma viterbi_first_column_witness :
  Viterbi.wf_matrix Scenario.cycle
  /\ Viterbi.wf_emission Scenario.em_data_first
  /\ (Viterbi.viterbi Scenario.em_data_first Scenario.cycle = Err IndexError
      \/ Viterbi.viterbi Scenario.em_data_first Scenario.cycle = Err ValueError)
  /\ Viterbi.viterbi Scenario.em_right Scenario.cycle <> Err IndexError.
Proof.
  assert (H1 : Viterbi.wf_emission Scenario.em_data_first) by (repeat constructor).
  assert (H2 : Viterbi.wf_emission Scenario.em_right) by (repeat constructor).
  split; [exact wf_cycle | split; [exact H1 | split]].
  - destruct (viterbi_first_column wf_cycle H1) as [H _].
    apply (H (repeat (EVal (Fin 0%R)) 30)
             [ESent; ESent; Scenario.flat; ESent] eq_refl).
    discriminate.
  - destruct (viterbi_first_column wf_cycle H2) as [_ H].
    apply (H [ESent; ESent; Scenario.flat; ESent] eq_refl).
Defined.

(** ** The two variant formatters *)

Section FormatterFacts.

Import Formatter.

Lemma loop_ext {S} (f g : S -> nat -> result S) (n : nat) (s : S) :
  (forall s i, f s i = g s i) -> Py.loop f n s = Py.loop g n s.
Proof.
  intros H. unfold Py.loop. generalize (Ok s). generalize (seq 0 n).
  intros l. induction l as [| i l IH]; intros acc; [reflexivity |].
  cbn [fold_left]. replace (Py.bind acc (fun s => f s i))
    with (Py.bind acc (fun s => g s i)).
  - apply IH.
  - destruct acc; cbn; [symmetry; apply H | reflexivity].
Qed.

Lemma loop_invariant {S} (P : S -> Prop) (body : S -> nat -> result S) (n : nat) :
  (forall s i s', P s -> body s i = Ok s' -> P s') ->
  forall s s', P s -> Py.loop body n s = Ok s' -> P s'.
Proof.
  intros Hstep. unfold Py.loop. generalize (seq 0 n).
  intros l. induction l as [| i l IH]; intros s s' Hs.
  - cbn. intros [= <-]. exact Hs.
  - cbn [fold_left Py.bind]. destruct (body s i) as [s1 |] eqn:E.
    + apply IH. eapply Hstep; eauto.
    + rewrite fold_bind_err. discriminate.
Qed.

End FormatterFacts.

(** ** The two formatters up to the separator *)

Section Separators.

Import Formatter Layout.

Local Open Scope string_scope.

Lemma loop_related {S1 S2} (R : S1 -> S2 -> Prop) (f : S1 -> nat -> result S1)
  (g : S2 -> nat -> result S2) (n : nat) :
  (forall s1 s2 i, R s1 s2 ->
     (exists t1 t2, f s1 i = Ok t1 /\ g s2 i = Ok t2 /\ R t1 t2)
     \/ (exists e, f s1 i = Err e /\ g s2 i = Err e)) ->
  forall s1 s2, R s1 s2 ->
    (exists t1 t2, Py.loop f n s1 = Ok t1 /\ Py.loop g n s2 = Ok t2 /\ R t1 t2)
    \/ (exists e, Py.loop f n s1 = Err e /\ Py.loop g n s2 = Err e).
Proof.
  intros Hstep. unfold Py.loop. generalize (seq 0 n).
  intros l. induction l as [| i l IH]; intros s1 s2 HR.
  - left. exists s1, s2. repeat split. exact HR.
  - cbn [fold_left Py.bind].
    destruct (Hstep s1 s2 i HR) as [(t1 & t2 & -> & -> & Ht) | (e & -> & ->)].
    + now apply IH.
    + right. exists e. now rewrite !fold_bind_err.
Qed.

Lemma bs_pair (base_states : list bstate) (n : nat) (b0 b1 : ascii) :
  bs base_states n 0 = Ok b0 -> bs base_states n 1 = Ok b1 ->
  nth_error base_states n = Some (BPair b0 b1).
Proof.
  unfold bs. rewrite at_nth_error.
  destruct (nth_error base_states n) as [[| x y | c] |]; cbn; congruence.
Qed.

Variables (ref upd_ref : list ascii) (base_states : list bstate) (xtilde : list Z).
Hypothesis no_pair : no_reference_pair upd_ref base_states xtilde.

(** The deletion and SNP branches of the two files write the same
    columns. *)
Lemma deletion_or_snp_columns (sep1 sep2 : string) (i gc : nat) (x : Z) :
  nth_error xtilde (i + gc) = Some x -> no_variant x = false ->
  (exists c : columns,
     deletion_or_snp sep1 false ref upd_ref base_states xtilde i gc = Ok (joined sep1 c)
     /\ deletion_or_snp sep2 true ref upd_ref base_states xtilde i gc = Ok (joined sep2 c))
  \/ (exists e,
        deletion_or_snp sep1 false ref upd_ref base_states xtilde i gc = Err e
        /\ deletion_or_snp sep2 true ref upd_ref base_states xtilde i gc = Err e).
Proof.
  intros Hx Hv. unfold deletion_or_snp.
  rewrite (at_nth_error xtilde), Hx. cbn [Py.bind].
  destruct (x =? 14)%Z.
  { destruct (Py.get ref (Z.of_nat i - 1)) as [p | e]; [| right; exists e; now split].
    cbn [Py.bind].
    destruct (at_ ref i) as [c | e]; [| right; exists e; now split].
    cbn [Py.bind]. left. exists (str_of_nat i, str p ++ str c, str p). now split. }
  destruct (bs base_states (i + gc) 0) as [b0 | e] eqn:E0;
    [| right; exists e; now split].
  cbn [Py.bind].
  destruct (Ascii.eqb b0 gap) eqn:G0; cbn [Py.bind negb].
  { destruct (bs base_states (i + gc) 1) as [b1 | e]; [| right; exists e; now split].
    cbn [Py.bind].
    destruct (Py.get ref (Z.of_nat i - 1)) as [p | e]; [| right; exists e; now split].
    cbn [Py.bind].
    destruct (at_ ref i) as [c | e]; [| right; exists e; now split].
    cbn [Py.bind].
    destruct (negb (Ascii.eqb b1 gap)).
    - left. exists (str_of_nat i, str p ++ str c, str p ++ str b1 ++ "," ++ str p).
      now split.
    - right. exists TypeError. now split. }
  destruct (bs base_states (i + gc) 1) as [b1 | e] eqn:E1;
    [| right; exists e; now split].
  cbn [Py.bind].
  destruct (Ascii.eqb b1 gap) eqn:G1.
  { destruct (Py.get ref (Z.of_nat i - 1)) as [p | e]; [| right; exists e; now split].
    cbn [Py.bind].
    destruct (at_ ref i) as [c | e]; [| right; exists e; now split].
    cbn [Py.bind]. left.
    exists (str_of_nat i, str p ++ str c, str p ++ str b0 ++ "," ++ str p).
    now split. }
  cbn [Py.bind].
  destruct (Ascii.eqb b0 b1) eqn:E01.
  { destruct (at_ ref i) as [c | e]; [| right; exists e; now split].
    cbn [Py.bind]. left. exists (str_of_nat i, str c, str b0). now split. }
  destruct (at_ upd_ref (i + gc)) as [u | e] eqn:Eu; [| right; exists e; now split].
  cbn [Py.bind].
  destruct (Ascii.eqb b0 u || Ascii.eqb b1 u)%bool eqn:Eref.
  { exfalso.
    rewrite at_nth_error in Eu.
    destruct (nth_error upd_ref (i + gc)) as [u' |] eqn:Hu; [| discriminate].
    injection Eu as ->.
    assert (Hor : b0 = u \/ b1 = u).
    { apply orb_true_iff in Eref. destruct Eref as [H | H];
        apply Ascii.eqb_eq in H; auto. }
    destruct (no_pair _ Hx Hv Hu (bs_pair _ _ E0 E1) Hor) as [H | [H | H]].
    - apply Ascii.eqb_neq in E01. contradiction.
    - apply Ascii.eqb_neq in G0. contradiction.
    - apply Ascii.eqb_neq in G1. contradiction. }
  destruct (at_ ref i) as [c | e]; [| right; exists e; now split].
  cbn [Py.bind]. left. exists (str_of_nat i, str c, str b0 ++ "," ++ str b1).
  now split.
Qed.

Hypothesis no_call : no_insertion_call upd_ref xtilde.

Lemma output_steps_related (st st' : fstate) (i : nat) :
  related st st' ->
  (exists t t',
     output_step ref upd_ref base_states xtilde st i = Ok t
     /\ output_step' ref upd_ref base_states xtilde st' i = Ok t'
     /\ related t t')
  \/ (exists e,
        output_step ref upd_ref base_states xtilde st i = Err e
        /\ output_step' ref upd_ref base_states xtilde st' i = Err e).
Proof.
  intros (Hgc & records & Hl & Hl').
  unfold output_step, output_step'. rewrite <- Hgc.
  rewrite (at_nth_error xtilde).
  destruct (nth_error xtilde (i + gap_counter st)) as [x |] eqn:Ex;
    [| right; exists IndexError; now split].
  cbn [Py.bind].
  rewrite (at_nth_error upd_ref).
  destruct (nth_error upd_ref (i + gap_counter st)) as [u |] eqn:Eu;
    [| right; exists IndexError; destruct (no_variant x); now split].
  cbn [Py.bind].
  destruct (no_variant x) eqn:Eq.
  - left. destruct (Ascii.eqb u gap).
    + do 2 eexists. split; [reflexivity | split; [reflexivity |]].
      split; [reflexivity | exists records; now split].
    + exists st, st'. split; [reflexivity | split; [reflexivity |]].
      split; [exact Hgc | exists records; now split].
  - destruct (Ascii.eqb u gap) eqn:Eg.
    + apply Ascii.eqb_eq in Eg. subst u.
      rewrite (no_call _ Eu Ex) in Eq. discriminate.
    + destruct (@deletion_or_snp_columns tab sep' i (gap_counter st) x Ex Eq)
        as [(c & -> & ->) | (e & -> & ->)].
      * left. cbn [Py.bind]. do 2 eexists.
        split; [reflexivity | split; [reflexivity |]].
        split; [reflexivity |]. exists (records ++ [c])%list. cbn [variant_list].
        rewrite !map_app, Hl, Hl'. now split.
      * right. exists e. now split.
Qed.

End Separators.

Section SameRecords.

Import Formatter Layout.

Local Open Scope string_scope.

Lemma append_cancel (p a b : string) : p ++ a = p ++ b -> a = b.
Proof.
  induction p as [| c p IH]; cbn; [auto |]. intros [= H]. now apply IH.
Qed.

Lemma joined_separators (c : columns) : joined tab c <> joined sep' c.
Proof.
  destruct c as [[pos reference] alternative]. cbn [joined].
  intros H. apply append_cancel in H. discriminate.
Qed.

(** C10, amended.  When no variant state falls on a gap of the gapped
    reference and at no variant state the genotype pairs the reference
    base with a different base, the two formatters return the same
    list of records up to the separator of the columns, a tab in
    [vcHMM.py] and a tab between two blanks in
    [variant_calling_output.py], or raise the same exception; a list of
    [vcHMM.py] that holds a record is never the list of
    [variant_calling_output.py]. *)
Theorem formatters_agree_up_to_separator (ref upd_ref : list ascii)
  (base_states : list bstate) (xtilde : list Z) :
  no_insertion_call upd_ref xtilde ->
  no_reference_pair upd_ref base_states xtilde ->
  same_records tab sep'
    (create_variant_calling_output ref upd_ref base_states xtilde)
    (create_varing_calling_output ref upd_ref base_states xtilde)
  /\ forall records,
       create_variant_calling_output ref upd_ref base_states xtilde = Ok records ->
       records <> [] ->
       create_varing_calling_output ref upd_ref base_states xtilde <> Ok records.
Proof.
  intros Hcall Hpair.
  assert (H : same_records tab sep'
                (create_variant_calling_output ref upd_ref base_states xtilde)
                (create_varing_calling_output ref upd_ref base_states xtilde)).
  { unfold create_variant_calling_output, create_varing_calling_output.
    destruct (@loop_related _ _ related
                (output_step ref upd_ref base_states xtilde)
                (output_step' ref upd_ref base_states xtilde) (List.length ref)
                (fun s1 s2 i => @output_steps_related ref upd_ref base_states xtilde
                                  Hpair Hcall s1 s2 i)
                (mkF 0 "" []) (mkF 0 "" []))
      as [(t & t' & -> & -> & _ & records & Hl & Hl') | (e & -> & ->)].
    - split; [reflexivity | exists []; now split].
    - left. exists records. cbn [Py.bind]. now rewrite Hl, Hl'.
    - right. exists e. now split. }
  split; [exact H |].
  intros records E Hne E'.
  destruct H as [(cols & H1 & H2) | (e & H1 & _)]; [| congruence].
  rewrite H1 in E. rewrite H2 in E'. injection E as <-. injection E' as E'.
  destruct cols as [| c cols]; [now apply Hne |].
  cbn [map] in E'. injection E' as E' _.
  now apply (joined_separators c).
Qed.

End SameRecords.

(** C10 as it is worded fails, in three ways.  For the reference [A]
    decoded to the homozygous SNP [C] the two files write the same
    columns with different separators.  For the heterozygous genotype
    [A/C] over the reference [A], [vcHMM.py] reports the allele [C],
    [variant_calling_output.py] the reference allele [A].  For a
    one-column insertion of [C] before the base [G], [vcHMM.py] compares
    the allele of the next column with the inserted one and appends the
    empty string, [variant_calling_output.py] writes the record of the
    insertion. *)
Lemma formatters_differ :
  Formatter.create_variant_calling_output (chars "A") (chars "A") [BPair "C" "C"] [1%Z]
    = Ok [("0" ++ Formatter.tab ++ "A" ++ Formatter.tab ++ "C")%string]
  /\ Formatter.create_varing_calling_output (chars "A") (chars "A") [BPair "C" "C"] [1%Z]
     = Ok [("0 " ++ Formatter.tab ++ " A " ++ Formatter.tab ++ " C")%string]
  /\ Formatter.create_variant_calling_output (chars "A") (chars "A") [BPair "A" "C"] [4%Z]
     = Ok [("0" ++ Formatter.tab ++ "A" ++ Formatter.tab ++ "C")%string]
  /\ Formatter.create_varing_calling_output (chars "A") (chars "A") [BPair "A" "C"] [4%Z]
     = Ok [("0 " ++ Formatter.tab ++ " A " ++ Formatter.tab ++ " A")%string]
  /\ Formatter.create_variant_calling_output (chars "AG") (chars "A-G")
       [BPair "A" "A"; BPair "C" "C"; BPair "G" "G"] [0; 16; 0]%Z
     = Ok [""%string]
  /\ Formatter.create_varing_calling_output (chars "AG") (chars "A-G")
       [BPair "A" "A"; BPair "C" "C"; BPair "G" "G"] [0; 16; 0]%Z
     = Ok [("1 " ++ Formatter.tab ++ " A " ++ Formatter.tab ++ " AC")%string].
Proof. repeat split. Qed.

Lemma formatters_agree_up_to_separator_witness :
  Layout.no_insertion_call (chars "AC") [1; 14]%Z
  /\ Layout.no_reference_pair (chars "AC") [BPair "C" "C"; BPair "-" "-"] [1; 14]%Z
  /\ Layout.same_records Formatter.tab Formatter.sep'
       (Formatter.create_variant_calling_output (chars "AC") (chars "AC")
          [BPair "C" "C"; BPair "-" "-"] [1; 14]%Z)
       (Formatter.create_varing_calling_output (chars "AC") (chars "AC")
          [BPair "C" "C"; BPair "-" "-"] [1; 14]%Z)
  /\ Formatter.create_variant_calling_output (chars "AC") (chars "AC")
       [BPair "C" "C"; BPair "-" "-"] [1; 14]%Z
     = Ok [("0" ++ Formatter.tab ++ "A" ++ Formatter.tab ++ "C")%string;
           ("1" ++ Formatter.tab ++ "AC" ++ Formatter.tab ++ "A")%string].
Proof.
  assert (H1 : Layout.no_insertion_call (chars "AC") [1; 14]%Z).
  { intros [| [| n]] x Hu; try discriminate. destruct n; discriminate. }
  assert (H2 : Layout.no_reference_pair (chars "AC") [BPair "C" "C"; BPair "-" "-"]
                 [1; 14]%Z).
  { intros [| [| n]] x u b0 b1 _ _ _ Hb _.
    - injection Hb as <- <-. now left.
    - injection Hb as <- <-. now left.
    - destruct n; discriminate. }
  split; [exact H1 | split; [exact H2 | split]].
  - exact (proj1 (@formatters_agree_up_to_separator (chars "AC") (chars "AC")
                    [BPair "C" "C"; BPair "-" "-"] [1; 14]%Z H1 H2)).
  - reflexivity.
Defined.

(** ** A first column dominated by its first state *)

Section InitialDominated.

Import Viterbi.
Local Open Scope R_scope.

Lemma exp_le (x y : R) : x <= y -> exp x <= exp y.
Proof.
  intros [H | ->]; [left; now apply exp_increasing | right; reflexivity].
Qed.

Lemma fold_Rplus_ge (rs : list R) :
  forall acc, Forall (fun r => 0 <= r) rs -> acc <= fold_left Rplus rs acc.
Proof.
  induction rs as [| r rs IH]; intros acc H; [cbn; lra |].
  inversion H as [| ? ? Hr Hrs]; subst. cbn [fold_left].
  specialize (IH (acc + r) Hrs). lra.
Qed.

Variables (initialprob col : list fl) (p0 e0 : R).
Hypothesis ip_length : List.length initialprob = 30%nat.
Hypothesis col_length : List.length col = 30%nat.
Hypothesis ip_first : nth 0 initialprob NaN = Fin p0.
Hypothesis col_first : nth 0 col NaN = Fin e0.
Hypothesis p0_pos : 0 < p0.
Hypothesis ip_bound :
  forall i, (i < 30)%nat -> exists p, nth i initialprob NaN = Fin p /\ 0 <= p <= p0.
Hypothesis col_bound :
  forall i, (i < 30)%nat ->
    nth i col NaN = NInf \/ exists e, nth i col NaN = Fin e /\ e <= e0.

Local Abbreviation product := (Viterbi.product initialprob col).

Lemma product_bound (ii : nat) : (ii < 30)%nat -> 0 <= product ii <= p0 * exp e0.
Proof.
  intros Hi. unfold Viterbi.product.
  destruct (ip_bound Hi) as (p & -> & Hp).
  pose proof (exp_pos e0) as He0.
  destruct (col_bound Hi) as [-> | (e & -> & He)]; cbn [val expo].
  - nra.
  - pose proof (exp_pos e) as Hpos. pose proof (exp_le He) as Hle. nra.
Qed.

Lemma product_first : product 0 = p0 * exp e0.
Proof. unfold Viterbi.product. now rewrite ip_first, col_first. Qed.

Lemma temp_list_products :
  map (fun ii => fmul (nth ii initialprob NaN) (fexp (nth ii col NaN))) (seq 0 30)
  = map Fin (map product (seq 0 30)).
Proof.
  rewrite map_map. apply map_ext_in. intros ii Hi. apply in_seq in Hi.
  unfold Viterbi.product.
  destruct (@ip_bound ii ltac:(lia)) as (p & -> & _).
  destruct (@col_bound ii ltac:(lia)) as [-> | (e & -> & _)]; reflexivity.
Qed.

(** The first forward vector of a segment, when no state has a larger
    prior or a larger emission than state 0: the search for the maximum
    stops at state 0. *)
Lemma initial_argmax_first :
  exists v, initial_column initialprob col = Ok v
            /\ List.length v = 30%nat /\ argmax v = Ok 0%nat.
Proof.
  rewrite initial_column_closed by lia. rewrite col_length.
  eexists. split; [reflexivity |]. cbv zeta.
  rewrite temp_list_products, fsum_Fin.
  set (total := fold_left Rplus (map product (seq 0 30)) 0).
  assert (Htotal : 0 < total).
  { unfold total. change (seq 0 30) with (0%nat :: seq 1 29).
    cbn [map fold_left].
    assert (H : 0 + product 0 <= fold_left Rplus (map product (seq 1 29)) (0 + product 0)).
    { apply fold_Rplus_ge. apply Forall_forall. intros r Hr.
      apply in_map_iff in Hr. destruct Hr as (ii & <- & Hi). apply in_seq in Hi.
      apply product_bound. lia. }
    rewrite product_first in H at 1. pose proof (exp_pos e0). nra. }
  rewrite map_map.
  rewrite (map_ext (fun x => fdiv (Fin x) (Fin total)) (fun x => Fin (x / total)))
    by (intros x; cbn [fdiv]; now rewrite Rsgn_pos).
  rewrite <- (map_map (fun x => x / total) Fin).
  split; [now rewrite !length_map, length_seq |].
  unfold argmax. rewrite np_max_max_of by discriminate.
  rewrite (@max_of_Fin_bound _ (product 0 / total)).
  - cbn [Py.bind]. change (seq 0 30) with (0%nat :: seq 1 29).
    cbn [map index feqb]. now rewrite Reqb_refl.
  - apply in_map_iff. exists (product 0). split; [reflexivity |].
    apply in_map_iff. exists 0%nat. split; [reflexivity | apply in_seq; lia].
  - intros r Hr. apply in_map_iff in Hr. destruct Hr as (x & <- & Hx).
    apply in_map_iff in Hx. destruct Hx as (ii & <- & Hi). apply in_seq in Hi.
    pose proof (@product_bound ii ltac:(lia)) as Hb. rewrite product_first.
    apply Rmult_le_compat_r; [left; now apply Rinv_0_lt_compat | lra].
Qed.

End InitialDominated.

(** ** Scenario A, stage by stage *)

Section ScenarioA.

Import Emission.
Local Open Scope R_scope.

Lemma Q2R_q_A : Q2R Scenario.q_A = 10.
Proof. unfold Scenario.q_A, Q2R. cbn. lra. Qed.

Lemma pow_A_value : Scenario.pow_A = / 10.
Proof.
  unfold Scenario.pow_A. rewrite Q2R_q_A.
  replace (- (10) / 10) with (- (1)) by lra.
  rewrite Rpower_Ropp, Rpower_1 by lra. reflexivity.
Qed.

Lemma ln_10_pos : 0 < ln 10.
Proof. rewrite <- ln_1. apply ln_increasing; lra. Qed.

Lemma het_le_hom : Scenario.het_A <= Scenario.hom_A.
Proof.
  unfold Scenario.het_A, Scenario.hom_A. rewrite pow_A_value.
  apply Rmult_le_compat_r.
  - left. apply Rinv_0_lt_compat. exact ln_10_pos.
  - left. apply ln_increasing; lra.
Qed.

Lemma exponent_A :
  fdiv (fneg (Fin (Q2R Scenario.q_A))) (Fin 10) = Fin (- Q2R Scenario.q_A / 10).
Proof. cbn [fneg fdiv]. now rewrite Rsgn_pos by lra. Qed.

(** A read base [C] under a genotype whose two alleles are [C]. *)
Lemma base_term_hom :
  base_term ("C"%char, "C"%char) "C" (QVal Scenario.q_A) = Ok (Fin Scenario.hom_A).
Proof.
  unfold base_term. cbn [Ascii.eqb Bool.eqb andb].
  rewrite exponent_A. cbn [fpow10 fsub fneg fadd flog10].
  fold Scenario.pow_A. rewrite Rsgn_pos by (rewrite pow_A_value; lra).
  reflexivity.
Qed.

(** A read base [C] under a genotype with exactly one allele [C]. *)
Lemma base_term_het (a b : ascii) :
  (Ascii.eqb a "C" && Ascii.eqb b "C")%bool = false ->
  (negb (Ascii.eqb "C" a) && negb (Ascii.eqb "C" b))%bool = false ->
  base_term (a, b) "C" (QVal Scenario.q_A) = Ok (Fin Scenario.het_A).
Proof.
  intros H1 H2. unfold base_term. rewrite H1, H2.
  rewrite exponent_A. cbn [fpow10 fsub fneg fadd fmul flog10].
  fold Scenario.pow_A. rewrite Rsgn_pos by (rewrite pow_A_value; lra).
  reflexivity.
Qed.

Lemma pileup_loop_six (gt : genotype) (c : R) :
  base_term gt "C" (QVal Scenario.q_A) = Ok (Fin c) ->
  pileup_loop gt (chars "CCCCCC") (repeat (QVal Scenario.q_A) 6) (Fin 0)
  = Ok (Fin (Scenario.six c)).
Proof.
  intros H. unfold chars. cbn [list_ascii_of_string repeat pileup_loop].
  rewrite !H. reflexivity.
Qed.

Local Abbreviation pileup := Scenario.pileup_A.
Local Abbreviation quals := Scenario.quals_A.

(** A genotype without the allele [C] has no support in the pile-up. *)
Lemma entry_undefined (filt cas : genotype) :
  (genotype_eqb filt (gap, gap) && mostly_gaps pileup)%bool = false ->
  existsb (fun x => Ascii.eqb (fst filt) x || Ascii.eqb (snd filt) x)%bool pileup = false ->
  emission_entry pileup quals filt cas = Ok ENaN.
Proof. intros H1 H2. unfold emission_entry. now rewrite H1, H2. Qed.

Lemma entry_defined (filt cas : genotype) (c : R) :
  (genotype_eqb filt (gap, gap) && mostly_gaps pileup)%bool = false ->
  existsb (fun x => Ascii.eqb (fst filt) x || Ascii.eqb (snd filt) x)%bool pileup = true ->
  base_term cas "C" (QVal Scenario.q_A) = Ok (Fin c) ->
  emission_entry pileup quals filt cas = Ok (EVal (Fin (Scenario.six c))).
Proof.
  intros H1 H2 H3. unfold emission_entry. rewrite H1, H2. cbn [negb].
  unfold Scenario.pileup_A, Scenario.quals_A. now rewrite (pileup_loop_six _ H3).
Qed.

Lemma base_column_A : base_column vector_C pileup quals = Ok Scenario.column_A.
Proof.
  unfold base_column.
  change (map Z.of_nat (seq 0 15))
    with [0; 1; 2; 3; 4; 5; 6; 7; 8; 9; 10; 11; 12; 13; 14]%Z.
  cbn [mapM].
  repeat match goal with
         | |- context [Py.get vector_C ?k] =>
             let r := eval vm_compute in (Py.get vector_C k) in
             change (Py.get vector_C k) with r
         end.
  cbn [Py.bind].
  rewrite (@entry_defined ("C"%char, "C"%char) ("C"%char, "C"%char) _ eq_refl eq_refl base_term_hom).
  rewrite (@entry_undefined ("A"%char, "A"%char) ("A"%char, "A"%char) eq_refl eq_refl).
  rewrite (@entry_undefined ("G"%char, "G"%char) ("G"%char, "G"%char) eq_refl eq_refl).
  rewrite (@entry_undefined ("T"%char, "T"%char) ("T"%char, "T"%char) eq_refl eq_refl).
  rewrite (@entry_defined ("A"%char, "C"%char) ("A"%char, "C"%char) _ eq_refl eq_refl
             (base_term_het "A" "C" eq_refl eq_refl)).
  rewrite (@entry_defined ("C"%char, "G"%char) ("C"%char, "G"%char) _ eq_refl eq_refl
             (base_term_het "C" "G" eq_refl eq_refl)).
  rewrite (@entry_defined ("C"%char, "T"%char) ("C"%char, "T"%char) _ eq_refl eq_refl
             (base_term_het "C" "T" eq_refl eq_refl)).
  rewrite (@entry_defined ("C"%char, "-"%char) ("C"%char, "-"%char) _ eq_refl eq_refl
             (base_term_het "C" "-" eq_refl eq_refl)).
  rewrite (@entry_undefined ("A"%char, "G"%char) ("A"%char, "G"%char) eq_refl eq_refl).
  rewrite (@entry_undefined ("A"%char, "T"%char) ("A"%char, "T"%char) eq_refl eq_refl).
  rewrite (@entry_undefined ("A"%char, "-"%char) ("A"%char, "-"%char) eq_refl eq_refl).
  rewrite (@entry_undefined ("G"%char, "T"%char) ("G"%char, "T"%char) eq_refl eq_refl).
  rewrite (@entry_undefined ("G"%char, "-"%char) ("G"%char, "-"%char) eq_refl eq_refl).
  rewrite (@entry_undefined ("T"%char, "-"%char) ("T"%char, "-"%char) eq_refl eq_refl).
  rewrite (@entry_undefined ("-"%char, "-"%char) ("-"%char, "-"%char) eq_refl eq_refl).
  reflexivity.
Qed.

End ScenarioA.

Section ScenarioARun.

Import Emission.
Local Open Scope R_scope.

Lemma scenario_A_realigned :
  Normalizer.get_cigar Scenario.sam_A = (Scenario.sam_A, [])
  /\ Realigner.update_insertions (Realigner.del_duplicate_ins []) = []
  /\ Realigner.update_reads (Realigner.update_startpos Scenario.sam_A []) []
     = Scenario.sam_A
  /\ Realigner.update_ref Scenario.ref_A [] = Scenario.ref_A.
Proof. repeat split. Qed.

Lemma column_uncovered (c : ascii) (i : nat) (vector : option (list genotype)) :
  Realigner.get_pileup Scenario.sam_A (Z.of_nat i) = Ok ([], [], []) ->
  emission_column Scenario.sam_A c i vector = Ok (vector, ESent).
Proof. intros H. unfold emission_column. rewrite H. reflexivity. Qed.

Lemma column_covered :
  emission_column Scenario.sam_A "C" 1 None
  = Ok (Some vector_C, ECol Scenario.column_A).
Proof.
  unfold emission_column.
  replace (Realigner.get_pileup Scenario.sam_A (Z.of_nat 1))
    with (Ok (chars "CCCCCC", repeat (QVal (30 # 1)) 6, repeat 40%Z 6))
    by reflexivity.
  cbn [Py.bind].
  replace (repair_quality (repeat (QVal (30 # 1)) 6) (repeat 40%Z 6))
    with (Ok (repeat (QVal Scenario.q_A) 6)) by reflexivity.
  replace ((List.length (chars "CCCCCC") <? 5)%nat || is_char "N" "C")%bool
    with false by reflexivity.
  cbn [Py.bind].
  replace (is_char "-" "C") with false by reflexivity.
  replace (is_char "A" "C") with false by reflexivity.
  replace (is_char "C" "C") with true by reflexivity.
  pose proof base_column_A as E.
  unfold Scenario.pileup_A, Scenario.quals_A in E. rewrite E. reflexivity.
Qed.

(** The emission matrix of Scenario A: data at position 1 only. *)
Lemma emission_matrix_A :
  build_emissionmatrix Scenario.sam_A Scenario.ref_A
  = Ok [ESent; ECol Scenario.column_A; ESent; ESent].
Proof.
  unfold build_emissionmatrix, Scenario.ref_A, chars.
  cbn [list_ascii_of_string build_loop].
  rewrite column_uncovered by reflexivity. cbn [Py.bind].
  rewrite column_covered. cbn [Py.bind].
  rewrite !column_uncovered by reflexivity. reflexivity.
Qed.

Lemma transition_matrix_A :
  exists tm,
    Transition.create_transition_matrix Transition.pre_transition_matrix_simulated
                                        Transition.hetrate_simulated = Ok tm
    /\ List.length tm = 30%nat /\ nth 0 tm [] = Scenario.row0_A.
Proof.
  pose proof (create_transition_matrix_rows
                (988 # 1000, 8 # 1000, 2 # 1000, 2 # 1000)%Q
                (53 # 100, 45 # 100, 1 # 100, 1 # 100)%Q
                (70 # 100, 15 # 100, 15 # 100, 0)%Q
                (70 # 100, 15 # 100, 0, 15 # 100)%Q (1 # 100)%Q) as E.
  cbv beta iota zeta delta [Transition.row_of Transition.class_row
                              Transition.mean_of_rows] in E.
  eexists. split; [exact E |]. split; reflexivity.
Qed.

Lemma row0_A_bounds :
  Forall (fun q => (0 <= q)%Q /\ (q <= nth 0 Scenario.row0_A 0%Q)%Q) Scenario.row0_A
  /\ (0 < nth 0 Scenario.row0_A 0%Q)%Q.
Proof.
  split.
  - apply Forall_forall. intros q Hq.
    assert (H : forallb (fun q => Qle_bool 0 q && Qle_bool q (nth 0 Scenario.row0_A 0%Q))%bool
                        Scenario.row0_A = true) by (vm_compute; reflexivity).
    rewrite forallb_forall in H. specialize (H q Hq).
    apply andb_true_iff in H. destruct H as [H1 H2].
    split; now apply Qle_bool_iff.
  - reflexivity.
Qed.

Lemma column_A_bounds (i : nat) :
  (i < 30)%nat ->
  nth i (map Viterbi.nan_to_ninf Scenario.column_A) NaN = NInf
  \/ exists e, nth i (map Viterbi.nan_to_ninf Scenario.column_A) NaN = Fin e
               /\ e <= Scenario.six Scenario.hom_A.
Proof.
  intros Hi. pose proof het_le_hom as Hh.
  assert (H6 : Scenario.six Scenario.het_A <= Scenario.six Scenario.hom_A)
    by (unfold Scenario.six; lra).
  unfold Scenario.column_A. cbn [map app repeat Viterbi.nan_to_ninf].
  repeat (destruct i as [| i];
          [ cbn [nth];
            first [ left; reflexivity
                  | right; eexists; split; [reflexivity | first [exact H6 | lra]] ]
          | ]).
  lia.
Qed.

(** The decoded path of Scenario A: the reads agree with the reference
    base [C] of position 1, and the decoder chooses state 0 there. *)
Lemma decode_A : Pipeline.decode Scenario.sam_A Scenario.ref_A = Ok [-1; 0; -1; -1]%Z.
Proof.
  unfold Pipeline.decode.
  destruct scenario_A_realigned as (-> & -> & -> & ->).
  destruct transition_matrix_A as (tm & -> & Htm & Hrow). cbn [Py.bind].
  rewrite emission_matrix_A. cbn [Py.bind].
  rewrite viterbi_recursive.
  rewrite (at_ok _ []) by (rewrite length_map; lia). cbn [Py.bind].
  change (Viterbi.prepare [ESent; ECol Scenario.column_A; ESent; ESent])
    with [@None (list fl); Some (map Viterbi.nan_to_ninf Scenario.column_A); None; None].
  cbn [Viterbi.fwd].
  set (ip := nth 0 (map (map Pipeline.to_fl) tm) []).
  assert (Hip : ip = map Pipeline.to_fl Scenario.row0_A).
  { unfold ip. rewrite <- Hrow.
    change (@nil fl) with (map Pipeline.to_fl []). apply map_nth. }
  destruct row0_A_bounds as [Hb Hpos].
  destruct (@initial_argmax_first ip (map Viterbi.nan_to_ninf Scenario.column_A)
              (Q2R (nth 0 Scenario.row0_A 0%Q)) (Scenario.six Scenario.hom_A))
    as (v & -> & Hv & Hmax).
  - rewrite Hip. reflexivity.
  - reflexivity.
  - rewrite Hip. reflexivity.
  - reflexivity.
  - replace 0 with (Q2R 0) by (unfold Q2R; cbn; lra). now apply Qlt_Rlt.
  - intros i Hi. rewrite Hip.
    rewrite (nth_indep _ NaN (Pipeline.to_fl 0)) by (rewrite length_map; cbn; lia).
    rewrite map_nth. eexists. split; [reflexivity |].
    rewrite Forall_forall in Hb.
    destruct (Hb (nth i Scenario.row0_A 0%Q)) as [H1 H2]; [apply nth_In; cbn; lia |].
    apply Qle_Rle in H1, H2.
    replace (Q2R 0) with 0 in H1 by (unfold Q2R; cbn; lra). lra.
  - exact column_A_bounds.
  - cbn [Py.bind rev app Viterbi.bwd]. rewrite Hmax. reflexivity.
Qed.

End ScenarioARun.

(** The records of a run are those of its decoded path. *)
Lemma run_decode (sam : list read) (ref_seq : list ascii) :
  Pipeline.run sam ref_seq
  = let upd_inserts :=
      Realigner.update_insertions
        (Realigner.del_duplicate_ins (snd (Normalizer.get_cigar sam))) in
    let updated_refseq := Realigner.update_ref ref_seq upd_inserts in
    Py.bind (Pipeline.decode sam ref_seq) (fun xtilde =>
    Py.bind (Resolver.find_base_state xtilde updated_refseq) (fun hidden_states =>
    Formatter.create_variant_calling_output ref_seq updated_refseq hidden_states xtilde)).
Proof.
  unfold Pipeline.run, Pipeline.decode.
  destruct (Normalizer.get_cigar sam) as [newsam insertions]. cbn [snd].
  destruct (Transition.create_transition_matrix _ _); [| reflexivity]. cbn [Py.bind].
  destruct (Emission.build_emissionmatrix _ _); reflexivity.
Qed.

(** ** A first column dominated by its second state *)

Section InitialSecond.

Import Viterbi.
Local Open Scope R_scope.

Variables (initialprob col : list fl) (p1 e1 : R).
Hypothesis ip_length : List.length initialprob = 30%nat.
Hypothesis col_length : List.length col = 30%nat.
Hypothesis ip_second : nth 1 initialprob NaN = Fin p1.
Hypothesis col_first : nth 0 col NaN = NInf.
Hypothesis col_second : nth 1 col NaN = Fin e1.
Hypothesis p1_pos : 0 < p1.
Hypothesis ip_finite :
  forall i, (i < 30)%nat -> exists p, nth i initialprob NaN = Fin p /\ 0 <= p.
Hypothesis col_bound :
  forall i, (i < 30)%nat ->
    nth i col NaN = NInf
    \/ exists e, nth i col NaN = Fin e /\ e <= e1 /\ val (nth i initialprob NaN) <= p1.

Local Abbreviation product := (Viterbi.product initialprob col).

Lemma second_product_bound (ii : nat) : (ii < 30)%nat -> 0 <= product ii <= p1 * exp e1.
Proof.
  intros Hi. unfold Viterbi.product.
  destruct (ip_finite Hi) as (p & Ep & Hp).
  pose proof (exp_pos e1) as He1.
  destruct (col_bound Hi) as [-> | (e & -> & He & Hle)]; rewrite Ep in *; cbn [val expo] in *.
  - nra.
  - pose proof (exp_pos e) as Hpos. pose proof (exp_le He) as Hexp. nra.
Qed.

Lemma second_product_zero : product 0 = 0.
Proof. unfold Viterbi.product. rewrite col_first. cbn [expo]. lra. Qed.

Lemma second_product : product 1 = p1 * exp e1.
Proof. unfold Viterbi.product. now rewrite ip_second, col_second. Qed.

Lemma second_temp_list :
  map (fun ii => fmul (nth ii initialprob NaN) (fexp (nth ii col NaN))) (seq 0 30)
  = map Fin (map product (seq 0 30)).
Proof.
  rewrite map_map. apply map_ext_in. intros ii Hi. apply in_seq in Hi.
  unfold Viterbi.product.
  destruct (@ip_finite ii ltac:(lia)) as (p & -> & _).
  destruct (@col_bound ii ltac:(lia)) as [-> | (e & -> & _)]; reflexivity.
Qed.

(** The first forward vector of a segment whose state 0 has no support
    in the column, when no supported state has a larger prior or a
    larger emission than state 1: the search for the maximum stops at
    state 1. *)
Lemma initial_argmax_second :
  exists v, initial_column initialprob col = Ok v
            /\ List.length v = 30%nat /\ argmax v = Ok 1%nat.
Proof.
  rewrite initial_column_closed by lia. rewrite col_length.
  eexists. split; [reflexivity |]. cbv zeta.
  rewrite second_temp_list, fsum_Fin.
  set (total := fold_left Rplus (map product (seq 0 30)) 0).
  pose proof (exp_pos e1) as He1.
  assert (Htotal : 0 < total).
  { unfold total. change (seq 0 30) with (0%nat :: 1%nat :: seq 2 28).
    cbn [map fold_left].
    assert (H : 0 + product 0 + product 1
                <= fold_left Rplus (map product (seq 2 28)) (0 + product 0 + product 1)).
    { apply fold_Rplus_ge. apply Forall_forall. intros r Hr.
      apply in_map_iff in Hr. destruct Hr as (ii & <- & Hi). apply in_seq in Hi.
      apply second_product_bound. lia. }
    rewrite second_product_zero, second_product in H at 1. nra. }
  rewrite map_map.
  rewrite (map_ext (fun x => fdiv (Fin x) (Fin total)) (fun x => Fin (x / total)))
    by (intros x; cbn [fdiv]; now rewrite Rsgn_pos).
  rewrite <- (map_map (fun x => x / total) Fin).
  split; [now rewrite !length_map, length_seq |].
  unfold argmax. rewrite np_max_max_of by discriminate.
  rewrite (@max_of_Fin_bound _ (product 1 / total)).
  - cbn [Py.bind]. change (seq 0 30) with (0%nat :: 1%nat :: seq 2 28).
    cbn [map index feqb].
    rewrite Reqb_false, Reqb_refl; [reflexivity |].
    rewrite second_product_zero, second_product.
    assert (Hq : 0 < p1 * exp e1 / total).
    { apply Rdiv_lt_0_compat; [nra | exact Htotal]. }
    unfold Rdiv at 1. rewrite Rmult_0_l. lra.
  - apply in_map_iff. exists (product 1). split; [reflexivity |].
    apply in_map_iff. exists 1%nat. split; [reflexivity | apply in_seq; lia].
  - intros r Hr. apply in_map_iff in Hr. destruct Hr as (x & <- & Hx).
    apply in_map_iff in Hx. destruct Hx as (ii & <- & Hi). apply in_seq in Hi.
    pose proof (@second_product_bound ii ltac:(lia)) as Hb. rewrite second_product.
    apply Rmult_le_compat_r; [left; now apply Rinv_0_lt_compat | lra].
Qed.

End InitialSecond.

(** ** Scenario A on a reference with [A] at the covered position *)

Section ScenarioSnp.

Import Emission.
Local Open Scope R_scope.

Lemma base_column_snp :
  base_column vector_A Scenario.pileup_A Scenario.quals_A = Ok Scenario.column_snp.
Proof.
  unfold base_column.
  change (map Z.of_nat (seq 0 15))
    with [0; 1; 2; 3; 4; 5; 6; 7; 8; 9; 10; 11; 12; 13; 14]%Z.
  cbn [mapM].
  repeat match goal with
         | |- context [Py.get vector_A ?k] =>
             let r := eval vm_compute in (Py.get vector_A k) in
             change (Py.get vector_A k) with r
         end.
  cbn [Py.bind].
  rewrite (@entry_undefined ("A"%char, "A"%char) ("A"%char, "A"%char) eq_refl eq_refl).
  rewrite (@entry_defined ("C"%char, "C"%char) ("C"%char, "C"%char) _ eq_refl eq_refl base_term_hom).
  rewrite (@entry_undefined ("G"%char, "G"%char) ("G"%char, "G"%char) eq_refl eq_refl).
  rewrite (@entry_undefined ("T"%char, "T"%char) ("T"%char, "T"%char) eq_refl eq_refl).
  rewrite (@entry_defined ("A"%char, "C"%char) ("A"%char, "C"%char) _ eq_refl eq_refl
             (base_term_het "A" "C" eq_refl eq_refl)).
  rewrite (@entry_undefined ("A"%char, "G"%char) ("A"%char, "G"%char) eq_refl eq_refl).
  rewrite (@entry_undefined ("A"%char, "T"%char) ("A"%char, "T"%char) eq_refl eq_refl).
  rewrite (@entry_undefined ("A"%char, "-"%char) ("A"%char, "-"%char) eq_refl eq_refl).
  rewrite (@entry_defined ("C"%char, "G"%char) ("C"%char, "G"%char) _ eq_refl eq_refl
             (base_term_het "C" "G" eq_refl eq_refl)).
  rewrite (@entry_defined ("C"%char, "T"%char) ("C"%char, "T"%char) _ eq_refl eq_refl
             (base_term_het "C" "T" eq_refl eq_refl)).
  rewrite (@entry_defined ("C"%char, "-"%char) ("C"%char, "-"%char) _ eq_refl eq_refl
             (base_term_het "C" "-" eq_refl eq_refl)).
  rewrite (@entry_undefined ("G"%char, "T"%char) ("G"%char, "T"%char) eq_refl eq_refl).
  rewrite (@entry_undefined ("G"%char, "-"%char) ("G"%char, "-"%char) eq_refl eq_refl).
  rewrite (@entry_undefined ("T"%char, "-"%char) ("T"%char, "-"%char) eq_refl eq_refl).
  rewrite (@entry_undefined ("-"%char, "-"%char) ("-"%char, "-"%char) eq_refl eq_refl).
  reflexivity.
Qed.

(** A column no read covers, and a column of the reference base [A]
    that the six reads cover. *)
Lemma column_without_reads (sam : list read) (c : ascii) (i : nat)
  (vector : option (list genotype)) :
  Realigner.get_pileup sam (Z.of_nat i) = Ok ([], [], []) ->
  emission_column sam c i vector = Ok (vector, ESent).
Proof. intros H. unfold emission_column. rewrite H. reflexivity. Qed.

Lemma column_with_six_reads (sam : list read) (i : nat) (vector : option (list genotype)) :
  Realigner.get_pileup sam (Z.of_nat i)
  = Ok (chars "CCCCCC", repeat (QVal (30 # 1)) 6, repeat 40%Z 6) ->
  emission_column sam "A" i vector = Ok (Some vector_A, ECol Scenario.column_snp).
Proof.
  intros H. unfold emission_column. rewrite H. cbn [Py.bind].
  replace (repair_quality (repeat (QVal (30 # 1)) 6) (repeat 40%Z 6))
    with (Ok (repeat (QVal Scenario.q_A) 6)) by reflexivity.
  replace ((List.length (chars "CCCCCC") <? 5)%nat || is_char "N" "A")%bool
    with false by reflexivity.
  cbn [Py.bind].
  replace (is_char "-" "A") with false by reflexivity.
  replace (is_char "A" "A") with true by reflexivity.
  pose proof base_column_snp as E.
  unfold Scenario.pileup_A, Scenario.quals_A in E. rewrite E. reflexivity.
Qed.

(** The emission matrix of the six reads at position 1 of a reference
    whose base there is [A], and at position 0 of [ACGT]. *)
Lemma emission_matrix_snp (c0 c2 c3 : ascii) :
  build_emissionmatrix Scenario.sam_A [c0; "A"%char; c2; c3]
  = Ok [ESent; ECol Scenario.column_snp; ESent; ESent].
Proof.
  unfold build_emissionmatrix. cbn [build_loop].
  rewrite column_without_reads by reflexivity. cbn [Py.bind].
  rewrite column_with_six_reads by reflexivity. cbn [Py.bind].
  rewrite !column_without_reads by reflexivity. reflexivity.
Qed.

Lemma emission_matrix_first :
  build_emissionmatrix Scenario.sam_first Scenario.ref_A
  = Ok [ECol Scenario.column_snp; ESent; ESent; ESent].
Proof.
  unfold build_emissionmatrix, Scenario.ref_A, chars.
  cbn [list_ascii_of_string build_loop].
  rewrite column_with_six_reads by reflexivity. cbn [Py.bind].
  rewrite !column_without_reads by reflexivity. reflexivity.
Qed.

Lemma scenario_first_realigned :
  Normalizer.get_cigar Scenario.sam_first = (Scenario.sam_first, [])
  /\ Realigner.update_reads (Realigner.update_startpos Scenario.sam_first []) []
     = Scenario.sam_first.
Proof. repeat split. Qed.

(** Among the states that the column supports, state 1 has the
    largest prior and the largest emission. *)
Lemma column_snp_bounds (i : nat) :
  (i < 30)%nat ->
  nth i (map Viterbi.nan_to_ninf Scenario.column_snp) NaN = NInf
  \/ exists e, nth i (map Viterbi.nan_to_ninf Scenario.column_snp) NaN = Fin e
               /\ e <= Scenario.six Scenario.hom_A
               /\ val (nth i (map Pipeline.to_fl Scenario.row0_A) NaN)
                  <= Q2R (nth 1 Scenario.row0_A 0%Q).
Proof.
  intros Hi. pose proof het_le_hom as Hh.
  assert (H6 : Scenario.six Scenario.het_A <= Scenario.six Scenario.hom_A)
    by (unfold Scenario.six; lra).
  assert (Hq : forall k, In k [1; 4; 8; 9; 10]%nat ->
                 val (nth k (map Pipeline.to_fl Scenario.row0_A) NaN)
                 <= Q2R (nth 1 Scenario.row0_A 0%Q)).
  { intros k Hk.
    assert (E : nth k (map Pipeline.to_fl Scenario.row0_A) NaN
                = Fin (Q2R (nth k Scenario.row0_A 0%Q))).
    { cbn in Hk. decompose [or] Hk; subst; try contradiction; reflexivity. }
    rewrite E. cbn [val]. apply Qle_Rle.
    cbn in Hk. decompose [or] Hk; subst; try contradiction;
      apply Qle_bool_iff; reflexivity. }
  unfold Scenario.column_snp. cbn [map app repeat Viterbi.nan_to_ninf].
  repeat (destruct i as [| i];
          [ cbn [nth];
            first [ left; reflexivity
                  | right; eexists; split; [reflexivity |];
                    split; [first [exact H6 | lra] | apply Hq; cbn; tauto] ]
          | ]).
  lia.
Qed.

Lemma initial_column_snp (tm : list (list Q)) :
  nth 0 tm [] = Scenario.row0_A ->
  exists v,
    Viterbi.initial_column (nth 0 (map (map Pipeline.to_fl) tm) [])
                           (map Viterbi.nan_to_ninf Scenario.column_snp) = Ok v
    /\ List.length v = 30%nat /\ argmax v = Ok 1%nat.
Proof.
  intros Hrow.
  set (ip := nth 0 (map (map Pipeline.to_fl) tm) []).
  assert (Hip : ip = map Pipeline.to_fl Scenario.row0_A).
  { unfold ip. rewrite <- Hrow.
    change (@nil fl) with (map Pipeline.to_fl []). apply map_nth. }
  destruct row0_A_bounds as [Hb _].
  apply (@initial_argmax_second ip (map Viterbi.nan_to_ninf Scenario.column_snp)
           (Q2R (nth 1 Scenario.row0_A 0%Q)) (Scenario.six Scenario.hom_A)).
  - rewrite Hip. reflexivity.
  - reflexivity.
  - rewrite Hip. reflexivity.
  - reflexivity.
  - reflexivity.
  - replace 0 with (Q2R 0) by (unfold Q2R; cbn; lra). apply Qlt_Rlt. reflexivity.
  - intros i Hi. rewrite Hip.
    rewrite (nth_indep _ NaN (Pipeline.to_fl 0)) by (rewrite length_map; cbn; lia).
    rewrite map_nth. eexists. split; [reflexivity |].
    rewrite Forall_forall in Hb.
    destruct (Hb (nth i Scenario.row0_A 0%Q)) as [H1 _]; [apply nth_In; cbn; lia |].
    apply Qle_Rle in H1.
    replace (Q2R 0) with 0 in H1 by (unfold Q2R; cbn; lra). exact H1.
  - intros i Hi. rewrite Hip. now apply column_snp_bounds.
Qed.

(** The decoder on the matrix whose only data is that column, at
    index 1: state 1 there. *)
Lemma viterbi_snp (tm : list (list Q)) :
  List.length tm = 30%nat -> nth 0 tm [] = Scenario.row0_A ->
  Viterbi.viterbi [ESent; ECol Scenario.column_snp; ESent; ESent]
                  (map (map Pipeline.to_fl) tm)
  = Ok [-1; 1; -1; -1]%Z.
Proof.
  intros Htm Hrow.
  rewrite viterbi_recursive.
  rewrite (at_ok _ []) by (rewrite length_map; lia). cbn [Py.bind].
  change (Viterbi.prepare [ESent; ECol Scenario.column_snp; ESent; ESent])
    with [@None (list fl); Some (map Viterbi.nan_to_ninf Scenario.column_snp); None; None].
  cbn [Viterbi.fwd].
  destruct (initial_column_snp tm Hrow) as (v & -> & Hv & Hmax).
  cbn [Py.bind rev app Viterbi.bwd]. rewrite Hmax. reflexivity.
Qed.

(** The six reads over the base [A] at position 1: the decoder chooses
    state 1 there. *)
Lemma decode_snp (c0 c2 c3 : ascii) :
  Pipeline.decode Scenario.sam_A [c0; "A"%char; c2; c3] = Ok [-1; 1; -1; -1]%Z.
Proof.
  unfold Pipeline.decode.
  destruct scenario_A_realigned as (-> & -> & -> & _).
  change (Realigner.update_ref [c0; "A"%char; c2; c3] []) with [c0; "A"%char; c2; c3].
  destruct transition_matrix_A as (tm & -> & Htm & Hrow). cbn [Py.bind].
  rewrite emission_matrix_snp. cbn [Py.bind].
  now apply viterbi_snp.
Qed.

(** The six reads over the first base of [ACGT]: the first column of
    the emission matrix holds data, and the backtracking asks for the
    column after the last one. *)
Lemma decode_first :
  Pipeline.decode Scenario.sam_first Scenario.ref_A = Err IndexError.
Proof.
  unfold Pipeline.decode.
  destruct scenario_first_realigned as (-> & H).
  change (Realigner.update_insertions (Realigner.del_duplicate_ins [])) with (@nil (Z * Z * list string)).
  rewrite H.
  change (Realigner.update_ref Scenario.ref_A []) with Scenario.ref_A.
  destruct transition_matrix_A as (tm & -> & Htm & Hrow). cbn [Py.bind].
  rewrite emission_matrix_first. cbn [Py.bind].
  rewrite viterbi_recursive.
  rewrite (at_ok _ []) by (rewrite length_map; lia). cbn [Py.bind].
  change (Viterbi.prepare [ECol Scenario.column_snp; ESent; ESent; ESent])
    with [Some (map Viterbi.nan_to_ninf Scenario.column_snp); @None (list fl); None; None].
  cbn [Viterbi.fwd].
  destruct (initial_column_snp tm Hrow) as (v & -> & Hv & Hmax).
  reflexivity.
Qed.

End ScenarioSnp.



(* ================================================================== *)
(** * Further properties of the stages *)
(* ================================================================== *)

From Stdlib Require Import Psatz.

Import Reads Events Columns Paths Records.

Section SliceFacts.

Context {A : Type}.

Lemma slice_to_from (l : list A) (k : Z) : slice_to l k ++ slice_from l k = l.
Proof. apply firstn_skipn. Qed.

Lemma slice_from_length_le (l : list A) (k : Z) :
  (List.length (slice_from l k) <= List.length l)%nat.
Proof. unfold slice_from. rewrite length_skipn. lia. Qed.

Lemma slice_to_length_le (l : list A) (k : Z) :
  (List.length (slice_to l k) <= List.length l)%nat.
Proof. unfold slice_to. rewrite length_firstn. lia. Qed.

Lemma times_length (k : Z) (x : A) : List.length (times k x) = Z.to_nat k.
Proof. apply repeat_length. Qed.

Lemma splice_length (l : list A) (k n : Z) (x : A) :
  List.length (slice_to l k ++ times n x ++ slice_from l k)
  = (List.length l + Z.to_nat n)%nat.
Proof.
  rewrite !length_app, times_length.
  rewrite <- (slice_to_from l k) at 3. rewrite length_app. lia.
Qed.

Lemma filter_times_out (f : A -> bool) (n : Z) (x : A) :
  f x = false -> filter f (times n x) = [].
Proof.
  intros Hx. unfold times. induction (Z.to_nat n) as [| m IH]; cbn; [reflexivity |].
  now rewrite Hx.
Qed.

Lemma filter_splice (f : A -> bool) (l : list A) (k n : Z) (x : A) :
  f x = false ->
  filter f (slice_to l k ++ times n x ++ slice_from l k) = filter f l.
Proof.
  intros Hx. rewrite !filter_app, (@filter_times_out f n x Hx), app_nil_l.
  now rewrite <- filter_app, slice_to_from.
Qed.

End SliceFacts.

Lemma ungap_splice (s : list ascii) (k n : Z) :
  ungap (slice_to s k ++ times n gap ++ slice_from s k) = ungap s.
Proof. apply filter_splice. reflexivity. Qed.

Section CigarFacts.

Import Normalizer.
Local Open Scope Z_scope.

Variable readnames : list string.

(** What one operation does to the read: a case analysis on its kind. *)
Lemma cigar_step_pos (st : cigar_state) (op : Z * Z) :
  cs_pos (cigar_step readnames st op) = cs_pos (cigar_case readnames st op) + snd op.
Proof. reflexivity. Qed.

Lemma cigar_step_read (st : cigar_state) (op : Z * Z) :
  cs_read (cigar_step readnames st op) = cs_read (cigar_case readnames st op).
Proof. reflexivity. Qed.

Lemma cigar_step_insertions (st : cigar_state) (op : Z * Z) :
  cs_insertions (cigar_step readnames st op)
  = cs_insertions (cigar_case readnames st op).
Proof. reflexivity. Qed.

Lemma record_insertion_read (st : cigar_state) (len : Z) :
  cs_read (record_insertion st len) = cs_read st.
Proof. unfold record_insertion. destruct (cs_same_read st); reflexivity. Qed.

Lemma record_insertion_lengths (st : cigar_state) (len : Z) :
  map event_length (cs_insertions (record_insertion st len))
  = map event_length (cs_insertions st) ++ [len].
Proof.
  unfold record_insertion.
  destruct (cs_same_read st); cbn [cs_insertions]; now rewrite map_app.
Qed.

Lemma cigar_case_lengths (st : cigar_state) (op : Z * Z) :
  map event_length (cs_insertions (cigar_case readnames st op))
  = map event_length (cs_insertions st)
      ++ (if has_kind 1 op then [snd op] else []).
Proof.
  destruct op as [kind len]. unfold cigar_case, has_kind. cbn [fst snd].
  destruct (kind =? 4) eqn:E4.
  { apply Z.eqb_eq in E4. subst kind. cbn [Z.eqb Pos.eqb].
    destruct (cs_soft_at_beginning st); cbn [cs_insertions with_read];
      now rewrite app_nil_r. }
  destruct (kind =? 5) eqn:E5.
  { apply Z.eqb_eq in E5. subst kind. cbn [Z.eqb Pos.eqb].
    destruct (cs_hard_at_beginning st); cbn [cs_insertions with_read];
      now rewrite app_nil_r. }
  destruct (kind =? 1) eqn:E1.
  { destruct (negb _); rewrite record_insertion_lengths; reflexivity. }
  destruct (kind =? 2); cbn [cs_insertions with_read]; now rewrite app_nil_r.
Qed.

Lemma fold_cigar_lengths (ops : list (Z * Z)) :
  forall st,
    map event_length (cs_insertions (fold_left (cigar_step readnames) ops st))
    = map event_length (cs_insertions st) ++ map snd (filter (has_kind 1) ops).
Proof.
  induction ops as [| op ops IH]; intros st; cbn [fold_left filter map].
  - now rewrite app_nil_r.
  - rewrite IH, cigar_step_insertions, cigar_case_lengths.
    destruct (has_kind 1 op); cbn [map]; now rewrite <- app_assoc.
Qed.

Lemma cigar_case_touched (st : cigar_state) (op : Z * Z) :
  touched (cs_read st) (cs_read (cigar_case readnames st op)).
Proof.
  destruct op as [kind len]. unfold cigar_case.
  destruct (kind =? 4) eqn:E4.
  { destruct (cs_soft_at_beginning st); cbn [cs_read with_read r_seq r_qual];
      apply touched_clip; cbn [r_seq r_qual];
      auto using slice_from_length_le, slice_to_length_le. }
  destruct (kind =? 5) eqn:E5.
  { destruct (cs_hard_at_beginning st); cbn [cs_read with_read];
      apply touched_name; reflexivity. }
  destruct (kind =? 1) eqn:E1.
  { destruct (negb _); rewrite record_insertion_read; cbn [cs_read with_read];
      apply touched_name; reflexivity. }
  destruct (kind =? 2) eqn:E2.
  { cbn [cs_read with_read]. eapply touched_gaps; reflexivity. }
  apply touched_name; reflexivity.
Qed.

Lemma cigar_case_unclipped (st : cigar_state) (op : Z * Z) :
  fst op <> 4 ->
  let r := cs_read st in
  let r' := cs_read (cigar_case readnames st op) in
  ungap (r_seq r') = ungap (r_seq r)
  /\ r_start r' = r_start r /\ r_mapq r' = r_mapq r
  /\ (List.length (r_seq r') + List.length (r_qual r)
      = List.length (r_seq r) + List.length (r_qual r'))%nat.
Proof.
  intros H4. destruct op as [kind len]. cbn [fst] in H4. unfold cigar_case.
  destruct (kind =? 4) eqn:E4; [apply Z.eqb_eq in E4; contradiction |].
  destruct (kind =? 5) eqn:E5.
  { destruct (cs_hard_at_beginning st); cbn [cs_read with_read r_seq r_qual r_start r_mapq];
      repeat split; lia. }
  destruct (kind =? 1) eqn:E1.
  { destruct (negb _); rewrite record_insertion_read;
      cbn [cs_read with_read r_seq r_qual r_start r_mapq]; repeat split; lia. }
  destruct (kind =? 2) eqn:E2.
  { cbn [cs_read with_read r_seq r_qual r_start r_mapq].
    rewrite ungap_splice, !splice_length. repeat split; lia. }
  repeat split; lia.
Qed.

Lemma touched_covered (r r' : read) : touched r r' -> covered r -> covered r'.
Proof.
  unfold covered. intros [Hs Hq | k n Hs Hq _ _ _ | Hs Hq _ _] H.
  - rewrite Hq. lia.
  - rewrite Hs, Hq, !splice_length. lia.
  - now rewrite Hs, Hq.
Qed.

Lemma fold_cigar_covered (ops : list (Z * Z)) :
  forall st,
    covered (cs_read st) ->
    covered (cs_read (fold_left (cigar_step readnames) ops st)).
Proof.
  induction ops as [| op ops IH]; intros st H; cbn [fold_left]; [exact H |].
  apply IH. rewrite cigar_step_read.
  eapply touched_covered; [apply cigar_case_touched | exact H].
Qed.

Lemma fold_cigar_unclipped (ops : list (Z * Z)) :
  forall st,
    Forall (fun op => fst op <> 4) ops ->
    let r := cs_read st in
    let r' := cs_read (fold_left (cigar_step readnames) ops st) in
    ungap (r_seq r') = ungap (r_seq r)
    /\ r_start r' = r_start r /\ r_mapq r' = r_mapq r
    /\ (List.length (r_seq r') + List.length (r_qual r)
        = List.length (r_seq r) + List.length (r_qual r'))%nat.
Proof.
  induction ops as [| op ops IH]; intros st Hops; cbn [fold_left].
  - repeat split; lia.
  - inversion Hops as [| ? ? H4 Hrest]; subst.
    destruct (IH (cigar_step readnames st op) Hrest) as (I1 & I2 & I3 & I4).
    destruct (cigar_case_unclipped st op H4) as (J1 & J2 & J3 & J4).
    rewrite cigar_step_read in I1, I2, I3, I4.
    cbv zeta. repeat split; try congruence; lia.
Qed.

End CigarFacts.

Section GetCigarFacts.

Import Normalizer.
Local Open Scope Z_scope.

Lemma get_cigar_read_none (readnames : list string) (insertions : list insertion)
  (r : read) :
  r_cigar r = None -> get_cigar_read readnames insertions r = None.
Proof. unfold get_cigar_read. now intros ->. Qed.

Lemma get_cigar_read_some (readnames : list string) (insertions : list insertion)
  (r : read) :
  has_cigar r = true ->
  get_cigar_read readnames insertions r
  = let st := fold_left (cigar_step readnames) (operations r)
                (mkCS r true true true 0 0 insertions) in
    Some (cs_read st, cs_insertions st).
Proof.
  unfold get_cigar_read, has_cigar, operations.
  destruct (r_cigar r); [reflexivity | discriminate].
Qed.

Lemma get_cigar_loop_skip (pre post : list read) (r : read) :
  r_cigar r = None ->
  forall newsam insertions readnames,
    get_cigar_loop (pre ++ r :: post) newsam insertions readnames
    = get_cigar_loop (pre ++ post) newsam insertions readnames.
Proof.
  intros Hr. induction pre as [| a pre IH]; intros newsam insertions readnames;
    cbn [app get_cigar_loop].
  - now rewrite get_cigar_read_none.
  - destruct (get_cigar_read readnames insertions a) as [[r' ins'] |]; apply IH.
Qed.

(** The reads of the result, one for each read that has operations,
    related to it by whatever one read's loop establishes. *)
Lemma get_cigar_loop_reads (P : read -> Prop) (R : read -> read -> Prop) :
  (forall readnames insertions r r' ins',
      P r -> get_cigar_read readnames insertions r = Some (r', ins') -> R r r') ->
  forall sam newsam insertions readnames,
    Forall P sam ->
    exists out,
      fst (get_cigar_loop sam newsam insertions readnames) = newsam ++ out
      /\ Forall2 R (filter has_cigar sam) out.
Proof.
  intros Hstep. induction sam as [| r sam IH]; intros newsam insertions readnames HP;
    cbn [get_cigar_loop filter].
  - exists []. split; [now rewrite app_nil_r | constructor].
  - inversion HP as [| ? ? Hr Hrest]; subst.
    destruct (get_cigar_read readnames insertions r) as [[r' ins'] |] eqn:E.
    + assert (Hc : has_cigar r = true).
      { unfold get_cigar_read in E. unfold has_cigar.
        destruct (r_cigar r); [reflexivity | discriminate]. }
      rewrite Hc.
      destruct (IH (newsam ++ [r']) ins' (readnames ++ [r_name r']) Hrest)
        as (out & Hout & HR).
      exists (r' :: out). split.
      * rewrite Hout, <- app_assoc. reflexivity.
      * constructor; [eapply Hstep; eassumption | exact HR].
    + assert (Hc : has_cigar r = false).
      { unfold get_cigar_read in E. unfold has_cigar.
        destruct (r_cigar r); [discriminate | reflexivity]. }
      rewrite Hc. apply IH. exact Hrest.
Qed.

Lemma get_cigar_loop_lengths (sam : list read) :
  forall newsam insertions readnames,
    map event_length (snd (get_cigar_loop sam newsam insertions readnames))
    = map event_length insertions ++ flat_map inserted_lengths sam.
Proof.
  induction sam as [| r sam IH]; intros newsam insertions readnames;
    cbn [get_cigar_loop flat_map].
  - now rewrite app_nil_r.
  - unfold get_cigar_read, inserted_lengths at 1, operations.
    destruct (r_cigar r) as [ops |].
    + rewrite IH. cbn [cs_insertions]. rewrite fold_cigar_lengths.
      cbn [cs_insertions]. now rewrite <- app_assoc.
    + rewrite IH. reflexivity.
Qed.

End GetCigarFacts.

(** X1.  A read that has no alignment operations ([read[3] is None]) is
    skipped by [get_cigar]: the result is that of the list without the
    read, whatever comes before and after it. *)
Theorem get_cigar_skips_reads_without_operations (pre post : list read) (r : read) :
  r_cigar r = None ->
  Normalizer.get_cigar (pre ++ r :: post) = Normalizer.get_cigar (pre ++ post).
Proof. intros Hr. unfold Normalizer.get_cigar. now apply get_cigar_loop_skip. Qed.

Lemma get_cigar_skips_reads_without_operations_witness :
  r_cigar (mkRead 7 "u" (chars "ACGT") None 0 []) = None
  /\ Normalizer.get_cigar
       ([Scenario.read_C] ++ mkRead 7 "u" (chars "ACGT") None 0 [] :: [Scenario.read_B])
     = Normalizer.get_cigar ([Scenario.read_C] ++ [Scenario.read_B]).
Proof.
  split; [reflexivity |].
  apply get_cigar_skips_reads_without_operations. reflexivity.
Defined.

(** X2.  [get_cigar] records one event for each insertion operation:
    the lengths of the events are, in order, the lengths of the
    insertion operations of the reads; and it returns one read for each
    read that has operations. *)
Theorem get_cigar_one_event_per_insertion (sam : list read) :
  map Reads.event_length (snd (Normalizer.get_cigar sam))
  = flat_map Reads.inserted_lengths sam
  /\ List.length (fst (Normalizer.get_cigar sam))
     = List.length (filter Reads.has_cigar sam).
Proof.
  split.
  - unfold Normalizer.get_cigar. now rewrite get_cigar_loop_lengths.
  - destruct (@get_cigar_loop_reads (fun _ => True) (fun _ _ => True)
                (fun _ _ _ _ _ _ _ => I) sam [] [] [])
      as (out & Hout & HR).
    { clear. induction sam; constructor; auto. }
    unfold Normalizer.get_cigar. rewrite Hout. cbn [app].
    symmetry. eapply Forall2_length. exact HR.
Qed.

Lemma get_cigar_covered (sam : list read) :
  Forall covered sam -> Forall covered (fst (Normalizer.get_cigar sam)).
Proof.
  intros H.
  destruct (@get_cigar_loop_reads covered (fun _ r' => covered r'))
    with (sam := sam) (newsam := @nil read) (insertions := @nil insertion)
         (readnames := @nil string) as (out & Hout & HR).
  - intros readnames insertions r r' ins' Hr E.
    unfold Normalizer.get_cigar_read in E. destruct (r_cigar r) as [ops |]; [| discriminate].
    injection E as <- _. now apply fold_cigar_covered.
  - exact H.
  - unfold Normalizer.get_cigar. rewrite Hout. cbn [app].
    clear Hout. induction HR; constructor; auto.
Qed.

(** X3.  [get_cigar] never leaves a read with fewer qualities than
    bases: if every read has at least as many qualities as bases on
    entry, so has every read of the result (a soft clip shortens the
    sequence only, a deletion lengthens both). *)
Theorem get_cigar_keeps_qualities_covering (sam : list read) :
  Forall Reads.covered sam ->
  Forall Reads.covered (fst (Normalizer.get_cigar sam)).
Proof. apply get_cigar_covered. Qed.

Lemma get_cigar_keeps_qualities_covering_witness :
  Forall Reads.covered [Scenario.read_B]
  /\ Forall Reads.covered (fst (Normalizer.get_cigar [Scenario.read_B])).
Proof.
  assert (H : Forall Reads.covered [Scenario.read_B]).
  { constructor; [| constructor]. unfold Reads.covered. cbn. lia. }
  split; [exact H |].
  exact (@get_cigar_keeps_qualities_covering [Scenario.read_B] H).
Defined.

(** X4.  On reads without soft-clip operations [get_cigar] changes
    neither the start nor the mapping quality of a read, adds nothing
    but gap characters to its sequence, and keeps sequence and qualities
    of equal length. *)
Theorem get_cigar_without_soft_clips (sam : list read) :
  Forall Reads.unclipped sam ->
  Forall2
    (fun r r' =>
       r_start r' = r_start r /\ r_mapq r' = r_mapq r
       /\ Reads.ungap (r_seq r') = Reads.ungap (r_seq r)
       /\ (Reads.aligned r -> Reads.aligned r'))
    (filter Reads.has_cigar sam) (fst (Normalizer.get_cigar sam)).
Proof.
  intros H.
  destruct (@get_cigar_loop_reads Reads.unclipped
              (fun r r' =>
                 r_start r' = r_start r /\ r_mapq r' = r_mapq r
                 /\ Reads.ungap (r_seq r') = Reads.ungap (r_seq r)
                 /\ (Reads.aligned r -> Reads.aligned r')))
    with (sam := sam) (newsam := @nil read) (insertions := @nil insertion)
         (readnames := @nil string) as (out & Hout & HR).
  - intros readnames insertions r r' ins' Hr E.
    unfold Normalizer.get_cigar_read in E. unfold Reads.unclipped, Reads.operations in Hr.
    destruct (r_cigar r) as [ops |]; [| discriminate].
    injection E as <- _.
    destruct (@fold_cigar_unclipped readnames ops
                (Normalizer.mkCS r true true true 0 0 insertions) Hr)
      as (I1 & I2 & I3 & I4).
    cbn [Normalizer.cs_read] in I1, I2, I3, I4.
    repeat split; try assumption. unfold Reads.aligned. lia.
  - exact H.
  - unfold Normalizer.get_cigar. rewrite Hout. exact HR.
Qed.

Lemma get_cigar_without_soft_clips_witness :
  Forall Reads.unclipped
         [mkRead 10 "d" (chars "ACGT") (Some [(0, 2); (2, 3); (0, 2)]%Z) 60
                 (repeat (QVal (30 # 1)) 4)]
  /\ Forall2
       (fun r r' =>
          r_start r' = r_start r /\ r_mapq r' = r_mapq r
          /\ Reads.ungap (r_seq r') = Reads.ungap (r_seq r)
          /\ (Reads.aligned r -> Reads.aligned r'))
       (filter Reads.has_cigar
          [mkRead 10 "d" (chars "ACGT") (Some [(0, 2); (2, 3); (0, 2)]%Z) 60
                  (repeat (QVal (30 # 1)) 4)])
       (fst (Normalizer.get_cigar
               [mkRead 10 "d" (chars "ACGT") (Some [(0, 2); (2, 3); (0, 2)]%Z) 60
                       (repeat (QVal (30 # 1)) 4)])).
Proof.
  assert (H : Forall Reads.unclipped
                [mkRead 10 "d" (chars "ACGT") (Some [(0, 2); (2, 3); (0, 2)]%Z) 60
                        (repeat (QVal (30 # 1)) 4)]).
  { constructor; [| constructor].
    unfold Reads.unclipped. cbn. repeat constructor; discriminate. }
  split; [exact H |].
  exact (@get_cigar_without_soft_clips _ H).
Defined.

Section DictFacts.

Import Realigner.
Local Open Scope Z_scope.

Lemma key_eqb_eq (a b : Z * Z) : key_eqb a b = true <-> a = b.
Proof.
  destruct a as [a1 a2], b as [b1 b2]. unfold key_eqb. cbn [fst snd].
  rewrite andb_true_iff, !Z.eqb_eq. split; [intros [-> ->] | intros [= -> ->]]; auto.
Qed.

Lemma key_eqb_refl (a : Z * Z) : key_eqb a a = true.
Proof. now apply key_eqb_eq. Qed.

Lemma key_eqb_neq (a b : Z * Z) : key_eqb a b = false <-> a <> b.
Proof.
  rewrite <- key_eqb_eq. destruct (key_eqb a b); split; congruence.
Qed.

Lemma dict_get_set (d : ins_dict) (k k' : Z * Z) (v : list string) :
  dict_get (dict_set d k v) k' = if key_eqb k k' then Some v else dict_get d k'.
Proof.
  induction d as [| [k0 v0] d IH]; cbn [dict_set dict_get].
  - reflexivity.
  - destruct (key_eqb k0 k) eqn:E0; cbn [dict_get].
    + apply key_eqb_eq in E0. subst k0. destruct (key_eqb k k'); reflexivity.
    + destruct (key_eqb k0 k') eqn:E1.
      * apply key_eqb_eq in E1. subst k0.
        destruct (key_eqb k k') eqn:E2; [| reflexivity].
        apply key_eqb_eq in E2. subst k'. rewrite key_eqb_refl in E0. discriminate.
      * exact IH.
Qed.

Lemma dict_get_none (d : ins_dict) (k : Z * Z) :
  dict_get d k = None <-> ~ In k (keys d).
Proof.
  induction d as [| [k0 v0] d IH]; cbn [dict_get keys map fst In].
  - tauto.
  - destruct (key_eqb k0 k) eqn:E.
    + apply key_eqb_eq in E. subst. split; [discriminate | tauto].
    + apply key_eqb_neq in E. unfold keys in IH. rewrite IH. tauto.
Qed.

Lemma dict_set_absent (d : ins_dict) (k : Z * Z) (v : list string) :
  dict_get d k = None -> dict_set d k v = d ++ [(k, v)].
Proof.
  induction d as [| [k0 v0] d IH]; cbn [dict_get dict_set app]; [reflexivity |].
  destruct (key_eqb k0 k); [discriminate |]. intros H. now rewrite IH.
Qed.

Lemma dict_set_present (d : ins_dict) (k : Z * Z) (v w : list string) :
  dict_get d k = Some w -> keys (dict_set d k v) = keys d.
Proof.
  induction d as [| [k0 v0] d IH]; cbn [dict_get dict_set]; [discriminate |].
  destruct (key_eqb k0 k); [reflexivity |]. intros H. cbn [keys map fst].
  f_equal. apply IH. exact H.
Qed.

End DictFacts.

Section SortedFacts.

Import Realigner.
Local Open Scope Z_scope.

Lemma key_le_trans (a b c : Z * Z) : key_le a b -> key_le b c -> key_le a c.
Proof. unfold key_le. lia. Qed.

Lemma ins_leb_true (a b : insertion) : ins_leb a b = true -> key_le (fst a) (fst b).
Proof.
  destruct a as [[c1 l1] n1], b as [[c2 l2] n2]. unfold ins_leb, key_le. cbn [fst snd].
  destruct (c1 <? c2) eqn:E1; [apply Z.ltb_lt in E1; lia |].
  destruct (c2 <? c1) eqn:E2; [discriminate |].
  destruct (l1 <? l2) eqn:E3; [apply Z.ltb_lt in E3; apply Z.ltb_ge in E1, E2; lia |].
  destruct (l2 <? l1) eqn:E4; [discriminate |].
  apply Z.ltb_ge in E1, E2, E3, E4. lia.
Qed.

Lemma ins_leb_false (a b : insertion) : ins_leb a b = false -> key_le (fst b) (fst a).
Proof.
  destruct a as [[c1 l1] n1], b as [[c2 l2] n2]. unfold ins_leb, key_le. cbn [fst snd].
  destruct (c1 <? c2) eqn:E1; [discriminate |].
  destruct (c2 <? c1) eqn:E2; [apply Z.ltb_lt in E2; lia |].
  destruct (l1 <? l2) eqn:E3; [discriminate |].
  destruct (l2 <? l1) eqn:E4; [apply Z.ltb_lt in E4; apply Z.ltb_ge in E1, E2; lia |].
  apply Z.ltb_ge in E1, E2, E3, E4. lia.
Qed.

Lemma ins_insert_in (x y : insertion) (l : list insertion) :
  In y (ins_insert x l) <-> y = x \/ In y l.
Proof.
  induction l as [| a l IH]; cbn [ins_insert In].
  - intuition congruence.
  - destruct (ins_leb x a); cbn [In]; [intuition congruence |].
    rewrite IH. intuition congruence.
Qed.

Lemma sorted_in (y : insertion) (l : list insertion) : In y (sorted l) <-> In y l.
Proof.
  induction l as [| a l IH]; cbn [sorted fold_right In]; [tauto |].
  fold (sorted l). rewrite ins_insert_in, IH. intuition congruence.
Qed.

Lemma ins_insert_length (x : insertion) (l : list insertion) :
  List.length (ins_insert x l) = S (List.length l).
Proof.
  induction l as [| a l IH]; cbn [ins_insert List.length]; [reflexivity |].
  destruct (ins_leb x a); cbn [List.length]; [reflexivity | now rewrite IH].
Qed.

Lemma sorted_length (l : list insertion) : List.length (sorted l) = List.length l.
Proof.
  induction l as [| a l IH]; cbn [sorted fold_right List.length]; [reflexivity |].
  fold (sorted l). now rewrite ins_insert_length, IH.
Qed.

Lemma ins_insert_sorted (x : insertion) (l : list insertion) :
  key_sorted l -> key_sorted (ins_insert x l).
Proof.
  induction l as [| a l IH]; cbn [ins_insert key_sorted].
  - intros _. split; [constructor | exact I].
  - intros [Ha Hl]. destruct (ins_leb x a) eqn:E; cbn [key_sorted].
    + apply ins_leb_true in E. repeat split; try assumption.
      constructor; [exact E |].
      eapply Forall_impl; [| exact Ha]. intros b Hb. cbv beta in Hb.
      eapply key_le_trans; eassumption.
    + apply ins_leb_false in E. split; [| apply IH; exact Hl].
      apply Forall_forall. intros b Hb. apply ins_insert_in in Hb.
      destruct Hb as [-> | Hb]; [exact E |].
      rewrite Forall_forall in Ha. now apply Ha.
Qed.

Lemma sorted_sorted (l : list insertion) : key_sorted (sorted l).
Proof.
  induction l as [| a l IH]; cbn [sorted fold_right]; [exact I |].
  apply ins_insert_sorted. exact IH.
Qed.

Lemma ascending_snoc (l : list (Z * Z)) (k : Z * Z) :
  ascending l -> Forall (fun a => key_lt a k) l -> ascending (l ++ [k]).
Proof.
  induction l as [| a l IH]; intros Hl Hk; cbn [app]; [exact I |].
  inversion Hk as [| ? ? Ha Hrest]; subst.
  destruct l as [| b l]; cbn [app ascending].
  - split; [exact Ha | exact I].
  - cbn [ascending] in Hl. destruct Hl as [Hab Hl]. split; [exact Hab |].
    apply IH; assumption.
Qed.

Lemma key_le_lt (a k : Z * Z) : key_le a k -> a <> k -> key_lt a k.
Proof.
  destruct a as [a1 a2], k as [k1 k2]. unfold key_le, key_lt. cbn [fst snd].
  intros H Hne. destruct H as [H | [H1 H2]]; [now left |].
  right. split; [exact H1 |].
  destruct (Z.eq_dec a2 k2) as [-> |]; [subst; congruence | lia].
Qed.

Lemma del_duplicate_ins_fold (insertions : list insertion) :
  del_duplicate_ins insertions = fold_left coalesce_step (sorted insertions) [].
Proof. reflexivity. Qed.

Lemma coalesce_ascending (todo : list insertion) :
  forall d,
    key_sorted todo ->
    ascending (keys d) ->
    (forall k e, In k (keys d) -> In e todo -> key_le k (fst e)) ->
    ascending (keys (fold_left coalesce_step todo d)).
Proof.
  induction todo as [| e todo IH]; intros d Hs Ha Hle; cbn [fold_left]; [exact Ha |].
  destruct Hs as [He Hs].
  assert (Hk : forall k, In k (keys d) -> key_le k (fst e)).
  { intros k Hk. apply (Hle k e Hk). now left. }
  destruct e as [[c l] name]. cbn [fst] in *. unfold coalesce_step at 2.
  destruct (dict_get d (c, l)) as [names |] eqn:E.
  - apply IH; [exact Hs | | ].
    + now rewrite (dict_set_present d (c, l) (names ++ [name]) E).
    + intros k e Hin He'. rewrite (dict_set_present d (c, l) (names ++ [name]) E) in Hin.
      apply (Hle k e Hin). now right.
  - rewrite (dict_set_absent d (c, l) [name] E).
    assert (Hkeys : keys (d ++ [((c, l), [name])]) = keys d ++ [(c, l)]).
    { unfold keys. now rewrite map_app. }
    apply IH; [exact Hs | | ].
    + rewrite Hkeys. apply ascending_snoc; [exact Ha |].
      apply Forall_forall. intros k Hin. apply key_le_lt; [now apply Hk |].
      apply dict_get_none in E. congruence.
    + intros k e Hin He'. rewrite Hkeys in Hin. apply in_app_or in Hin.
      destruct Hin as [Hin | [<- | []]].
      * apply (Hle k e Hin). now right.
      * rewrite Forall_forall in He. apply (He e He').
Qed.

Lemma coalesce_names (todo : list insertion) :
  forall d k name,
    (exists names, dict_get (fold_left coalesce_step todo d) k = Some names
                   /\ In name names)
    <-> (In (k, name) todo
         \/ exists names, dict_get d k = Some names /\ In name names).
Proof.
  induction todo as [| e todo IH]; intros d k name; cbn [fold_left In].
  - tauto.
  - rewrite IH. clear IH. destruct e as [[c l] n]. unfold coalesce_step.
    assert (Hstep :
      (exists names,
          dict_get (match dict_get d (c, l) with
                    | Some names => dict_set d (c, l) (names ++ [n])
                    | None => dict_set d (c, l) [n]
                    end) k = Some names /\ In name names)
      <-> ((c, l, n) = (k, name)
           \/ exists names, dict_get d k = Some names /\ In name names)).
    { destruct (dict_get d (c, l)) as [old |] eqn:E; rewrite dict_get_set;
        destruct (key_eqb (c, l) k) eqn:Ek.
      - apply key_eqb_eq in Ek. subst k. rewrite E. split.
        + intros (names & [= <-] & Hin). apply in_app_or in Hin.
          destruct Hin as [Hin | [-> | []]]; [right; eauto | now left].
        + intros [[= ->] | (names & [= <-] & Hin)].
          * eexists. split; [reflexivity |]. apply in_or_app. right. now left.
          * eexists. split; [reflexivity |]. apply in_or_app. now left.
      - apply key_eqb_neq in Ek. split; [tauto |].
        intros [[= E1 E2] | H]; [congruence | exact H].
      - apply key_eqb_eq in Ek. subst k. rewrite E. split.
        + intros (names & [= <-] & [-> | []]). now left.
        + intros [[= ->] | (names & [=] & _)].
          eexists. split; [reflexivity | now left].
      - apply key_eqb_neq in Ek. split; [tauto |].
        intros [[= E1 E2] | H]; [congruence | exact H]. }
    rewrite Hstep. intuition congruence.
Qed.

End SortedFacts.

(** X5.  The keys of the dictionary built by [del_duplicate_ins] are in
    strictly ascending (coordinate, length) order, whatever the order of
    the events; in particular no key occurs twice. *)
Theorem del_duplicate_ins_keys_ascending (insertions : list insertion) :
  Realigner.ascending (Realigner.keys (Realigner.del_duplicate_ins insertions)).
Proof.
  rewrite del_duplicate_ins_fold. apply coalesce_ascending.
  - apply sorted_sorted.
  - exact I.
  - intros k e [].
Qed.

(** X6.  [del_duplicate_ins] loses no event and invents none: a read
    name is listed under the key (coordinate, length) exactly when the
    input holds the event of that coordinate and length for that
    read. *)
Theorem del_duplicate_ins_keeps_every_event (insertions : list insertion)
  (coordinate len : Z) (name : string) :
  In (coordinate, len, name) insertions
  <-> exists names,
        Realigner.dict_get (Realigner.del_duplicate_ins insertions) (coordinate, len)
        = Some names
        /\ In name names.
Proof.
  rewrite del_duplicate_ins_fold, coalesce_names, sorted_in. cbn [Realigner.dict_get].
  split; [now left |]. intros [H | (names & [=] & _)]. exact H.
Qed.

Section RealignFacts.

Import Realigner.
Local Open Scope Z_scope.

Lemma coalesce_keys (todo : list insertion) :
  forall d k,
    In k (keys (fold_left coalesce_step todo d)) ->
    In k (keys d) \/ exists name, In (k, name) todo.
Proof.
  induction todo as [| e todo IH]; intros d k; cbn [fold_left]; [now left |].
  intros H. apply IH in H. destruct H as [H | [name H]].
  - destruct e as [[c l] n]. unfold coalesce_step in H.
    destruct (dict_get d (c, l)) as [names |] eqn:E.
    + rewrite (dict_set_present d (c, l) (names ++ [n]) E) in H. now left.
    + rewrite (dict_set_absent d (c, l) [n] E) in H. unfold keys in H.
      rewrite map_app in H. apply in_app_or in H. destruct H as [H | [<- | []]].
      * now left.
      * right. exists n. now left.
  - right. exists name. now right.
Qed.

Lemma effective_keys_separated (ks : list (Z * Z)) :
  forall before,
    ascending ks -> Forall (fun k => 0 <= snd k) ks ->
    separated (effective_keys ks before).
Proof.
  induction ks as [| [c l] ks IH]; intros before Ha Hp; cbn [effective_keys]; [exact I |].
  destruct ks as [| [c' l'] ks]; [exact I |].
  cbn [effective_keys separated fst snd].
  destruct Ha as [Hlt Ha]. inversion Hp as [| ? ? Hl Hrest]; subst.
  split.
  - unfold key_lt in Hlt. cbn [fst snd] in Hlt. lia.
  - apply (IH (before + l) Ha Hrest).
Qed.

Lemma separated_ascending (ks : list (Z * Z)) :
  separated ks -> Forall (fun k => 0 < snd k) ks -> ascending ks.
Proof.
  induction ks as [| a ks IH]; intros Hs Hp; [exact I |].
  destruct ks as [| b ks]; [exact I |].
  destruct Hs as [Hab Hs]. inversion Hp as [| ? ? Ha Hrest]; subst.
  cbn [ascending]. split; [left; lia | apply IH; assumption].
Qed.

Lemma effective_keys_lengths (ks : list (Z * Z)) :
  forall before, map snd (effective_keys ks before) = map snd ks.
Proof.
  induction ks as [| [c l] ks IH]; intros before; cbn [effective_keys map snd];
    [reflexivity | now rewrite IH].
Qed.

Lemma update_insertions_keys (d : ins_dict) :
  ascending (keys d) -> Forall (fun k => 0 < snd k) (keys d) ->
  update_insertions d = combine (effective_keys (keys d) 0) (map snd d).
Proof.
  intros Ha Hp. unfold update_insertions.
  rewrite update_insertions_loop_app; [reflexivity | assumption | assumption |].
  intros. constructor.
Qed.

End RealignFacts.

(** X7.  For events of positive length the realigned keys
    ([update_insertions] after [del_duplicate_ins]) do not overlap: the
    run of each event ends at or before the coordinate of the next one;
    they are strictly ascending, and the lengths and the read names are
    those of the coalesced events. *)
Theorem realigned_events_do_not_overlap (insertions : list insertion) :
  Forall (fun e => (0 < Reads.event_length e)%Z) insertions ->
  let coalesced := Realigner.del_duplicate_ins insertions in
  let realigned := Realigner.update_insertions coalesced in
  Events.separated (Realigner.keys realigned)
  /\ Realigner.ascending (Realigner.keys realigned)
  /\ map snd (Realigner.keys realigned) = map snd (Realigner.keys coalesced)
  /\ map snd realigned = map snd coalesced.
Proof.
  intros Hpos coalesced realigned.
  assert (Ha : Realigner.ascending (Realigner.keys coalesced)).
  { unfold coalesced. rewrite del_duplicate_ins_fold. apply coalesce_ascending.
    - apply sorted_sorted.
    - exact I.
    - intros k e []. }
  assert (Hp : Forall (fun k => (0 < snd k)%Z) (Realigner.keys coalesced)).
  { apply Forall_forall. intros k Hk. unfold coalesced in Hk.
    rewrite del_duplicate_ins_fold in Hk. apply coalesce_keys in Hk.
    destruct Hk as [[] | [name Hk]]. apply (proj1 (sorted_in _ _)) in Hk.
    rewrite Forall_forall in Hpos. apply (Hpos _ Hk). }
  assert (Hlen : List.length (Realigner.effective_keys (Realigner.keys coalesced) 0)
                 = List.length (map snd coalesced)).
  { rewrite effective_keys_length. unfold Realigner.keys. now rewrite !length_map. }
  assert (Hkeys : Realigner.keys realigned
                  = Realigner.effective_keys (Realigner.keys coalesced) 0).
  { unfold realigned. rewrite (@update_insertions_keys coalesced Ha Hp).
    now apply keys_combine. }
  assert (Hsep : Events.separated (Realigner.keys realigned)).
  { rewrite Hkeys. apply effective_keys_separated; [exact Ha |].
    eapply Forall_impl; [| exact Hp]. intros k Hk. cbv beta in Hk. lia. }
  assert (Hl : map snd (Realigner.keys realigned) = map snd (Realigner.keys coalesced)).
  { rewrite Hkeys. apply effective_keys_lengths. }
  repeat split.
  - exact Hsep.
  - apply separated_ascending; [exact Hsep |].
    apply Forall_forall. intros k Hk.
    assert (Hin : In (snd k) (map snd (Realigner.keys realigned))) by now apply in_map.
    rewrite Hl in Hin. apply in_map_iff in Hin. destruct Hin as (k' & Hk' & Hin).
    rewrite Forall_forall in Hp. specialize (Hp k' Hin). lia.
  - exact Hl.
  - unfold realigned. rewrite (@update_insertions_keys coalesced Ha Hp).
    clear - Hlen. revert Hlen.
    generalize (Realigner.effective_keys (Realigner.keys coalesced) 0).
    generalize (map snd coalesced). intros vs ks. revert vs.
    induction ks as [| k ks IH]; intros [| v vs] H; cbn in *; try discriminate;
      [reflexivity |]. f_equal. apply IH. lia.
Qed.

Lemma realigned_events_do_not_overlap_witness :
  Forall (fun e => (0 < Reads.event_length e)%Z)
         [(80, 3, "r2"); (50, 2, "r1"); (80, 3, "r4")]%Z%string
  /\ Realigner.update_insertions
       (Realigner.del_duplicate_ins [(80, 3, "r2"); (50, 2, "r1"); (80, 3, "r4")]%Z%string)
     = [((50, 2), ["r1"]); ((82, 3), ["r2"; "r4"])]%Z%string
  /\ Events.separated
       (Realigner.keys
          (Realigner.update_insertions
             (Realigner.del_duplicate_ins
                [(80, 3, "r2"); (50, 2, "r1"); (80, 3, "r4")]%Z%string))).
Proof.
  assert (H : Forall (fun e => (0 < Reads.event_length e)%Z)
                     [(80, 3, "r2"); (50, 2, "r1"); (80, 3, "r4")]%Z%string).
  { repeat constructor. }
  split; [exact H |]. split; [reflexivity |].
  exact (proj1 (@realigned_events_do_not_overlap _ H)).
Defined.

Section UpdateRefFacts.

Import Realigner.
Local Open Scope Z_scope.

Lemma update_ref_fold (ref_seq : list ascii) (d : ins_dict) :
  update_ref ref_seq d = fold_left insert_gaps (keys d) ref_seq.
Proof. reflexivity. Qed.

Lemma insert_gaps_length (ref_seq : list ascii) (k : Z * Z) :
  List.length (insert_gaps ref_seq k) = (List.length ref_seq + Z.to_nat (snd k))%nat.
Proof. apply splice_length. Qed.

Lemma fold_insert_gaps_length (ks : list (Z * Z)) :
  forall ref_seq,
    List.length (fold_left insert_gaps ks ref_seq)
    = (List.length ref_seq + total_length ks)%nat.
Proof.
  induction ks as [| k ks IH]; intros ref_seq; cbn [fold_left].
  - unfold total_length. cbn. lia.
  - rewrite IH, insert_gaps_length. unfold total_length, list_sum. cbn [map fold_right]. lia.
Qed.

Lemma fold_insert_gaps_ungap (ks : list (Z * Z)) :
  forall ref_seq, ungap (fold_left insert_gaps ks ref_seq) = ungap ref_seq.
Proof.
  induction ks as [| k ks IH]; intros ref_seq; cbn [fold_left]; [reflexivity |].
  rewrite IH. apply ungap_splice.
Qed.

Lemma clamp_in_range {A} (l : list A) (k : Z) :
  0 <= k <= Z.of_nat (List.length l) -> clamp l k = Z.to_nat k.
Proof.
  intros H. unfold clamp. destruct (k <? 0) eqn:E; [apply Z.ltb_lt in E; lia |].
  f_equal. lia.
Qed.

Lemma clamp_at_least {A} (l : list A) (k m : Z) :
  0 <= m <= k -> m <= Z.of_nat (List.length l) -> (Z.to_nat m <= clamp l k)%nat.
Proof.
  intros H1 H2. unfold clamp. destruct (k <? 0) eqn:E; [apply Z.ltb_lt in E; lia |].
  lia.
Qed.

(** Insertions at or after [m] leave the first [m] characters alone. *)
Lemma insert_gaps_prefix (ref_seq : list ascii) (k : Z * Z) (m : Z) :
  0 <= m <= fst k -> m <= Z.of_nat (List.length ref_seq) ->
  firstn (Z.to_nat m) (insert_gaps ref_seq k) = firstn (Z.to_nat m) ref_seq.
Proof.
  intros H1 H2. unfold insert_gaps, slice_to.
  pose proof (@clamp_at_least _ ref_seq (fst k) m H1 H2) as Hc.
  rewrite firstn_app, length_firstn.
  replace (Z.to_nat m - Nat.min (clamp ref_seq (fst k)) (List.length ref_seq))%nat
    with 0%nat by lia.
  cbn [firstn]. rewrite app_nil_r, firstn_firstn. f_equal. lia.
Qed.

Lemma fold_insert_gaps_prefix (ks : list (Z * Z)) (m : Z) :
  forall ref_seq,
    0 <= m <= Z.of_nat (List.length ref_seq) ->
    Forall (fun k => m <= fst k) ks ->
    firstn (Z.to_nat m) (fold_left insert_gaps ks ref_seq)
    = firstn (Z.to_nat m) ref_seq.
Proof.
  induction ks as [| k ks IH]; intros ref_seq Hm Hks; cbn [fold_left]; [reflexivity |].
  inversion Hks as [| ? ? Hk Hrest]; subst.
  rewrite IH; [| rewrite insert_gaps_length; lia | exact Hrest].
  apply insert_gaps_prefix; lia.
Qed.

Lemma insert_gaps_run (ref_seq : list ascii) (e l o : Z) :
  0 <= e <= Z.of_nat (List.length ref_seq) -> 0 <= o < l ->
  nth_error (insert_gaps ref_seq (e, l)) (Z.to_nat (e + o)) = Some gap.
Proof.
  intros He Ho. unfold insert_gaps, slice_to. cbn [fst snd].
  rewrite (@clamp_in_range _ ref_seq e He).
  rewrite nth_error_app2; rewrite length_firstn; [| lia].
  replace (Z.to_nat (e + o) - Nat.min (Z.to_nat e) (List.length ref_seq))%nat
    with (Z.to_nat o) by lia.
  rewrite nth_error_app1 by (rewrite times_length; lia).
  unfold times. apply nth_error_repeat. lia.
Qed.

Lemma separated_later (ks : list (Z * Z)) :
  forall a,
    separated (a :: ks) -> Forall (fun k => 0 <= snd k) ks ->
    Forall (fun k => fst a + snd a <= fst k) ks.
Proof.
  induction ks as [| b ks IH]; intros a Hs Hp; [constructor |].
  destruct Hs as [Hab Hs]. inversion Hp as [| ? ? Hb Hrest]; subst.
  constructor; [exact Hab |].
  eapply Forall_impl; [| apply (IH b Hs Hrest)]. intros k Hk. cbv beta in Hk. lia.
Qed.

Lemma fold_insert_gaps_runs (ks : list (Z * Z)) :
  forall ref_seq,
    separated ks -> Forall (fun k => 0 < snd k) ks ->
    in_range ks (Z.of_nat (List.length ref_seq)) ->
    forall e l o,
      In (e, l) ks -> 0 <= o < l ->
      nth_error (fold_left insert_gaps ks ref_seq) (Z.to_nat (e + o)) = Some gap.
Proof.
  induction ks as [| [e1 l1] ks IH]; intros ref_seq Hs Hp Hr e l o Hin Ho; [destruct Hin |].
  cbn [fold_left]. inversion Hp as [| ? ? Hl1 Hrest]; subst. cbn [snd] in Hl1.
  destruct Hr as [He1 Hr]. cbn [fst snd] in He1, Hr.
  assert (Hlen : Z.of_nat (List.length (insert_gaps ref_seq (e1, l1)))
                 = Z.of_nat (List.length ref_seq) + l1).
  { rewrite insert_gaps_length. cbn [snd]. lia. }
  destruct Hin as [[= -> ->] | Hin].
  - assert (Hlater : Forall (fun k => e + l <= fst k) ks).
    { apply (@separated_later ks (e, l) Hs).
      eapply Forall_impl; [| exact Hrest]. intros k Hk. cbv beta in Hk. lia. }
    pose proof (@fold_insert_gaps_prefix ks (e + l) (insert_gaps ref_seq (e, l))) as Hpre.
    rewrite <- (@insert_gaps_run ref_seq e l o He1 Ho).
    rewrite <- (firstn_skipn (Z.to_nat (e + l))
                  (fold_left insert_gaps ks (insert_gaps ref_seq (e, l)))).
    rewrite Hpre by (try assumption; lia).
    rewrite nth_error_app1.
    + rewrite nth_error_firstn.
      destruct (Nat.ltb_spec (Z.to_nat (e + o)) (Z.to_nat (e + l))); [reflexivity | lia].
    + rewrite length_firstn. apply Nat.min_glb_lt; [lia |].
      apply Nat2Z.inj_lt. rewrite Hlen. lia.
  - apply IH with (l := l); try assumption.
    + destruct ks as [| b ks]; [exact I | exact (proj2 Hs)].
    + now rewrite Hlen.
Qed.

Lemma effective_keys_in_range (ks : list (Z * Z)) (n : Z) :
  forall before,
    Forall (fun k => 0 <= fst k <= n /\ 0 < snd k) ks -> 0 <= before ->
    in_range (effective_keys ks before) (n + before).
Proof.
  induction ks as [| [c l] ks IH]; intros before H Hb; cbn [effective_keys in_range];
    [exact I |].
  inversion H as [| ? ? [Hc Hl] Hrest]; subst. cbn [fst snd] in *.
  split; [lia |]. rewrite <- Z.add_assoc. apply IH; [exact Hrest | lia].
Qed.

End UpdateRefFacts.

(** X8.  [update_ref] adds nothing but gap characters: the result is
    longer by the total length of the events, and without its gaps it is
    the reference without its gaps. *)
Theorem update_ref_only_adds_gaps (ref_seq : list ascii) (insertions : Realigner.ins_dict) :
  List.length (Realigner.update_ref ref_seq insertions)
  = (List.length ref_seq + Events.total_length (Realigner.keys insertions))%nat
  /\ Reads.ungap (Realigner.update_ref ref_seq insertions) = Reads.ungap ref_seq.
Proof.
  rewrite update_ref_fold. split.
  - apply fold_insert_gaps_length.
  - apply fold_insert_gaps_ungap.
Qed.

(** X9.  When the coalesced events are in ascending order, have
    positive lengths and coordinates within the reference, the reference
    that [update_ref] returns for the realigned events holds a gap at
    each of the positions [e], ..., [e + l - 1] of every realigned event
    [(e, l)]. *)
Theorem update_ref_gap_runs (ref_seq : list ascii) (coalesced : Realigner.ins_dict) :
  Realigner.ascending (Realigner.keys coalesced) ->
  Forall (fun k => (0 <= fst k <= Z.of_nat (List.length ref_seq))%Z /\ (0 < snd k)%Z)
         (Realigner.keys coalesced) ->
  let realigned := Realigner.update_insertions coalesced in
  forall e l o,
    In (e, l) (Realigner.keys realigned) -> (0 <= o < l)%Z ->
    nth_error (Realigner.update_ref ref_seq realigned) (Z.to_nat (e + o)) = Some gap.
Proof.
  intros Ha Hk realigned e l o Hin Ho.
  assert (Hp : Forall (fun k => (0 < snd k)%Z) (Realigner.keys coalesced)).
  { eapply Forall_impl; [| exact Hk]. intros k [_ H]. exact H. }
  assert (Hp0 : Forall (fun k => (0 <= snd k)%Z) (Realigner.keys coalesced)).
  { eapply Forall_impl; [| exact Hp]. intros k H. cbv beta in H. lia. }
  assert (Hkeys : Realigner.keys realigned
                  = Realigner.effective_keys (Realigner.keys coalesced) 0).
  { unfold realigned. rewrite (@update_insertions_keys coalesced Ha Hp). apply keys_combine.
    rewrite effective_keys_length. unfold Realigner.keys. now rewrite !length_map. }
  rewrite update_ref_fold. rewrite Hkeys in *.
  apply fold_insert_gaps_runs with (l := l); try assumption.
  - now apply effective_keys_separated.
  - apply Forall_forall. intros k Hin'.
    assert (Hs : In (snd k) (map snd (Realigner.effective_keys (Realigner.keys coalesced) 0)))
      by now apply in_map.
    rewrite effective_keys_lengths in Hs. apply in_map_iff in Hs.
    destruct Hs as (k' & Hk' & Hin''). rewrite Forall_forall in Hp.
    specialize (Hp k' Hin''). lia.
  - replace (Z.of_nat (List.length ref_seq)) with (Z.of_nat (List.length ref_seq) + 0)%Z
      by lia.
    apply effective_keys_in_range; [exact Hk | lia].
Qed.

Lemma update_ref_gap_runs_witness :
  Realigner.ascending (Realigner.keys Scenario.events_C)
  /\ Forall (fun k => (0 <= fst k <= Z.of_nat (List.length (repeat "A"%char 100)))%Z
                      /\ (0 < snd k)%Z)
            (Realigner.keys Scenario.events_C)
  /\ In (82, 3)%Z (Realigner.keys (Realigner.update_insertions Scenario.events_C))
  /\ nth_error (Realigner.update_ref (repeat "A"%char 100)
                  (Realigner.update_insertions Scenario.events_C))
               (Z.to_nat (82 + 2))
     = Some gap.
Proof.
  assert (Ha : Realigner.ascending (Realigner.keys Scenario.events_C)).
  { cbn. unfold Realigner.key_lt. cbn. split; [left; lia | exact I]. }
  assert (Hk : Forall (fun k => (0 <= fst k <= Z.of_nat (List.length (repeat "A"%char 100)))%Z
                                /\ (0 < snd k)%Z)
                      (Realigner.keys Scenario.events_C)).
  { repeat constructor; cbn; lia. }
  assert (Hin : In (82, 3)%Z (Realigner.keys (Realigner.update_insertions Scenario.events_C))).
  { cbn. right. now left. }
  split; [exact Ha | split; [exact Hk | split; [exact Hin |]]].
  apply (@update_ref_gap_runs (repeat "A"%char 100) Scenario.events_C Ha Hk 82 3 2 Hin)%Z.
  lia.
Defined.

Section UpdateReadsFacts.

Import Realigner.
Local Open Scope Z_scope.

Lemma update_reads_read_fold (d : ins_dict) (r : read) :
  update_reads_read d r = fold_left gap_read d r.
Proof. reflexivity. Qed.

Lemma same_bases_refl (r : read) : same_bases r r.
Proof. unfold same_bases. repeat split; reflexivity. Qed.

Lemma same_bases_trans (a b c : read) : same_bases a b -> same_bases b c -> same_bases a c.
Proof.
  unfold same_bases. intros (A1 & A2 & A3 & A4 & A5 & A6) (B1 & B2 & B3 & B4 & B5 & B6).
  repeat split; try congruence. lia.
Qed.

Lemma gap_read_same_bases (r : read) (item : (Z * Z) * list string) :
  same_bases r (gap_read r item).
Proof.
  destruct item as [insert names]. unfold gap_read.
  destruct (negb _ && _ && _); [| apply same_bases_refl].
  unfold same_bases. cbn [r_start r_name r_cigar r_mapq r_seq r_qual].
  rewrite ungap_splice, !splice_length. repeat split; lia.
Qed.

Lemma fold_gap_read_same_bases (d : ins_dict) :
  forall r, same_bases r (fold_left gap_read d r).
Proof.
  induction d as [| item d IH]; intros r; cbn [fold_left]; [apply same_bases_refl |].
  eapply same_bases_trans; [apply gap_read_same_bases | apply IH].
Qed.

Lemma gap_read_own (r : read) (insert : Z * Z) (names : list string) :
  mem_string (r_name r) names = true -> gap_read r (insert, names) = r.
Proof. intros H. unfold gap_read. now rewrite H. Qed.

Lemma fold_gap_read_own (d : ins_dict) :
  forall r,
    Forall (fun names => mem_string (r_name r) names = true) (map snd d) ->
    fold_left gap_read d r = r.
Proof.
  induction d as [| [insert names] d IH]; intros r H; cbn [fold_left]; [reflexivity |].
  inversion H as [| ? ? Hn Hrest]; subst. cbn [snd] in Hn.
  rewrite (@gap_read_own r insert names Hn). apply IH. exact Hrest.
Qed.

Lemma shifted_start_mono (events : list (Z * Z)) :
  forall s1 s2,
    Forall (fun k => 0 <= snd k) events -> s1 <= s2 ->
    shifted_start events s1 <= shifted_start events s2.
Proof.
  induction events as [| [c l] events IH]; intros s1 s2 Hp Hs; cbn [shifted_start];
    [exact Hs |].
  inversion Hp as [| ? ? Hl Hrest]; subst. cbn [snd] in Hl.
  destruct (c <? s1) eqn:E1, (c <? s2) eqn:E2;
    try apply Z.ltb_lt in E1; try apply Z.ltb_lt in E2;
    try apply Z.ltb_ge in E1; try apply Z.ltb_ge in E2;
    apply IH; try assumption; lia.
Qed.

Lemma shifted_start_ge (events : list (Z * Z)) :
  forall s, Forall (fun k => 0 <= snd k) events -> s <= shifted_start events s.
Proof.
  induction events as [| [c l] events IH]; intros s Hp; cbn [shifted_start]; [lia |].
  inversion Hp as [| ? ? Hl Hrest]; subst. cbn [snd] in Hl.
  destruct (c <? s); [| now apply IH].
  etransitivity; [| apply IH; exact Hrest]. lia.
Qed.

Lemma shifted_start_before (events : list (Z * Z)) :
  forall s, Forall (fun k => s <= fst k) events -> shifted_start events s = s.
Proof.
  induction events as [| [c l] events IH]; intros s H; cbn [shifted_start]; [reflexivity |].
  inversion H as [| ? ? Hc Hrest]; subst. cbn [fst] in Hc.
  destruct (c <? s) eqn:E; [apply Z.ltb_lt in E; lia |]. now apply IH.
Qed.

Lemma update_startpos_read_fields (events : list (Z * Z)) :
  forall (r : read),
    let r' := fold_left
                (fun (r : read) (insert : Z * Z) =>
                   if r.(r_start) >? fst insert then
                     mkRead (r.(r_start) + snd insert) r.(r_name) r.(r_seq) r.(r_cigar)
                            r.(r_mapq) r.(r_qual)
                   else r)
                events r in
    r_name r' = r_name r /\ r_seq r' = r_seq r /\ r_cigar r' = r_cigar r
    /\ r_mapq r' = r_mapq r /\ r_qual r' = r_qual r.
Proof.
  induction events as [| k events IH]; intros r; cbn [fold_left]; [repeat split |].
  cbv zeta. cbv zeta in IH. destruct (r_start r >? fst k).
  - match goal with
    | |- context [fold_left ?f events ?x] => specialize (IH x)
    end.
    cbn [r_name r_seq r_cigar r_mapq r_qual] in IH. exact IH.
  - apply IH.
Qed.

End UpdateReadsFacts.

(** X10.  [update_reads] adds nothing but gap characters to a read:
    start, name, operations and mapping quality are kept, the sequence
    without its gaps is the same, sequence and qualities grow by the
    same amount; a read that is listed under every event is returned
    unchanged. *)
Theorem update_reads_only_adds_gaps (insertions : Realigner.ins_dict) (r : read) :
  Events.same_bases r (Realigner.update_reads_read insertions r)
  /\ (Reads.covered r -> Reads.covered (Realigner.update_reads_read insertions r))
  /\ (Reads.aligned r -> Reads.aligned (Realigner.update_reads_read insertions r))
  /\ (Forall (fun names => mem_string (r_name r) names = true) (map snd insertions) ->
      Realigner.update_reads_read insertions r = r).
Proof.
  rewrite update_reads_read_fold.
  pose proof (@fold_gap_read_same_bases insertions r) as H.
  split; [exact H |].
  destruct H as (_ & _ & _ & _ & _ & Hlen).
  unfold Reads.covered, Reads.aligned.
  split; [lia |]. split; [lia |]. apply fold_gap_read_own.
Qed.

Lemma update_reads_only_adds_gaps_witness :
  Reads.aligned Scenario.read_C
  /\ Reads.aligned
       (Realigner.update_reads_read
          (Realigner.update_insertions Scenario.events_C) Scenario.read_C).
Proof.
  assert (H : Reads.aligned Scenario.read_C) by reflexivity.
  split; [exact H |].
  exact (proj1 (proj2 (proj2
           (@update_reads_only_adds_gaps
              (Realigner.update_insertions Scenario.events_C) Scenario.read_C))) H).
Defined.

(** X11.  For events of non-negative length [update_startpos] keeps the
    order of the reads: a read that starts no later than another one
    still does after the update; no start decreases; and a read that
    starts at or before every event coordinate is returned unchanged. *)
Theorem update_startpos_keeps_read_order (insertions : Realigner.ins_dict)
  (r1 r2 : read) :
  Forall (fun k => (0 <= snd k)%Z) (Realigner.keys insertions) ->
  (r_start r1 <= r_start r2)%Z ->
  (r_start (Realigner.update_startpos_read insertions r1)
   <= r_start (Realigner.update_startpos_read insertions r2))%Z
  /\ (r_start r1 <= r_start (Realigner.update_startpos_read insertions r1))%Z
  /\ (Forall (fun k => (r_start r1 <= fst k)%Z) (Realigner.keys insertions) ->
      Realigner.update_startpos_read insertions r1 = r1).
Proof.
  intros Hp Hs. unfold Realigner.update_startpos_read.
  rewrite !update_startpos_read_start. split; [| split].
  - now apply shifted_start_mono.
  - now apply shifted_start_ge.
  - intros Hb.
    pose proof (@update_startpos_read_start (Realigner.keys insertions) r1) as Hstart.
    pose proof (@update_startpos_read_fields (Realigner.keys insertions) r1) as Hf.
    cbv zeta in Hf. rewrite (@shifted_start_before _ _ Hb) in Hstart.
    destruct Hf as (F1 & F2 & F3 & F4 & F5).
    revert Hstart F1 F2 F3 F4 F5.
    match goal with
    | |- context [fold_left ?f ?l r1] => generalize (fold_left f l r1)
    end.
    intros r' Hstart F1 F2 F3 F4 F5. destruct r', r1. cbn in *. congruence.
Qed.

Lemma update_startpos_keeps_read_order_witness :
  Forall (fun k => (0 <= snd k)%Z)
         (Realigner.keys (Realigner.update_insertions Scenario.events_C))
  /\ (r_start (mkRead 60 "a" [] None 0 []) <= r_start Scenario.read_C)%Z
  /\ (r_start (Realigner.update_startpos_read
                 (Realigner.update_insertions Scenario.events_C)
                 (mkRead 60 "a" [] None 0 []))
      <= r_start (Realigner.update_startpos_read
                    (Realigner.update_insertions Scenario.events_C) Scenario.read_C))%Z.
Proof.
  assert (Hp : Forall (fun k => (0 <= snd k)%Z)
                      (Realigner.keys (Realigner.update_insertions Scenario.events_C))).
  { repeat constructor; cbn; lia. }
  assert (Hs : (r_start (mkRead 60 "a" [] None 0 []) <= r_start Scenario.read_C)%Z).
  { cbn. lia. }
  split; [exact Hp | split; [exact Hs |]].
  exact (proj1 (@update_startpos_keeps_read_order
                  (Realigner.update_insertions Scenario.events_C)
                  (mkRead 60 "a" [] None 0 []) Scenario.read_C Hp Hs)).
Defined.

Section PileupFacts.

Import Realigner.
Local Open Scope Z_scope.

Lemma get_pileup_step (r : read) (rest : list read) (p : Z) :
  get_pileup (r :: rest) p
  = if covers r p then
      Py.bind (Py.get r.(r_seq) (p - r.(r_start))) (fun b =>
      Py.bind (Py.get r.(r_qual) (p - r.(r_start))) (fun q =>
      Py.bind (get_pileup rest p) (fun '(bases, qualities, mapqs) =>
      Ok (b :: bases, q :: qualities, r.(r_mapq) :: mapqs))))
    else get_pileup rest p.
Proof. reflexivity. Qed.

Lemma get_nth_error {A} (l : list A) (k : Z) :
  0 <= k -> Py.get l k = match nth_error l (Z.to_nat k) with
                         | Some a => Ok a
                         | None => Err IndexError
                         end.
Proof. intros H. unfold Py.get. destruct (0 <=? k) eqn:E; [reflexivity |]. apply Z.leb_gt in E. lia. Qed.

Lemma get_pileup_covered (sam : list read) (p : Z) :
  Forall covered sam ->
  exists bases qualities mapqs,
    get_pileup sam p = Ok (bases, qualities, mapqs)
    /\ List.length qualities = List.length bases
    /\ List.length mapqs = List.length bases
    /\ List.length bases = List.length (filter (fun r => covers r p) sam)
    /\ mapqs = map r_mapq (filter (fun r => covers r p) sam).
Proof.
  induction sam as [| r sam IH]; intros H.
  - exists [], [], []. repeat split.
  - inversion H as [| ? ? Hr Hrest]; subst.
    destruct (IH Hrest) as (bs & qs & ms & E & L1 & L2 & L3 & L4).
    rewrite get_pileup_step. cbn [filter]. destruct (covers r p) eqn:Ec.
    + unfold covers in Ec. apply andb_true_iff in Ec. destruct Ec as [E1 E2].
      apply Z.leb_le in E1. apply Z.gtb_lt in E2. unfold covered in Hr.
      rewrite !get_nth_error by lia.
      destruct (nth_error (r_seq r) (Z.to_nat (p - r_start r))) as [b |] eqn:Eb.
      2:{ apply nth_error_None in Eb. lia. }
      destruct (nth_error (r_qual r) (Z.to_nat (p - r_start r))) as [q |] eqn:Eq.
      2:{ apply nth_error_None in Eq. lia. }
      cbn [Py.bind]. rewrite E. cbn [Py.bind].
      exists (b :: bs), (q :: qs), (r_mapq r :: ms).
      cbn [List.length map]. repeat split; congruence.
    + exists bs, qs, ms. repeat split; assumption.
Qed.

Lemma get_pileup_short (pre post : list read) (r : read) (p : Z) :
  Forall covered pre ->
  covers r p = true ->
  Z.of_nat (List.length (r_qual r)) <= p - r_start r ->
  get_pileup (pre ++ r :: post) p = Err IndexError.
Proof.
  intros Hpre Hc Hq. induction pre as [| a pre IH]; cbn [app].
  - rewrite get_pileup_step, Hc.
    unfold covers in Hc. apply andb_true_iff in Hc. destruct Hc as [E1 E2].
    apply Z.leb_le in E1. apply Z.gtb_lt in E2.
    rewrite !get_nth_error by lia.
    destruct (nth_error (r_seq r) (Z.to_nat (p - r_start r))) as [b |] eqn:Eb.
    2:{ apply nth_error_None in Eb. lia. }
    destruct (nth_error (r_qual r) (Z.to_nat (p - r_start r))) as [q |] eqn:Eq.
    { assert (nth_error (r_qual r) (Z.to_nat (p - r_start r)) <> None) by congruence.
      apply nth_error_Some in H. lia. }
    reflexivity.
  - inversion Hpre as [| ? ? Ha Hrest]; subst. specialize (IH Hrest).
    rewrite get_pileup_step, IH.
    destruct (covers a p) eqn:Ea; [| reflexivity].
    unfold covers in Ea. apply andb_true_iff in Ea. destruct Ea as [E1 E2].
    apply Z.leb_le in E1. apply Z.gtb_lt in E2. unfold covered in Ha.
    rewrite !get_nth_error by lia.
    destruct (nth_error (r_seq a) (Z.to_nat (p - r_start a))) as [b |] eqn:Eb.
    2:{ apply nth_error_None in Eb. lia. }
    destruct (nth_error (r_qual a) (Z.to_nat (p - r_start a))) as [q |] eqn:Eq.
    2:{ apply nth_error_None in Eq. lia. }
    reflexivity.
Qed.

End PileupFacts.

(** X12.  When every read has at least as many qualities as bases,
    [get_pileup] raises no exception: it returns one base, one quality
    and one mapping quality for each read that covers the position, the
    mapping qualities in the order of the reads. *)
Theorem get_pileup_total_when_qualities_cover (samfile : list read) (pileupposition : Z) :
  Forall Reads.covered samfile ->
  exists bases qualities mapqs,
    Realigner.get_pileup samfile pileupposition = Ok (bases, qualities, mapqs)
    /\ List.length qualities = List.length bases
    /\ List.length mapqs = List.length bases
    /\ List.length bases
       = List.length (filter (fun r => Reads.covers r pileupposition) samfile)
    /\ mapqs = map r_mapq (filter (fun r => Reads.covers r pileupposition) samfile).
Proof. apply get_pileup_covered. Qed.

Lemma get_pileup_total_when_qualities_cover_witness :
  Forall Reads.covered Scenario.sam_A
  /\ exists bases qualities mapqs,
       Realigner.get_pileup Scenario.sam_A 1 = Ok (bases, qualities, mapqs)
       /\ List.length qualities = List.length bases
       /\ List.length mapqs = List.length bases
       /\ List.length bases
          = List.length (filter (fun r => Reads.covers r 1) Scenario.sam_A)
       /\ mapqs = map r_mapq (filter (fun r => Reads.covers r 1) Scenario.sam_A).
Proof.
  assert (H : Forall Reads.covered Scenario.sam_A).
  { repeat constructor. }
  split; [exact H |]. exact (@get_pileup_total_when_qualities_cover Scenario.sam_A 1 H).
Defined.

(** X13.  [get_pileup] raises [IndexError] at the first read that
    covers the position and whose quality list ends before it. *)
Theorem get_pileup_fails_on_short_qualities (pre post : list read) (r : read)
  (pileupposition : Z) :
  Forall Reads.covered pre ->
  Reads.covers r pileupposition = true ->
  (Z.of_nat (List.length (r_qual r)) <= pileupposition - r_start r)%Z ->
  Realigner.get_pileup (pre ++ r :: post) pileupposition = Err IndexError.
Proof. apply get_pileup_short. Qed.

Lemma get_pileup_fails_on_short_qualities_witness :
  Forall Reads.covered [Scenario.read_C]
  /\ Reads.covers (mkRead 90 "s" (chars "ACGT") None 0 [QVal 1; QVal 2]) 92 = true
  /\ (Z.of_nat (List.length (r_qual (mkRead 90 "s" (chars "ACGT") None 0 [QVal 1; QVal 2])))
      <= 92 - r_start (mkRead 90 "s" (chars "ACGT") None 0 [QVal 1; QVal 2]))%Z
  /\ Realigner.get_pileup
       ([Scenario.read_C] ++ mkRead 90 "s" (chars "ACGT") None 0 [QVal 1; QVal 2] :: [])
       92
     = Err IndexError.
Proof.
  assert (H1 : Forall Reads.covered [Scenario.read_C]).
  { repeat constructor. }
  assert (H2 : Reads.covers (mkRead 90 "s" (chars "ACGT") None 0 [QVal 1; QVal 2]) 92
               = true) by reflexivity.
  assert (H3 : (Z.of_nat (List.length
                            (r_qual (mkRead 90 "s" (chars "ACGT") None 0 [QVal 1; QVal 2])))
                <= 92 - r_start (mkRead 90 "s" (chars "ACGT") None 0 [QVal 1; QVal 2]))%Z).
  { cbn. lia. }
  split; [exact H1 | split; [exact H2 | split; [exact H3 |]]].
  exact (@get_pileup_fails_on_short_qualities [Scenario.read_C] []
           (mkRead 90 "s" (chars "ACGT") None 0 [QVal 1; QVal 2]) 92 H1 H2 H3).
Defined.

Section EmissionFacts.

Import Emission.

Lemma mapM_ext {A B} (f g : A -> result B) (l : list A) :
  (forall a, In a l -> f a = g a) -> mapM f l = mapM g l.
Proof.
  induction l as [| a l IH]; intros H; cbn [mapM]; [reflexivity |].
  rewrite (H a (or_introl eq_refl)), IH; [reflexivity |].
  intros b Hb. apply H. now right.
Qed.

Lemma mapM_total {A B} (f : A -> result B) (l : list A) :
  (forall a, In a l -> exists b, f a = Ok b) ->
  exists bs, mapM f l = Ok bs /\ List.length bs = List.length l.
Proof.
  induction l as [| a l IH]; intros H; cbn [mapM].
  - exists []. split; reflexivity.
  - destruct (H a (or_introl eq_refl)) as [b Hb].
    destruct IH as (bs & Hbs & Hl); [intros x Hx; apply H; now right |].
    rewrite Hb, Hbs. exists (b :: bs). cbn [Py.bind List.length]. split; [reflexivity | lia].
Qed.

Lemma map_nth_seq' {A} (l : list A) (d : A) :
  map (fun i => nth i l d) (seq 0 (List.length l)) = l.
Proof.
  apply nth_ext with (d := d) (d' := d).
  - now rewrite length_map, length_seq.
  - intros n Hn. rewrite length_map, length_seq in Hn.
    rewrite (nth_indep _ d (nth 0 l d)) by (rewrite length_map, length_seq; exact Hn).
    rewrite (map_nth (fun i => nth i l d)), seq_nth by exact Hn. reflexivity.
Qed.

Lemma get_front {A} (l : list A) (i : nat) (d : A) :
  (i < List.length l)%nat -> Py.get l (Z.of_nat i) = Ok (nth i l d).
Proof. intros H. apply (@at_ok _ l i d H). Qed.

Lemma get_back {A} (l : list A) (i : nat) (d : A) :
  (i < List.length l)%nat ->
  Py.get l (Z.of_nat i - Z.of_nat (List.length l)) = Ok (nth i l d).
Proof.
  intros H. unfold Py.get.
  destruct (0 <=? Z.of_nat i - Z.of_nat (List.length l))%Z eqn:E;
    [apply Z.leb_le in E; lia |].
  destruct (0 <=? Z.of_nat (List.length l) + (Z.of_nat i - Z.of_nat (List.length l)))%Z
    eqn:E'; [| apply Z.leb_gt in E'; lia].
  replace (Z.to_nat (Z.of_nat (List.length l) + (Z.of_nat i - Z.of_nat (List.length l))))
    with i by lia.
  rewrite (nth_error_nth' l d H). reflexivity.
Qed.

Lemma base_column_same_genotype (vector : list genotype) (pileup : list ascii)
  (pileup_qual : list qual) :
  List.length vector = 15%nat ->
  base_column vector pileup pileup_qual
  = Py.bind (mapM (fun gt => emission_entry pileup pileup_qual gt gt) vector)
            (fun hd => Ok (hd ++ repeat ENaN 15)).
Proof.
  intros Hlen. unfold base_column. f_equal.
  transitivity (mapM (fun gt => emission_entry pileup pileup_qual gt gt)
                     (map (fun i => nth i vector (gap, gap)) (seq 0 15))).
  2:{ rewrite <- Hlen. now rewrite map_nth_seq'. }
  rewrite !mapM_map.
  apply mapM_ext. intros ii Hii. apply in_seq in Hii.
  rewrite (@get_front _ vector ii (gap, gap)) by lia. cbn [Py.bind].
  replace (Z.of_nat ii - 15)%Z with (Z.of_nat ii - Z.of_nat (List.length vector))%Z
    by (rewrite Hlen; lia).
  rewrite (@get_back _ vector ii (gap, gap)) by lia. reflexivity.
Qed.

Lemma gapped_column_same_genotype (vector : list genotype) (pileup : list ascii)
  (pileup_qual : list qual) :
  List.length vector = 15%nat ->
  gapped_column vector pileup pileup_qual
  = Py.bind (mapM (fun gt => emission_entry pileup pileup_qual gt gt) vector)
            (fun tl => Ok (repeat ENaN 15 ++ tl)).
Proof.
  intros Hlen. unfold gapped_column. f_equal.
  transitivity (mapM (fun gt => emission_entry pileup pileup_qual gt gt)
                     (map (fun i => nth i vector (gap, gap)) (seq 0 15))).
  2:{ rewrite <- Hlen. now rewrite map_nth_seq'. }
  change (seq 15 15) with (map (fun i => 15 + i)%nat (seq 0 15)).
  rewrite !mapM_map.
  apply mapM_ext. intros ii Hii. apply in_seq in Hii.
  replace (Z.of_nat (15 + ii) - 15)%Z with (Z.of_nat ii) by lia.
  rewrite (@get_front _ vector ii (gap, gap)) by lia. reflexivity.
Qed.

End EmissionFacts.

(** X14.  On a genotype table of fifteen entries the negative index
    [vector[ii - 15]] in the base branch of [build_emissionmatrix]
    denotes the same genotype as [vector[ii]]: the filters and the cases
    of an entry look at one genotype, as they do in the gap branch. *)
Theorem base_column_negative_index (vector : list Emission.genotype)
  (pileup : list ascii) (pileup_qual : list qual) :
  List.length vector = 15%nat ->
  Emission.base_column vector pileup pileup_qual
  = Py.bind (mapM (fun gt => Emission.emission_entry pileup pileup_qual gt gt) vector)
            (fun hd => Ok (hd ++ repeat ENaN 15))
  /\ Emission.gapped_column vector pileup pileup_qual
     = Py.bind (mapM (fun gt => Emission.emission_entry pileup pileup_qual gt gt) vector)
               (fun tl => Ok (repeat ENaN 15 ++ tl)).
Proof.
  intros H. split;
    [now apply base_column_same_genotype | now apply gapped_column_same_genotype].
Qed.

Lemma base_column_negative_index_witness :
  List.length Emission.vector_C = 15%nat
  /\ Emission.base_column Emission.vector_C Scenario.pileup_A Scenario.quals_A
     = Py.bind (mapM (fun gt => Emission.emission_entry Scenario.pileup_A
                                  Scenario.quals_A gt gt) Emission.vector_C)
               (fun hd => Ok (hd ++ repeat ENaN 15)).
Proof.
  split; [reflexivity |].
  exact (proj1 (@base_column_negative_index Emission.vector_C Scenario.pileup_A
                  Scenario.quals_A eq_refl)).
Defined.

Section LogProbabilities.

Import Emission.
Local Open Scope R_scope.

Lemma ln_ten_pos : 0 < ln 10.
Proof. rewrite <- ln_1. apply ln_increasing; lra. Qed.

Lemma log10_neg (x : R) : 0 < x < 1 -> ln x / ln 10 < 0.
Proof.
  intros [H0 H1].
  assert (Hl : ln x < 0) by (rewrite <- ln_1; apply ln_increasing; lra).
  pose proof ln_ten_pos as H10.
  apply Rmult_lt_reg_r with (r := ln 10); [exact H10 |].
  unfold Rdiv. rewrite Rmult_assoc, Rinv_l by lra. lra.
Qed.

Lemma power_ten_small (e : R) : e < 0 -> 0 < Rpower 10 e < 1.
Proof.
  intros He. unfold Rpower. split; [apply exp_pos |].
  rewrite <- exp_0. apply exp_increasing.
  pose proof ln_ten_pos. nra.
Qed.

Lemma flog10_small (x : R) : 0 < x < 1 -> exists v, flog10 (Fin x) = Fin v /\ v < 0.
Proof.
  intros Hx. exists (ln x / ln 10). split; [| now apply log10_neg].
  cbn [flog10]. rewrite Rsgn_pos by lra. reflexivity.
Qed.

Lemma base_term_negative (gt : genotype) (x : ascii) (q : Q) :
  (0 < q)%Q -> exists v, base_term gt x (QVal q) = Ok (Fin v) /\ v < 0.
Proof.
  intros Hq. apply Qlt_Rlt in Hq.
  replace (Q2R 0) with 0 in Hq by (unfold Q2R; cbn; lra).
  destruct gt as [a b]. unfold base_term.
  assert (He : fdiv (fneg (Fin (Q2R q))) (Fin 10) = Fin (- Q2R q / 10)).
  { cbn [fneg fdiv]. now rewrite Rsgn_pos by lra. }
  rewrite He. cbn [fpow10].
  pose proof (@power_ten_small (- Q2R q / 10)) as Hp.
  assert (Hneg : - Q2R q / 10 < 0) by lra. specialize (Hp Hneg).
  destruct (Ascii.eqb a x && Ascii.eqb b x).
  - cbn [fsub fneg fadd].
    destruct (@flog10_small (1 + - Rpower 10 (- Q2R q / 10))) as (v & Hv & Hlt); [lra |].
    exists v. now rewrite Hv.
  - destruct (negb (Ascii.eqb x a) && negb (Ascii.eqb x b)).
    + destruct (@flog10_small (1 / 4)) as (v & Hv & Hlt); [lra |].
      rewrite Hv. cbn [fadd]. eexists. split; [reflexivity | lra].
    + cbn [fsub fneg fadd fmul].
      destruct (@flog10_small (1 / 2 * (1 + - Rpower 10 (- Q2R q / 10))
                               + 1 / 8 * Rpower 10 (- Q2R q / 10)))
        as (v & Hv & Hlt); [lra |].
      exists v. now rewrite Hv.
Qed.

Lemma pileup_loop_nonpositive (gt : genotype) (pileup : list ascii) :
  forall (pileup_qual : list qual) (acc : R),
    Forall positive_quality pileup_qual ->
    (List.length pileup <= List.length pileup_qual)%nat ->
    acc <= 0 ->
    exists v, pileup_loop gt pileup pileup_qual (Fin acc) = Ok (Fin v) /\ v <= 0.
Proof.
  induction pileup as [| x xs IH]; intros pileup_qual acc Hq Hlen Hacc; cbn [pileup_loop].
  - exists acc. split; [reflexivity | exact Hacc].
  - destruct pileup_qual as [| q qs]; [cbn in Hlen; lia |].
    inversion Hq as [| ? ? Hq0 Hrest]; subst.
    destruct q as [| qv]; [destruct Hq0 |]. cbn [positive_quality] in Hq0.
    destruct (@base_term_negative gt x qv Hq0) as (t & Ht & Hneg).
    rewrite Ht. cbn [Py.bind fadd]. apply IH; [exact Hrest | cbn in Hlen; lia | lra].
Qed.

End LogProbabilities.

(** X15.  With positive qualities every entry of an emission column is
    either undefined (the string [NaN]) or a finite log-probability, a
    number that is at most 0. *)
Theorem emission_entry_is_log_probability (pileup : list ascii) (pileup_qual : list qual)
  (filt cas : Emission.genotype) :
  Forall Columns.positive_quality pileup_qual ->
  (List.length pileup <= List.length pileup_qual)%nat ->
  Emission.emission_entry pileup pileup_qual filt cas = Ok ENaN
  \/ exists v, Emission.emission_entry pileup pileup_qual filt cas = Ok (EVal (Fin v))
               /\ (v <= 0)%R.
Proof.
  intros Hq Hlen. unfold Emission.emission_entry.
  destruct (_ && _).
  - right. exists 0%R. split; [reflexivity | lra].
  - destruct (negb _); [now left |]. right.
    destruct (@pileup_loop_nonpositive cas pileup pileup_qual 0%R Hq Hlen) as (v & Hv & Hle);
      [lra |].
    exists v. rewrite Hv. split; [reflexivity | exact Hle].
Qed.

Lemma emission_entry_is_log_probability_witness :
  Forall Columns.positive_quality Scenario.quals_A
  /\ (List.length Scenario.pileup_A <= List.length Scenario.quals_A)%nat
  /\ (Emission.emission_entry Scenario.pileup_A Scenario.quals_A
        ("C"%char, "C"%char) ("C"%char, "C"%char) = Ok ENaN
      \/ exists v,
           Emission.emission_entry Scenario.pileup_A Scenario.quals_A
             ("C"%char, "C"%char) ("C"%char, "C"%char) = Ok (EVal (Fin v))
           /\ (v <= 0)%R).
Proof.
  assert (H1 : Forall Columns.positive_quality Scenario.quals_A).
  { repeat constructor. }
  assert (H2 : (List.length Scenario.pileup_A <= List.length Scenario.quals_A)%nat).
  { cbn. lia. }
  split; [exact H1 | split; [exact H2 |]].
  exact (@emission_entry_is_log_probability Scenario.pileup_A Scenario.quals_A
           ("C"%char, "C"%char) ("C"%char, "C"%char) H1 H2).
Defined.

Section EmissionTotal.

Import Emission.

Lemma from_mapq_numbers (pileup_qual : list qual) :
  forall mapq_list,
    (List.length pileup_qual <= List.length mapq_list)%nat ->
    exists qs, from_mapq pileup_qual mapq_list = Ok qs
               /\ List.length qs = List.length pileup_qual
               /\ Forall is_number qs.
Proof.
  induction pileup_qual as [| q qs IH]; intros mapq_list Hlen; cbn [from_mapq].
  - exists []. repeat split. constructor.
  - destruct mapq_list as [| m ms]; [cbn in Hlen; lia |].
    destruct (IH ms) as (tl & Htl & Hl & Hn); [cbn in Hlen; lia |].
    rewrite Htl. cbn [Py.bind]. eexists. split; [reflexivity |].
    split; [cbn; lia | constructor; [exact I | exact Hn]].
Qed.

Lemma existsb_gap_numbers (pileup_qual : list qual) :
  existsb is_gap_qual pileup_qual = false -> Forall is_number pileup_qual.
Proof.
  induction pileup_qual as [| q qs IH]; cbn [existsb]; [constructor |].
  intros H. apply orb_false_iff in H. destruct H as [Hq Hqs].
  constructor; [destruct q; [discriminate | exact I] | now apply IH].
Qed.

Lemma repair_quality_numbers (pileup_qual : list qual) (mapq_list : list Z) :
  (List.length pileup_qual <= List.length mapq_list)%nat ->
  exists qs, repair_quality pileup_qual mapq_list = Ok qs
             /\ List.length qs = List.length pileup_qual
             /\ Forall is_number qs.
Proof.
  intros Hlen. unfold repair_quality.
  destruct (_ && _); [now apply from_mapq_numbers |].
  destruct (existsb is_gap_qual pileup_qual) eqn:E.
  - eexists. split; [reflexivity |]. unfold fill_mean. split; [apply length_map |].
    apply Forall_forall. intros q Hq. apply in_map_iff in Hq.
    destruct Hq as (q0 & <- & _). destruct q0; exact I.
  - eexists. split; [reflexivity |]. split; [reflexivity | now apply existsb_gap_numbers].
Qed.

Lemma base_term_total (gt : genotype) (x : ascii) (qv : Q) :
  exists t, base_term gt x (QVal qv) = Ok t.
Proof.
  destruct gt as [a b]. unfold base_term.
  destruct (_ && _); [eexists; reflexivity |].
  destruct (_ && _); eexists; reflexivity.
Qed.

Lemma pileup_loop_total (gt : genotype) (pileup : list ascii) :
  forall pileup_qual acc,
    Forall is_number pileup_qual ->
    (List.length pileup <= List.length pileup_qual)%nat ->
    exists v, pileup_loop gt pileup pileup_qual acc = Ok v.
Proof.
  induction pileup as [| x xs IH]; intros pileup_qual acc Hq Hlen; cbn [pileup_loop].
  - eexists; reflexivity.
  - destruct pileup_qual as [| q qs]; [cbn in Hlen; lia |].
    inversion Hq as [| ? ? Hq0 Hrest]; subst.
    destruct q as [| qv]; [destruct Hq0 |].
    destruct (base_term_total gt x qv) as [t Ht]. rewrite Ht. cbn [Py.bind].
    apply IH; [exact Hrest | cbn in Hlen; lia].
Qed.

Lemma emission_entry_total (pileup : list ascii) (pileup_qual : list qual)
  (filt cas : genotype) :
  Forall is_number pileup_qual ->
  (List.length pileup <= List.length pileup_qual)%nat ->
  exists e, emission_entry pileup pileup_qual filt cas = Ok e.
Proof.
  intros Hq Hlen. unfold emission_entry.
  destruct (_ && _); [eexists; reflexivity |].
  destruct (negb _); [eexists; reflexivity |].
  destruct (@pileup_loop_total cas pileup pileup_qual (Fin 0) Hq Hlen) as [v Hv].
  rewrite Hv. eexists; reflexivity.
Qed.

Lemma half_column (vector : list genotype) (pileup : list ascii) (pileup_qual : list qual) :
  List.length vector = 15%nat ->
  Forall is_number pileup_qual ->
  (List.length pileup <= List.length pileup_qual)%nat ->
  exists half,
    mapM (fun gt => emission_entry pileup pileup_qual gt gt) vector = Ok half
    /\ List.length half = 15%nat.
Proof.
  intros Hv Hq Hlen.
  destruct (@mapM_total _ _ (fun gt => emission_entry pileup pileup_qual gt gt) vector)
    as (half & Hhalf & Hl).
  - intros gt _. now apply emission_entry_total.
  - exists half. split; [exact Hhalf | congruence].
Qed.

Lemma vector_of_base (c : ascii) :
  known_base c -> c <> "N"%char -> Ascii.eqb c gap = false ->
  exists vec,
    (if is_char "A" c then Some vector_A
     else if is_char "C" c then Some vector_C
     else if is_char "G" c then Some vector_G
     else if is_char "T" c then Some vector_T
     else None) = Some vec
    /\ List.length vec = 15%nat.
Proof.
  intros Hk Hn Hg. unfold known_base in Hk. cbn in Hk.
  destruct Hk as [<- | [<- | [<- | [<- | [<- | [<- | []]]]]]];
    try (eexists; split; reflexivity); [congruence | discriminate].
Qed.

Lemma emission_column_shape (upd_sam : list read) (c : ascii) (i : nat)
  (vector : option (list genotype)) :
  Forall covered upd_sam -> known_base c ->
  exists vector' col,
    emission_column upd_sam c i vector = Ok (vector', col)
    /\ column_shape upd_sam c i col.
Proof.
  intros Hsam Hk. unfold emission_column.
  destruct (@get_pileup_covered upd_sam (Z.of_nat i) Hsam)
    as (pileup & quals & mapqs & Hp & L1 & L2 & L3 & _).
  rewrite Hp. cbn [Py.bind].
  assert (Hcov : coverage upd_sam i = List.length pileup).
  { unfold coverage. now rewrite L3. }
  destruct (List.length pileup <? 5)%nat eqn:E5.
  { cbn [orb]. apply Nat.ltb_lt in E5. eexists _, _. split; [reflexivity |].
    left. lia. }
  apply Nat.ltb_ge in E5.
  destruct (is_char "N" c) eqn:EN.
  { cbn [orb]. eexists _, _. split; [reflexivity |]. right.
    unfold is_char in EN. apply Ascii.eqb_eq in EN. exact EN. }
  cbn [orb].
  assert (HN : c <> "N"%char).
  { intros ->. discriminate. }
  destruct (@repair_quality_numbers quals mapqs) as (qs & Hqs & Hl & Hnum); [lia |].
  rewrite Hqs. cbn [Py.bind].
  assert (Hlen : (List.length pileup <= List.length qs)%nat) by lia.
  destruct (is_char "-" c) eqn:EG.
  - assert (Hg : Ascii.eqb c gap = true) by exact EG.
    rewrite gapped_column_same_genotype by reflexivity.
    destruct (@half_column vector_A pileup qs eq_refl Hnum Hlen) as (half & Hh & Hhl).
    rewrite Hh. cbn [Py.bind]. eexists _, _. split; [reflexivity |].
    cbn [column_shape]. rewrite Hg. repeat split; try assumption; try lia.
    rewrite length_app, repeat_length. lia.
  - assert (Hg : Ascii.eqb c gap = false) by exact EG.
    destruct (vector_of_base Hk HN Hg) as (vec & Hvec & Hvl).
    assert (Hchoice :
      (if is_char "A" c then Some vector_A
       else if is_char "C" c then Some vector_C
       else if is_char "G" c then Some vector_G
       else if is_char "T" c then Some vector_T
       else vector) = Some vec).
    { revert Hvec. destruct (is_char "A" c); [auto |].
      destruct (is_char "C" c); [auto |]. destruct (is_char "G" c); [auto |].
      destruct (is_char "T" c); [auto | discriminate]. }
    rewrite Hchoice. rewrite base_column_same_genotype by exact Hvl.
    destruct (@half_column vec pileup qs Hvl Hnum Hlen) as (half & Hh & Hhl).
    rewrite Hh. cbn [Py.bind]. eexists _, _. split; [reflexivity |].
    cbn [column_shape]. rewrite Hg. repeat split; try assumption; try lia.
    + rewrite length_app, repeat_length. lia.
    + rewrite skipn_app, Hhl, Nat.sub_diag. rewrite skipn_all2 by lia. reflexivity.
Qed.

Lemma build_loop_shape (upd_sam : list read) (rest : list ascii) :
  forall i vector,
    Forall covered upd_sam -> Forall known_base rest ->
    exists ematrix,
      build_loop upd_sam rest i vector = Ok ematrix
      /\ Forall2 (fun (pc : nat * ascii) col => column_shape upd_sam (snd pc) (fst pc) col)
                 (combine (seq i (List.length rest)) rest) ematrix.
Proof.
  induction rest as [| c rest IH]; intros i vector Hsam Hk; cbn [build_loop].
  - exists []. split; [reflexivity | constructor].
  - inversion Hk as [| ? ? Hc Hrest]; subst.
    destruct (@emission_column_shape upd_sam c i vector Hsam Hc) as (v' & col & Hcol & Hshape).
    rewrite Hcol. cbn [Py.bind].
    destruct (IH (S i) v' Hsam Hrest) as (tl & Htl & Hall).
    rewrite Htl. cbn [Py.bind]. exists (col :: tl). split; [reflexivity |].
    cbn [List.length seq combine]. constructor; [exact Hshape | exact Hall].
Qed.

Lemma nth_error_combine_seq {A} (l : list A) :
  forall a i c,
    nth_error l i = Some c ->
    nth_error (combine (seq a (List.length l)) l) i = Some ((a + i)%nat, c).
Proof.
  induction l as [| x xs IH]; intros a [| i] c Hc; cbn in *; try discriminate.
  - injection Hc as ->. now rewrite Nat.add_0_r.
  - rewrite (IH (S a) i c Hc). f_equal. f_equal. lia.
Qed.

Lemma Forall2_nth_error {A B} (R : A -> B -> Prop) (l1 : list A) (l2 : list B) :
  Forall2 R l1 l2 ->
  forall i a b, nth_error l1 i = Some a -> nth_error l2 i = Some b -> R a b.
Proof.
  induction 1 as [| x y l1 l2 H _ IH]; intros [| i] a b Ha Hb; cbn in *;
    try discriminate.
  - injection Ha as ->. injection Hb as ->. exact H.
  - eapply IH; eassumption.
Qed.

End EmissionTotal.

(** X16.  On reads with a quality for each base and a reference over
    A, C, G, T, N and the gap, [build_emissionmatrix] raises no
    exception and returns one column for each position: the sentinel
    exactly when fewer than five reads cover the position or the
    reference has N there, otherwise thirty entries of which the states
    15..29 (at a gap of the reference, the states 0..14) are
    undefined. *)
Theorem build_emissionmatrix_well_formed (upd_sam : list read) (upd_reference : list ascii) :
  Forall Reads.covered upd_sam ->
  Forall Columns.known_base upd_reference ->
  exists ematrix,
    Emission.build_emissionmatrix upd_sam upd_reference = Ok ematrix
    /\ List.length ematrix = List.length upd_reference
    /\ Viterbi.wf_emission ematrix
    /\ forall i c col,
         nth_error upd_reference i = Some c -> nth_error ematrix i = Some col ->
         Columns.column_shape upd_sam c i col.
Proof.
  intros Hsam Hk.
  destruct (@build_loop_shape upd_sam upd_reference 0 None Hsam Hk) as (em & Hem & Hall).
  exists em. split; [exact Hem |].
  assert (Hlen : List.length em = List.length upd_reference).
  { apply Forall2_length in Hall. rewrite length_combine, length_seq in Hall. lia. }
  split; [exact Hlen |]. split.
  - unfold Viterbi.wf_emission. clear - Hall.
    induction Hall as [| pc col ? ? H _ IH]; constructor; [| exact IH].
    destruct col as [| v]; [exact I |]. cbn [column_shape] in H. cbn. tauto.
  - intros i c col Hc Hcol.
    assert (Hpc : nth_error (combine (seq 0 (List.length upd_reference)) upd_reference) i
                  = Some (i, c)).
    { apply (@nth_error_combine_seq _ upd_reference 0 i c Hc). }
    apply (@Forall2_nth_error _ _ _ _ _ Hall i (i, c) col Hpc Hcol).
Qed.

Section PathShape.

Import Viterbi.

Variable t : list (list fl).
Hypothesis wf_t : wf_matrix t.

Lemma get_in {A} (l : list A) (k : Z) (a : A) : Py.get l k = Ok a -> In a l.
Proof.
  unfold Py.get. destruct (0 <=? k)%Z.
  - destruct (nth_error l (Z.to_nat k)) eqn:E; [| discriminate].
    intros [= <-]. eapply nth_error_In. exact E.
  - destruct (0 <=? _)%Z; [| discriminate].
    destruct (nth_error l _) eqn:E; [| discriminate].
    intros [= <-]. eapply nth_error_In. exact E.
Qed.

Lemma argmax_bound (l : list fl) (k : nat) : argmax l = Ok k -> (k < List.length l)%nat.
Proof.
  intros H. destruct (argmax_cases l) as [(k' & Hk' & Hlt) | He]; congruence.
Qed.

Lemma linked_state_bound (v : list fl) (s : Z) (k : nat) :
  linked_state t v s = Ok k -> (k < 30)%nat.
Proof.
  unfold linked_state. destruct (Py.get t s) as [row |] eqn:Er; [| discriminate].
  cbn [Py.bind].
  destruct (mapM _ (seq 0 (List.length row))) as [temp_list |] eqn:Em; [| discriminate].
  cbn [Py.bind]. intros H. apply argmax_bound in H.
  apply mapM_length in Em. rewrite length_seq in Em.
  apply get_in in Er. destruct wf_t as [_ Hrows]. rewrite Forall_forall in Hrows.
  specialize (Hrows row Er). lia.
Qed.

Lemma bwd_shape (delta : list dcol) :
  forall px xs,
    Forall dwf delta -> bwd t px delta = Ok xs -> Forall2 state_of_delta delta xs.
Proof.
  induction delta as [| d rest IH]; intros px xs Hwf H; cbn [bwd] in H.
  - injection H as <-. constructor.
  - inversion Hwf as [| ? ? Hd Hrest]; subst. destruct d as [| v].
    + destruct (bwd t (Some (-1)%Z) rest) as [tl |] eqn:E; [| discriminate].
      injection H as <-. constructor; [reflexivity | eapply IH; eassumption].
    + match type of H with
      | Py.bind ?c _ = _ => destruct c as [k |] eqn:Ek; [| discriminate]
      end.
      cbn [Py.bind] in H.
      destruct (bwd t (Some (Z.of_nat k)) rest) as [tl |] eqn:E; [| discriminate].
      injection H as <-. constructor; [| eapply IH; eassumption].
      cbn [state_of_delta]. cbn [dwf] in Hd.
      assert (Hk : (k < 30)%nat).
      { destruct px as [s |].
        - destruct rest as [| [| w] rest'].
          + discriminate.
          + apply argmax_bound in Ek. lia.
          + eapply linked_state_bound. exact Ek.
        - apply argmax_bound in Ek. lia. }
      lia.
Qed.

Lemma Forall2_reverse {A B} (R : A -> B -> Prop) (l1 : list A) (l2 : list B) :
  Forall2 R l1 l2 -> Forall2 R (rev l1) (rev l2).
Proof.
  induction 1 as [| x y l1 l2 H _ IH]; cbn [rev]; [constructor |].
  apply Forall2_app; [exact IH | constructor; [exact H | constructor]].
Qed.

Lemma prepare_cwf (em : list ecol) : wf_emission em -> Forall cwf (prepare em).
Proof.
  unfold wf_emission, prepare. induction 1 as [| c em Hc _ IH]; cbn [map];
    constructor; [| exact IH].
  destruct c as [| v]; [exact I |]. cbn [cwf wf_ecol] in *. now rewrite length_map.
Qed.

Lemma prepare_sentinel (em : list ecol) :
  Forall2 (fun c p => match c with ESent => is_sentinel p = true
                                 | ECol _ => is_sentinel p = false end)
          em (prepare em).
Proof.
  unfold prepare. induction em as [| c em IH]; cbn [map]; constructor; [| exact IH].
  destruct c; reflexivity.
Qed.

Lemma viterbi_shape (em : list ecol) (xtilde : list Z) :
  wf_emission em -> viterbi em t = Ok xtilde -> Forall2 state_of_column em xtilde.
Proof.
  intros Hem H. rewrite viterbi_recursive in H.
  destruct (at_ t 0) as [initialprob |] eqn:E0; [| discriminate]. cbn [Py.bind] in H.
  assert (Hip : List.length initialprob = 30%nat).
  { unfold at_ in E0. apply get_in in E0. destruct wf_t as [_ Hrows].
    rewrite Forall_forall in Hrows. now apply Hrows. }
  destruct (@fwd_total t wf_t initialprob Hip (prepare em) None (prepare_cwf Hem) I)
    as (delta & Hd & Hdwf & Hsent).
  rewrite Hd in H. cbn [Py.bind] in H.
  destruct (bwd t None (rev delta)) as [xs |] eqn:Eb; [| discriminate].
  injection H as <-.
  pose proof (@bwd_shape (rev delta) None xs (Forall_rev Hdwf) Eb) as Hshape.
  apply Forall2_reverse in Hshape. rewrite rev_involutive in Hshape.
  pose proof (prepare_sentinel em) as Hprep.
  revert Hprep Hsent Hshape. generalize (rev xs) as ys. generalize (prepare em) as ps.
  clear. intros ps ys Hprep. revert delta ys.
  induction Hprep as [| c p em ps Hc _ IH]; intros delta ys Hsent Hshape.
  - inversion Hsent; subst. inversion Hshape; subst. constructor.
  - inversion Hsent as [| ? d ? delta' Hpd Hrest]; subst.
    inversion Hshape as [| ? y ? ys' Hdy Hrest']; subst.
    constructor; [| eapply IH; eassumption].
    destruct c, d; cbn in *; try congruence; exact Hdy.
Qed.

End PathShape.

(** X17.  A path returned by [viterbi] has one state for each column:
    -1 exactly at the sentinel columns, and a state index between 0 and
    29 at every other column. *)
Theorem viterbi_path_shape (emission_matrix : list ecol)
  (transmission_matrix : list (list fl)) (xtilde : list Z) :
  Viterbi.wf_matrix transmission_matrix ->
  Viterbi.wf_emission emission_matrix ->
  Viterbi.viterbi emission_matrix transmission_matrix = Ok xtilde ->
  List.length xtilde = List.length emission_matrix
  /\ Forall2 Paths.state_of_column emission_matrix xtilde.
Proof.
  intros Ht Hem H.
  pose proof (@viterbi_shape transmission_matrix Ht emission_matrix xtilde Hem H) as Hs.
  split; [| exact Hs]. symmetry. eapply Forall2_length. exact Hs.
Qed.

Lemma viterbi_path_shape_witness :
  Viterbi.wf_matrix Scenario.cycle
  /\ Viterbi.wf_emission Scenario.em_left
  /\ Viterbi.viterbi Scenario.em_left Scenario.cycle = Ok [-1; 1; -1; 1; -1]%Z
  /\ Forall2 Paths.state_of_column Scenario.em_left [-1; 1; -1; 1; -1]%Z.
Proof.
  assert (H1 : Viterbi.wf_matrix Scenario.cycle) by exact wf_cycle.
  assert (H2 : Viterbi.wf_emission Scenario.em_left).
  { repeat constructor. }
  assert (H3 : Viterbi.viterbi Scenario.em_left Scenario.cycle = Ok [-1; 1; -1; 1; -1]%Z)
    by exact viterbi_em_left.
  split; [exact H1 | split; [exact H2 | split; [exact H3 |]]].
  exact (proj2 (@viterbi_path_shape Scenario.em_left Scenario.cycle _ H1 H2 H3)).
Defined.

Section ResolverTables.

Import Resolver.
Local Open Scope Z_scope.

Lemma state_cases (P : Z -> Prop) (lo : Z) (n : nat) :
  (forall k, (k < n)%nat -> P (lo + Z.of_nat k)) ->
  forall s, lo <= s < lo + Z.of_nat n -> P s.
Proof.
  intros H s Hs. replace s with (lo + Z.of_nat (Z.to_nat (s - lo))) by lia.
  apply H. lia.
Qed.

End ResolverTables.

Ltac each_state n k :=
  lazymatch n with
  | O => exfalso; lia
  | S ?m => destruct k as [| k]; [| each_state m k]
  end.

Ltac each_base H :=
  unfold Paths.table_base in H; cbn in H;
  destruct H as [<- | [<- | [<- | [<- | [<- | []]]]]].

(** X19.  In the tables of [find_base_state], state 0 is the
    homozygous reference genotype of each of A, C, G and T; the states
    15..29 denote, for every reference character, the genotype that
    state - 15 denotes for the reference character A. *)
Theorem resolver_reference_and_insertion_states (base : ascii) (state : Z) :
  Paths.table_base base ->
  (base <> "-"%char -> Resolver.base_state_at 0 base = Ok (BPair base base))
  /\ ((15 <= state < 30)%Z ->
      Resolver.base_state_at state base
      = Resolver.lookup Emission.vector_A (state - 15)
      /\ Resolver.base_state_at state base = Resolver.base_state_at (state - 15) "A").
Proof.
  intros Hb. split.
  - each_base Hb; intros H; try reflexivity. congruence.
  - revert state. apply (@state_cases _ 15 15). intros k Hk.
    each_base Hb; each_state 15%nat k; split; reflexivity.
Qed.

Lemma resolver_reference_and_insertion_states_witness :
  Paths.table_base "G"
  /\ Resolver.base_state_at 0 "G" = Ok (BPair "G" "G")
  /\ Resolver.base_state_at 19 "G" = Resolver.base_state_at 4 "A".
Proof.
  assert (H : Paths.table_base "G") by (cbn; tauto).
  split; [exact H |].
  pose proof (@resolver_reference_and_insertion_states "G" 19 H) as [H0 H1].
  split; [apply H0; discriminate | apply H1; lia].
Defined.

(** X20.  For each reference character the states 0..14 denote fifteen
    genotypes that differ as unordered pairs, each of them one of the
    fifteen genotypes listed for A. *)
Theorem resolver_states_name_distinct_genotypes (base : ascii) (s1 s2 : Z) :
  Paths.table_base base ->
  (0 <= s1 < 15)%Z -> (0 <= s2 < 15)%Z ->
  (exists a b, Resolver.base_state_at s1 base = Ok (BPair a b)
               /\ In (a, b) Emission.vector_A)
  /\ (forall x y,
        Resolver.base_state_at s1 base = Ok x ->
        Resolver.base_state_at s2 base = Ok y ->
        Paths.same_genotype x y -> s1 = s2).
Proof.
  intros Hb H1 H2. split.
  - revert s1 H1. apply (@state_cases _ 0%Z 15). intros k Hk.
    each_base Hb; each_state 15%nat k; eexists _, _; (split; [reflexivity |]);
      cbn; tauto.
  - assert (E1 : exists k1, (k1 < 15)%nat /\ s1 = Z.of_nat k1)
      by (exists (Z.to_nat s1); lia).
    assert (E2 : exists k2, (k2 < 15)%nat /\ s2 = Z.of_nat k2)
      by (exists (Z.to_nat s2); lia).
    destruct E1 as (k1 & Hk1 & ->). destruct E2 as (k2 & Hk2 & ->). clear H1 H2.
    intros x y Hx Hy.
    each_base Hb; each_state 15%nat k1; each_state 15%nat k2;
      injection Hx as <-; injection Hy as <-;
      first [ intros _; reflexivity
            | cbn; intros [[E1 E2] | [E1 E2]]; discriminate ].
Qed.

Lemma resolver_states_name_distinct_genotypes_witness :
  Paths.table_base "T"
  /\ (0 <= 5 < 15)%Z /\ (0 <= 9 < 15)%Z
  /\ Resolver.base_state_at 5 "T" = Ok (BPair "C" "T")
  /\ Resolver.base_state_at 9 "T" = Ok (BPair "A" "G")
  /\ (Paths.same_genotype (BPair "C" "T") (BPair "A" "G") -> 5 = 9)%Z.
Proof.
  assert (H : Paths.table_base "T") by (cbn; tauto).
  assert (H1 : (0 <= 5 < 15)%Z) by lia.
  assert (H2 : (0 <= 9 < 15)%Z) by lia.
  split; [exact H | split; [exact H1 | split; [exact H2 |]]].
  split; [reflexivity | split; [reflexivity |]].
  exact (proj2 (@resolver_states_name_distinct_genotypes "T" 5 9 H H1 H2)
           (BPair "C" "T") (BPair "A" "G") eq_refl eq_refl).
Defined.

Section UngappedFormatter.

Import Formatter.

Variables (ref upd_ref : list ascii) (base_states : list bstate) (xtilde : list Z).

Lemma output_step_ungapped (st : fstate) (i : nat) (u : ascii) :
  gap_counter st = 0%nat ->
  (i < List.length xtilde)%nat ->
  nth_error upd_ref i = Some u -> u <> gap ->
  output_step ref upd_ref base_states xtilde st i
  = if variant_at xtilde i
    then Py.bind (record_at ref upd_ref base_states xtilde i) (fun v =>
         Ok (mkF 0 v (variant_list st ++ [v])))
    else Ok st.
Proof.
  intros Hgc Hi Hu Hne. unfold output_step, variant_at, record_at. rewrite Hgc, Nat.add_0_r.
  rewrite (@at_ok _ xtilde i 0%Z Hi). cbn [Py.bind].
  rewrite at_nth_error, Hu. cbn [Py.bind].
  assert (E : Ascii.eqb u gap = false) by now apply Ascii.eqb_neq.
  rewrite E. destruct (no_variant (nth i xtilde 0%Z)); reflexivity.
Qed.

Lemma fold_output_step_ungapped (l : list nat) :
  forall st,
    gap_counter st = 0%nat ->
    (forall i, In i l ->
       (i < List.length xtilde)%nat
       /\ exists u, nth_error upd_ref i = Some u /\ u <> gap) ->
    Py.bind (fold_left (fun acc i =>
                          Py.bind acc (fun s =>
                          output_step ref upd_ref base_states xtilde s i))
                       l (Ok st))
            (fun s => Ok (variant_list s))
    = Py.bind (mapM (record_at ref upd_ref base_states xtilde)
                    (filter (variant_at xtilde) l))
              (fun recs => Ok (variant_list st ++ recs)).
Proof.
  induction l as [| i l IH]; intros st Hgc Hl; cbn [fold_left filter].
  - cbn [mapM Py.bind]. now rewrite app_nil_r.
  - destruct (Hl i (or_introl eq_refl)) as (Hi & u & Hu & Hne).
    assert (Hl' : forall j, In j l ->
                    (j < List.length xtilde)%nat
                    /\ exists u, nth_error upd_ref j = Some u /\ u <> gap).
    { intros j Hj. apply Hl. now right. }
    cbn [Py.bind]. rewrite (@output_step_ungapped st i u Hgc Hi Hu Hne).
    destruct (variant_at xtilde i).
    + cbn [mapM]. destruct (record_at ref upd_ref base_states xtilde i) as [v | e].
      * cbn [Py.bind]. rewrite IH by (try reflexivity; exact Hl').
        cbn [variant_list].
        destruct (mapM _ (filter (variant_at xtilde) l)) as [recs | e];
          cbn [Py.bind]; [| reflexivity].
        now rewrite <- app_assoc.
      * cbn [Py.bind]. now rewrite fold_bind_err.
    + apply IH; assumption.
Qed.

End UngappedFormatter.

(** X21.  On an updated reference without gap characters
    [create_variant_calling_output] returns one record for each position
    whose state is none of 0, 29 and -1, in the order of the positions,
    each computed from its position alone (or the first exception that
    one of them raises). *)
Theorem formatter_on_ungapped_reference (ref upd_ref : list ascii)
  (base_states : list bstate) (xtilde : list Z) :
  (List.length ref <= List.length upd_ref)%nat ->
  (List.length ref <= List.length xtilde)%nat ->
  Forall (fun c => c <> gap) upd_ref ->
  Formatter.create_variant_calling_output ref upd_ref base_states xtilde
  = mapM (Records.record_at ref upd_ref base_states xtilde)
         (filter (Records.variant_at xtilde) (seq 0 (List.length ref))).
Proof.
  intros Hu Hx Hg. unfold Formatter.create_variant_calling_output, Py.loop.
  pose proof (@fold_output_step_ungapped ref upd_ref base_states xtilde
                (seq 0 (List.length ref)) (Formatter.mkF 0 "" [])) as H.
  cbn [Formatter.variant_list Formatter.gap_counter app] in H.
  rewrite H.
  - destruct (mapM _ _); reflexivity.
  - reflexivity.
  - intros i Hi. apply in_seq in Hi. split; [lia |].
    destruct (nth_error upd_ref i) as [u |] eqn:E.
    + exists u. split; [reflexivity |]. rewrite Forall_forall in Hg. apply Hg.
      eapply nth_error_In. exact E.
    + apply nth_error_None in E. lia.
Qed.

Lemma formatter_on_ungapped_reference_witness :
  (List.length (chars "ACG") <= List.length (chars "ACG"))%nat
  /\ (List.length (chars "ACG") <= List.length [0; 1; -1]%Z)%nat
  /\ Forall (fun c => c <> gap) (chars "ACG")
  /\ Formatter.create_variant_calling_output (chars "ACG") (chars "ACG")
       [BPair "A" "A"; BPair "A" "A"; BSent] [0; 1; -1]%Z
     = mapM (Records.record_at (chars "ACG") (chars "ACG")
               [BPair "A" "A"; BPair "A" "A"; BSent] [0; 1; -1]%Z)
            [1%nat].
Proof.
  assert (H1 : (List.length (chars "ACG") <= List.length (chars "ACG"))%nat) by (cbn; lia).
  assert (H2 : (List.length (chars "ACG") <= List.length [0; 1; -1]%Z)%nat) by (cbn; lia).
  assert (H3 : Forall (fun c => c <> gap) (chars "ACG")).
  { repeat constructor; discriminate. }
  split; [exact H1 | split; [exact H2 | split; [exact H3 |]]].
  exact (@formatter_on_ungapped_reference (chars "ACG") (chars "ACG")
           [BPair "A" "A"; BPair "A" "A"; BSent] [0; 1; -1]%Z H1 H2 H3).
Defined.

Section Records.

Import Formatter.
Local Open Scope Z_scope.

Lemma get_previous (ref : list ascii) (i : nat) (b : ascii) :
  nth_error ref i = Some b ->
  exists p, Py.get ref (Z.of_nat i - 1) = Ok p /\ anchor ref i = Some p.
Proof.
  intros Hb.
  assert (Hi : (i < List.length ref)%nat).
  { apply nth_error_Some. congruence. }
  unfold Py.get, anchor. destruct i as [| j].
  - cbn [Z.of_nat Z.sub Z.add Z.opp Z.leb Z.compare].
    destruct (0 <=? Z.of_nat (List.length ref) + -1) eqn:E; [| apply Z.leb_gt in E; lia].
    replace (Z.to_nat (Z.of_nat (List.length ref) + -1)) with (List.length ref - 1)%nat
      by lia.
    destruct (nth_error ref (List.length ref - 1)) as [p |] eqn:Ep.
    + exists p. split; reflexivity.
    + apply nth_error_None in Ep. lia.
  - destruct (0 <=? Z.of_nat (S j) - 1) eqn:E; [| apply Z.leb_gt in E; lia].
    replace (Z.to_nat (Z.of_nat (S j) - 1)) with j by lia.
    destruct (nth_error ref j) as [p |] eqn:Ep.
    + exists p. split; reflexivity.
    + apply nth_error_None in Ep. lia.
Qed.

End Records.

(** X22.  A full deletion (state 14) at position [i] is reported as the
    position, the anchor followed by the reference base, and the anchor,
    the anchor being the base before position [i]; at position 0 the
    index -1 makes it the last base of the reference. *)
Theorem full_deletion_record (ref upd_ref : list ascii) (base_states : list bstate)
  (xtilde : list Z) (i : nat) (base : ascii) :
  nth_error ref i = Some base ->
  nth_error xtilde i = Some 14%Z ->
  exists p,
    Records.anchor ref i = Some p
    /\ Records.record_at ref upd_ref base_states xtilde i
       = Ok (str_of_nat i ++ Formatter.tab ++ Formatter.str p ++ Formatter.str base
               ++ Formatter.tab ++ Formatter.str p)%string.
Proof.
  intros Hb Hx. destruct (@get_previous ref i base Hb) as (p & Hp & Ha).
  exists p. split; [exact Ha |].
  unfold Records.record_at, Formatter.deletion_or_snp.
  rewrite Nat.add_0_r, !at_nth_error, Hx, Hb, Hp. reflexivity.
Qed.

Lemma full_deletion_record_witness :
  nth_error (chars "ACGT") 0 = Some "A"%char
  /\ nth_error [14%Z] 0 = Some 14%Z
  /\ Records.anchor (chars "ACGT") 0 = Some "T"%char
  /\ Records.record_at (chars "ACGT") (chars "ACGT") [] [14%Z] 0
     = Ok ("0" ++ Formatter.tab ++ "TA" ++ Formatter.tab ++ "T")%string.
Proof.
  assert (H1 : nth_error (chars "ACGT") 0 = Some "A"%char) by reflexivity.
  assert (H2 : nth_error [14%Z] 0 = Some 14%Z) by reflexivity.
  split; [exact H1 | split; [exact H2 |]].
  destruct (@full_deletion_record (chars "ACGT") (chars "ACGT") [] [14%Z] 0 "A" H1 H2)
    as (p & Hp & Hr).
  assert (E : p = "T"%char) by (cbn in Hp; congruence).
  subst p. split; [exact Hp | exact Hr].
Defined.

(** X23.  For a SNP state (1..6, 8, 9, 11) at a position whose
    reference base is A, C, G or T, the record is the position, the
    reference base, and a non-empty alternative column that holds
    neither the reference base nor a gap. *)
Theorem snp_record_lists_non_reference_alleles (ref upd_ref : list ascii)
  (base_states : list bstate) (xtilde : list Z) (i : nat) (base : ascii) (state : Z)
  (b : bstate) :
  nth_error ref i = Some base ->
  nth_error upd_ref i = Some base ->
  nth_error xtilde i = Some state ->
  nth_error base_states i = Some b ->
  Resolver.base_state_at state base = Ok b ->
  In base (chars "ACGT") ->
  In state [1; 2; 3; 4; 5; 6; 8; 9; 11]%Z ->
  exists alt,
    Records.record_at ref upd_ref base_states xtilde i
    = Ok (str_of_nat i ++ Formatter.tab ++ Formatter.str base ++ Formatter.tab ++ alt)%string
    /\ alt <> ""%string
    /\ ~ In base (chars alt)
    /\ ~ In gap (chars alt).
Proof.
  intros Hr Hu Hx Hbs Hb Hbase Hstate.
  unfold Records.record_at, Formatter.deletion_or_snp, Formatter.bs.
  rewrite Nat.add_0_r, !at_nth_error, Hx, Hr, Hu, Hbs.
  generalize (str_of_nat i) as pos. intros pos.
  cbn in Hbase, Hstate.
  destruct Hbase as [<- | [<- | [<- | [<- | []]]]];
    destruct Hstate as [<- | [<- | [<- | [<- | [<- | [<- | [<- | [<- | [<- | []]]]]]]]]];
    injection Hb as <-; cbn;
    (eexists; split; [reflexivity |]);
    (split; [discriminate |]);
    cbn; split; intros H; repeat (destruct H as [H | H]; [discriminate |]); exact H.
Qed.

Lemma snp_record_lists_non_reference_alleles_witness :
  nth_error (chars "ACGT") 1 = Some "C"%char
  /\ nth_error [0; 4]%Z 1 = Some 4%Z
  /\ nth_error [BPair "A" "A"; BPair "A" "C"] 1 = Some (BPair "A" "C")
  /\ Resolver.base_state_at 4 "C" = Ok (BPair "A" "C")
  /\ In "C"%char (chars "ACGT")
  /\ In 4%Z [1; 2; 3; 4; 5; 6; 8; 9; 11]%Z
  /\ exists alt,
       Records.record_at (chars "ACGT") (chars "ACGT")
         [BPair "A" "A"; BPair "A" "C"] [0; 4]%Z 1
       = Ok (str_of_nat 1 ++ Formatter.tab ++ Formatter.str "C" ++ Formatter.tab ++ alt)%string
       /\ alt <> ""%string
       /\ ~ In "C"%char (chars alt)
       /\ ~ In gap (chars alt).
Proof.
  assert (H1 : nth_error (chars "ACGT") 1 = Some "C"%char) by reflexivity.
  assert (H2 : nth_error [0; 4]%Z 1 = Some 4%Z) by reflexivity.
  assert (H3 : nth_error [BPair "A" "A"; BPair "A" "C"] 1 = Some (BPair "A" "C"))
    by reflexivity.
  assert (H4 : Resolver.base_state_at 4 "C" = Ok (BPair "A" "C")) by reflexivity.
  assert (H5 : In "C"%char (chars "ACGT")) by (cbn; tauto).
  assert (H6 : In 4%Z [1; 2; 3; 4; 5; 6; 8; 9; 11]%Z) by (cbn; tauto).
  split; [exact H1 | split; [exact H2 | split; [exact H3 | split; [exact H4 |]]]].
  split; [exact H5 | split; [exact H6 |]].
  exact (@snp_record_lists_non_reference_alleles (chars "ACGT") (chars "ACGT")
           [BPair "A" "A"; BPair "A" "C"] [0; 4]%Z 1 "C" 4 (BPair "A" "C")
           H1 H1 H2 H3 H4 H5 H6).
Defined.

(* ================================================================== *)
(** * The writer of the result file: [create_output_file] *)
(* ================================================================== *)

Section WriterFacts.

Import Writer.
Local Open Scope Z_scope.

Lemma chars_app (a b : string) : chars (a ++ b) = chars a ++ chars b.
Proof.
  unfold chars. induction a as [| c a IH]; cbn; [reflexivity | now rewrite IH].
Qed.

Lemma string_of_app (a b : list ascii) :
  string_of_list_ascii (a ++ b) = (string_of_list_ascii a ++ string_of_list_ascii b)%string.
Proof. induction a as [| c a IH]; cbn; [reflexivity | now rewrite IH]. Qed.

Lemma string_of_chars (s : string) : string_of_list_ascii (chars s) = s.
Proof. apply string_of_list_ascii_of_string. Qed.

Lemma find_at_tab (pre rest : list ascii) :
  forall i,
    ~ In tabc pre ->
    find_at [tabc] (pre ++ tabc :: rest) i = Z.of_nat (i + List.length pre).
Proof.
  induction pre as [| c pre IH]; intros i Hpre; cbn [app find_at starts_with].
  - rewrite Ascii.eqb_refl. cbn [andb List.length]. f_equal. lia.
  - assert (E : Ascii.eqb tabc c = false).
    { apply Ascii.eqb_neq. intros <-. apply Hpre. now left. }
    rewrite E. cbn [andb]. rewrite IH; [| intros H; apply Hpre; now right].
    cbn [List.length]. f_equal. lia.
Qed.

Lemma find_at_none (s : list ascii) :
  forall i, ~ In tabc s -> find_at [tabc] s i = -1.
Proof.
  induction s as [| c s IH]; intros i Hs; cbn [find_at starts_with]; [reflexivity |].
  assert (E : Ascii.eqb tabc c = false).
  { apply Ascii.eqb_neq. intros <-. apply Hs. now left. }
  rewrite E. cbn [andb]. apply IH. intros H. apply Hs. now right.
Qed.

Lemma clamp_inside {A} (l : list A) (k : nat) :
  (k <= List.length l)%nat -> clamp l (Z.of_nat k) = k.
Proof.
  intros H. unfold clamp.
  destruct (Z.of_nat k <? 0) eqn:E; [apply Z.ltb_lt in E; lia |]. lia.
Qed.

Lemma clamp_zero {A} (l : list A) : clamp l 0 = 0%nat.
Proof. apply (@clamp_inside _ l 0%nat). lia. Qed.

Lemma find_after (pre post needle : list ascii) :
  find (pre ++ post) needle (Z.of_nat (List.length pre))
  = find_at needle post (List.length pre).
Proof.
  unfold find.
  destruct (Z.of_nat (List.length (pre ++ post)) <? Z.of_nat (List.length pre)) eqn:E.
  { apply Z.ltb_lt in E. rewrite length_app in E. lia. }
  rewrite clamp_inside by (rewrite length_app; lia).
  now rewrite skipn_app, skipn_all, Nat.sub_diag.
Qed.

Lemma find_second_tab (a b rest : list ascii) :
  ~ In tabc a -> ~ In tabc b ->
  let s := a ++ tabc :: b ++ tabc :: rest in
  seek s [tabc] (find s [tabc] 0) 1 = Z.of_nat (List.length a + 1 + List.length b).
Proof.
  intros Ha Hb s.
  assert (F0 : find s [tabc] 0 = Z.of_nat (List.length a)).
  { unfold s. change (find (a ++ tabc :: b ++ tabc :: rest) [tabc] 0)
      with (find ([] ++ a ++ tabc :: b ++ tabc :: rest) [tabc]
                 (Z.of_nat (List.length (@nil ascii)))).
    rewrite find_after. now rewrite find_at_tab. }
  rewrite F0. cbn [seek List.length].
  destruct (Z.of_nat (List.length a) >=? 0) eqn:E';
    [| rewrite Z.geb_leb in E'; apply Z.leb_gt in E'; lia].
  replace (Z.of_nat (List.length a) + Z.of_nat 1) with (Z.of_nat (List.length (a ++ [tabc])))
    by (rewrite length_app; cbn [List.length]; lia).
  unfold s. replace (a ++ tabc :: b ++ tabc :: rest)
    with ((a ++ [tabc]) ++ b ++ tabc :: rest) by now rewrite <- app_assoc.
  rewrite find_after, find_at_tab by exact Hb.
  rewrite length_app. cbn [List.length]. reflexivity.
Qed.

Lemma find_no_second_tab (a b : list ascii) :
  ~ In tabc a -> ~ In tabc b ->
  let s := a ++ tabc :: b in
  seek s [tabc] (find s [tabc] 0) 1 = -1.
Proof.
  intros Ha Hb s.
  assert (F0 : find s [tabc] 0 = Z.of_nat (List.length a)).
  { unfold s. change (find (a ++ tabc :: b) [tabc] 0)
      with (find ([] ++ a ++ tabc :: b) [tabc] (Z.of_nat (List.length (@nil ascii)))).
    rewrite find_after. now rewrite find_at_tab. }
  rewrite F0. cbn [seek List.length].
  destruct (Z.of_nat (List.length a) >=? 0) eqn:E';
    [| rewrite Z.geb_leb in E'; apply Z.leb_gt in E'; lia].
  replace (Z.of_nat (List.length a) + Z.of_nat 1) with (Z.of_nat (List.length (a ++ [tabc])))
    by (rewrite length_app; cbn [List.length]; lia).
  unfold s. replace (a ++ tabc :: b) with ((a ++ [tabc]) ++ b) by now rewrite <- app_assoc.
  rewrite find_after. now apply find_at_none.
Qed.

Lemma slice_prefix {A} (pre post : list A) :
  slice (pre ++ post) 0 (Z.of_nat (List.length pre)) = pre.
Proof.
  unfold slice. rewrite clamp_zero.
  rewrite clamp_inside by (rewrite length_app; lia).
  cbn [skipn]. rewrite Nat.sub_0_r, firstn_app, Nat.sub_diag, firstn_all. cbn [firstn].
  apply app_nil_r.
Qed.

Lemma slice_suffix {A} (pre post : list A) :
  slice (pre ++ post) (Z.of_nat (List.length pre)) (Z.of_nat (List.length (pre ++ post)))
  = post.
Proof.
  unfold slice. rewrite !clamp_inside by (rewrite ?length_app; lia).
  rewrite skipn_app, skipn_all, Nat.sub_diag. cbn [skipn app].
  rewrite length_app. replace (List.length pre + List.length post - List.length pre)%nat
    with (List.length post) by lia.
  apply firstn_all.
Qed.

Lemma slice_to_minus_one {A} (l : list A) : slice l 0 (-1) = removelast l.
Proof.
  unfold slice. rewrite clamp_zero. cbn [skipn]. rewrite Nat.sub_0_r.
  unfold clamp. cbn [Z.ltb Z.compare].
  replace (Z.to_nat (Z.max (Z.of_nat (List.length l) + -1) 0)) with (List.length l - 1)%nat
    by lia.
  induction l as [| a l IH]; [reflexivity |].
  destruct l as [| b l]; [reflexivity |].
  cbn [List.length Nat.sub firstn removelast] in *. f_equal.
  rewrite <- IH. now rewrite Nat.sub_0_r.
Qed.

Lemma slice_whole {A} (l : list A) : slice l 0 (Z.of_nat (List.length l)) = l.
Proof.
  unfold slice. rewrite clamp_zero. rewrite clamp_inside by lia.
  cbn [skipn]. rewrite Nat.sub_0_r. apply firstn_all.
Qed.

End WriterFacts.

Section WriterLines.

Import Formatter Writer.
Local Open Scope string_scope.

Lemma append_assoc (a b c : string) : (a ++ b) ++ c = a ++ b ++ c.
Proof. induction a as [| x a IH]; cbn; [reflexivity | now rewrite IH]. Qed.

Lemma chars_tab : chars tab = [tabc].
Proof. reflexivity. Qed.

Lemma simref_no_tab : ~ In tabc (chars "simref").
Proof. cbn. intros H. repeat (destruct H as [H | H]; [discriminate |]). exact H. Qed.

Lemma with_id_column_two_tabs (pos rest : string) :
  no_tab pos ->
  with_id_column ("simref" ++ tab ++ pos ++ tab ++ rest)
  = "simref" ++ tab ++ pos ++ tab ++ "." ++ tab ++ rest.
Proof.
  intros Hpos. unfold with_id_column, needle, id_column_value.
  cbv zeta. change (Z.to_nat (2 - 1)) with 1%nat.
  rewrite !chars_app, !chars_tab. cbn [app].
  pose proof (@find_second_tab (chars "simref") (chars pos) (chars rest)
                simref_no_tab Hpos) as F.
  cbv zeta in F. rewrite F.
  set (pre := (chars "simref" ++ tabc :: chars pos)%list).
  assert (Hlen : (List.length (chars "simref") + 1 + List.length (chars pos))%nat
                 = List.length pre).
  { unfold pre. rewrite length_app. cbn [List.length]. lia. }
  rewrite Hlen.
  assert (Hs : (chars "simref" ++ tabc :: chars pos ++ tabc :: chars rest)%list
               = (pre ++ tabc :: chars rest)%list).
  { unfold pre. now rewrite <- app_assoc. }
  rewrite Hs, slice_prefix.
  replace (pre ++ tabc :: chars rest)%list with ((pre ++ [tabc]) ++ chars rest)%list
    by now rewrite <- app_assoc.
  replace (Z.of_nat (List.length pre) + 1)%Z with (Z.of_nat (List.length (pre ++ [tabc])))
    by (rewrite length_app; cbn [List.length]; lia).
  rewrite slice_suffix.
  rewrite !string_of_app. unfold pre. rewrite ?string_of_app.
  cbn [string_of_list_ascii]. rewrite ?string_of_app, ?string_of_chars.
  cbn. rewrite ?string_of_chars, ?append_assoc. reflexivity.
Qed.

Lemma with_id_column_one_tab (element : string) :
  no_tab element ->
  with_id_column ("simref" ++ tab ++ element)
  = string_of_list_ascii (removelast (chars ("simref" ++ tab ++ element)))
      ++ tab ++ "." ++ tab ++ "simref" ++ tab ++ element.
Proof.
  intros He. unfold with_id_column, needle, id_column_value.
  cbv zeta. change (Z.to_nat (2 - 1)) with 1%nat.
  rewrite !chars_app, !chars_tab. cbn [app].
  pose proof (@find_no_second_tab (chars "simref") (chars element) simref_no_tab He) as F.
  cbv zeta in F. rewrite F.
  rewrite slice_to_minus_one. cbn [Z.add Z.opp Z.pos_sub].
  rewrite slice_whole.
  rewrite !string_of_app. cbn [string_of_list_ascii].
  rewrite ?string_of_app, ?string_of_chars.
  cbn. rewrite ?string_of_chars, ?append_assoc. reflexivity.
Qed.

Lemma digits_no_tab (u : Decimal.uint) : ~ In tabc (chars (NilEmpty.string_of_uint u)).
Proof.
  induction u; cbn; intros H; try (destruct H as [H | H]; [discriminate | now apply IHu]).
  exact H.
Qed.

Lemma str_of_nat_no_tab (n : nat) : no_tab (str_of_nat n).
Proof. apply digits_no_tab. Qed.

End WriterLines.

Lemma written_lines (fields : list (string * string)) :
  Forall (fun field => Records.no_tab (fst field)) fields ->
  Writer.written (Writer.create_output_file (map Records.record_of fields))
  = Records.header
      ++ map (fun field => Records.vcf_line (fst field) (snd field)) fields.
Proof.
  intros H. unfold Writer.create_output_file. cbn [Writer.written].
  rewrite map_app. cbn [map]. unfold Records.header. cbn [app]. do 2 f_equal.
  rewrite !map_map. apply map_ext_in. intros [pos rest] Hin.
  rewrite Forall_forall in H. specialize (H _ Hin). cbn [fst snd] in *.
  unfold Records.record_of, Records.vcf_line. cbn [fst snd].
  rewrite (@with_id_column_two_tabs pos rest H).
  rewrite ?append_assoc. reflexivity.
Qed.

(** X24.  For records whose first field holds no tab,
    [create_output_file] writes the two header lines and then, for each
    record, the chromosome [simref], the first field, the ID [.] and the
    rest of the record. *)
Theorem create_output_file_lines (fields : list (string * string)) :
  Forall (fun field => Records.no_tab (fst field)) fields ->
  Writer.written (Writer.create_output_file (map Records.record_of fields))
  = Records.header
      ++ map (fun field => Records.vcf_line (fst field) (snd field)) fields.
Proof. apply written_lines. Qed.

Lemma create_output_file_lines_witness :
  Forall (fun field => Records.no_tab (fst field))
         [("12", "A" ++ Formatter.tab ++ "C")%string]
  /\ Writer.written
       (Writer.create_output_file [("12" ++ Formatter.tab ++ "A" ++ Formatter.tab ++ "C")%string])
     = Records.header
         ++ [("simref" ++ Formatter.tab ++ "12" ++ Formatter.tab ++ "." ++ Formatter.tab
                ++ "A" ++ Formatter.tab ++ "C" ++ Writer.newline)%string].
Proof.
  assert (H : Forall (fun field => Records.no_tab (fst field))
                     [("12", "A" ++ Formatter.tab ++ "C")%string]).
  { constructor; [| constructor]. unfold Records.no_tab. cbn.
    intros H. repeat (destruct H as [H | H]; [discriminate |]). exact H. }
  split; [exact H |].
  exact (@create_output_file_lines [("12", "A" ++ Formatter.tab ++ "C")%string] H).
Defined.

(** X25.  A record without any tab (the empty record included) is
    written twice on its line: the line without its last character, the
    ID column, and the whole line again ([find] returns -1, which the
    two slices read as an index). *)
Theorem create_output_file_record_without_tab (element : string) :
  Records.no_tab element ->
  Writer.written (Writer.create_output_file [element])
  = Records.header
      ++ [(string_of_list_ascii
             (removelast (chars ("simref" ++ Formatter.tab ++ element)))
           ++ Formatter.tab ++ "." ++ Formatter.tab
           ++ "simref" ++ Formatter.tab ++ element ++ Writer.newline)%string].
Proof.
  intros H. unfold Writer.create_output_file. cbn [Writer.written map app].
  unfold Records.header. cbn [app]. do 3 f_equal.
  rewrite (@with_id_column_one_tab element H).
  rewrite ?append_assoc. reflexivity.
Qed.

Lemma create_output_file_record_without_tab_witness :
  Records.no_tab ""
  /\ Writer.written (Writer.create_output_file [""%string])
     = Records.header
         ++ [("simref" ++ Formatter.tab ++ "." ++ Formatter.tab ++ "simref"
                ++ Formatter.tab ++ Writer.newline)%string].
Proof.
  assert (H : Records.no_tab "") by (intros []).
  split; [exact H |].
  exact (@create_output_file_record_without_tab "" H).
Defined.

Section RecordShape.

Import Formatter.
Local Open Scope string_scope.

Ltac step_in H :=
  match type of H with
  | Py.bind ?m _ = Ok _ =>
      let E := fresh "E" in
      destruct m eqn:E; cbn [Py.bind] in H; [| discriminate H]
  | (if ?c then _ else _) = Ok _ => destruct c
  | match ?x with Some _ => _ | None => _ end = Ok _ => destruct x
  | Err _ = Ok _ => discriminate H
  end.

Lemma deletion_or_snp_shape (sep : string) (report_ref : bool) (ref upd_ref : list ascii)
  (base_states : list bstate) (xtilde : list Z) (i gc : nat) (v : string) :
  deletion_or_snp sep report_ref ref upd_ref base_states xtilde i gc = Ok v ->
  exists rest, v = str_of_nat i ++ sep ++ rest.
Proof.
  unfold deletion_or_snp. intros H. repeat step_in H;
    injection H as <-; eexists; reflexivity.
Qed.

End RecordShape.

(** X26.  Every record that the deletion and SNP branches produce
    starts with the position and a tab, so that [create_output_file]
    writes it as chromosome, position, ID and the rest. *)
Theorem written_line_of_a_record (ref upd_ref : list ascii) (base_states : list bstate)
  (xtilde : list Z) (i : nat) (v : string) :
  Records.record_at ref upd_ref base_states xtilde i = Ok v ->
  exists rest,
    v = (str_of_nat i ++ Formatter.tab ++ rest)%string
    /\ Writer.written (Writer.create_output_file [v])
       = Records.header ++ [Records.vcf_line (str_of_nat i) rest].
Proof.
  intros H. apply deletion_or_snp_shape in H. destruct H as [rest ->].
  exists rest. split; [reflexivity |].
  apply (@written_lines [(str_of_nat i, rest)]).
  constructor; [apply str_of_nat_no_tab | constructor].
Qed.

Section Probabilities.

Import Transition.
Local Open Scope Q_scope.

Lemma probability_scale (x y : Q) : probability x -> probability y -> probability (x * y).
Proof. unfold probability. intros [Hx0 Hx1] [Hy0 Hy1]. split; nra. Qed.

Lemma row_entries_probabilities (a b c d h : Q) :
  0 <= a -> 0 <= b -> 0 <= c -> 0 <= d -> a + b + c + d == 1 ->
  0 <= h -> h <= 1 ->
  Forall probability (row_entries a b c d h).
Proof.
  intros Ha Hb Hc Hd Hs Hh0 Hh1.
  assert (Hr0 : 0 <= d * h) by nra.
  assert (Hr1 : d * h <= 1) by nra.
  assert (Hah : 0 <= a * h) by nra.
  assert (Hbh : 0 <= b * h) by nra.
  assert (Hch : 0 <= c * h) by nra.
  assert (Hah1 : a * h <= a) by nra.
  assert (Hbh1 : b * h <= b) by nra.
  assert (Hch1 : c * h <= c) by nra.
  assert (Hdh1 : d * h <= d) by nra.
  assert (Hscale : probability (1 - d * h / 32)).
  { unfold probability, Qdiv. change (/ 32) with (1 # 32). split; nra. }
  unfold row_entries.
  repeat (first [apply Forall_nil | apply Forall_cons]);
    first [ apply probability_scale; [| exact Hscale] | idtac ];
    unfold probability, Qdiv;
    change (/ 32) with (1 # 32); change (/ 16) with (1 # 16); change (/ 8) with (1 # 8);
    change (/ 6) with (1 # 6); change (/ 4) with (1 # 4); change (/ 3) with (1 # 3);
    split; nra.
Qed.

End Probabilities.

Section MatrixProbabilities.

Import Transition.
Local Open Scope Q_scope.

Lemma mean_of_rows_probabilities (xs : list Q) :
  forall ys,
    Forall probability xs -> Forall probability ys ->
    Forall probability (mean_of_rows xs ys).
Proof.
  unfold mean_of_rows.
  induction xs as [| x xs IH]; intros [| y ys] Hx Hy; cbn [combine map]; try constructor.
  - inversion Hx as [| ? ? [Hx0 Hx1] _]; inversion Hy as [| ? ? [Hy0 Hy1] _]; subst.
    cbn [fst snd]. unfold probability, Qdiv. change (/ 2) with (1 # 2). split; lra.
  - inversion Hx; inversion Hy; subst. now apply IH.
Qed.

Lemma class_row_probabilities (a b c d h : Q) :
  class_distribution [a; b; c; d] -> 0 <= h -> h <= 1 ->
  Forall probability (row_of h (a, b, c, d)).
Proof.
  intros (_ & Hs & Hp) Hh0 Hh1. unfold sumQ in Hs. cbn [fold_right] in Hs.
  inversion Hp as [| ? ? Ha Hp1]; subst. inversion Hp1 as [| ? ? Hb Hp2]; subst.
  inversion Hp2 as [| ? ? Hc Hp3]; subst. inversion Hp3 as [| ? ? Hd _]; subst.
  cbn [row_of]. apply row_entries_probabilities; try assumption. lra.
Qed.

End MatrixProbabilities.

(** X27.  For class distributions with non-negative entries and a
    heterozygosity rate between 0 and 1, every entry of the transition
    matrix lies between 0 and 1. *)
Theorem transition_matrix_entries_are_probabilities
  (pre_transition_matrix : list (list Q)) (hetrate : Q) :
  List.length pre_transition_matrix = 4%nat ->
  Forall Columns.class_distribution pre_transition_matrix ->
  (0 <= hetrate)%Q -> (hetrate <= 1)%Q ->
  exists tm,
    Transition.create_transition_matrix pre_transition_matrix hetrate = Ok tm
    /\ Forall (Forall Columns.probability) tm.
Proof.
  intros Hlen Hrows Hh0 Hh1.
  destruct pre_transition_matrix as [| r0 [| r1 [| r2 [| r3 [| ? ?]]]]];
    try discriminate.
  inversion Hrows as [| ? ? H0 Hrows1]; subst.
  inversion Hrows1 as [| ? ? H1 Hrows2]; subst.
  inversion Hrows2 as [| ? ? H2 Hrows3]; subst.
  inversion Hrows3 as [| ? ? H3 _]; subst.
  destruct r0 as [| a0 [| b0 [| c0 [| d0 [| ? ?]]]]]; try (destruct H0; discriminate).
  destruct r1 as [| a1 [| b1 [| c1 [| d1 [| ? ?]]]]]; try (destruct H1; discriminate).
  destruct r2 as [| a2 [| b2 [| c2 [| d2 [| ? ?]]]]]; try (destruct H2; discriminate).
  destruct r3 as [| a3 [| b3 [| c3 [| d3 [| ? ?]]]]]; try (destruct H3; discriminate).
  pose proof (@create_transition_matrix_rows
                (a0, b0, c0, d0) (a1, b1, c1, d1) (a2, b2, c2, d2) (a3, b3, c3, d3)
                hetrate) as E.
  change (Transition.class_row (a0, b0, c0, d0)) with [a0; b0; c0; d0] in E.
  change (Transition.class_row (a1, b1, c1, d1)) with [a1; b1; c1; d1] in E.
  change (Transition.class_row (a2, b2, c2, d2)) with [a2; b2; c2; d2] in E.
  change (Transition.class_row (a3, b3, c3, d3)) with [a3; b3; c3; d3] in E.
  rewrite E. eexists. split; [reflexivity |].
  pose proof (@class_row_probabilities a0 b0 c0 d0 hetrate H0 Hh0 Hh1) as P0.
  pose proof (@class_row_probabilities a1 b1 c1 d1 hetrate H1 Hh0 Hh1) as P1.
  pose proof (@class_row_probabilities a2 b2 c2 d2 hetrate H2 Hh0 Hh1) as P2.
  pose proof (@class_row_probabilities a3 b3 c3 d3 hetrate H3 Hh0 Hh1) as P3.
  pose proof (@mean_of_rows_probabilities _ _ P1 P2) as PM.
  cbn [app repeat].
  repeat (apply Forall_cons; [first [exact P0 | exact P1 | exact P2 | exact P3 | exact PM] |]).
  apply Forall_cons; [| apply Forall_nil].
  repeat (first [apply Forall_nil | apply Forall_cons]);
    unfold Columns.probability, Qdiv; change (/ 30)%Q with (1 # 30); split; lra.
Qed.

Lemma transition_matrix_entries_are_probabilities_witness :
  List.length Transition.pre_transition_matrix_simulated = 4%nat
  /\ Forall Columns.class_distribution Transition.pre_transition_matrix_simulated
  /\ (0 <= Transition.hetrate_simulated)%Q /\ (Transition.hetrate_simulated <= 1)%Q
  /\ exists tm,
       Transition.create_transition_matrix Transition.pre_transition_matrix_simulated
         Transition.hetrate_simulated = Ok tm
       /\ Forall (Forall Columns.probability) tm.
Proof.
  assert (H1 : List.length Transition.pre_transition_matrix_simulated = 4%nat)
    by reflexivity.
  assert (H2 : Forall Columns.class_distribution
                      Transition.pre_transition_matrix_simulated).
  { repeat (apply Forall_cons || apply Forall_nil);
      (split; [reflexivity | split; [reflexivity |]]);
      repeat (apply Forall_cons || apply Forall_nil); discriminate. }
  assert (H3 : (0 <= Transition.hetrate_simulated)%Q) by discriminate.
  assert (H4 : (Transition.hetrate_simulated <= 1)%Q) by discriminate.
  split; [exact H1 | split; [exact H2 | split; [exact H3 | split; [exact H4 |]]]].
  exact (@transition_matrix_entries_are_probabilities
           Transition.pre_transition_matrix_simulated Transition.hetrate_simulated
           H1 H2 H3 H4).
Defined.

Section StageFacts.

Lemma run_stages (sam : list read) (ref_seq : list ascii) :
  Pipeline.run sam ref_seq
  = Py.bind Stages.trans_matrix (fun t =>
    Py.bind (Emission.build_emissionmatrix (Stages.realigned_reads sam)
               (Stages.realigned_reference sam ref_seq)) (fun emission_matrix =>
    Py.bind (Viterbi.viterbi emission_matrix t) (fun xtilde =>
    Py.bind (Resolver.find_base_state xtilde (Stages.realigned_reference sam ref_seq))
      (fun hidden_states =>
    Formatter.create_variant_calling_output ref_seq
      (Stages.realigned_reference sam ref_seq) hidden_states xtilde)))).
Proof.
  unfold Pipeline.run, Stages.trans_matrix, Stages.realigned_reads,
    Stages.realigned_reference, Stages.realigned_events.
  destruct (Normalizer.get_cigar sam) as [newsam insertions].
  destruct (Transition.create_transition_matrix _ _); reflexivity.
Qed.

Lemma update_startpos_covered (sam : list read) (d : Realigner.ins_dict) :
  Forall covered sam -> Forall covered (Realigner.update_startpos sam d).
Proof.
  intros H. unfold Realigner.update_startpos. apply Forall_forall. intros r' Hr'.
  apply in_map_iff in Hr'. destruct Hr' as (r & <- & Hr).
  rewrite Forall_forall in H. specialize (H r Hr). unfold covered in *.
  unfold Realigner.update_startpos_read.
  destruct (@update_startpos_read_fields (Realigner.keys d) r) as (_ & Hs & _ & _ & Hq).
  now rewrite Hs, Hq.
Qed.

Lemma update_reads_covered (sam : list read) (d : Realigner.ins_dict) :
  Forall covered sam -> Forall covered (Realigner.update_reads sam d).
Proof.
  intros H. unfold Realigner.update_reads. apply Forall_forall. intros r' Hr'.
  apply in_map_iff in Hr'. destruct Hr' as (r & <- & Hr).
  rewrite Forall_forall in H. specialize (H r Hr). unfold covered in *.
  rewrite update_reads_read_fold.
  destruct (@fold_gap_read_same_bases d r) as (_ & _ & _ & _ & _ & Hlen). lia.
Qed.

Lemma realigned_reads_covered (sam : list read) :
  Forall covered sam -> Forall covered (Stages.realigned_reads sam).
Proof.
  intros H. unfold Stages.realigned_reads.
  pose proof (get_cigar_covered H) as Hc.
  destruct (Normalizer.get_cigar sam) as [newsam insertions]. cbn [fst] in Hc.
  now apply update_reads_covered, update_startpos_covered.
Qed.

Lemma in_firstn {A} (n : nat) (l : list A) (x : A) : In x (firstn n l) -> In x l.
Proof. intros H. rewrite <- (firstn_skipn n l). apply in_or_app. now left. Qed.

Lemma in_skipn {A} (n : nat) (l : list A) (x : A) : In x (skipn n l) -> In x l.
Proof. intros H. rewrite <- (firstn_skipn n l). apply in_or_app. now right. Qed.

Lemma insert_gaps_known (ref_seq : list ascii) (k : Z * Z) :
  Forall known_base ref_seq -> Forall known_base (insert_gaps ref_seq k).
Proof.
  intros H. unfold insert_gaps. rewrite Forall_forall in H.
  apply Forall_forall. intros c Hc. apply in_app_or in Hc. destruct Hc as [Hc | Hc].
  - apply H. unfold slice_to in Hc. eapply in_firstn. exact Hc.
  - apply in_app_or in Hc. destruct Hc as [Hc | Hc].
    + unfold times in Hc. apply repeat_spec in Hc. subst c. unfold known_base. cbn. tauto.
    + apply H. unfold slice_from in Hc. eapply in_skipn. exact Hc.
Qed.

Lemma update_ref_known (ref_seq : list ascii) (d : Realigner.ins_dict) :
  Forall known_base ref_seq -> Forall known_base (Realigner.update_ref ref_seq d).
Proof.
  rewrite update_ref_fold. generalize (Realigner.keys d) as ks. intros ks. revert ref_seq.
  induction ks as [| k ks IH]; intros ref_seq H; cbn [fold_left]; [exact H |].
  apply IH. now apply insert_gaps_known.
Qed.

End StageFacts.

(** X28.  The first half of [main] raises no exception on reads with a
    quality for each base and a reference over A, C, G, T and N: the
    emission matrix is built, is well formed, and has one column for
    each base of the reference and each inserted gap. *)
Theorem pipeline_emission_matrix_is_well_formed (sam : list read) (ref_seq : list ascii) :
  Forall Reads.covered sam ->
  Forall Columns.known_base ref_seq ->
  exists ematrix,
    Emission.build_emissionmatrix (Stages.realigned_reads sam)
      (Stages.realigned_reference sam ref_seq) = Ok ematrix
    /\ Viterbi.wf_emission ematrix
    /\ List.length ematrix
       = (List.length ref_seq
          + Events.total_length (Realigner.keys (Stages.realigned_events sam)))%nat.
Proof.
  intros Hsam Href.
  pose proof (realigned_reads_covered Hsam) as Hc.
  pose proof (@update_ref_known ref_seq (Stages.realigned_events sam) Href) as Hk.
  fold (Stages.realigned_reference sam ref_seq) in Hk.
  destruct (@build_loop_shape (Stages.realigned_reads sam)
              (Stages.realigned_reference sam ref_seq) 0 None Hc Hk) as (em & Hem & Hall).
  exists em. split; [exact Hem |].
  assert (Hlen : List.length em = List.length (Stages.realigned_reference sam ref_seq)).
  { apply Forall2_length in Hall. rewrite length_combine, length_seq in Hall. lia. }
  split.
  - unfold Viterbi.wf_emission. clear - Hall.
    induction Hall as [| pc col ? ? H _ IH]; constructor; [| exact IH].
    destruct col as [| v]; [exact I |]. cbn [column_shape] in H. cbn. tauto.
  - rewrite Hlen. unfold Stages.realigned_reference.
    rewrite update_ref_fold. apply fold_insert_gaps_length.
Qed.

Section PipelineStops.

Import Viterbi.

Lemma viterbi_data_first (t : list (list fl)) (c : list emis) (rest : list ecol) :
  wf_matrix t -> wf_emission (ECol c :: rest) -> rest <> [] ->
  viterbi (ECol c :: rest) t = Err IndexError
  \/ viterbi (ECol c :: rest) t = Err ValueError.
Proof.
  intros Ht Hem Hrest.
  assert (Hip : List.length (nth 0 t []) = 30%nat) by (apply wf_row; [exact Ht | lia]).
  destruct (@fwd_total t Ht (nth 0 t []) Hip (prepare (ECol c :: rest)) None
              (prepare_cwf Hem) I) as (delta & Hfwd & Hd & Hshape).
  assert (Hvit : viterbi (ECol c :: rest) t
                 = Py.bind (bwd t None (rev delta)) (fun x => Ok (rev x))).
  { rewrite viterbi_recursive. destruct Ht as [Hl _].
    rewrite (@at_ok _ t 0 []) by lia. cbn [Py.bind]. now rewrite Hfwd. }
  destruct delta as [| d0 delta']; [inversion Hshape |].
  inversion Hshape as [| ? ? ? ? H0 Hshape']; subst.
  destruct d0 as [| v0]; [discriminate |].
  assert (Hne : delta' <> []).
  { destruct delta'; [| discriminate]. inversion Hshape'.
    destruct rest; [congruence | discriminate]. }
  inversion Hd as [| ? ? _ Hd']; subst.
  rewrite Hvit. cbn [rev].
  destruct (@bwd_data_last t Ht (rev delta') v0 None) as [E | E].
  - apply Forall_rev. exact Hd'.
  - exact I.
  - right. intros E. apply Hne. apply (f_equal (@rev dcol)) in E.
    now rewrite rev_involutive in E.
  - rewrite E. now left.
  - rewrite E. now right.
Qed.

Lemma trans_matrix_wf : exists t, Stages.trans_matrix = Ok t /\ wf_matrix t.
Proof.
  unfold Stages.trans_matrix.
  pose proof (@create_transition_matrix_rows
                (988 # 1000, 8 # 1000, 2 # 1000, 2 # 1000)
                (53 # 100, 45 # 100, 1 # 100, 1 # 100)
                (70 # 100, 15 # 100, 15 # 100, 0)
                (70 # 100, 15 # 100, 0, 15 # 100)
                Transition.hetrate_simulated)%Q as E.
  unfold Transition.pre_transition_matrix_simulated.
  unfold Transition.class_row in E. rewrite E. cbn [Py.bind].
  eexists. split; [reflexivity |]. split.
  - rewrite length_map. reflexivity.
  - apply Forall_forall. intros row Hrow. apply in_map_iff in Hrow.
    destruct Hrow as (r & <- & Hr). rewrite length_map.
    cbn [app repeat] in Hr.
    repeat (destruct Hr as [<- | Hr]; [reflexivity |]). destruct Hr.
Qed.

End PipelineStops.

(** X29.  When five or more realigned reads cover position 0 of a
    realigned reference of at least two characters that does not start
    with N, [main] produces no variant list: the decoder raises
    [IndexError] or [ValueError]. *)
Theorem pipeline_stops_when_first_position_is_covered (sam : list read)
  (ref_seq : list ascii) (c : ascii) (rest : list ascii) :
  Forall Reads.covered sam ->
  Forall Columns.known_base ref_seq ->
  Stages.realigned_reference sam ref_seq = c :: rest ->
  c <> "N"%char -> rest <> [] ->
  (5 <= Reads.coverage (Stages.realigned_reads sam) 0)%nat ->
  Pipeline.run sam ref_seq = Err IndexError
  \/ Pipeline.run sam ref_seq = Err ValueError.
Proof.
  intros Hsam Href Hc HN Hrest Hcov.
  pose proof (realigned_reads_covered Hsam) as Hcv.
  pose proof (@update_ref_known ref_seq (Stages.realigned_events sam) Href) as Hk.
  fold (Stages.realigned_reference sam ref_seq) in Hk.
  destruct (@build_loop_shape (Stages.realigned_reads sam)
              (Stages.realigned_reference sam ref_seq) 0 None Hcv Hk) as (em & Hem & Hall).
  destruct trans_matrix_wf as (t & Ht & Hwf).
  rewrite run_stages, Ht. cbn [Py.bind].
  change (Emission.build_loop (Stages.realigned_reads sam)
            (Stages.realigned_reference sam ref_seq) 0 None)
    with (Emission.build_emissionmatrix (Stages.realigned_reads sam)
            (Stages.realigned_reference sam ref_seq)) in Hem.
  rewrite Hem. cbn [Py.bind].
  assert (Hwfe : Viterbi.wf_emission em).
  { unfold Viterbi.wf_emission. clear - Hall.
    induction Hall as [| pc col ? ? H _ IH]; constructor; [| exact IH].
    destruct col as [| v]; [exact I |]. cbn [column_shape] in H. cbn. tauto. }
  rewrite Hc in Hall. cbn [List.length seq combine] in Hall.
  inversion Hall as [| ? col0 ? em' Hshape Hall']; subst.
  cbn [fst snd] in Hshape.
  destruct col0 as [| v].
  { cbn [column_shape] in Hshape. destruct Hshape as [H | H]; [lia | contradiction]. }
  assert (Hne : em' <> []).
  { apply Forall2_length in Hall'. rewrite length_combine, length_seq in Hall'.
    destruct rest; [congruence |]. destruct em'; [cbn in Hall'; lia | discriminate]. }
  destruct (@viterbi_data_first t v em' Hwf Hwfe Hne) as [E | E]; rewrite E; auto.
Qed.

Section Locality.

Import Formatter.

Variables (ref upd_ref : list ascii).
Variables (base_states base_states' : list bstate) (xtilde xtilde' : list Z).

Lemma bs_agree (n k : nat) :
  nth_error base_states n = nth_error base_states' n ->
  bs base_states n k = bs base_states' n k.
Proof. intros H. unfold bs. now rewrite !at_nth_error, H. Qed.

Lemma deletion_or_snp_local (sep : string) (report_ref : bool) (i gc : nat) :
  nth_error xtilde (i + gc) = nth_error xtilde' (i + gc) ->
  nth_error base_states (i + gc) = nth_error base_states' (i + gc) ->
  deletion_or_snp sep report_ref ref upd_ref base_states xtilde i gc
  = deletion_or_snp sep report_ref ref upd_ref base_states' xtilde' i gc.
Proof.
  intros Hx Hb. unfold deletion_or_snp.
  rewrite !(@at_nth_error _ xtilde), !(@at_nth_error _ xtilde'), Hx.
  rewrite !(@bs_agree (i + gc) 0 Hb), !(@bs_agree (i + gc) 1 Hb). reflexivity.
Qed.

Lemma insertion_records_local (i gc this_gap_number : nat) (st : fstate) (m : nat) :
  agree_from m base_states base_states' ->
  (m + this_gap_number <= i + gc)%nat ->
  insertion_records ref base_states i gc this_gap_number st
  = insertion_records ref base_states' i gc this_gap_number st.
Proof.
  intros Hb Hm. unfold insertion_records. apply loop_ext. intros s ii.
  assert (H1 : nth_error base_states (i + ii + gc) = nth_error base_states' (i + ii + gc))
    by (apply Hb; lia).
  assert (H2 : nth_error base_states (i + ii + gc - this_gap_number)
               = nth_error base_states' (i + ii + gc - this_gap_number))
    by (apply Hb; lia).
  unfold insertion_shapes.
  rewrite !(@bs_agree (i + ii + gc) 0 H1).
  rewrite !(@bs_agree (i + ii + gc - this_gap_number) 0 H2).
  rewrite !(@bs_agree (i + ii + gc - this_gap_number) 1 H2).
  reflexivity.
Qed.

Lemma output_step_local (st : fstate) (i : nat) :
  agree_from (i + gap_counter st) xtilde xtilde' ->
  agree_from (i + gap_counter st) base_states base_states' ->
  output_step ref upd_ref base_states xtilde st i
  = output_step ref upd_ref base_states' xtilde' st i.
Proof.
  intros Hx Hb. unfold output_step.
  rewrite (@at_nth_error _ xtilde), (@at_nth_error _ xtilde'), (Hx _ (le_n _)).
  destruct (nth_error xtilde' (i + gap_counter st)) as [x |]; [| reflexivity].
  cbn [Py.bind]. destruct (no_variant x); [reflexivity |].
  destruct (at_ upd_ref (i + gap_counter st)) as [u |]; [| reflexivity].
  cbn [Py.bind]. destruct (Ascii.eqb u gap).
  - destruct (gap_run _) as [more |]; [| reflexivity]. cbn [Py.bind].
    apply insertion_records_local with (m := (i + gap_counter st)%nat); [exact Hb | lia].
  - rewrite (@deletion_or_snp_local tab false i (gap_counter st));
      [reflexivity | apply Hx; lia | apply Hb; lia].
Qed.

Lemma output_step_at (st : fstate) (i : nat) (u : ascii) :
  nth_error upd_ref (i + gap_counter st) = Some u -> u <> gap ->
  nth_error xtilde (i + gap_counter st) = nth_error xtilde' (i + gap_counter st) ->
  nth_error base_states (i + gap_counter st) = nth_error base_states' (i + gap_counter st) ->
  output_step ref upd_ref base_states xtilde st i
  = output_step ref upd_ref base_states' xtilde' st i.
Proof.
  intros Hu Hne Hx Hb.
  pose proof (@deletion_or_snp_local tab false i (gap_counter st) Hx Hb) as Hd.
  unfold output_step.
  rewrite (@at_nth_error _ xtilde), (@at_nth_error _ xtilde'), Hx.
  destruct (nth_error xtilde' (i + gap_counter st)) as [x |]; [| reflexivity].
  cbn [Py.bind]. destruct (no_variant x); [reflexivity |].
  rewrite at_nth_error, Hu. cbn [Py.bind].
  assert (E : Ascii.eqb u gap = false) by now apply Ascii.eqb_neq.
  rewrite E, Hd. reflexivity.
Qed.

Lemma insertion_records_counter (i gc this_gap_number : nat) (st st' : fstate) (lo : nat) :
  (lo <= gap_counter st)%nat -> (lo <= gc)%nat ->
  insertion_records ref base_states i gc this_gap_number st = Ok st' ->
  (lo <= gap_counter st')%nat.
Proof.
  intros Hst Hgc H. unfold insertion_records in H.
  eapply (@loop_invariant fstate (fun s => (lo <= gap_counter s)%nat)); [| exact Hst | exact H].
  intros s ii s' Hs Hbody. cbv beta in Hbody.
  match type of Hbody with
  | Py.bind ?m _ = _ => destruct m as [v |]; [| discriminate]
  end.
  cbn [Py.bind] in Hbody. injection Hbody as <-. exact Hgc.
Qed.

Lemma output_step_counter (st st' : fstate) (i : nat) :
  output_step ref upd_ref base_states xtilde st i = Ok st' ->
  (gap_counter st <= gap_counter st')%nat.
Proof.
  unfold output_step. intros H.
  destruct (at_ xtilde (i + gap_counter st)) as [x |]; [| discriminate].
  cbn [Py.bind] in H. destruct (no_variant x).
  - destruct (at_ upd_ref (i + gap_counter st)) as [u |]; [| discriminate].
    cbn [Py.bind] in H. injection H as <-. destruct (Ascii.eqb u gap); cbn; lia.
  - destruct (at_ upd_ref (i + gap_counter st)) as [u |]; [| discriminate].
    cbn [Py.bind] in H. destruct (Ascii.eqb u gap).
    + destruct (gap_run _) as [more |]; [| discriminate]. cbn [Py.bind] in H.
      eapply insertion_records_counter; [| | exact H]; lia.
    + destruct (deletion_or_snp _ _ _ _ _ _ _ _) as [v |]; [| discriminate].
      cbn [Py.bind] in H. injection H as <-. cbn. lia.
Qed.

End Locality.

Section Simulation.

Import Formatter.

(** Two loop bodies that agree on the states an invariant admits run
    to the same result. *)
Lemma fold_agree (Inv : fstate -> Prop) (f f' : fstate -> nat -> result fstate)
  (l : list nat) :
  (forall st i, In i l -> Inv st -> f st i = f' st i) ->
  (forall st i st', In i l -> Inv st -> f st i = Ok st' -> Inv st') ->
  forall st,
    Inv st ->
    fold_left (fun acc i => Py.bind acc (fun s => f s i)) l (Ok st)
    = fold_left (fun acc i => Py.bind acc (fun s => f' s i)) l (Ok st)
    /\ forall st',
         fold_left (fun acc i => Py.bind acc (fun s => f s i)) l (Ok st) = Ok st' ->
         Inv st'.
Proof.
  induction l as [| i l IH]; intros Hsame Hkeep st Hst; cbn [fold_left].
  - split; [reflexivity |]. intros st' [= <-]. exact Hst.
  - cbn [Py.bind]. rewrite <- (Hsame st i (or_introl eq_refl) Hst).
    destruct (f st i) as [st1 | e] eqn:E.
    + apply IH.
      * intros s j Hj. apply Hsame. now right.
      * intros s j s' Hj. apply Hkeep. now right.
      * eapply Hkeep; [now left | exact Hst | exact E].
    + rewrite !fold_bind_err. split; [reflexivity | discriminate].
Qed.

End Simulation.


Section SingleInsertion.

Import Formatter.

Lemma gap_run_stop (c : ascii) (rest : list ascii) :
  c <> gap -> gap_run (c :: rest) = Ok 0%nat.
Proof.
  intros H. cbn [gap_run]. apply Ascii.eqb_neq in H. now rewrite H.
Qed.

Lemma skipn_nth_error {A} (l : list A) (n : nat) (x : A) :
  nth_error l n = Some x -> exists rest, skipn n l = x :: rest.
Proof.
  revert n. induction l as [| a l IH]; intros [| n] H; cbn in *; try discriminate.
  - injection H as ->. eexists; reflexivity.
  - now apply IH.
Qed.

End SingleInsertion.

(** X18.  An insertion run of one column with a homozygous genotype
    [(a, a)]: when the first allele of the column after the run is [a],
    the record is the position, the anchor, and the anchor followed by
    [a]; otherwise no branch assigns [variants], and the string left
    there by the record before (initially the empty string) is appended
    once more. *)
Theorem single_homozygous_insertion_record (ref upd_ref : list ascii)
  (base_states : list bstate) (xtilde : list Z) (st : Formatter.fstate) (i : nat)
  (x : Z) (u a next0 next1 p : ascii) :
  let n := (i + Formatter.gap_counter st)%nat in
  nth_error xtilde n = Some x -> Formatter.no_variant x = false ->
  nth_error upd_ref n = Some gap ->
  nth_error upd_ref (S n) = Some u -> u <> gap ->
  nth_error base_states n = Some (BPair a a) ->
  nth_error base_states (S n) = Some (BPair next0 next1) ->
  Py.get ref (Z.of_nat i - 1) = Ok p ->
  Formatter.output_step ref upd_ref base_states xtilde st i
  = let record :=
      if Ascii.eqb next0 a
      then (str_of_nat i ++ Formatter.tab ++ Formatter.str p ++ Formatter.tab
              ++ Formatter.str p ++ Formatter.str a)%string
      else Formatter.variants st in
    Ok (Formatter.mkF (Formatter.gap_counter st + 1) record
          (Formatter.variant_list st ++ [record])).
Proof.
  intros n Hx Hv Hg Hu Hne Ha Hnext Hp. unfold Formatter.output_step. fold n.
  rewrite !at_nth_error, Hx. cbn [Py.bind]. rewrite Hv, Hg. cbn [Py.bind].
  rewrite Ascii.eqb_refl.
  replace (i + (Formatter.gap_counter st + 1))%nat with (S n) by (unfold n; lia).
  destruct (@skipn_nth_error _ upd_ref (S n) u Hu) as [rest Hrest].
  rewrite Hrest, (@gap_run_stop u rest Hne). cbn [Py.bind Nat.add].
  unfold Formatter.insertion_records, Py.loop. cbn [seq fold_left Py.bind Nat.eqb].
  replace (i + 0 + (Formatter.gap_counter st + 1))%nat with (S n) by (unfold n; lia).
  replace (S n - 1)%nat with n by lia.
  unfold Formatter.bs. rewrite !at_nth_error, Hnext, Ha. cbn [Py.bind Formatter.field].
  unfold Formatter.insertion_shapes, Formatter.bs.
  rewrite !at_nth_error, Ha, Hp. cbn [Py.bind Formatter.field].
  destruct (Ascii.eqb next0 a) eqn:E.
  - cbn [Py.bind Nat.sub Nat.eqb]. reflexivity.
  - rewrite Ascii.eqb_refl. cbn [negb andb Py.bind Nat.sub Nat.eqb]. reflexivity.
Qed.

(** ** Instances of the properties above *)

Lemma build_emissionmatrix_well_formed_witness :
  Forall Reads.covered Scenario.sam_A
  /\ Forall Columns.known_base Scenario.ref_A
  /\ exists ematrix,
       Emission.build_emissionmatrix Scenario.sam_A Scenario.ref_A = Ok ematrix
       /\ List.length ematrix = List.length Scenario.ref_A
       /\ Viterbi.wf_emission ematrix
       /\ forall i c col,
            nth_error Scenario.ref_A i = Some c -> nth_error ematrix i = Some col ->
            Columns.column_shape Scenario.sam_A c i col.
Proof.
  assert (H1 : Forall Reads.covered Scenario.sam_A).
  { repeat constructor. }
  assert (H2 : Forall Columns.known_base Scenario.ref_A).
  { repeat (apply Forall_cons || apply Forall_nil); cbn; tauto. }
  split; [exact H1 | split; [exact H2 |]].
  exact (@build_emissionmatrix_well_formed Scenario.sam_A Scenario.ref_A H1 H2).
Defined.

Lemma single_homozygous_insertion_record_witness :
  nth_error [0; 18; 0]%Z 1 = Some 18%Z
  /\ Formatter.no_variant 18 = false
  /\ nth_error (chars "A-C") 1 = Some gap
  /\ nth_error (chars "A-C") 2 = Some "C"%char
  /\ nth_error [BPair "A" "A"; BPair "T" "T"; BPair "C" "C"] 1 = Some (BPair "T" "T")
  /\ Py.get (chars "AC") (Z.of_nat 1 - 1) = Ok "A"%char
  /\ Formatter.output_step (chars "AC") (chars "A-C")
       [BPair "A" "A"; BPair "T" "T"; BPair "C" "C"] [0; 18; 0]%Z
       (Formatter.mkF 0 "" []) 1
     = Ok (Formatter.mkF 1 "" [""%string]).
Proof.
  assert (H1 : nth_error [0; 18; 0]%Z (1 + 0) = Some 18%Z) by reflexivity.
  assert (H2 : Formatter.no_variant 18 = false) by reflexivity.
  assert (H3 : nth_error (chars "A-C") (1 + 0) = Some gap) by reflexivity.
  assert (H4 : nth_error (chars "A-C") (S (1 + 0)) = Some "C"%char) by reflexivity.
  assert (H5 : "C"%char <> gap) by discriminate.
  assert (H6 : nth_error [BPair "A" "A"; BPair "T" "T"; BPair "C" "C"] (1 + 0)
               = Some (BPair "T" "T")) by reflexivity.
  assert (H7 : nth_error [BPair "A" "A"; BPair "T" "T"; BPair "C" "C"] (S (1 + 0))
               = Some (BPair "C" "C")) by reflexivity.
  assert (H8 : Py.get (chars "AC") (Z.of_nat 1 - 1) = Ok "A"%char) by reflexivity.
  split; [exact H1 | split; [exact H2 | split; [exact H3 | split; [exact H4 |]]]].
  split; [exact H6 | split; [exact H8 |]].
  exact (@single_homozygous_insertion_record (chars "AC") (chars "A-C")
           [BPair "A" "A"; BPair "T" "T"; BPair "C" "C"] [0; 18; 0]%Z
           (Formatter.mkF 0 "" []) 1 18 "C" "T" "C" "C" "A"
           H1 H2 H3 H4 H5 H6 H7 H8).
Defined.

Lemma written_line_of_a_record_witness :
  Records.record_at (chars "A") (chars "A") [BPair "C" "C"] [1%Z] 0
  = Ok ("0" ++ Formatter.tab ++ "A" ++ Formatter.tab ++ "C")%string
  /\ exists rest,
       ("0" ++ Formatter.tab ++ "A" ++ Formatter.tab ++ "C")%string
       = (str_of_nat 0 ++ Formatter.tab ++ rest)%string
       /\ Writer.written
            (Writer.create_output_file
               [("0" ++ Formatter.tab ++ "A" ++ Formatter.tab ++ "C")%string])
          = Records.header ++ [Records.vcf_line (str_of_nat 0) rest].
Proof.
  assert (H : Records.record_at (chars "A") (chars "A") [BPair "C" "C"] [1%Z] 0
              = Ok ("0" ++ Formatter.tab ++ "A" ++ Formatter.tab ++ "C")%string)
    by reflexivity.
  split; [exact H |].
  exact (@written_line_of_a_record (chars "A") (chars "A") [BPair "C" "C"] [1%Z] 0 _ H).
Defined.

Lemma pipeline_emission_matrix_is_well_formed_witness :
  Forall Reads.covered Scenario.sam_A
  /\ Forall Columns.known_base Scenario.ref_A
  /\ exists ematrix,
       Emission.build_emissionmatrix (Stages.realigned_reads Scenario.sam_A)
         (Stages.realigned_reference Scenario.sam_A Scenario.ref_A) = Ok ematrix
       /\ Viterbi.wf_emission ematrix
       /\ List.length ematrix
          = (List.length Scenario.ref_A
             + Events.total_length
                 (Realigner.keys (Stages.realigned_events Scenario.sam_A)))%nat.
Proof.
  assert (H1 : Forall Reads.covered Scenario.sam_A).
  { repeat constructor. }
  assert (H2 : Forall Columns.known_base Scenario.ref_A).
  { repeat (apply Forall_cons || apply Forall_nil); cbn; tauto. }
  split; [exact H1 | split; [exact H2 |]].
  exact (@pipeline_emission_matrix_is_well_formed Scenario.sam_A Scenario.ref_A H1 H2).
Defined.

Lemma pipeline_stops_when_first_position_is_covered_witness :
  Forall Reads.covered Scenario.sam_equal
  /\ Forall Columns.known_base (chars "AC")
  /\ Stages.realigned_reference Scenario.sam_equal (chars "AC") = "A"%char :: chars "C"
  /\ (5 <= Reads.coverage (Stages.realigned_reads Scenario.sam_equal) 0)%nat
  /\ (Pipeline.run Scenario.sam_equal (chars "AC") = Err IndexError
      \/ Pipeline.run Scenario.sam_equal (chars "AC") = Err ValueError).
Proof.
  assert (H1 : Forall Reads.covered Scenario.sam_equal).
  { repeat constructor. }
  assert (H2 : Forall Columns.known_base (chars "AC")).
  { repeat (apply Forall_cons || apply Forall_nil); cbn; tauto. }
  assert (H3 : Stages.realigned_reference Scenario.sam_equal (chars "AC")
               = "A"%char :: chars "C") by reflexivity.
  assert (H4 : "A"%char <> "N"%char) by discriminate.
  assert (H5 : chars "C" <> []) by discriminate.
  assert (H6 : (5 <= Reads.coverage (Stages.realigned_reads Scenario.sam_equal) 0)%nat).
  { vm_compute. lia. }
  split; [exact H1 | split; [exact H2 | split; [exact H3 | split; [exact H6 |]]]].
  exact (@pipeline_stops_when_first_position_is_covered Scenario.sam_equal (chars "AC")
           "A" (chars "C") H1 H2 H3 H4 H5 H6).
Defined.


(** ** The resolver on the path of the decoder *)

Section ResolverOnPath.

Import Emission Viterbi Resolver.

(** A column of the emission matrix has thirty entries, and the column
    of an [N] is the sentinel. *)
Lemma emission_column_result (upd_sam : list read) (c : ascii) (i : nat)
  (vector vector' : option (list genotype)) (col : ecol) :
  emission_column upd_sam c i vector = Ok (vector', col) ->
  wf_ecol col /\ (c = "N"%char -> col = ESent).
Proof.
  unfold emission_column.
  destruct (Realigner.get_pileup upd_sam (Z.of_nat i)) as [[[pileup quals] mapqs] |];
    [| discriminate].
  cbn [Py.bind].
  destruct (List.length pileup <? 5)%nat eqn:Ecov; cbn [orb].
  { intros [= <- <-]. split; [exact I | reflexivity]. }
  destruct (is_char "N" c) eqn:EN.
  { intros [= <- <-]. split; [exact I | reflexivity]. }
  assert (HN : c <> "N"%char).
  { intros ->. discriminate. }
  destruct (repair_quality quals mapqs) as [quals' |]; [| discriminate].
  cbn [Py.bind].
  destruct (is_char "-" c).
  - unfold gapped_column.
    destruct (mapM _ _) as [tl |] eqn:E; [| discriminate]. cbn [Py.bind].
    intros [= <- <-]. split; [| intros ->; contradiction].
    apply mapM_length in E. cbn [wf_ecol].
    rewrite ?length_app. cbn [List.length repeat]. rewrite E. reflexivity.
  - destruct (if is_char "A" c then Some vector_A
              else if is_char "C" c then Some vector_C
              else if is_char "G" c then Some vector_G
              else if is_char "T" c then Some vector_T
              else vector) as [vec |]; [| discriminate].
    unfold base_column.
    destruct (mapM _ _) as [hd |] eqn:E; [| discriminate]. cbn [Py.bind].
    intros [= <- <-]. split; [| intros ->; contradiction].
    apply mapM_length in E. cbn [wf_ecol].
    rewrite ?length_app. cbn [List.length repeat]. rewrite E. reflexivity.
Qed.

Lemma build_loop_columns (upd_sam : list read) (rest : list ascii) :
  forall i vector em,
    build_loop upd_sam rest i vector = Ok em ->
    Forall2 (fun c col => wf_ecol col /\ (c = "N"%char -> col = ESent)) rest em.
Proof.
  induction rest as [| c rest IH]; intros i vector em; cbn [build_loop].
  - intros [= <-]. constructor.
  - destruct (emission_column upd_sam c i vector) as [[vector' col] |] eqn:E;
      [| discriminate].
    cbn [Py.bind].
    destruct (build_loop upd_sam rest (S i) vector') as [tl |] eqn:Etl; [| discriminate].
    cbn [Py.bind]. intros [= <-].
    constructor; [eapply emission_column_result; eassumption | eapply IH; eassumption].
Qed.

Lemma states_in_range (em : list ecol) (xtilde : list Z) :
  Forall2 Paths.state_of_column em xtilde -> Forall (fun s => (-1 <= s <= 29)%Z) xtilde.
Proof.
  induction 1 as [| c x em xs Hc _ IH]; constructor; [| exact IH].
  destruct c; cbn in Hc; lia.
Qed.

End ResolverOnPath.


